(** * Doris backend: fragment lifecycle manager and columnar scan readers

    A shallow embedding of the parts of
      - be/src/runtime/fragment_mgr.cpp
      - be/src/vec/exec/format/csv/csv_reader.cpp
      - be/src/vec/exec/format/parquet/vparquet_reader.cpp
    that decide the lifecycle and pruning properties stated below.

    Conventions of the embedding.
    - C++ integers are [Z]; a narrowing store into a 32-bit [int] is written
      out with [wrap32].
    - [std::unordered_map] is a stdpp [gmap]; the registry maps only ever
      receive freshly built, non-null [shared_ptr]s, so a map value is the
      object itself and a mutation through the pointer is an update of the
      map entry.
    - Calls that leave the modelled classes (the plan executor, the stream
      load pipe, the coordinator RPC, the worker pool) are recorded as
      events; what such a call returns is read from an environment record.
    - Logging, metrics, tracing spans and timers have no influence on
      control flow and are left out. *)

From Stdlib Require Import ZArith List Bool String Lia.
From stdpp Require Import gmap strings list fin_maps sorting pretty.

Local Open Scope Z_scope.

(** ** Machine integers *)

(** The value an [int] holds after a 64-bit value is stored into it. *)
Definition wrap32 (z : Z) : Z := (z + 2 ^ 31) mod 2 ^ 32 - 2 ^ 31.

Definition INT32_MAX : Z := 2 ^ 31 - 1.

(** ** Status (common/status.h) *)

(** The error codes the modelled functions construct or test; any other
    code a collaborator hands back is [OTHER_CODE]. *)
Inductive TStatusCode : Type :=
  | OK
  | CANCELLED
  | INTERNAL_ERROR_CODE
  | END_OF_FILE
  | OTHER_CODE (n : Z).

Record Status : Type := mkStatus { code : TStatusCode; message : string }.

Definition Status_OK : Status := mkStatus OK "".
Definition InternalError (m : string) : Status := mkStatus INTERNAL_ERROR_CODE m.
Definition Cancelled (m : string) : Status := mkStatus CANCELLED m.
Definition EndOfFile (m : string) : Status := mkStatus END_OF_FILE m.

Definition ok (s : Status) : bool :=
  match code s with OK => true | _ => false end.

(** [TUniqueId] is a pair (hi, lo) of 64-bit integers. *)
Abbreviation TUniqueId := (Z * Z)%type.

(** Cancel reasons named in the sources; the protobuf enum has further
    members, kept apart by their number. *)
Inductive PPlanFragmentCancelReason : Type :=
  | LIMIT_REACH
  | INTERNAL_ERROR
  | TIMEOUT
  | OTHER_REASON (n : Z).

Definition is_LIMIT_REACH (r : PPlanFragmentCancelReason) : bool :=
  match r with LIMIT_REACH => true | _ => false end.

(** Modelled from the spec: [VecDateTimeValue] is missing from the sources;
    a point in time is a number of seconds and [second_diff] is the elapsed
    time between two points ("elapsed time since start"). *)
Definition VecDateTimeValue : Type := Z.
Definition second_diff (now start : VecDateTimeValue) : Z := now - start.

(** Calls that leave the fragment manager. *)
Inductive Event : Type :=
  | EvSetIsReportOnCancel (instance_id : TUniqueId) (b : bool)
  | EvExecutorCancel (instance_id : TUniqueId)
      (reason : PPlanFragmentCancelReason) (msg : string)
  | EvStreamLoadPipeCancel (query_id : TUniqueId)
      (reason : PPlanFragmentCancelReason)
  | EvPipelineCancel (instance_id : TUniqueId)
      (reason : PPlanFragmentCancelReason) (msg : string)
  | EvReportExecStatus (instance_id : TUniqueId) (exec_status : Status)
      (done : bool)
  | EvReopen
  | EvExecutorPrepare (instance_id : TUniqueId)
  | EvAddRuntimeFilterEntity (instance_id : TUniqueId)
  | EvSubmitToThreadPool (instance_id : TUniqueId)
  | EvPipelinePrepare (instance_id : TUniqueId)
  | EvPipelineCloseIfPrepareFailed (instance_id : TUniqueId)
  | EvPipelineSubmit (instance_id : TUniqueId)
  | EvSetupSharedHashtable (instance_id : TUniqueId)
  | EvDescriptorTblCreate (query_id : TUniqueId).

(** ** class FragmentExecState *)

(** The data members.  [_executor], [_merge_controller_handler] and the
    report callback are collaborators, reached through events;
    [_fragments_ctx] is a pointer to a query context shared with the
    registry and with the other fragments of the query, and the function
    that goes through it takes what it points to as an argument;
    [_status_lock] serialises the methods, which the sequential model takes
    for granted. *)
Record FragmentExecState : Type := mkFragmentExecState {
  _query_id : TUniqueId;
  _fragment_instance_id : TUniqueId;
  _backend_num : Z;
  _coord_addr : string;
  _start_time : VecDateTimeValue;
  _exec_status : Status;
  _set_rsc_info : bool;
  _user : string;
  _group : string;
  _timeout_second : Z;
  _cancelled : bool;
  _need_wait_execution_trigger : bool
}.

Module FragmentExecState.

Definition set_exec_status (s : Status) (st : FragmentExecState) :=
  mkFragmentExecState (_query_id st) (_fragment_instance_id st)
    (_backend_num st) (_coord_addr st) (_start_time st) s (_set_rsc_info st)
    (_user st) (_group st) (_timeout_second st) (_cancelled st)
    (_need_wait_execution_trigger st).

Definition set_cancelled (b : bool) (st : FragmentExecState) :=
  mkFragmentExecState (_query_id st) (_fragment_instance_id st)
    (_backend_num st) (_coord_addr st) (_start_time st) (_exec_status st)
    (_set_rsc_info st) (_user st) (_group st) (_timeout_second st) b
    (_need_wait_execution_trigger st).

Definition set_timeout_second (t : Z) (st : FragmentExecState) :=
  mkFragmentExecState (_query_id st) (_fragment_instance_id st)
    (_backend_num st) (_coord_addr st) (_start_time st) (_exec_status st)
    (_set_rsc_info st) (_user st) (_group st) t (_cancelled st)
    (_need_wait_execution_trigger st).

(** The constructor: status OK, no timeout yet (-1), not cancelled, start
    time taken from the clock. *)
Definition new_FragmentExecState (query_id instance_id : TUniqueId)
    (backend_num : Z) (coord_addr : string) (local_time : VecDateTimeValue)
    : FragmentExecState :=
  mkFragmentExecState query_id instance_id backend_num coord_addr local_time
    Status_OK false "" "" (-1) false false.

Definition is_canceled (st : FragmentExecState) : bool := _cancelled st.

(** [Status update_status(Status status)]: the returned value is
    [_exec_status] as it stands after the conditional store. *)
Definition update_status (status : Status) (st : FragmentExecState)
    : Status * FragmentExecState :=
  if negb (ok status) && ok (_exec_status st)
  then (status, set_exec_status status st)
  else (_exec_status st, st).

Definition set_group (user group : string) (st : FragmentExecState) :=
  mkFragmentExecState (_query_id st) (_fragment_instance_id st)
    (_backend_num st) (_coord_addr st) (_start_time st) (_exec_status st) true
    user group (_timeout_second st) (_cancelled st)
    (_need_wait_execution_trigger st).

(** [bool is_timeout(const VecDateTimeValue& now) const] *)
Definition is_timeout (now : VecDateTimeValue) (st : FragmentExecState) : bool :=
  if _timeout_second st <=? 0 then false
  else if second_diff now (_start_time st) >? _timeout_second st then true
  else false.

Definition set_need_wait_execution_trigger (st : FragmentExecState) :=
  mkFragmentExecState (_query_id st) (_fragment_instance_id st)
    (_backend_num st) (_coord_addr st) (_start_time st) (_exec_status st)
    (_set_rsc_info st) (_user st) (_group st) (_timeout_second st)
    (_cancelled st) true.

(** [Status FragmentExecState::cancel(reason, msg)].  [has_stream_load] tells
    whether the load stream manager holds a context for [_query_id]. *)
Definition cancel (has_stream_load : bool)
    (reason : PPlanFragmentCancelReason) (msg : string)
    (st : FragmentExecState) : Status * FragmentExecState * list Event :=
  if negb (_cancelled st) then
    let e1 := if is_LIMIT_REACH reason
              then [EvSetIsReportOnCancel (_fragment_instance_id st) false]
              else [] in
    let e2 := [EvExecutorCancel (_fragment_instance_id st) reason msg] in
    let e3 := if has_stream_load
              then [EvStreamLoadPipeCancel (_query_id st) reason]
              else [] in
    (Status_OK, set_cancelled true st, e1 ++ e2 ++ e3)
  else (Status_OK, st, []).

End FragmentExecState.

(** ** Thrift request structures (the fields the manager reads) *)

Inductive TQueryType : Type := SELECT | LOAD | EXTERNAL.

Record TQueryOptions : Type := mkTQueryOptions {
  isset_mem_limit : bool;
  mem_limit : Z;
  execution_timeout : Z;
  query_type : TQueryType;
  isset_enable_pipeline_engine : bool;
  enable_pipeline_engine : bool;
  isset_is_report_success : bool;
  is_report_success : bool;
  isset_cpu_limit : bool;
  cpu_limit : Z
}.

Record TExecPlanFragmentParams : Type := mkTExecPlanFragmentParams {
  params_fragment_instance_id : TUniqueId;
  params_query_id : TUniqueId;
  query_options : TQueryOptions;
  isset_query_options : bool;
  is_simplified_param : bool;
  fragment_num_on_host : Z;
  coord : string;
  isset_resource_info : bool;
  resource_info_user : string;
  resource_info_group : string;
  isset_need_wait_execution_trigger : bool;
  need_wait_execution_trigger : bool;
  backend_num : Z
}.

(** ** class QueryFragmentsCtx *)

Inductive MemTrackerLimiterType : Type := QUERY_TRACKER | LOAD_TRACKER.

(** A tracker as it is constructed: kind, label (prefix and query id) and
    byte limit; a negative limit means unlimited. *)
Record MemTrackerLimiter : Type := mkMemTrackerLimiter {
  tracker_type : MemTrackerLimiterType;
  tracker_label : string * TUniqueId;
  tracker_limit : Z;
  print_log_usage : bool
}.

Inductive TaskGroupId : Type := DEFAULT_TG_ID | SHORT_TG_ID.

Record QueryFragmentsCtx : Type := mkQueryFragmentsCtx {
  query_id : TUniqueId;
  coord_addr : string;
  fragment_num : Z;
  fragment_ids : list TUniqueId;
  timeout_second : Z;
  ctx_start_time : VecDateTimeValue;
  user : string;
  group : string;
  set_rsc_info : bool;
  thread_token : option Z;
  query_mem_tracker : option MemTrackerLimiter;
  ready_to_execute : bool;
  pipeline_engine_enabled : bool;
  task_group : option TaskGroupId
}.

Module QueryFragmentsCtx.

(** Modelled from the spec: the class body is missing from the sources.  A
    new context counts [fragment_num_on_host] live fragments, has no
    registered fragment ids and is not yet ready to execute. *)
Definition new_QueryFragmentsCtx (total_fragment_num : Z)
    (local_time : VecDateTimeValue) : QueryFragmentsCtx :=
  mkQueryFragmentsCtx (0, 0) "" total_fragment_num [] (-1) local_time "" ""
    false None None false false None.

(** Modelled from the spec: a query context is evicted once "its timeout
    has elapsed"; the test has the shape of the fragment's own. *)
Definition is_timeout (now : VecDateTimeValue) (c : QueryFragmentsCtx) : bool :=
  if timeout_second c <=? 0 then false
  else if second_diff now (ctx_start_time c) >? timeout_second c then true
  else false.

Definition push_fragment_id (id : TUniqueId) (c : QueryFragmentsCtx) :=
  mkQueryFragmentsCtx (query_id c) (coord_addr c) (fragment_num c)
    (fragment_ids c ++ [id]) (timeout_second c) (ctx_start_time c) (user c)
    (group c) (set_rsc_info c) (thread_token c) (query_mem_tracker c)
    (ready_to_execute c) (pipeline_engine_enabled c) (task_group c).

(** Modelled from the spec: flips the "ready to execute" gate. *)
Definition set_ready_to_execute_only (c : QueryFragmentsCtx) :=
  mkQueryFragmentsCtx (query_id c) (coord_addr c) (fragment_num c)
    (fragment_ids c) (timeout_second c) (ctx_start_time c) (user c)
    (group c) (set_rsc_info c) (thread_token c) (query_mem_tracker c)
    true (pipeline_engine_enabled c) (task_group c).

End QueryFragmentsCtx.

(** Modelled from the spec: [PipelineFragmentContext] is missing from the
    sources; the manager only stores it, asks [is_canceled] and calls
    [cancel], which is monotonic. *)
Record PipelineFragmentContext : Type := mkPipelineFragmentContext {
  pipeline_query_id : TUniqueId;
  pipeline_fragment_instance_id : TUniqueId;
  pipeline_fragment_id : Z;
  pipeline_backend_num : Z;
  pipeline_is_canceled : bool
}.

Definition pipeline_cancel (p : PipelineFragmentContext) :=
  mkPipelineFragmentContext (pipeline_query_id p)
    (pipeline_fragment_instance_id p) (pipeline_fragment_id p)
    (pipeline_backend_num p) true.

(** ** What the collaborators answer *)

(** Outcome of one [coord->reportExecStatus(res, params)] call. *)
Inductive RpcOutcome : Type :=
  | RpcReturned (res_status : Status)
  | RpcTTransportException (what : string)
  | RpcTException (what : string).

(** The answers of the backend's collaborators, and the three helpers that
    turn an id, a status and the local host into text ([print_id],
    [Status::to_string], [BackendOptions::get_localhost]). *)
Record ExecEnv : Type := mkExecEnv {
  MemInfo_mem_limit : Z;
  DescriptorTbl_create : Status;
  local_time : VecDateTimeValue;
  executor_prepare : Status;
  thread_pool_submit_func : Status;
  pipeline_context_prepare : Status;
  pipeline_context_submit : Status;
  pipeline_short_query_timeout_s : Z;
  new_load_stream_mgr_get : TUniqueId -> bool;
  frontend_client_status : Status;
  first_reportExecStatus : RpcOutcome;
  coord_reopen : Status;
  second_reportExecStatus : RpcOutcome;
  print_id : TUniqueId -> string;
  Status_to_string : Status -> string;
  BackendOptions_get_localhost : string
}.

(** std::map::insert leaves an existing entry alone. *)
Definition map_insert_new {V : Type} (k : TUniqueId) (v : V)
    (m : gmap TUniqueId V) : gmap TUniqueId V :=
  match m !! k with
  | Some _ => m
  | None => <[k := v]> m
  end.

(** ** class FragmentMgr *)

(** The three registries guarded by [_lock]. *)
Record FragmentMgr : Type := mkFragmentMgr {
  _fragment_map : gmap TUniqueId FragmentExecState;
  _pipeline_map : gmap TUniqueId PipelineFragmentContext;
  _fragments_ctx_map : gmap TUniqueId QueryFragmentsCtx
}.

Module FragmentMgr.

Definition set_fragment_map (m : gmap TUniqueId FragmentExecState)
    (mgr : FragmentMgr) : FragmentMgr :=
  mkFragmentMgr m (_pipeline_map mgr) (_fragments_ctx_map mgr).

Definition set_pipeline_map (m : gmap TUniqueId PipelineFragmentContext)
    (mgr : FragmentMgr) : FragmentMgr :=
  mkFragmentMgr (_fragment_map mgr) m (_fragments_ctx_map mgr).

Definition set_fragments_ctx_map (m : gmap TUniqueId QueryFragmentsCtx)
    (mgr : FragmentMgr) : FragmentMgr :=
  mkFragmentMgr (_fragment_map mgr) (_pipeline_map mgr) m.

(** [FragmentExecState::prepare]: takes the timeout from the query options
    and hands over to the executor.  The constructor has dereferenced
    [_fragments_ctx], so the branches for a null context are not taken. *)
Definition prepare (env : ExecEnv) (params : TExecPlanFragmentParams)
    (st : FragmentExecState) : Status * FragmentExecState * list Event :=
  let st1 := if isset_query_options params
             then FragmentExecState.set_timeout_second
                    (execution_timeout (query_options params)) st
             else st in
  (executor_prepare env, st1, [EvExecutorPrepare (_fragment_instance_id st)]).

(** The byte limit [_get_query_ctx] gives to the query's memory tracker:
    lines 627-636 of fragment_mgr.cpp. *)
Definition query_bytes_limit (process_mem_limit : Z) (opts : TQueryOptions) : Z :=
  let has_query_mem_tracker := isset_mem_limit opts && (mem_limit opts >? 0) in
  let bytes_limit := if has_query_mem_tracker then mem_limit opts else -1 in
  if bytes_limit >? process_mem_limit then process_mem_limit else bytes_limit.

Definition make_query_mem_tracker (query_id : TUniqueId) (bytes_limit : Z)
    (opts : TQueryOptions) : MemTrackerLimiter :=
  let t :=
    match query_type opts with
    | SELECT => mkMemTrackerLimiter QUERY_TRACKER ("Query#Id=", query_id)
                  bytes_limit false
    | LOAD => mkMemTrackerLimiter LOAD_TRACKER ("Load#Id=", query_id)
                bytes_limit false
    | EXTERNAL => mkMemTrackerLimiter LOAD_TRACKER ("External#Id=", query_id)
                    bytes_limit false
    end in
  if isset_is_report_success opts && is_report_success opts
  then mkMemTrackerLimiter (tracker_type t) (tracker_label t)
         (tracker_limit t) true
  else t.

Definition select_task_group (env : ExecEnv) (ts : Z) : TaskGroupId :=
  if (ts >? 0) && (ts <=? pipeline_short_query_timeout_s env)
  then SHORT_TG_ID else DEFAULT_TG_ID.

(** The context the non-simplified branch of [_get_query_ctx] builds before
    it looks at the registry again: a fresh [QueryFragmentsCtx] with the
    members the branch assigns. *)
Definition build_query_ctx (env : ExecEnv) (params : TExecPlanFragmentParams)
    (qid : TUniqueId) (pipeline : bool) : QueryFragmentsCtx :=
  let fresh :=
    QueryFragmentsCtx.new_QueryFragmentsCtx (fragment_num_on_host params)
      (local_time env) in
  let opts := query_options params in
  let ts := execution_timeout opts in
  mkQueryFragmentsCtx qid (coord params) (fragment_num fresh)
    (fragment_ids fresh) ts (ctx_start_time fresh)
    (if isset_resource_info params then resource_info_user params
     else user fresh)
    (if isset_resource_info params then resource_info_group params
     else group fresh)
    (if isset_resource_info params then true else set_rsc_info fresh)
    (if isset_cpu_limit opts then Some (cpu_limit opts)
     else thread_token fresh)
    (Some (make_query_mem_tracker qid
             (query_bytes_limit (MemInfo_mem_limit env) opts) opts))
    (ready_to_execute fresh) pipeline
    (if pipeline then Some (select_task_group env ts) else task_group fresh).

Definition ctx_not_found (env : ExecEnv) : Status :=
  InternalError
    (String.append
       "Failed to get query fragments context. Query may be timeout or be cancelled. host: "
       (BackendOptions_get_localhost env)).

(** [_get_query_ctx]: [inl] is the error status returned; [inr] is the
    context the out-parameter [fragments_ctx] points to when the status is
    OK, which is the entry of [_fragments_ctx_map] under [qid]. *)
Definition _get_query_ctx (env : ExecEnv) (params : TExecPlanFragmentParams)
    (qid : TUniqueId) (pipeline : bool) (mgr : FragmentMgr)
    : (Status + QueryFragmentsCtx) * FragmentMgr * list Event :=
  if is_simplified_param params then
    match _fragments_ctx_map mgr !! qid with
    | None => (inl (ctx_not_found env), mgr, [])
    | Some search => (inr search, mgr, [])
    end
  else if negb (ok (DescriptorTbl_create env)) then
    (inl (DescriptorTbl_create env), mgr, [EvDescriptorTblCreate qid])
  else
    let fragments_ctx := build_query_ctx env params qid pipeline in
    match _fragments_ctx_map mgr !! qid with
    | None =>
      (inr fragments_ctx,
       set_fragments_ctx_map (<[qid := fragments_ctx]> (_fragments_ctx_map mgr))
         mgr,
       [EvDescriptorTblCreate qid])
    | Some search => (inr search, mgr, [EvDescriptorTblCreate qid])
    end.

(** The status returned when the worker pool refuses the task: the text of
    [strings::Substitute] with the printed instance id, the pool's status
    [st] as a string and the local host. *)
Definition push_thread_pool_failed (env : ExecEnv)
    (fragment_instance_id : TUniqueId) (st : Status) : Status :=
  InternalError
    (String.append "push plan fragment "
       (String.append (print_id env fragment_instance_id)
          (String.append " to thread pool failed. err = "
             (String.append (Status_to_string env st)
                (String.append ", BE: "
                   (BackendOptions_get_localhost env)))))).

(** [exec_plan_fragment(const TExecPlanFragmentParams&, const FinishCallback&)].
    The task handed to the worker pool ([_exec_actual] with the callback) runs
    later, on a pool thread; here it is the event of its submission. *)
Definition exec_plan_fragment (env : ExecEnv) (params : TExecPlanFragmentParams)
    (mgr : FragmentMgr) : Status * FragmentMgr * list Event :=
  let fragment_instance_id := params_fragment_instance_id params in
  match _fragment_map mgr !! fragment_instance_id with
  | Some _ => (Status_OK, mgr, [])
  | None =>
    let pipeline_engine_enabled :=
      isset_enable_pipeline_engine (query_options params)
      && enable_pipeline_engine (query_options params) in
    let '(res, mgr1, ev1) :=
      _get_query_ctx env params (params_query_id params)
        pipeline_engine_enabled mgr in
    match res with
    | inl st => (st, mgr1, ev1)
    | inr fragments_ctx =>
    let key := params_query_id params in
    let qid := query_id fragments_ctx in
    let mgr2 :=
      set_fragments_ctx_map
        (alter (QueryFragmentsCtx.push_fragment_id fragment_instance_id) key
           (_fragments_ctx_map mgr1)) mgr1 in
    let need_wait := isset_need_wait_execution_trigger params
                     && need_wait_execution_trigger params in
    let exec_state0 :=
      FragmentExecState.new_FragmentExecState qid fragment_instance_id
        (backend_num params) (coord_addr fragments_ctx) (local_time env) in
    let exec_state :=
      if need_wait
      then FragmentExecState.set_need_wait_execution_trigger exec_state0
      else exec_state0 in
    if negb pipeline_engine_enabled then
      let '(pst, exec_state1, ev2) := prepare env params exec_state in
      if negb (ok pst) then (pst, mgr2, ev1 ++ ev2) else
      let ev3 := [EvAddRuntimeFilterEntity fragment_instance_id] in
      let mgr3 :=
        set_fragment_map
          (map_insert_new fragment_instance_id exec_state1 (_fragment_map mgr2))
          mgr2 in
      let ev4 := [EvSubmitToThreadPool fragment_instance_id] in
      if negb (ok (thread_pool_submit_func env)) then
        let mgr4 :=
          set_fragment_map (delete fragment_instance_id (_fragment_map mgr3))
            mgr3 in
        let '(_, _, ev5) :=
          FragmentExecState.cancel (new_load_stream_mgr_get env qid)
            INTERNAL_ERROR "push plan fragment to thread pool failed"
            exec_state1 in
        (push_thread_pool_failed env fragment_instance_id
           (thread_pool_submit_func env),
         mgr4, ev1 ++ ev2 ++ ev3 ++ ev4 ++ ev5)
      else (Status_OK, mgr3, ev1 ++ ev2 ++ ev3 ++ ev4)
    else
      let mgr3 :=
        if negb need_wait then
          set_fragments_ctx_map
            (alter QueryFragmentsCtx.set_ready_to_execute_only key
               (_fragments_ctx_map mgr2)) mgr2
        else mgr2 in
      let ev2 := [EvSetupSharedHashtable fragment_instance_id;
                  EvPipelinePrepare fragment_instance_id] in
      let context :=
        mkPipelineFragmentContext qid fragment_instance_id (-1)
          (backend_num params) false in
      if negb (ok (pipeline_context_prepare env)) then
        (pipeline_context_prepare env, mgr3,
         ev1 ++ ev2 ++ [EvPipelineCloseIfPrepareFailed fragment_instance_id])
      else
        let mgr4 :=
          set_pipeline_map
            (map_insert_new fragment_instance_id context (_pipeline_map mgr3))
            mgr3 in
        (pipeline_context_submit env, mgr4,
         ev1 ++ ev2 ++ [EvAddRuntimeFilterEntity fragment_instance_id;
                        EvPipelineSubmit fragment_instance_id])
    end
  end.

(** [FragmentMgr::cancel(fragment_id, reason, msg)] *)
Definition cancel (env : ExecEnv) (fragment_id : TUniqueId)
    (reason : PPlanFragmentCancelReason) (msg : string) (mgr : FragmentMgr)
    : FragmentMgr * list Event :=
  match _fragment_map mgr !! fragment_id with
  | Some exec_state =>
    let '(_, exec_state', ev) :=
      FragmentExecState.cancel
        (new_load_stream_mgr_get env (_query_id exec_state)) reason msg
        exec_state in
    (set_fragment_map (<[fragment_id := exec_state']> (_fragment_map mgr)) mgr,
     ev)
  | None =>
    match _pipeline_map mgr !! fragment_id with
    | Some pipeline_fragment_ctx =>
      (set_pipeline_map
         (<[fragment_id := pipeline_cancel pipeline_fragment_ctx]>
            (_pipeline_map mgr)) mgr,
       [EvPipelineCancel fragment_id reason msg])
    | None => (mgr, [])
    end
  end.

(** Cancels the listed ids one after the other. *)
Fixpoint cancel_each (env : ExecEnv) (ids : list TUniqueId)
    (reason : PPlanFragmentCancelReason) (msg : string) (mgr : FragmentMgr)
    : FragmentMgr * list Event :=
  match ids with
  | [] => (mgr, [])
  | it :: rest =>
    let '(mgr1, ev1) := cancel env it reason msg mgr in
    let '(mgr2, ev2) := cancel_each env rest reason msg mgr1 in
    (mgr2, ev1 ++ ev2)
  end.

(** [FragmentMgr::cancel_query] *)
Definition cancel_query (env : ExecEnv) (qid : TUniqueId)
    (reason : PPlanFragmentCancelReason) (msg : string) (mgr : FragmentMgr)
    : FragmentMgr * list Event :=
  let cancel_fragment_ids :=
    match _fragments_ctx_map mgr !! qid with
    | Some ctx => fragment_ids ctx
    | None => []
    end in
  cancel_each env cancel_fragment_ids reason msg mgr.

(** The loop of [query_is_canceled] over [ctx->second->fragment_ids]: it
    returns from inside the loop at the first id found in either map. *)
Fixpoint query_is_canceled_loop (mgr : FragmentMgr) (ids : list TUniqueId)
    : bool :=
  match ids with
  | [] => true
  | it :: rest =>
    match _fragment_map mgr !! it with
    | Some exec_state => FragmentExecState.is_canceled exec_state
    | None =>
      match _pipeline_map mgr !! it with
      | Some pipeline_ctx => pipeline_is_canceled pipeline_ctx
      | None => query_is_canceled_loop mgr rest
      end
    end
  end.

(** [bool FragmentMgr::query_is_canceled(const TUniqueId& query_id)] *)
Definition query_is_canceled (qid : TUniqueId) (mgr : FragmentMgr) : bool :=
  match _fragments_ctx_map mgr !! qid with
  | Some ctx => query_is_canceled_loop mgr (fragment_ids ctx)
  | None => true
  end.

(** The ids one round of [cancel_worker] collects in [to_cancel]. *)
Definition to_cancel (now : VecDateTimeValue) (mgr : FragmentMgr)
    : list TUniqueId :=
  (λ it : TUniqueId * FragmentExecState, _fragment_instance_id it.2)
    <$> filter (λ it, FragmentExecState.is_timeout now it.2 = true)
          (map_to_list (_fragment_map mgr)).

(** One round of the [do ... while] loop of [cancel_worker]; [now] is the
    clock read at its start. *)
Definition cancel_worker_round (env : ExecEnv) (now : VecDateTimeValue)
    (mgr : FragmentMgr) : FragmentMgr * list Event :=
  let ids := to_cancel now mgr in
  let mgr1 :=
    set_fragments_ctx_map
      (filter (λ it : TUniqueId * QueryFragmentsCtx,
                 QueryFragmentsCtx.is_timeout now it.2 = false)
         (_fragments_ctx_map mgr)) mgr in
  cancel_each env ids TIMEOUT "" mgr1.

(** [ReportStatusRequest], as [FragmentExecState::coordinator_callback]
    fills it: [update_fn] is bound to [FragmentExecState::update_status] and
    [cancel_fn] to [PlanFragmentExecutor::cancel]. *)
Record ReportStatusRequest : Type := mkReportStatusRequest {
  req_status : Status;
  req_done : bool;
  req_coord_addr : string;
  req_query_id : TUniqueId;
  req_fragment_id : Z;
  req_fragment_instance_id : TUniqueId;
  req_backend_num : Z;
  update_fn : Status -> FragmentExecState -> Status * FragmentExecState;
  cancel_fn : PPlanFragmentCancelReason -> string -> list Event
}.

Definition make_report_request (status : Status) (done : bool)
    (st : FragmentExecState) : ReportStatusRequest :=
  mkReportStatusRequest status done (_coord_addr st) (_query_id st) (-1)
    (_fragment_instance_id st) (_backend_num st)
    FragmentExecState.update_status
    (λ reason msg, [EvExecutorCancel (_fragment_instance_id st) reason msg]).

Definition no_client_msg (addr : string) (coord_status : Status) : string :=
  String.append "couldn't get a client for "
    (String.append addr (String.append ", reason: " (message coord_status))).

(** The text put together after a [TException]: the address, a line break
    and [e.what()]. *)
Definition report_failed_msg (addr what : string) : string :=
  String.append "ReportExecStatus() to "
    (String.append addr
       (String.append " failed:" (String (Ascii.ascii_of_nat 10) what))).

(** The tail of [coordinator_callback] after the [try] block: lines 467-471. *)
Definition after_report (req : ReportStatusRequest) (rpc_status : Status)
    (st : FragmentExecState) (evs : list Event)
    : FragmentExecState * list Event :=
  if negb (ok rpc_status)
  then ((update_fn req rpc_status st).2,
        evs ++ cancel_fn req INTERNAL_ERROR "rpc fail 2")
  else (st, evs).

(** [void FragmentMgr::coordinator_callback(const ReportStatusRequest& req)],
    run against the fragment state [update_fn] is bound to. *)
Definition coordinator_callback (env : ExecEnv) (req : ReportStatusRequest)
    (st : FragmentExecState) : FragmentExecState * list Event :=
  let '(exec_status, st1) := update_fn req (req_status req) st in
  let coord_status := frontend_client_status env in
  if negb (ok coord_status) then
    ((update_fn req
        (InternalError (no_client_msg (req_coord_addr req) coord_status))
        st1).2, [])
  else
    let report :=
      EvReportExecStatus (req_fragment_instance_id req) exec_status
        (req_done req) in
    match first_reportExecStatus env with
    | RpcReturned res_status => after_report req res_status st1 [report]
    | RpcTException what =>
      after_report req
        (InternalError (report_failed_msg (req_coord_addr req) what)) st1
        [report]
    | RpcTTransportException _ =>
      let rpc_status := coord_reopen env in
      if negb (ok rpc_status) then
        ((update_fn req rpc_status st1).2,
         [report; EvReopen] ++ cancel_fn req INTERNAL_ERROR "report rpc fail")
      else
        match second_reportExecStatus env with
        | RpcReturned res_status =>
          after_report req res_status st1 [report; EvReopen; report]
        | RpcTTransportException what | RpcTException what =>
          after_report req
            (InternalError (report_failed_msg (req_coord_addr req) what)) st1
            [report; EvReopen; report]
        end
    end.

End FragmentMgr.

(** ** class CsvReader (vec/exec/format/csv/csv_reader.cpp) *)

Inductive TFileFormatType : Type :=
  | FORMAT_CSV_PLAIN
  | FORMAT_CSV_GZ
  | FORMAT_CSV_BZ2
  | FORMAT_CSV_LZ4FRAME
  | FORMAT_CSV_LZOP
  | FORMAT_CSV_DEFLATE
  | FORMAT_PROTO
  | FORMAT_OTHER (n : Z).

Inductive TFileCompressType : Type :=
  | UNKNOWN
  | PLAIN
  | GZ
  | LZO
  | BZ2
  | LZ4FRAME
  | DEFLATE
  | COMPRESS_OTHER (n : Z).

Inductive TFileType : Type :=
  | FILE_STREAM
  | FILE_BROKER
  | FILE_OTHER (n : Z).

Definition is_FORMAT_CSV_PLAIN (f : TFileFormatType) : bool :=
  match f with FORMAT_CSV_PLAIN => true | _ => false end.
Definition is_UNKNOWN (c : TFileCompressType) : bool :=
  match c with UNKNOWN => true | _ => false end.
Definition is_PLAIN (c : TFileCompressType) : bool :=
  match c with PLAIN => true | _ => false end.
Definition is_FILE_STREAM (t : TFileType) : bool :=
  match t with FILE_STREAM => true | _ => false end.
Definition is_FILE_BROKER (t : TFileType) : bool :=
  match t with FILE_BROKER => true | _ => false end.

Inductive LineReaderKind : Type :=
  | NewPlainTextLineReader (size : Z) (start_offset : Z)
  | NewPlainBinaryLineReader.

(** The scan range and file attributes [init_reader] reads. *)
Record CsvScanParams : Type := mkCsvScanParams {
  range_start_offset : Z;
  isset_file_attributes : bool;
  isset_header_type : bool;
  header_type : string;
  isset_skip_lines : bool;
  skip_lines : Z;
  file_type : TFileType;
  column_idxs : list Z;
  required_slots_is_file_slot : list bool;
  file_slot_descs_size : nat
}.

Record CsvReader : Type := mkCsvReader {
  _params : CsvScanParams;
  _file_format_type : TFileFormatType;
  _file_compress_type : TFileCompressType;
  _size : Z;
  _skip_lines : Z;
  _file_description_start_offset : Z;
  _line_reader : option LineReaderKind;
  _line_reader_eof : bool;
  _is_load : bool;
  _file_slot_idx_map : list Z;
  _col_idxs : list Z
}.

(** What the file factory answers, the size of the file it opened, and
    what [_create_decompressor] returns. *)
Record CsvEnv : Type := mkCsvEnv {
  create_reader_status : Status;
  file_reader_size : Z;
  create_decompressor_status : Status
}.

Module CsvReader.

Definition to_lower_ascii (c : Ascii.ascii) : Ascii.ascii :=
  let n := Ascii.nat_of_ascii c in
  if ((65 <=? n) && (n <=? 90))%nat then Ascii.ascii_of_nat (n + 32) else c.

Fixpoint to_lower (s : string) : string :=
  match s with
  | EmptyString => EmptyString
  | String c r => String (to_lower_ascii c) (to_lower r)
  end.

(** Modelled from the spec: the [BeConsts] header is missing from the
    sources; the two header kinds a CSV file can declare. *)
Definition CSV_WITH_NAMES : string := "csv_with_names".
Definition CSV_WITH_NAMES_AND_TYPES : string := "csv_with_names_and_types".

Definition split_compressed_unsupported : Status :=
  InternalError "For now we do not support split compressed file".

Definition set_offsets (size skip start_offset : Z) (r : CsvReader) :=
  mkCsvReader (_params r) (_file_format_type r) (_file_compress_type r) size
    skip start_offset (_line_reader r) (_line_reader_eof r) (_is_load r)
    (_file_slot_idx_map r) (_col_idxs r).

(** Indices of the required slots that are file slots. *)
Fixpoint file_slot_indices (idx : Z) (slots : list bool) : list Z :=
  match slots with
  | [] => []
  | is_file_slot :: rest =>
    (if is_file_slot then [idx] else []) ++ file_slot_indices (idx + 1) rest
  end.

(** [Status CsvReader::init_reader(bool is_load)] *)
Definition init_reader (env : CsvEnv) (is_load : bool) (r : CsvReader)
    : Status * CsvReader :=
  let p := _params r in
  let start_offset := range_start_offset p in
  let first_part : Status + CsvReader * Z :=
    if start_offset =? 0 then
      let skip :=
        if isset_file_attributes p && isset_header_type p
           && (0 <? Z.of_nat (String.length (header_type p))) then
          let header := to_lower (header_type p) in
          if String.eqb header CSV_WITH_NAMES then 1
          else if String.eqb header CSV_WITH_NAMES_AND_TYPES then 2
          else _skip_lines r
        else if isset_skip_lines p then skip_lines p
        else _skip_lines r in
      inr (set_offsets (_size r) skip (_file_description_start_offset r) r,
           start_offset)
    else
      if negb (is_FORMAT_CSV_PLAIN (_file_format_type r))
         || (negb (is_UNKNOWN (_file_compress_type r))
             && negb (is_PLAIN (_file_compress_type r)))
      then inl split_compressed_unsupported
      else inr (set_offsets (_size r + 1) 1 (_file_description_start_offset r) r,
                start_offset - 1) in
  match first_part with
  | inl st => (st, r)
  | inr (r1, start_offset) =>
    let r2 := set_offsets (_size r1) (_skip_lines r1) start_offset r1 in
    if negb (ok (create_reader_status env)) then (create_reader_status env, r2)
    else if (file_reader_size env =? 0) && negb (is_FILE_STREAM (file_type p))
            && negb (is_FILE_BROKER (file_type p))
    then (EndOfFile "init reader failed, empty csv file", r2)
    else if negb (ok (create_decompressor_status env))
    then (create_decompressor_status env, r2)
    else
      let line_reader :=
        match _file_format_type r2 with
        | FORMAT_CSV_PLAIN | FORMAT_CSV_GZ | FORMAT_CSV_BZ2
        | FORMAT_CSV_LZ4FRAME | FORMAT_CSV_LZOP | FORMAT_CSV_DEFLATE =>
          Some (NewPlainTextLineReader (_size r2) start_offset)
        | FORMAT_PROTO => Some NewPlainBinaryLineReader
        | FORMAT_OTHER _ => None
        end in
      match line_reader with
      | None =>
        (InternalError
           "Unknown format type, cannot init line reader in csv reader", r2)
      | Some lr =>
        (Status_OK,
         mkCsvReader (_params r2) (_file_format_type r2)
           (_file_compress_type r2) (_size r2) (_skip_lines r2)
           (_file_description_start_offset r2) (Some lr) false is_load
           (if is_load then _file_slot_idx_map r2
            else _file_slot_idx_map r2
                 ++ file_slot_indices 0 (required_slots_is_file_slot p))
           (if is_load
            then _col_idxs r2 ++ (Z.of_nat <$> seq 0 (file_slot_descs_size p))
            else column_idxs p))
      end
  end.

End CsvReader.

(** ** class ParquetReader (vec/exec/format/parquet/vparquet_reader.cpp) *)

(** [RowRange] and the parquet thrift structures are declared outside the
    sources at hand.  Row indices and row counts are 64-bit there: the reader
    adds and compares them with [int64_t] counters. *)
Record RowRange : Type := mkRowRange { first_row : Z; last_row : Z }.

Record RowGroupIndex : Type := mkRowGroupIndex {
  row_group_id : Z;
  group_first_row : Z;
  group_last_row : Z
}.

(** The members of the parquet thrift structures the reader touches. *)
Record ColumnChunk : Type := mkColumnChunk {
  column_index_offset : Z;
  column_index_length : Z
}.

Record RowGroup : Type := mkRowGroup {
  columns : list ColumnChunk;
  num_rows : Z
}.

Record ColumnIndex : Type := mkColumnIndex { null_pages : list bool }.

Record PageLocation : Type := mkPageLocation {
  offset : Z;
  compressed_page_size : Z;
  first_row_index : Z
}.

Record OffsetIndex : Type := mkOffsetIndex {
  page_locations : list PageLocation
}.

Record ParquetReadColumn : Type := mkParquetReadColumn {
  _parquet_col_id : Z;
  _file_slot_name : string
}.

Record PageIndex : Type := mkPageIndex {
  _column_index_start : Z;
  _column_index_size : Z;
  _offset_index_start : Z;
  _offset_index_size : Z
}.

(** The two constructors of [RowGroupReader::PositionDeleteContext]. *)
Inductive PositionDeleteContext : Type :=
  | NoPositionDelete (num_rows first_row : Z)
  | PositionDelete (delete_rows : list Z) (num_rows first_row : Z)
      (start_index end_index : Z).

Record Statistics : Type := mkStatistics {
  read_rows : Z;
  filtered_page_rows : Z;
  lazy_read_filtered_rows : Z
}.

(** The comparator handed to [std::sort]: [std::tie(first_row, last_row)]
    compared with [<]. *)
Definition row_range_lt (lhs rhs : RowRange) : Prop :=
  first_row lhs < first_row rhs
  ∨ (first_row lhs = first_row rhs ∧ last_row lhs < last_row rhs).

(** The order [std::sort] leaves behind: no element is followed by one that
    the comparator puts before it. *)
Definition row_range_le (lhs rhs : RowRange) : Prop := ¬ row_range_lt rhs lhs.

#[global] Instance row_range_lt_dec : RelDecision row_range_lt.
Proof. intros lhs rhs. unfold row_range_lt. apply _. Defined.

#[global] Instance row_range_le_dec : RelDecision row_range_le.
Proof. intros lhs rhs. unfold row_range_le. apply _. Defined.

(** [std::sort] with that comparator.  The comparator is a strict total
    order on (first_row, last_row) pairs, so the sorted arrangement of a
    vector is unique and any sorting algorithm computes it. *)
Definition sort_row_ranges (l : list RowRange) : list RowRange :=
  merge_sort row_range_le l.

(** The loop variables of the sweep over the sorted skip ranges. *)
Record Sweep : Type := mkSweep {
  skip_end : Z;
  candidate_row_ranges : list RowRange;
  sweep_read_rows : Z
}.

(** One iteration of [for (auto& skip_range : skipped_row_ranges)];
    [skip_end] is declared [int], the row bounds are [int64_t]. *)
Definition sweep_step (s : Sweep) (skip_range : RowRange) : Sweep :=
  if skip_end s >=? first_row skip_range then
    if skip_end s <? last_row skip_range
    then mkSweep (wrap32 (last_row skip_range)) (candidate_row_ranges s)
           (sweep_read_rows s)
    else s
  else
    mkSweep (wrap32 (last_row skip_range))
      (candidate_row_ranges s
       ++ [mkRowRange (skip_end s) (first_row skip_range)])
      (sweep_read_rows s + (first_row skip_range - skip_end s)).

(** Lines 665-688: sort, sweep, and the closing range up to the end of the
    row group.  Returns the candidate ranges and the number of rows in them. *)
Definition candidates_of_skipped (group_num_rows : Z)
    (candidates : list RowRange) (skipped_row_ranges : list RowRange)
    : list RowRange * Z :=
  let s := fold_left sweep_step (sort_row_ranges skipped_row_ranges)
             (mkSweep 0 candidates 0) in
  if negb (skip_end s =? group_num_rows)
  then (candidate_row_ranges s ++ [mkRowRange (skip_end s) group_num_rows],
        sweep_read_rows s + (group_num_rows - skip_end s))
  else (candidate_row_ranges s, sweep_read_rows s).

(** [emplace] on a map leaves an existing entry alone. *)
Definition emplace `{Countable K} {V : Type} (k : K) (v : V)
    (m : gmap K V) : gmap K V :=
  match m !! k with
  | Some _ => m
  | None => <[k := v]> m
  end.

(** [std::lower_bound] from position [from] of a sorted vector: the first
    position at or after [from] whose element is not less than [v]. *)
Fixpoint lower_bound (l : list Z) (from : nat) (v : Z) : nat :=
  match l with
  | [] => from
  | x :: rest =>
    match from with
    | O => if x <? v then S (lower_bound rest O v) else O
    | S k => S (lower_bound rest k v)
    end
  end.

(** The types the reader only passes along: the predicate ranges per
    column, the row-group reader, the output block and the per-column read
    statistics. *)
Section ParquetReader.

Context {ColumnValueRange RowGroupReader Block ColumnStatistics : Type}.

(** What the page index, the file and the row-group reader answer. *)
Record ParquetEnv : Type := mkParquetEnv {
  check_and_get_page_index_ranges : list ColumnChunk -> bool * PageIndex;
  read_at : Z -> Z -> Status * list Byte.byte;
  parse_column_index : ColumnChunk -> list Byte.byte -> Status * ColumnIndex;
  collect_skipped_page_range :
    ColumnIndex -> ColumnValueRange -> string -> list Z;
  parse_offset_index : ColumnChunk -> list Byte.byte -> Status * OffsetIndex;
  create_skipped_row_range : OffsetIndex -> Z -> Z -> RowRange;
  new_RowGroupReader : Z -> RowGroup -> PositionDeleteContext -> RowGroupReader;
  RowGroupReader_init :
    RowGroupReader -> list RowRange -> gmap Z OffsetIndex
    -> Status * RowGroupReader;
  next_batch :
    RowGroupReader -> Block -> Z -> Z -> bool
    -> Status * RowGroupReader * Block * Z * bool;
  statistics : RowGroupReader -> ColumnStatistics;
  reader_lazy_read_filtered_rows : RowGroupReader -> Z;
  to_string : Status -> string
}.

Record ParquetReader : Type := mkParquetReader {
  row_groups : list RowGroup;
  _read_columns : list ParquetReadColumn;
  _has_complex_type : bool;
  vconjunct_ctx_is_null : bool;
  _colname_to_value_range : option (gmap string ColumnValueRange);
  _batch_size : Z;
  _delete_rows : option (list Z);
  _delete_rows_index : Z;
  _col_offsets : gmap Z OffsetIndex;
  _statistics : Statistics;
  _column_statistics : list ColumnStatistics;
  _current_group_reader : option RowGroupReader;
  _row_group_eof : bool;
  _read_row_groups : list RowGroupIndex;
  _scan_range_path : string
}.

Definition set_pruning (col_offsets : gmap Z OffsetIndex) (st : Statistics)
    (r : ParquetReader) : ParquetReader :=
  mkParquetReader (row_groups r) (_read_columns r) (_has_complex_type r)
    (vconjunct_ctx_is_null r) (_colname_to_value_range r) (_batch_size r)
    (_delete_rows r) (_delete_rows_index r) col_offsets st
    (_column_statistics r) (_current_group_reader r) (_row_group_eof r)
    (_read_row_groups r) (_scan_range_path r).

Definition set_delete_rows_index (i : Z) (r : ParquetReader) : ParquetReader :=
  mkParquetReader (row_groups r) (_read_columns r) (_has_complex_type r)
    (vconjunct_ctx_is_null r) (_colname_to_value_range r) (_batch_size r)
    (_delete_rows r) i (_col_offsets r) (_statistics r)
    (_column_statistics r) (_current_group_reader r) (_row_group_eof r)
    (_read_row_groups r) (_scan_range_path r).

Definition set_group_reader (cur : option RowGroupReader) (eof : bool)
    (queue : list RowGroupIndex) (r : ParquetReader) : ParquetReader :=
  mkParquetReader (row_groups r) (_read_columns r) (_has_complex_type r)
    (vconjunct_ctx_is_null r) (_colname_to_value_range r) (_batch_size r)
    (_delete_rows r) (_delete_rows_index r) (_col_offsets r) (_statistics r)
    (_column_statistics r) cur eof queue (_scan_range_path r).

Definition set_column_statistics (cs : list ColumnStatistics)
    (r : ParquetReader) : ParquetReader :=
  mkParquetReader (row_groups r) (_read_columns r) (_has_complex_type r)
    (vconjunct_ctx_is_null r) (_colname_to_value_range r) (_batch_size r)
    (_delete_rows r) (_delete_rows_index r) (_col_offsets r) (_statistics r)
    cs (_current_group_reader r) (_row_group_eof r) (_read_row_groups r)
    (_scan_range_path r).

Variable env : ParquetEnv.

(** The lambda [read_whole_row_group]. *)
Definition read_whole_row_group (row_group : RowGroup)
    (candidates : list RowRange) (r : ParquetReader)
    : list RowRange * ParquetReader :=
  (candidates ++ [mkRowRange 0 (num_rows row_group)],
   set_pruning (_col_offsets r)
     (mkStatistics (read_rows (_statistics r) + num_rows row_group)
        (filtered_page_rows (_statistics r))
        (lazy_read_filtered_rows (_statistics r))) r).

Definition column_chunk_at (row_group : RowGroup) (col_id : Z) : ColumnChunk :=
  default (mkColumnChunk 0 0) (columns row_group !! Z.to_nat col_id).

(** The loop [for (auto& read_col : _read_columns)] of lines 626-659.  It
    grows [skipped_row_ranges] and [_col_offsets]; the status is not OK when
    the loop is left by a [RETURN_IF_ERROR]. *)
Fixpoint collect_skipped_row_ranges
    (value_ranges : gmap string ColumnValueRange) (row_group : RowGroup)
    (col_index_buff off_index_buff : list Byte.byte)
    (read_columns : list ParquetReadColumn)
    (skipped_row_ranges : list RowRange) (col_offsets : gmap Z OffsetIndex)
    : Status * list RowRange * gmap Z OffsetIndex :=
  match read_columns with
  | [] => (Status_OK, skipped_row_ranges, col_offsets)
  | read_col :: rest =>
    let continue skipped offs :=
      collect_skipped_row_ranges value_ranges row_group col_index_buff
        off_index_buff rest skipped offs in
    match value_ranges !! _file_slot_name read_col with
    | None => continue skipped_row_ranges col_offsets
    | Some conjuncts =>
      let chunk := column_chunk_at row_group (_parquet_col_id read_col) in
      if (column_index_offset chunk =? 0) && (column_index_length chunk =? 0)
      then continue skipped_row_ranges col_offsets
      else
        let '(st, column_index) :=
          parse_column_index env chunk col_index_buff in
        if negb (ok st) then (st, skipped_row_ranges, col_offsets) else
        let num_of_pages :=
          wrap32 (Z.of_nat (length (null_pages column_index))) in
        if num_of_pages <=? 0 then continue skipped_row_ranges col_offsets
        else
          let skipped_page_range :=
            collect_skipped_page_range env column_index conjuncts
              (_file_slot_name read_col) in
          match skipped_page_range with
          | [] => continue skipped_row_ranges col_offsets
          | _ :: _ =>
            let '(st2, offset_index) :=
              parse_offset_index env chunk off_index_buff in
            if negb (ok st2) then (st2, skipped_row_ranges, col_offsets) else
            continue
              (skipped_row_ranges
               ++ (create_skipped_row_range env offset_index
                     (num_rows row_group) <$> skipped_page_range))
              (emplace (_parquet_col_id read_col) offset_index col_offsets)
          end
      end
  end.

(** Lines 605-659 of [_process_page_index]: the skip ranges the page index
    yields for the row group, with [_col_offsets] as the loop leaves it.  The
    list is empty on the paths that read the whole row group without
    consulting the page index. *)
Definition gather_skipped_row_ranges (row_group : RowGroup) (r : ParquetReader)
    : Status * list RowRange * gmap Z OffsetIndex :=
  match _colname_to_value_range r with
  | None => (Status_OK, [], _col_offsets r)
  | Some value_ranges =>
    if _has_complex_type r || vconjunct_ctx_is_null r
       || bool_decide (value_ranges = ∅)
    then (Status_OK, [], _col_offsets r)
    else
      let '(has_page_index, page_index) :=
        check_and_get_page_index_ranges env (columns row_group) in
      if negb has_page_index then (Status_OK, [], _col_offsets r) else
      let '(st1, col_index_buff) :=
        read_at env (_column_index_start page_index)
          (_column_index_size page_index) in
      if negb (ok st1) then (st1, [], _col_offsets r) else
      let '(st2, off_index_buff) :=
        read_at env (_offset_index_start page_index)
          (_offset_index_size page_index) in
      if negb (ok st2) then (st2, [], _col_offsets r) else
      collect_skipped_row_ranges value_ranges row_group col_index_buff
        off_index_buff (_read_columns r) [] (_col_offsets r)
  end.

(** [Status ParquetReader::_process_page_index(row_group, candidate_row_ranges)]:
    with no skip range the whole row group is read, otherwise the
    complement of the skip ranges (lines 660-691). *)
Definition _process_page_index (row_group : RowGroup)
    (candidates : list RowRange) (r : ParquetReader)
    : Status * list RowRange * ParquetReader :=
  let '(st, skipped_row_ranges, col_offsets) :=
    gather_skipped_row_ranges row_group r in
  let r1 := set_pruning col_offsets (_statistics r) r in
  if negb (ok st) then (st, candidates, r1) else
  match skipped_row_ranges with
  | [] =>
    let whole := read_whole_row_group row_group candidates r1 in
    (Status_OK, whole.1, whole.2)
  | _ :: _ =>
    let '(cands, rows) :=
      candidates_of_skipped (num_rows row_group) candidates
        skipped_row_ranges in
    (Status_OK, cands,
     set_pruning col_offsets
       (mkStatistics (read_rows (_statistics r) + rows)
          (filtered_page_rows (_statistics r) + (num_rows row_group - rows))
          (lazy_read_filtered_rows (_statistics r))) r)
  end.

(** [_get_position_delete_ctx]: the sub-range of the sorted delete rows that
    falls into the row group; [_delete_rows_index] moves past it. *)
Definition _get_position_delete_ctx (row_group : RowGroup)
    (row_group_index : RowGroupIndex) (r : ParquetReader)
    : PositionDeleteContext * ParquetReader :=
  match _delete_rows r with
  | None =>
    (NoPositionDelete (num_rows row_group) (group_first_row row_group_index), r)
  | Some delete_rows =>
    let start_index :=
      lower_bound delete_rows (Z.to_nat (_delete_rows_index r))
        (group_first_row row_group_index) in
    let end_index :=
      lower_bound delete_rows start_index (group_last_row row_group_index) in
    (PositionDelete delete_rows (num_rows row_group)
       (group_first_row row_group_index) (Z.of_nat start_index)
       (Z.of_nat end_index),
     set_delete_rows_index (Z.of_nat end_index) r)
  end.

Definition row_group_at (r : ParquetReader) (id : Z) : RowGroup :=
  default (mkRowGroup [] 0) (row_groups r !! Z.to_nat id).

(** [Status ParquetReader::_next_row_group_reader()] *)
Definition _next_row_group_reader (r : ParquetReader)
    : Status * ParquetReader :=
  match _read_row_groups r with
  | [] =>
    (EndOfFile "No next RowGroupReader", set_group_reader None true [] r)
  | row_group_index :: rest =>
    let r1 :=
      set_group_reader (_current_group_reader r) (_row_group_eof r) rest r in
    let row_group := row_group_at r1 (row_group_id row_group_index) in
    let '(st, candidates, r2) := _process_page_index row_group [] r1 in
    if negb (ok st) then (st, r2) else
    let '(position_delete_ctx, r3) :=
      _get_position_delete_ctx row_group row_group_index r2 in
    let reader :=
      new_RowGroupReader env (row_group_id row_group_index) row_group
        position_delete_ctx in
    let '(init_st, reader') :=
      RowGroupReader_init env reader candidates (_col_offsets r3) in
    (init_st, set_group_reader (Some reader') false rest r3)
  end.

Definition null_group_reader : Status :=
  InternalError "_current_group_reader is null".

(** [Status ParquetReader::get_next_block(Block* block, size_t* read_rows,
    bool* eof)].  The three out-parameters come in with what the caller
    left in them and go out with what the function stored, if anything. *)
Definition get_next_block (r : ParquetReader) (block : Block)
    (rows : Z) (eof : bool) : Status * ParquetReader * Block * Z * bool :=
  let before_batch : (Status * ParquetReader * Block * Z * bool)
                     + ParquetReader :=
    if bool_decide (_current_group_reader r = None) || _row_group_eof r then
      if 0 <? Z.of_nat (length (_read_row_groups r)) then
        let '(st, r1) := _next_row_group_reader r in
        if negb (ok st) then inl (st, r1, block, rows, eof) else inr r1
      else
        inl (Status_OK, set_group_reader None true (_read_row_groups r) r,
             block, 0, true)
    else inr r in
  match before_batch with
  | inl result => result
  | inr r1 =>
    match _current_group_reader r1 with
    | None => (null_group_reader, r1, block, rows, eof)
    | Some reader =>
      let '(batch_st, reader', block', rows', group_eof) :=
        next_batch env reader block (_batch_size r1) rows (_row_group_eof r1) in
      let r2 :=
        set_group_reader (Some reader') group_eof (_read_row_groups r1) r1 in
      if negb (ok batch_st) then
        (InternalError
           (String.append "Read parquet file "
              (String.append (_scan_range_path r2)
                 (String.append " failed, reason = "
                    (to_string env batch_st)))),
         r2, block', rows', eof)
      else if group_eof then
        let r3 :=
          set_pruning (_col_offsets r2)
            (mkStatistics (read_rows (_statistics r2))
               (filtered_page_rows (_statistics r2))
               (lazy_read_filtered_rows (_statistics r2)
                + reader_lazy_read_filtered_rows env reader'))
            (set_column_statistics
               (_column_statistics r2 ++ [statistics env reader']) r2) in
        (Status_OK, r3, block', rows',
         Z.of_nat (length (_read_row_groups r3)) =? 0)
      else (Status_OK, r2, block', rows', eof)
    end
  end.

End ParquetReader.

Arguments ParquetEnv : clear implicits.
Arguments ParquetReader : clear implicits.

(** ** Notions used to state the properties *)

(** The calls that can reach a [FragmentExecState] once it is built. *)
Inductive ExecStateCall : Type :=
  | CallUpdateStatus (status : Status)
  | CallCancel (has_stream_load : bool) (reason : PPlanFragmentCancelReason)
      (msg : string)
  | CallSetGroup (user group : string)
  | CallSetNeedWaitExecutionTrigger
  | CallPrepare (env : ExecEnv) (params : TExecPlanFragmentParams)
  | CallCoordinatorCallback (env : ExecEnv) (status : Status) (done : bool).

Definition apply_call (st : FragmentExecState) (c : ExecStateCall)
    : FragmentExecState :=
  match c with
  | CallUpdateStatus status => (FragmentExecState.update_status status st).2
  | CallCancel has_stream_load reason msg =>
    (FragmentExecState.cancel has_stream_load reason msg st).1.2
  | CallSetGroup user group => FragmentExecState.set_group user group st
  | CallSetNeedWaitExecutionTrigger =>
    FragmentExecState.set_need_wait_execution_trigger st
  | CallPrepare env params => (FragmentMgr.prepare env params st).1.2
  | CallCoordinatorCallback env status done =>
    (FragmentMgr.coordinator_callback env
       (FragmentMgr.make_report_request status done st) st).1
  end.

Definition run_calls (calls : list ExecStateCall) (st : FragmentExecState)
    : FragmentExecState :=
  fold_left apply_call calls st.

(** A report attempt fails when it throws or hands back a non-OK status. *)
Definition report_failed (o : RpcOutcome) : bool :=
  match o with
  | RpcReturned res_status => negb (ok res_status)
  | RpcTTransportException _ | RpcTException _ => true
  end.

(** The status [coordinator_callback] holds in [rpc_status] after an
    attempt with outcome [o]. *)
Definition rpc_status_of (addr : string) (o : RpcOutcome) : Status :=
  match o with
  | RpcReturned res_status => res_status
  | RpcTTransportException what | RpcTException what =>
    InternalError (FragmentMgr.report_failed_msg addr what)
  end.

Definition is_report (e : Event) : bool :=
  match e with EvReportExecStatus _ _ _ => true | _ => false end.

Definition is_reopen (e : Event) : bool :=
  match e with EvReopen => true | _ => false end.

Definition is_cancel (e : Event) : bool :=
  match e with
  | EvExecutorCancel _ _ _ | EvPipelineCancel _ _ _ => true
  | _ => false
  end.

Definition count_events (p : Event -> bool) (evs : list Event) : nat :=
  length (List.filter p evs).

(** An id is live when one of the two fragment registries holds it. *)
Definition live (mgr : FragmentMgr) (id : TUniqueId) : Prop :=
  is_Some (_fragment_map mgr !! id) ∨ is_Some (_pipeline_map mgr !! id).

(** What the instance registered under a live id reports. *)
Definition reports_cancelled (mgr : FragmentMgr) (id : TUniqueId) : Prop :=
  (∃ exec_state, _fragment_map mgr !! id = Some exec_state
                 ∧ FragmentExecState.is_canceled exec_state = true)
  ∨ (∃ pipeline_ctx, _pipeline_map mgr !! id = Some pipeline_ctx
                     ∧ pipeline_is_canceled pipeline_ctx = true).

(** The answer [query_is_canceled] takes from a live id: the legacy
    registry is asked first. *)
Definition first_answer (mgr : FragmentMgr) (id : TUniqueId) : Prop :=
  match _fragment_map mgr !! id with
  | Some exec_state => FragmentExecState.is_canceled exec_state = true
  | None =>
    match _pipeline_map mgr !! id with
    | Some pipeline_ctx => pipeline_is_canceled pipeline_ctx = true
    | None => False
    end
  end.

(** Membership of a row in a range and in a list of ranges. *)
Definition in_range (row : Z) (r : RowRange) : Prop :=
  first_row r <= row < last_row r.

Definition in_ranges (row : Z) (l : list RowRange) : Prop :=
  Exists (in_range row) l.

(** A skip range handed over by the page index lies inside the row group. *)
Definition within_group (group_num_rows : Z) (r : RowRange) : Prop :=
  0 <= first_row r ∧ first_row r <= last_row r ∧ last_row r <= group_num_rows.

(** Number of rows covered by a list of disjoint ranges. *)
Definition rows_in (l : list RowRange) : Z :=
  foldr (λ r acc, (last_row r - first_row r) + acc) 0 l.

(** What the sweep has established after the sorted skip ranges [l],
    started from loop state [s], in a row group of [N] rows: [new] are the
    candidates it appended. *)
Definition sweep_post (N : Z) (l : list RowRange) (s s' : Sweep)
    (new : list RowRange) : Prop :=
  candidate_row_ranges s' = candidate_row_ranges s ++ new
  ∧ skip_end s <= skip_end s' <= N
  ∧ Forall (λ r, last_row r <= skip_end s') l
  ∧ Forall (λ c, skip_end s <= first_row c ∧ first_row c < last_row c
                 ∧ last_row c <= skip_end s') new
  ∧ StronglySorted (λ a b, last_row a <= first_row b) new
  ∧ (∀ row, skip_end s <= row < skip_end s' →
            in_ranges row new ↔ ¬ in_ranges row l)
  ∧ sweep_read_rows s' = sweep_read_rows s + rows_in new.

(** Candidate ranges and skip ranges partition the rows [0, N) of a group:
    every row is in a candidate or in a skip range, none is in both, and no
    row is in two candidates. *)
Definition partitions_group (N : Z) (candidates skipped : list RowRange)
    : Prop :=
  Forall (within_group N) candidates
  ∧ (∀ row, 0 <= row < N →
            in_ranges row candidates ∨ in_ranges row skipped)
  ∧ (∀ row, ¬ (in_ranges row candidates ∧ in_ranges row skipped))
  ∧ (∀ (i j : nat) a b row,
       i ≠ j → candidates !! i = Some a → candidates !! j = Some b →
       ¬ (in_range row a ∧ in_range row b)).

(** Successive [get_next_block] calls; each call comes with the caller's
    own block, row counter and eof flag.  Returns what each call reported
    (status, rows read, eof) and the reader left by the last one. *)
Fixpoint get_next_blocks {ColumnValueRange RowGroupReader Block
    ColumnStatistics : Type}
    (env : ParquetEnv ColumnValueRange RowGroupReader Block ColumnStatistics)
    (r : ParquetReader ColumnValueRange RowGroupReader ColumnStatistics)
    (calls : list (Block * Z * bool))
    : list (Status * Z * bool)
      * ParquetReader ColumnValueRange RowGroupReader ColumnStatistics :=
  match calls with
  | [] => ([], r)
  | (block, rows, eof) :: rest =>
    let '(st, r1, _, rows', eof') := get_next_block env r block rows eof in
    let '(reports, r2) := get_next_blocks env r1 rest in
    ((st, rows', eof') :: reports, r2)
  end.

(** The reader [r1] a call of [get_next_block] on [r] reads its batch from:
    [r] itself when its row-group reader is there and not exhausted, and
    otherwise what a successful [_next_row_group_reader] makes of [r]. *)
Definition batch_source {ColumnValueRange RowGroupReader Block
    ColumnStatistics : Type}
    (env : ParquetEnv ColumnValueRange RowGroupReader Block ColumnStatistics)
    (r r1 : ParquetReader ColumnValueRange RowGroupReader ColumnStatistics)
    : Prop :=
  (is_Some (_current_group_reader r) ∧ _row_group_eof r = false ∧ r1 = r)
  ∨ ((_current_group_reader r = None ∨ _row_group_eof r = true)
     ∧ _read_row_groups r ≠ []
     ∧ ∃ st, _next_row_group_reader env r = (st, r1) ∧ ok st = true).

(** ** Sample collaborators, for running the model on concrete files *)

(** Modelled from the spec: the page-index helper is missing from the
    sources; it "converts skipped pages to skipped row-sub-ranges via the
    offset index": a page spans from its first row index to that of the next
    page, the last page to the end of the row group. *)
Definition offset_index_row_range (offset_index : OffsetIndex)
    (total_rows_of_group page_idx : Z) : RowRange :=
  let locations := page_locations offset_index in
  let first_of i := default 0 (first_row_index <$> locations !! Z.to_nat i) in
  mkRowRange (first_of page_idx)
    (if page_idx =? Z.of_nat (length locations) - 1
     then total_rows_of_group
     else first_of (page_idx + 1)).

(** A file whose single predicate column has the given offset index and
    whose predicate rules out the pages [skipped_pages]; the row-group reader
    is a counter of the rows it still holds and hands out at most
    [batch_size] rows per batch. *)
Definition sample_env (offset_index : OffsetIndex) (skipped_pages : list Z)
    : ParquetEnv unit Z unit unit :=
  mkParquetEnv
    (λ _, (true, mkPageIndex 0 0 0 0))
    (λ _ _, (Status_OK, []))
    (λ _ _, (Status_OK,
             mkColumnIndex
               (replicate (length (page_locations offset_index)) false)))
    (λ _ _ _, skipped_pages)
    (λ _ _, (Status_OK, offset_index))
    offset_index_row_range
    (λ _ row_group _, num_rows row_group)
    (λ reader _ _, (Status_OK, reader))
    (λ reader block batch_size _ _,
       let n := Z.min reader batch_size in
       (Status_OK, reader - n, block, n, reader - n =? 0))
    (λ _, tt)
    (λ _, 0)
    message.

Definition pages_at (firsts : list Z) : OffsetIndex :=
  mkOffsetIndex ((λ f, mkPageLocation 0 0 f) <$> firsts).

Definition sample_reader (group_num_rows : Z) (queue : list RowGroupIndex)
    : ParquetReader unit Z unit :=
  mkParquetReader [mkRowGroup [mkColumnChunk 1 1] group_num_rows]
    [mkParquetReadColumn 0 "c"] false false (Some {["c" := tt]}) 4096 None 0
    ∅ (mkStatistics 0 0 0) [] None false queue "part-0.parquet".

(** A query with two registered fragments, the first running and the second
    cancelled, and a query whose only registered fragment has finished. *)
Definition sample_running : FragmentExecState :=
  FragmentExecState.new_FragmentExecState (7, 0) (7, 1) 0 "fe" 0.

Definition sample_cancelled : FragmentExecState :=
  (FragmentExecState.cancel false INTERNAL_ERROR ""
     (FragmentExecState.new_FragmentExecState (7, 0) (7, 2) 0 "fe" 0)).1.2.

Definition sample_ctx (qid : TUniqueId) (ids : list TUniqueId)
    : QueryFragmentsCtx :=
  mkQueryFragmentsCtx qid "fe" 2 ids (-1) 0 "" "" false None None false false
    None.

Definition sample_mgr : FragmentMgr :=
  mkFragmentMgr
    (<[(7, 1) := sample_running]> (<[(7, 2) := sample_cancelled]> ∅))
    ∅
    (<[(7, 0) := sample_ctx (7, 0) [(7, 1); (7, 2)]]>
       (<[(8, 0) := sample_ctx (8, 0) [(8, 1)]]> ∅)).

(** Ids printed as hi-lo, both in decimal. *)
Definition sample_print_id (id : TUniqueId) : string :=
  String.append (pretty id.1) (String.append "-" (pretty id.2)).

(** A backend whose collaborators all succeed, with a process memory
    ceiling of 4 GB; [report] and [retry] are the outcomes of the first and
    the second [reportExecStatus]. *)
Definition sample_exec_env (report retry : RpcOutcome) : ExecEnv :=
  mkExecEnv 4294967296 Status_OK 0 Status_OK Status_OK Status_OK Status_OK 5
    (λ _, false) Status_OK report Status_OK retry sample_print_id message
    "be1".

(** A first (non-simplified) fragment request of query (9, 0) asking for a
    memory limit of [limit] bytes. *)
Definition sample_params (instance_id : TUniqueId) (limit : Z)
    : TExecPlanFragmentParams :=
  mkTExecPlanFragmentParams instance_id (9, 0)
    (mkTQueryOptions true limit 300 SELECT false false false false false 0)
    true false 1 "fe" false "" "" false false 0.

(** A gzip-compressed CSV split that starts 1024 bytes into the file. *)
Definition sample_csv_reader : CsvReader :=
  mkCsvReader
    (mkCsvScanParams 1024 false false "" false 0 (FILE_OTHER 0) [] [] 0)
    FORMAT_CSV_GZ GZ 4096 0 1024 None false false [] [].

(** A manager whose only fragment started at time 0 with a timeout of
    [timeout] seconds. *)
Definition sample_timed_mgr (timeout : Z) : FragmentMgr :=
  mkFragmentMgr
    (<[(7, 1) := FragmentExecState.set_timeout_second timeout sample_running]> ∅)
    ∅ ∅.

(** A fragment whose execution has failed. *)
Definition sample_failed : FragmentExecState :=
  (FragmentExecState.update_status (InternalError "scan failed")
     sample_running).2.

(** * Further functions of the three files *)

(** ** fragment_mgr.cpp: running and finishing a fragment *)

Definition set_fragment_num (n : Z) (c : QueryFragmentsCtx) :=
  mkQueryFragmentsCtx (query_id c) (coord_addr c) n (fragment_ids c)
    (timeout_second c) (ctx_start_time c) (user c) (group c) (set_rsc_info c)
    (thread_token c) (query_mem_tracker c) (ready_to_execute c)
    (pipeline_engine_enabled c) (task_group c).

(** Modelled from the spec: the class body of [QueryFragmentsCtx] is missing
    from the sources.  [countdown] takes one off the count of live fragments
    and tells whether this was "the transition from count=1 to count=0". *)
Definition countdown (c : QueryFragmentsCtx) : bool * QueryFragmentsCtx :=
  (fragment_num c =? 1, set_fragment_num (fragment_num c - 1) c).

(** Calls made while a fragment runs: those of [Event], and the ones only
    [execute] and [_exec_actual] make. *)
Inductive RunEvent : Type :=
  | EvCall (e : Event)
  | EvWaitForStart (query_id : TUniqueId)
  | EvExecutorOpen (instance_id : TUniqueId)
  | EvExecutorClose (instance_id : TUniqueId)
  | EvFinishCallback (instance_id : TUniqueId).

(** What the collaborators answer while a fragment runs: whether the start
    signal arrived before [wait_for_start] gave up, whether the executor's
    runtime state is cancelled, and what [PlanFragmentExecutor::open]
    returns. *)
Record RunEnv : Type := mkRunEnv {
  wait_for_start : bool;
  runtime_state_is_cancelled : bool;
  executor_open : Status
}.

(** [Status FragmentExecState::execute()] *)
Definition execute (env : ExecEnv) (run : RunEnv) (st : FragmentExecState)
    : Status * FragmentExecState * list RunEvent :=
  let id := _fragment_instance_id st in
  let has_stream_load := new_load_stream_mgr_get env (_query_id st) in
  let waited :=
    if _need_wait_execution_trigger st then [EvWaitForStart (_query_id st)]
    else [] in
  if _need_wait_execution_trigger st && negb (wait_for_start run) then
    let '(cancel_st, st1, ev) :=
      FragmentExecState.cancel has_stream_load INTERNAL_ERROR
        "wait fragment start timeout" st in
    (cancel_st, st1, waited ++ (EvCall <$> ev))
  else if runtime_state_is_cancelled run then
    (Cancelled "cancelled before execution", st, waited)
  else
    let open_st := executor_open run in
    let '(st1, ev) :=
      if negb (ok open_st) then
        let '(_, st1, ev) :=
          FragmentExecState.cancel has_stream_load INTERNAL_ERROR
            "PlanFragmentExecutor open failed" st in
        (st1, ev)
      else (st, []) in
    (Status_OK, st1,
     waited ++ [EvExecutorOpen id] ++ (EvCall <$> ev) ++ [EvExecutorClose id]).

(** What [exec_state->get_fragments_ctx()] points to when the worker-pool
    task runs.  The pointer is shared with the registry, so a countdown
    through it shows in the registry entry as long as the registry still
    holds this object; once the timeout sweep has evicted the object
    (lines 1018-1020) the fragment holds it on its own, whatever a later
    request has registered under the same query id (lines 672-674). *)
Inductive HeldContext : Type :=
  | HeldNull
  | HeldRegistered
  | HeldDetached (fragments_ctx : QueryFragmentsCtx).

(** [void FragmentMgr::_exec_actual(exec_state, cb)], the task the worker
    pool runs.  [exec_state] is the object the task holds and [held] the
    query context it points to; the fragment leaves the registry here, so
    the function hands both back as it leaves them.  [HeldRegistered] stands
    for the object [_fragments_ctx_map] holds under the query id the
    fragment was built with; it comes with such an entry, and without one
    nothing is counted. *)
Definition _exec_actual (env : ExecEnv) (run : RunEnv) (held : HeldContext)
    (exec_state : FragmentExecState) (mgr : FragmentMgr)
    : FragmentExecState * HeldContext * FragmentMgr * list RunEvent :=
  let '(st, exec_state1, ev1) := execute env run exec_state in
  let '(exec_state2, ev2) :=
    if negb (ok st) then
      let '(_, exec_state2, ev) :=
        FragmentExecState.cancel
          (new_load_stream_mgr_get env (_query_id exec_state1)) INTERNAL_ERROR
          "exec_state execute failed" exec_state1 in
      (exec_state2, ev)
    else (exec_state1, []) in
  let fragment_map :=
    delete (_fragment_instance_id exec_state2) (_fragment_map mgr) in
  let '(held1, ctx_map) :=
    match held with
    | HeldNull => (HeldNull, _fragments_ctx_map mgr)
    | HeldRegistered =>
      match _fragments_ctx_map mgr !! _query_id exec_state2 with
      | Some fragments_ctx =>
        let '(all_done, counted) := countdown fragments_ctx in
        let stored :=
          <[_query_id exec_state2 := counted]> (_fragments_ctx_map mgr) in
        if all_done
        then (HeldDetached counted, delete (query_id counted) stored)
        else (HeldRegistered, stored)
      | None => (HeldRegistered, _fragments_ctx_map mgr)
      end
    | HeldDetached fragments_ctx =>
      let '(all_done, counted) := countdown fragments_ctx in
      (HeldDetached counted,
       if all_done
       then delete (query_id counted) (_fragments_ctx_map mgr)
       else _fragments_ctx_map mgr)
    end in
  (exec_state2, held1, mkFragmentMgr fragment_map (_pipeline_map mgr) ctx_map,
   ev1 ++ (EvCall <$> ev2)
   ++ [EvFinishCallback (_fragment_instance_id exec_state2)]).

(** ** fragment_mgr.cpp: [exec_plan_fragment] for pipeline parameters *)

Record TPipelineInstanceParams : Type := mkTPipelineInstanceParams {
  local_fragment_instance_id : TUniqueId;
  local_backend_num : Z
}.

(** [shared] holds the members [_get_query_ctx] and the loop read under the
    same names in both parameter structures (query id, query options,
    [is_simplified_param], [fragment_num_on_host], [coord], resource info,
    [need_wait_execution_trigger]); its instance id is not read. *)
Record TPipelineFragmentParams : Type := mkTPipelineFragmentParams {
  shared : TExecPlanFragmentParams;
  fragment_id : Z;
  local_params : list TPipelineInstanceParams
}.

(** What [PipelineFragmentContext::prepare] and [submit] answer for each
    instance. *)
Record PipelineEnv : Type := mkPipelineEnv {
  context_prepare : TUniqueId -> Status;
  context_submit : TUniqueId -> Status
}.

(** The body of [for (size_t i = 0; i < params.local_params.size(); i++)]:
    [inl] when the function returns from inside the loop. *)
Definition pipeline_instance_step (penv : PipelineEnv)
    (params : TPipelineFragmentParams) (key : TUniqueId)
    (fragments_ctx : QueryFragmentsCtx)
    (local : TPipelineInstanceParams) (mgr : FragmentMgr)
    : (Status + unit) * FragmentMgr * list Event :=
  let fragment_instance_id := local_fragment_instance_id local in
  match _pipeline_map mgr !! fragment_instance_id with
  | Some _ => (inr tt, mgr, [])
  | None =>
    let need_wait := isset_need_wait_execution_trigger (shared params)
                     && need_wait_execution_trigger (shared params) in
    let push := QueryFragmentsCtx.push_fragment_id fragment_instance_id in
    let ctx_map1 := alter push key (_fragments_ctx_map mgr) in
    let ctx_map2 :=
      if negb need_wait
      then alter QueryFragmentsCtx.set_ready_to_execute_only key ctx_map1
      else ctx_map1 in
    let mgr1 := FragmentMgr.set_fragments_ctx_map ctx_map2 mgr in
    let ev1 := [EvSetupSharedHashtable fragment_instance_id;
                EvPipelinePrepare fragment_instance_id] in
    let context :=
      mkPipelineFragmentContext (query_id fragments_ctx) fragment_instance_id
        (fragment_id params) (local_backend_num local) false in
    let prepare_st := context_prepare penv fragment_instance_id in
    if negb (ok prepare_st) then
      (inl prepare_st, mgr1,
       ev1 ++ [EvPipelineCloseIfPrepareFailed fragment_instance_id])
    else
      let mgr2 :=
        FragmentMgr.set_pipeline_map
          (map_insert_new fragment_instance_id context (_pipeline_map mgr1))
          mgr1 in
      let ev2 := ev1 ++ [EvAddRuntimeFilterEntity fragment_instance_id;
                         EvPipelineSubmit fragment_instance_id] in
      let submit_st := context_submit penv fragment_instance_id in
      if negb (ok submit_st) then (inl submit_st, mgr2, ev2)
      else (inr tt, mgr2, ev2)
  end.

Fixpoint pipeline_instances_loop (penv : PipelineEnv)
    (params : TPipelineFragmentParams) (key : TUniqueId)
    (fragments_ctx : QueryFragmentsCtx)
    (locals : list TPipelineInstanceParams) (mgr : FragmentMgr)
    : Status * FragmentMgr * list Event :=
  match locals with
  | [] => (Status_OK, mgr, [])
  | local :: rest =>
    let '(res, mgr1, ev1) :=
      pipeline_instance_step penv params key fragments_ctx local mgr in
    match res with
    | inl st => (st, mgr1, ev1)
    | inr _ =>
      let '(st, mgr2, ev2) :=
        pipeline_instances_loop penv params key fragments_ctx rest mgr1 in
      (st, mgr2, ev1 ++ ev2)
    end
  end.

(** [exec_plan_fragment(const TPipelineFragmentParams&, const FinishCallback&)] *)
Definition exec_pipeline_fragment (env : ExecEnv) (penv : PipelineEnv)
    (params : TPipelineFragmentParams) (mgr : FragmentMgr)
    : Status * FragmentMgr * list Event :=
  let key := params_query_id (shared params) in
  let '(res, mgr1, ev1) :=
    FragmentMgr._get_query_ctx env (shared params) key true mgr in
  match res with
  | inl st => (st, mgr1, ev1)
  | inr fragments_ctx =>
    let '(st, mgr2, ev2) :=
      pipeline_instances_loop penv params key fragments_ctx
        (local_params params) mgr1 in
    (st, mgr2, ev1 ++ ev2)
  end.

(** ** Notions about the registries *)

(** Every entry of the fragment registry sits under its own instance id. *)
Definition keyed_by_instance_id (mgr : FragmentMgr) : Prop :=
  ∀ id exec_state,
    _fragment_map mgr !! id = Some exec_state →
    _fragment_instance_id exec_state = id.

(** [mgr'] differs from [mgr] by cancellation flags that went up, and by
    nothing else: the same ids are registered, no status, timeout or
    context has changed. *)
Definition only_cancels (mgr mgr' : FragmentMgr) : Prop :=
  _fragments_ctx_map mgr' = _fragments_ctx_map mgr
  ∧ (∀ id, match _fragment_map mgr !! id with
           | Some exec_state =>
             _fragment_map mgr' !! id = Some exec_state
             ∨ _fragment_map mgr' !! id
               = Some (FragmentExecState.set_cancelled true exec_state)
           | None => _fragment_map mgr' !! id = None
           end)
  ∧ (∀ id, match _pipeline_map mgr !! id with
           | Some pipeline_ctx =>
             _pipeline_map mgr' !! id = Some pipeline_ctx
             ∨ _pipeline_map mgr' !! id = Some (pipeline_cancel pipeline_ctx)
           | None => _pipeline_map mgr' !! id = None
           end).

(** Whether a report reached the coordinator and was answered with OK: at
    the first attempt, or at the second one after a transport failure and a
    successful reopen. *)
Definition report_delivered (env : ExecEnv) : bool :=
  match first_reportExecStatus env with
  | RpcReturned res_status => ok res_status
  | RpcTException _ => false
  | RpcTTransportException _ =>
    ok (coord_reopen env)
    && match second_reportExecStatus env with
       | RpcReturned res_status => ok res_status
       | _ => false
       end
  end.

(** A request for the two instances (9, 1) and (9, 2) of query (9, 0). *)
Definition sample_pipeline_params : TPipelineFragmentParams :=
  mkTPipelineFragmentParams
    (mkTExecPlanFragmentParams (0, 0) (9, 0)
       (mkTQueryOptions false 0 300 SELECT true true false false false 0)
       true false 2 "fe" false "" "" false false 0)
    3 [mkTPipelineInstanceParams (9, 1) 0; mkTPipelineInstanceParams (9, 2) 1].

Definition sample_pipeline_env : PipelineEnv :=
  mkPipelineEnv (λ _, Status_OK) (λ _, Status_OK).

Definition sample_run_env : RunEnv := mkRunEnv true false Status_OK.

(** What [FragmentExecState::cancel] leaves of a fragment state. *)
Definition raise_cancelled (st : FragmentExecState) : FragmentExecState :=
  if _cancelled st then st else FragmentExecState.set_cancelled true st.

(** The instance [query_is_canceled] would ask about [id], if there is one,
    reports cancelled. *)
Definition settled (mgr : FragmentMgr) (id : TUniqueId) : Prop :=
  match _fragment_map mgr !! id with
  | Some exec_state => FragmentExecState.is_canceled exec_state = true
  | None =>
    match _pipeline_map mgr !! id with
    | Some pipeline_ctx => pipeline_is_canceled pipeline_ctx = true
    | None => True
    end
  end.

(** The fragment state a submission has built when it reaches the registry:
    constructed, marked as waiting for the start signal if the request says
    so, and prepared. *)
Definition submitted_state (env : ExecEnv) (params : TExecPlanFragmentParams)
    (fragments_ctx : QueryFragmentsCtx) : FragmentExecState :=
  let need_wait := isset_need_wait_execution_trigger params
                   && need_wait_execution_trigger params in
  let exec_state0 :=
    FragmentExecState.new_FragmentExecState (query_id fragments_ctx)
      (params_fragment_instance_id params) (backend_num params)
      (coord_addr fragments_ctx) (local_time env) in
  (FragmentMgr.prepare env params
     (if need_wait
      then FragmentExecState.set_need_wait_execution_trigger exec_state0
      else exec_state0)).1.2.

(** The request asks for the pipeline engine. *)
Definition wants_pipeline (params : TExecPlanFragmentParams) : bool :=
  isset_enable_pipeline_engine (query_options params)
  && enable_pipeline_engine (query_options params).

(** A backend whose worker pool takes no more tasks. *)
Definition sample_full_pool_env : ExecEnv :=
  mkExecEnv 4294967296 Status_OK 0 Status_OK (InternalError "pool is full")
    Status_OK Status_OK 5 (λ _, false) Status_OK (RpcReturned Status_OK)
    Status_OK (RpcReturned Status_OK) sample_print_id message "be1".

(** The instance ids of a request the pipeline loop registers, in order:
    those not yet seen, in the registry or earlier in the request. *)
Fixpoint new_instances (seen : gset TUniqueId) (ids : list TUniqueId)
    : list TUniqueId :=
  match ids with
  | [] => []
  | id :: rest =>
    if decide (id ∈ seen) then new_instances seen rest
    else id :: new_instances ({[id]} ∪ seen) rest
  end.

(** The execution of a fragment did not go through: the start signal did
    not arrive, the runtime state was cancelled before the executor was
    opened, or opening it failed. *)
Definition execution_failed (run : RunEnv) (st : FragmentExecState) : bool :=
  (_need_wait_execution_trigger st && negb (wait_for_start run))
  || runtime_state_is_cancelled run
  || negb (ok (executor_open run)).

Definition is_executor_open (e : RunEvent) : bool :=
  match e with EvExecutorOpen _ => true | _ => false end.

Definition is_executor_close (e : RunEvent) : bool :=
  match e with EvExecutorClose _ => true | _ => false end.

(** The context the pipeline loop builds for one instance of a request. *)
Definition pipeline_context_of (params : TPipelineFragmentParams)
    (fragments_ctx : QueryFragmentsCtx) (local : TPipelineInstanceParams)
    : PipelineFragmentContext :=
  mkPipelineFragmentContext (query_id fragments_ctx)
    (local_fragment_instance_id local) (fragment_id params)
    (local_backend_num local) false.

(** ** vparquet_reader.cpp: choosing the columns and the row groups *)

(** The file schema is the list of its column names, by physical index. *)
Definition schema_column_name (schema : list string) (id : Z) : string :=
  default "" (schema !! Z.to_nat id).

(** The loop of [init_reader] over the schema (lines 264-278): a column of
    the file enters [_map_column] with its index when it is asked for and
    not declared missing. *)
Fixpoint map_schema_columns (all_column_names missing_column_names : list string)
    (i : Z) (schema : list string) (_map_column : gmap string Z)
    : gmap string Z :=
  match schema with
  | [] => _map_column
  | name :: rest =>
    map_schema_columns all_column_names missing_column_names (i + 1) rest
      (if bool_decide (name ∈ all_column_names)
          && bool_decide (name ∉ missing_column_names)
       then emplace name i _map_column
       else _map_column)
  end.

(** The first loop of [_init_read_columns]. *)
Fixpoint collect_column_ids (_map_column : gmap string Z)
    (column_names : list string) (include_column_ids : list Z)
    (missing_cols : list string) : list Z * list string :=
  match column_names with
  | [] => (include_column_ids, missing_cols)
  | file_col_name :: rest =>
    match _map_column !! file_col_name with
    | Some id =>
      collect_column_ids _map_column rest (include_column_ids ++ [id])
        missing_cols
    | None =>
      collect_column_ids _map_column rest include_column_ids
        (missing_cols ++ [file_col_name])
    end
  end.

(** [Status ParquetReader::_init_read_columns()]: returns the status,
    [_read_columns] and [_missing_cols].  [std::sort] on integers is the
    ascending arrangement. *)
Definition _init_read_columns (schema column_names : list string)
    (_map_column : gmap string Z) (read_columns : list ParquetReadColumn)
    (missing_cols : list string)
    : Status * list ParquetReadColumn * list string :=
  let '(include_column_ids, missing_cols') :=
    collect_column_ids _map_column column_names [] missing_cols in
  match include_column_ids with
  | [] => (Status_OK, read_columns, missing_cols')
  | _ :: _ =>
    (Status_OK,
     read_columns
     ++ ((λ parquet_col_id,
            mkParquetReadColumn parquet_col_id
              (schema_column_name schema parquet_col_id))
           <$> merge_sort Z.le include_column_ids),
     missing_cols')
  end.

(** The members of [tparquet::ColumnMetaData], [ColumnChunk] and [RowGroup]
    that the selection of row groups reads. *)
Record ColumnMetaData : Type := mkColumnMetaData {
  isset_dictionary_page_offset : bool;
  dictionary_page_offset : Z;
  data_page_offset : Z;
  total_compressed_size : Z;
  isset_statistics_max : bool;
  isset_statistics_min : bool;
  statistics_max : string;
  statistics_min : string
}.

Record ColumnChunkMeta : Type := mkColumnChunkMeta {
  isset_meta_data : bool;
  meta_data : ColumnMetaData
}.

Record RowGroupMeta : Type := mkRowGroupMeta {
  group_columns : list ColumnChunkMeta;
  group_num_rows : Z
}.

Record FileMetaData : Type := mkFileMetaData {
  file_row_groups : list RowGroupMeta;
  file_num_rows : Z
}.

Record GroupStatistics : Type := mkGroupStatistics {
  read_row_groups : Z;
  read_bytes : Z;
  filtered_row_groups : Z;
  filtered_bytes : Z;
  filtered_group_rows : Z
}.

(** What [_init_row_groups] writes: the queue [_read_row_groups],
    [_whole_range] and the group counters of [_statistics]. *)
Record RowGroupSelection : Type := mkRowGroupSelection {
  selected_row_groups : list RowGroupIndex;
  _whole_range : RowRange;
  group_statistics : GroupStatistics
}.

(** [int64_t ParquetReader::_get_column_start_offset(column)] *)
Definition _get_column_start_offset (column : ColumnMetaData) : Z :=
  if isset_dictionary_page_offset column then dictionary_page_offset column
  else data_page_offset column.

Definition column_meta_at (row_group : RowGroupMeta) (i : Z) : ColumnMetaData :=
  meta_data
    (default (mkColumnChunkMeta false
                (mkColumnMetaData false 0 0 0 false false "" ""))
       (group_columns row_group !! Z.to_nat i)).

(** The byte in the middle of a row group, as [_is_misaligned_range_group]
    computes it; [/] on [int64_t] truncates. *)
Definition row_group_mid (row_group : RowGroupMeta) : Z :=
  let start_offset := _get_column_start_offset (column_meta_at row_group 0) in
  let last_column :=
    column_meta_at row_group (Z.of_nat (length (group_columns row_group)) - 1) in
  let end_offset :=
    _get_column_start_offset last_column + total_compressed_size last_column in
  start_offset + Z.quot (end_offset - start_offset) 2.

(** [bool ParquetReader::_is_misaligned_range_group(row_group)] for the scan
    range [_range_start_offset], [_range_size]. *)
Definition _is_misaligned_range_group (_range_start_offset _range_size : Z)
    (row_group : RowGroupMeta) : bool :=
  if negb ((row_group_mid row_group >=? _range_start_offset)
           && (row_group_mid row_group <? _range_start_offset + _range_size))
  then true else false.

Section RowGroupSelection.

Context {ColumnValueRange : Type}.

(** [ParquetPredicate::filter_by_min_max] on a column's value range, its
    name in the schema and the minimum and maximum of its statistics. *)
Variable filter_by_min_max : ColumnValueRange -> string -> string -> string -> bool.

Variables (_range_start_offset _range_size : Z).
Variables (_column_names : list string) (_map_column : gmap string Z).
Variable _colname_to_value_range : option (gmap string ColumnValueRange).
Variable _read_columns : list ParquetReadColumn.

(** The loop of [_process_column_stat_filter]: it stops at the first column
    whose statistics rule the row group out. *)
Fixpoint column_stat_filter_loop (value_range : gmap string ColumnValueRange)
    (row_group : RowGroupMeta) (names : list string) (filter_group : bool)
    : bool :=
  match names with
  | [] => filter_group
  | col_name :: rest =>
    match _map_column !! col_name with
    | None => column_stat_filter_loop value_range row_group rest filter_group
    | Some parquet_col_id =>
      match value_range !! col_name with
      | None => column_stat_filter_loop value_range row_group rest filter_group
      | Some slot =>
        let statistic := column_meta_at row_group parquet_col_id in
        if negb (isset_statistics_max statistic)
           || negb (isset_statistics_min statistic)
        then column_stat_filter_loop value_range row_group rest filter_group
        else
          let filter_group' :=
            filter_by_min_max slot col_name (statistics_min statistic)
              (statistics_max statistic) in
          if filter_group' then filter_group'
          else column_stat_filter_loop value_range row_group rest filter_group'
      end
    end
  end.

(** [_process_column_stat_filter]; it always returns OK. *)
Definition _process_column_stat_filter (row_group : RowGroupMeta)
    (filter_group : bool) : Status * bool :=
  match _colname_to_value_range with
  | None => (Status_OK, filter_group)
  | Some value_range =>
    if bool_decide (value_range = ∅) then (Status_OK, filter_group)
    else (Status_OK,
          column_stat_filter_loop value_range row_group _column_names
            filter_group)
  end.

(** [_process_row_group_filter]: the dictionary and bloom-filter steps are
    empty and return OK. *)
Definition _process_row_group_filter (row_group : RowGroupMeta)
    (filter_group : bool) : Status * bool :=
  _process_column_stat_filter row_group filter_group.

(** Compressed bytes of the columns to read in a row group. *)
Definition needed_group_size (row_group : RowGroupMeta) : Z :=
  fold_left
    (λ group_size read_col,
       match group_columns row_group !! Z.to_nat (_parquet_col_id read_col) with
       | Some chunk =>
         if isset_meta_data chunk
         then group_size + total_compressed_size (meta_data chunk)
         else group_size
       | None => group_size
       end)
    _read_columns 0.

(** The loop of [_init_row_groups] from row group [row_group_idx] on, whose
    first row is [row_index]; the status is not OK when the loop is left by
    the [RETURN_IF_ERROR]. *)
Fixpoint init_row_groups_loop (is_filter_groups : bool)
    (row_group_idx row_index : Z) (groups : list RowGroupMeta)
    (s : RowGroupSelection) : Status * RowGroupSelection :=
  match groups with
  | [] => (Status_OK, s)
  | row_group :: rest =>
    let next :=
      init_row_groups_loop is_filter_groups (row_group_idx + 1)
        (row_index + group_num_rows row_group) rest in
    if is_filter_groups
       && _is_misaligned_range_group _range_start_offset _range_size row_group
    then next s
    else
      let '(filter_st, filter_group) :=
        if is_filter_groups then _process_row_group_filter row_group false
        else (Status_OK, false) in
      if negb (ok filter_st) then (filter_st, s) else
      let group_size := needed_group_size row_group in
      let st := group_statistics s in
      if negb filter_group then
        next
          (mkRowGroupSelection
             (selected_row_groups s
              ++ [mkRowGroupIndex row_group_idx row_index
                    (row_index + group_num_rows row_group)])
             (mkRowRange
                (if read_row_groups st =? 0 then row_index
                 else first_row (_whole_range s))
                (row_index + group_num_rows row_group))
             (mkGroupStatistics (read_row_groups st + 1)
                (read_bytes st + group_size) (filtered_row_groups st)
                (filtered_bytes st) (filtered_group_rows st)))
      else
        next
          (mkRowGroupSelection (selected_row_groups s) (_whole_range s)
             (mkGroupStatistics (read_row_groups st) (read_bytes st)
                (filtered_row_groups st + 1) (filtered_bytes st + group_size)
                (filtered_group_rows st + group_num_rows row_group)))
  end.

(** [Status ParquetReader::_init_row_groups(is_filter_groups)];
    [_total_groups] is the [int32_t] that [init_reader] stored the number of
    row groups into. *)
Definition _init_row_groups (is_filter_groups : bool) (metadata : FileMetaData)
    (s : RowGroupSelection) : Status * RowGroupSelection :=
  let _total_groups := wrap32 (Z.of_nat (length (file_row_groups metadata))) in
  if is_filter_groups
     && ((_total_groups =? 0) || (file_num_rows metadata =? 0)
         || (_range_size <? 0))
  then (EndOfFile "No row group to read", s)
  else
    let '(st, s') :=
      init_row_groups_loop is_filter_groups 0 0
        (take (Z.to_nat _total_groups) (file_row_groups metadata)) s in
    if negb (ok st) then (st, s')
    else
      match selected_row_groups s' with
      | [] => (EndOfFile "No row group to read", s')
      | _ :: _ => (Status_OK, s')
      end.

End RowGroupSelection.

(** ** Notions about columns and row groups *)

(** Position of the first column of that name in the schema. *)
Fixpoint first_index (name : string) (schema : list string) : option nat :=
  match schema with
  | [] => None
  | n :: rest =>
    if decide (n = name) then Some 0%nat else S <$> first_index name rest
  end.

(** Number of rows in a list of row groups. *)
Definition rows_of (groups : list RowGroupMeta) : Z :=
  foldr (λ g acc, group_num_rows g + acc) 0 groups.

(** A queue entry names a row group of the file and spans its rows: it
    starts where the row groups before it end. *)
Definition spans_row_group (groups : list RowGroupMeta) (idx : RowGroupIndex)
    : Prop :=
  0 <= row_group_id idx
  ∧ ∃ row_group,
      groups !! Z.to_nat (row_group_id idx) = Some row_group
      ∧ group_first_row idx = rows_of (take (Z.to_nat (row_group_id idx)) groups)
      ∧ group_last_row idx = group_first_row idx + group_num_rows row_group.

(** Whether [_init_row_groups] queues a row group: with filtering on, the
    group must belong to the scan range and pass the statistics filter. *)
Definition keeps_row_group {ColumnValueRange : Type}
    (filter_by_min_max : ColumnValueRange -> string -> string -> string -> bool)
    (_range_start_offset _range_size : Z) (_column_names : list string)
    (_map_column : gmap string Z)
    (_colname_to_value_range : option (gmap string ColumnValueRange))
    (is_filter_groups : bool) (row_group : RowGroupMeta) : bool :=
  negb is_filter_groups
  || (negb (_is_misaligned_range_group _range_start_offset _range_size
              row_group)
      && negb (_process_row_group_filter filter_by_min_max _column_names
                 _map_column _colname_to_value_range row_group false).2).

(** Nothing selected yet, no counter touched. *)
Definition empty_selection : RowGroupSelection :=
  mkRowGroupSelection [] (mkRowRange 0 0) (mkGroupStatistics 0 0 0 0 0).

(** Scan ranges that follow one another without a gap, given as (start
    offset, size) pairs. *)
Fixpoint contiguous (start : Z) (ranges : list (Z * Z)) : Prop :=
  match ranges with
  | [] => True
  | (range_start, range_size) :: rest =>
    range_start = start ∧ 0 <= range_size
    ∧ contiguous (range_start + range_size) rest
  end.

Definition ranges_end (start : Z) (ranges : list (Z * Z)) : Z :=
  fold_left (λ acc r, acc + r.2) ranges start.

(** A file of three row groups of 10, 20 and 30 rows, 100 bytes each. *)
Definition sample_row_group (start rows : Z) : RowGroupMeta :=
  mkRowGroupMeta
    [mkColumnChunkMeta true (mkColumnMetaData false 0 start 100 false false "" "")]
    rows.

Definition sample_metadata : FileMetaData :=
  mkFileMetaData
    [sample_row_group 4 10; sample_row_group 104 20; sample_row_group 204 30] 60.


(** Three scan ranges that split a file of 304 bytes. *)
Definition sample_scan_ranges : list (Z * Z) := [(0, 100); (100, 100); (200, 104)].

(** A reader holding four position deletes, the first of which has been
    handed out. *)
Definition sample_delete_reader : ParquetReader unit Z unit :=
  mkParquetReader [mkRowGroup [mkColumnChunk 1 1] 10]
    [mkParquetReadColumn 0 "c"] false false (Some {["c" := tt]}) 4096
    (Some [3; 12; 15; 27]) 1 ∅ (mkStatistics 0 0 0) [] None false []
    "part-0.parquet".
(** ** csv_reader.cpp: splitting a line into values *)

(** [size_t] arithmetic: a difference is taken modulo 2^64.  Offsets and
    sizes of a line held in memory are far below 2^64, so sums do not wrap. *)
Definition wrap64 (z : Z) : Z := z mod 2 ^ 64.

(** A [Slice] is a pointer and a size.  The values the splitters store
    point into the line: they are kept as the offset from [line.data] and the
    size.  Other slices (the null slice, the column values of a protobuf row)
    are kept by their text. *)
Inductive Slice : Type :=
  | LineSlice (offset size : Z)
  | TextSlice (text : list Ascii.ascii).

(** [const static Slice _s_null_slice = Slice("\\N")] *)
Definition _s_null_slice : Slice := TextSlice (list_ascii_of_string "\N").

Definition double_quote : Ascii.ascii := Ascii.ascii_of_nat 34.
Definition space : Ascii.ascii := Ascii.ascii_of_nat 32.

(** The byte [*(value + i)]: inside the line it is the line's byte; a read
    outside the line yields whatever the memory around the line holds. *)
Definition byte_at (stray : Z -> Ascii.ascii) (line : list Ascii.ascii) (i : Z)
    : Ascii.ascii :=
  if (0 <=? i) && (i <? Z.of_nat (length line))
  then nth (Z.to_nat i) line Ascii.zero
  else stray i.

(** The members of the reader that splitting consults;
    [trim_tailing_spaces] stands for [_state != nullptr &&
    _state->trim_tailing_spaces_for_external_table_query()]. *)
Record CsvTextParams : Type := mkCsvTextParams {
  _value_separator : list Ascii.ascii;
  _trim_double_quotes : bool;
  trim_tailing_spaces : bool
}.

Module CsvSplit.

Section Line.

Variable stray : Z -> Ascii.ascii.
Variable line : list Ascii.ascii.
Variable p : CsvTextParams.

Definition value (i : Z) : Ascii.ascii := byte_at stray line i.

(** [while (non_space > start && *(value + non_space - 1) == ' ') non_space--;]
    for [non_space = start + k]. *)
Fixpoint trim_spaces_loop (start : Z) (k : nat) : Z :=
  match k with
  | O => start
  | S k' =>
    if Ascii.eqb (value (start + Z.of_nat k')) space
    then trim_spaces_loop start k'
    else start + Z.of_nat (S k')
  end.

Definition trim_spaces (start non_space : Z) : Z :=
  if non_space >? start
  then trim_spaces_loop start (Z.to_nat (non_space - start))
  else non_space.

(** Lines 456-468 and 475-486 of [_split_line_for_single_char_delimiter]:
    the value stored for the field from [start_field] up to [cur_pos]. *)
Definition single_char_value (start_field cur_pos : Z) : Slice :=
  let non_space :=
    if trim_tailing_spaces p then trim_spaces start_field cur_pos
    else cur_pos in
  if _trim_double_quotes p && (non_space >? start_field + 1)
     && Ascii.eqb (value start_field) double_quote
     && Ascii.eqb (value (non_space - 1)) double_quote
  then LineSlice (start_field + 1)
         (wrap64 ((non_space - 1) - (start_field + 1)))
  else LineSlice start_field (wrap64 (non_space - start_field)).

(** The [for] loop of [_split_line_for_single_char_delimiter] over the rest of
    the line from [cur_pos] on. *)
Fixpoint single_char_loop (separator : Ascii.ascii) (rest : list Ascii.ascii)
    (cur_pos start_field : Z) (_split_values : list Slice)
    : Z * Z * list Slice :=
  match rest with
  | [] => (cur_pos, start_field, _split_values)
  | c :: rest' =>
    if Ascii.eqb c separator
    then single_char_loop separator rest' (cur_pos + 1) (cur_pos + 1)
           (_split_values ++ [single_char_value start_field cur_pos])
    else single_char_loop separator rest' (cur_pos + 1) start_field
           _split_values
  end.

(** [_split_line_for_proto_format]: the column values of the protobuf row
    the line points to, which [proto_row] stands for. *)
Definition _split_line_for_proto_format (proto_row : list (list Ascii.ascii))
    (_split_values : list Slice) : list Slice :=
  _split_values ++ (TextSlice <$> proto_row).

(** [void CsvReader::_split_line_for_single_char_delimiter(const Slice& line)]:
    returns [_split_values]. *)
Definition _split_line_for_single_char_delimiter
    (_file_format_type : TFileFormatType)
    (proto_row : list (list Ascii.ascii)) : list Slice :=
  match _file_format_type with
  | FORMAT_PROTO => _split_line_for_proto_format proto_row []
  | _ =>
    let '(cur_pos, start_field, _split_values) :=
      single_char_loop (nth 0 (_value_separator p) Ascii.zero) line 0 0 [] in
    _split_values ++ [single_char_value start_field cur_pos]
  end.

(** Lines 524-536 and 545-556 of [_split_line]: the value stored for the
    field from [start] up to [curpos].  Here the guard of the quote trimming
    subtracts from [non_space] before it compares. *)
Definition multi_char_value (start curpos : Z) : Slice :=
  let non_space :=
    if trim_tailing_spaces p then trim_spaces start curpos else curpos in
  if _trim_double_quotes p && (wrap64 (non_space - 1) >? start)
     && Ascii.eqb (value start) double_quote
     && Ascii.eqb (value (non_space - 1)) double_quote
  then LineSlice (start + 1) (wrap64 ((non_space - 1) - (start + 1)))
  else LineSlice start (wrap64 (non_space - start)).

(** The [while (curpos < line.size)] loop of [_split_line]; each iteration
    takes one unit of [fuel], and [None] means the fuel ran out. *)
Fixpoint split_line_loop (fuel : nat) (start curpos p1 : Z)
    (_split_values : list Slice) : option (Z * Z * list Slice) :=
  match fuel with
  | O => None
  | S fuel' =>
    let size := Z.of_nat (length line) in
    let separator := _value_separator p in
    let _value_separator_length := Z.of_nat (length separator) in
    if curpos <? size then
      if (curpos + p1 =? size)
         || negb (Ascii.eqb (value (curpos + p1))
                    (nth (Z.to_nat p1) separator Ascii.zero))
      then
        split_line_loop fuel' start (curpos + (if p1 =? 0 then 1 else p1)) 0
          _split_values
      else
        if p1 + 1 =? _value_separator_length then
          split_line_loop fuel' (curpos + _value_separator_length)
            (curpos + _value_separator_length) 0
            (_split_values ++ [multi_char_value start curpos])
        else split_line_loop fuel' start curpos (p1 + 1) _split_values
    else Some (start, curpos, _split_values)
  end.

(** [void CsvReader::_split_line(const Slice& line)]: returns
    [_split_values].  The loop is given two iterations for every byte of the
    line and one more, which is as many as it can need. *)
Definition _split_line (_file_format_type : TFileFormatType)
    (proto_row : list (list Ascii.ascii)) : option (list Slice) :=
  match _file_format_type with
  | FORMAT_PROTO => Some (_split_line_for_proto_format proto_row [])
  | _ =>
    match split_line_loop (2 * length line + 2) 0 0 0 [] with
    | Some (start, curpos, _split_values) =>
      Some (_split_values ++ [multi_char_value start curpos])
    | None => None
    end
  end.

(** The text a slice covers. *)
Definition slice_text (s : Slice) : list Ascii.ascii :=
  match s with
  | LineSlice offset size =>
    take (Z.to_nat size) (drop (Z.to_nat offset) line)
  | TextSlice text => text
  end.

(** A slice lies inside the line. *)
Definition in_line (s : Slice) : Prop :=
  match s with
  | LineSlice offset size =>
    0 <= offset ∧ 0 <= size ∧ offset + size <= Z.of_nat (length line)
  | TextSlice _ => False
  end.

End Line.

End CsvSplit.

(** Texts joined by a separator. *)
Fixpoint join_values (separator : list Ascii.ascii)
    (texts : list (list Ascii.ascii)) : list Ascii.ascii :=
  match texts with
  | [] => []
  | [t] => t
  | t :: rest => t ++ separator ++ join_values separator rest
  end.

(** Number of occurrences of a byte in a line. *)
Definition count_byte (c : Ascii.ascii) (line : list Ascii.ascii) : nat :=
  length (filter (λ x, x = c) line).

Definition plain_text_params (separator : list Ascii.ascii) : CsvTextParams :=
  mkCsvTextParams separator false false.

(** Memory around the line that holds no double quote. *)
Definition sample_stray : Z -> Ascii.ascii := λ _, Ascii.zero.

Definition sample_csv_line : list Ascii.ascii := list_ascii_of_string "a,b,,c".

Definition sample_csv_wide_line : list Ascii.ascii :=
  list_ascii_of_string "a||b|c||".

(** ** class RuntimeState (runtime/runtime_state.cpp): errors of a fragment *)

(** The value an [int64_t] holds after an addition. *)
Definition wrap_int64 (z : Z) : Z := (z + 2 ^ 63) mod 2 ^ 64 - 2 ^ 63.

(** [const int64_t MAX_ERROR_NUM = 50;] *)
Definition MAX_ERROR_NUM : Z := 50.

(** [std::ofstream* _error_log_file]: whether the stream is open and the
    lines written to it. *)
Record ErrorLogFile : Type := mkErrorLogFile {
  is_open : bool;
  file_lines : list string
}.

(** The members of [RuntimeState] the error functions use.  The header that
    declares them is not among the sources: [state_query_type] is what
    [query_type()] answers, and [_unreported_error_idx] is taken as an
    integer wide enough for the size of the error log. *)
Record RuntimeState : Type := mkRuntimeState {
  state_query_type : TQueryType;
  max_errors : Z;
  batch_size : Z;
  _error_log : list string;
  _unreported_error_idx : Z;
  _error_log_file : option ErrorLogFile;
  _error_log_file_path : string;
  _num_print_error_rows : Z;
  _error_row_number : Z;
  _load_zero_tolerance : bool
}.

(** What the load path manager and the file system answer when the error
    file is created. *)
Record LoadErrorEnv : Type := mkLoadErrorEnv {
  load_error_file_name : string;
  error_file_opens : bool
}.

Module RuntimeState.

Definition set_options (qt : TQueryType) (errors batch : Z) (tolerance : bool)
    (s : RuntimeState) : RuntimeState :=
  mkRuntimeState qt errors batch (_error_log s) (_unreported_error_idx s)
    (_error_log_file s) (_error_log_file_path s) (_num_print_error_rows s)
    (_error_row_number s) tolerance.

Definition set_error_log (log : list string) (idx : Z) (s : RuntimeState)
    : RuntimeState :=
  mkRuntimeState (state_query_type s) (max_errors s) (batch_size s) log idx
    (_error_log_file s) (_error_log_file_path s) (_num_print_error_rows s)
    (_error_row_number s) (_load_zero_tolerance s).

Definition set_error_log_file (file : option ErrorLogFile) (path : string)
    (s : RuntimeState) : RuntimeState :=
  mkRuntimeState (state_query_type s) (max_errors s) (batch_size s)
    (_error_log s) (_unreported_error_idx s) file path
    (_num_print_error_rows s) (_error_row_number s) (_load_zero_tolerance s).

Definition set_num_print_error_rows (n : Z) (s : RuntimeState)
    : RuntimeState :=
  mkRuntimeState (state_query_type s) (max_errors s) (batch_size s)
    (_error_log s) (_unreported_error_idx s) (_error_log_file s)
    (_error_log_file_path s) n (_error_row_number s) (_load_zero_tolerance s).

(** [Status RuntimeState::init(...)], lines 184-232: the options it stores
    and corrects.  [DEFAULT_BATCH_SIZE] is a constant of the missing header. *)
Definition init (DEFAULT_BATCH_SIZE : Z) (options_query_type : TQueryType)
    (options_max_errors options_batch_size : Z)
    (isset_load_zero_tolerance load_zero_tolerance : bool) (s : RuntimeState)
    : Status * RuntimeState :=
  (Status_OK,
   set_options options_query_type
     (if options_max_errors <=? 0 then 100 else options_max_errors)
     (if options_batch_size <=? 0 then DEFAULT_BATCH_SIZE
      else options_batch_size)
     (if isset_load_zero_tolerance then load_zero_tolerance
      else _load_zero_tolerance s)
     s).

(** [bool RuntimeState::log_error(const std::string& error)]: the size of
    the log is compared with the [int] option as an unsigned 64-bit number. *)
Definition log_error (error : string) (s : RuntimeState)
    : bool * RuntimeState :=
  if Z.of_nat (length (_error_log s)) <? (max_errors s) mod 2 ^ 64
  then (true, set_error_log (_error_log s ++ [error]) (_unreported_error_idx s) s)
  else (false, s).

(** [void RuntimeState::get_unreported_errors(std::vector<std::string>*
    new_errors)]: returns what [new_errors] holds afterwards. *)
Definition get_unreported_errors (new_errors : list string) (s : RuntimeState)
    : list string * RuntimeState :=
  if _unreported_error_idx s <? Z.of_nat (length (_error_log s))
  then (drop (Z.to_nat (_unreported_error_idx s)) (_error_log s),
        set_error_log (_error_log s) (Z.of_nat (length (_error_log s))) s)
  else (new_errors, s).

(** [Status RuntimeState::create_error_log_file()] *)
Definition create_error_log_file (env : LoadErrorEnv) (s : RuntimeState)
    : Status * RuntimeState :=
  let path := load_error_file_name env in
  let s1 :=
    set_error_log_file (Some (mkErrorLogFile (error_file_opens env) [])) path
      s in
  if negb (error_file_opens env)
  then (InternalError
          (String.append "Fail to open error file: ["
             (String.append path "].")), s1)
  else (Status_OK, s1).

Definition is_LOAD (t : TQueryType) : bool :=
  match t with LOAD => true | _ => false end.

(** The text and [std::endl] put into the stream [_error_log_file] points
    to: a stream that is not open takes nothing. *)
Definition write_line (text : string) (s : RuntimeState) : RuntimeState :=
  match _error_log_file s with
  | Some file =>
    if is_open file
    then set_error_log_file
           (Some (mkErrorLogFile true (file_lines file ++ [text])))
           (_error_log_file_path s) s
    else s
  | None => s
  end.

Definition reason_text (line error_msg : string) : string :=
  String.append "Reason: "
    (String.append error_msg
       (String.append ". src line [" (String.append line "]; "))).

Definition summary_text (error_msg : string) : string :=
  String.append "Summary: " error_msg.

Definition too_much_error_text : string :=
  "TOO MUCH ERROR! already reach 50. show no more next error.".

(** [Status RuntimeState::append_error_msg_to_file(line, error_msg,
    bool* stop_processing, bool is_summary)]: returns the status, what
    [*stop_processing] holds afterwards, and the state.  The two closures
    build their text only when it is written; they are given by their
    results. *)
Definition append_error_msg_to_file (env : LoadErrorEnv)
    (line error_msg : string) (is_summary : bool) (s : RuntimeState)
    : Status * bool * RuntimeState :=
  if negb (is_LOAD (state_query_type s)) then (Status_OK, false, s) else
  let '(status, s1) :=
    match _error_log_file s with
    | None => create_error_log_file env s
    | Some _ => (Status_OK, s)
    end in
  if negb (ok status) then
    (status, false,
     match _error_log_file s1 with
     | Some _ => set_error_log_file None (_error_log_file_path s1) s1
     | None => s1
     end)
  else
  let printed := _num_print_error_rows s1 in
  let s2 := set_num_print_error_rows (wrap_int64 (printed + 1)) s1 in
  if (printed >? MAX_ERROR_NUM) && negb is_summary
  then (Status_OK, _load_zero_tolerance s2, s2)
  else
    let out :=
      if is_summary then summary_text error_msg
      else if _error_row_number s2 <? MAX_ERROR_NUM
      then reason_text line error_msg
      else if _error_row_number s2 =? MAX_ERROR_NUM then too_much_error_text
      else EmptyString in
    (Status_OK, false,
     if (0 <? String.length out)%nat then write_line out s2 else s2).

End RuntimeState.

(** One error row handed to [append_error_msg_to_file]. *)
Record ErrorRow : Type := mkErrorRow {
  row_line : string;
  row_error_msg : string
}.

(** The rows of a load appended one after the other; the result holds what
    [*stop_processing] was left at by the last call. *)
Fixpoint append_error_rows (env : LoadErrorEnv) (rows : list ErrorRow)
    (stop_processing : bool) (s : RuntimeState) : bool * RuntimeState :=
  match rows with
  | [] => (stop_processing, s)
  | row :: rest =>
    let '(_, stop, s1) :=
      RuntimeState.append_error_msg_to_file env (row_line row)
        (row_error_msg row) false s in
    append_error_rows env rest stop s1
  end.

(** Calls a fragment makes on its error log. *)
Inductive ErrorLogCall : Type :=
  | CallLogError (error : string)
  | CallGetUnreportedErrors.

(** Runs the calls in order.  The result collects the errors [log_error]
    accepted and the errors the reports handed out, each report starting from
    an empty vector. *)
Fixpoint run_error_log_calls (calls : list ErrorLogCall)
    (accepted reported : list string) (s : RuntimeState)
    : list string * list string * RuntimeState :=
  match calls with
  | [] => (accepted, reported, s)
  | CallLogError error :: rest =>
    let '(logged, s1) := RuntimeState.log_error error s in
    run_error_log_calls rest
      (if logged then accepted ++ [error] else accepted) reported s1
  | CallGetUnreportedErrors :: rest =>
    let '(new_errors, s1) := RuntimeState.get_unreported_errors [] s in
    run_error_log_calls rest accepted (reported ++ new_errors) s1
  end.

(** The errors the calls hand to [log_error], in order. *)
Definition logged_errors (calls : list ErrorLogCall) : list string :=
  omap (λ call, match call with
                | CallLogError error => Some error
                | CallGetUnreportedErrors => None
                end) calls.

(** A load whose error file is open and has taken no row yet. *)
Definition sample_load_state (tolerance : bool) : RuntimeState :=
  mkRuntimeState LOAD 100 4096 [] 0 (Some (mkErrorLogFile true [])) "error_log"
    0 0 tolerance.

Definition sample_load_env : LoadErrorEnv := mkLoadErrorEnv "error_log" true.

(** ** csv_reader.cpp: reading rows *)

(** One answer of [_line_reader->read_line(&ptr, &size, &_line_reader_eof,
    _io_ctx)]: the status, the line, the memory around it, what the call left
    in the end-of-file flag and, for the protobuf format, the column values of
    the row the line points to. *)
Record LineAnswer : Type := mkLineAnswer {
  answer_status : Status;
  answer_line : list Ascii.ascii;
  answer_stray : Z -> Ascii.ascii;
  answer_eof : bool;
  answer_proto_row : list (list Ascii.ascii)
}.

(** One value handed to the text converter: the position of the column it
    goes to and the slice, which points into [answer_line] of the row's line. *)
Record WrittenCell : Type := mkWrittenCell {
  cell_column : Z;
  cell_value : Slice
}.

(** One row added to the block. *)
Record WrittenRow : Type := mkWrittenRow {
  written_line : list Ascii.ascii;
  written_cells : list WrittenCell
}.

(** The reader while it reads rows: the members of [CsvReader] set up by
    [init_reader], the text parameters, the scanner counter, the runtime
    state and the rows the text converter has been handed. *)
Record CsvScan : Type := mkCsvScan {
  csv : CsvReader;
  text_params : CsvTextParams;
  _line_delimiter : list Ascii.ascii;
  _split_values : list Slice;
  num_rows_filtered : Z;
  _state : RuntimeState;
  block_rows : list WrittenRow
}.

(** What the collaborators of the read path answer; [_MIN_BATCH_SIZE] is a
    constant of the header, which is missing from the sources. *)
Record CsvReadEnv : Type := mkCsvReadEnv {
  validate_utf8 : list Ascii.ascii -> bool;
  _MIN_BATCH_SIZE : Z;
  load_error_env : LoadErrorEnv
}.

Module CsvRows.

Definition set_csv (r : CsvReader) (sc : CsvScan) : CsvScan :=
  mkCsvScan r (text_params sc) (_line_delimiter sc) (_split_values sc)
    (num_rows_filtered sc) (_state sc) (block_rows sc).

Definition set_line_reader_eof (b : bool) (sc : CsvScan) : CsvScan :=
  let r := csv sc in
  set_csv
    (mkCsvReader (_params r) (_file_format_type r) (_file_compress_type r)
       (_size r) (_skip_lines r) (_file_description_start_offset r)
       (_line_reader r) b (_is_load r) (_file_slot_idx_map r) (_col_idxs r))
    sc.

Definition set_skip_lines (n : Z) (sc : CsvScan) : CsvScan :=
  let r := csv sc in
  set_csv
    (mkCsvReader (_params r) (_file_format_type r) (_file_compress_type r)
       (_size r) n (_file_description_start_offset r)
       (_line_reader r) (_line_reader_eof r) (_is_load r)
       (_file_slot_idx_map r) (_col_idxs r))
    sc.

Definition set_split_values (values : list Slice) (sc : CsvScan) : CsvScan :=
  mkCsvScan (csv sc) (text_params sc) (_line_delimiter sc) values
    (num_rows_filtered sc) (_state sc) (block_rows sc).

(** A row is filtered: the runtime state after the error row was appended,
    and the counter goes up. *)
Definition set_state (s : RuntimeState) (sc : CsvScan) : CsvScan :=
  mkCsvScan (csv sc) (text_params sc) (_line_delimiter sc) (_split_values sc)
    (num_rows_filtered sc) s (block_rows sc).

Definition count_filtered (sc : CsvScan) : CsvScan :=
  mkCsvScan (csv sc) (text_params sc) (_line_delimiter sc) (_split_values sc)
    (num_rows_filtered sc + 1) (_state sc) (block_rows sc).

Definition add_row (row : WrittenRow) (sc : CsvScan) : CsvScan :=
  mkCsvScan (csv sc) (text_params sc) (_line_delimiter sc) (_split_values sc)
    (num_rows_filtered sc) (_state sc) (block_rows sc ++ [row]).

Definition is_FORMAT_PROTO (f : TFileFormatType) : bool :=
  match f with FORMAT_PROTO => true | _ => false end.

(** [_file_slot_descs.size()] *)
Definition file_slot_count (sc : CsvScan) : nat :=
  file_slot_descs_size (_params (csv sc)).

(** The values [_split_line] stores; its scan always comes to its end within
    the iterations it is given. *)
Definition split_line_values (sc : CsvScan) (answer : LineAnswer)
    : list Slice :=
  default []
    (CsvSplit._split_line (answer_stray answer) (answer_line answer)
       (text_params sc) (_file_format_type (csv sc))
       (answer_proto_row answer)).

(** Lines 404-408: the splitter is chosen by the length of the separator. *)
Definition split_values_of (sc : CsvScan) (answer : LineAnswer)
    : list Slice :=
  if (length (_value_separator (text_params sc)) =? 1)%nat
  then CsvSplit._split_line_for_single_char_delimiter
         (answer_stray answer) (answer_line answer) (text_params sc)
         (_file_format_type (csv sc)) (answer_proto_row answer)
  else split_line_values sc answer.

Definition utf8_unsupported : Status :=
  InternalError "Only support csv data in utf8 codec".

(** The message of lines 418-430. *)
Definition column_number_msg (sc : CsvScan) (actual : nat) : string :=
  let cmp_str :=
    if (file_slot_count sc <? actual)%nat then "more than" else "less than" in
  String.append "actual column number in csv file is "
    (String.append " " (String.append cmp_str (String.append " "
    (String.append " schema column number."
    (String.append "actual number: " (String.append (pretty actual)
    (String.append ", column separator: ["
    (String.append (string_of_list_ascii (_value_separator (text_params sc)))
    (String.append "], "
    (String.append "line delimiter: ["
    (String.append (string_of_list_ascii (_line_delimiter sc))
    (String.append "], schema column number: "
    (String.append (pretty (file_slot_count sc)) "; "))))))))))))).

(** The call [_state->append_error_msg_to_file(line, error_msg,
    &_line_reader_eof)]: the flag the runtime state resets and sets is the
    reader's end-of-file flag. *)
Definition append_error_msg (env : CsvReadEnv) (line error_msg : string)
    (sc : CsvScan) : Status * CsvScan :=
  let '(status, stop_processing, s) :=
    RuntimeState.append_error_msg_to_file (load_error_env env) line error_msg
      false (_state sc) in
  (status, set_state s (set_line_reader_eof stop_processing sc)).

(** [Status CsvReader::_line_split_to_values(const Slice& line,
    bool* success)]: returns the status, what [*success] holds afterwards and
    the reader. *)
Definition _line_split_to_values (env : CsvReadEnv) (answer : LineAnswer)
    (success : bool) (sc : CsvScan) : Status * bool * CsvScan :=
  let line := answer_line answer in
  if negb (is_FORMAT_PROTO (_file_format_type (csv sc)))
     && negb (validate_utf8 env line)
  then
    if negb (_is_load (csv sc)) then (utf8_unsupported, success, sc)
    else
      let '(status, sc1) :=
        append_error_msg env "Unable to display" "Unable to display" sc in
      if negb (ok status) then (status, success, sc1)
      else (Status_OK, false, count_filtered sc1)
  else
    let values := split_values_of sc answer in
    let sc1 := set_split_values values sc in
    if _is_load (csv sc1)
       && negb (length values =? file_slot_count sc1)%nat
    then
      let '(status, sc2) :=
        append_error_msg env (string_of_list_ascii line)
          (column_number_msg sc1 (length values)) sc1 in
      if negb (ok status) then (status, success, sc2)
      else (Status_OK, false, count_filtered sc2)
    else (Status_OK, true, sc1).

(** The value written for slot [i]: [col_idx < _split_values.size() ?
    _split_values[col_idx] : _s_null_slice], the [int] index compared as an
    unsigned 64-bit number.  Reading [_col_idxs] or [_file_slot_idx_map] past
    its end is undefined in C++; here it yields 0. *)
Definition slot_value (sc : CsvScan) (i : nat) : Slice :=
  let col_idx := nth i (_col_idxs (csv sc)) 0 in
  if col_idx mod 2 ^ 64 <? Z.of_nat (length (_split_values sc))
  then nth (Z.to_nat col_idx) (_split_values sc) _s_null_slice
  else _s_null_slice.

(** The column slot [i] is written to: [columns[i]] for a load, the block's
    column at [_file_slot_idx_map[i]] for a query. *)
Definition slot_column (sc : CsvScan) (i : nat) : Z :=
  if _is_load (csv sc) then Z.of_nat i
  else nth i (_file_slot_idx_map (csv sc)) 0.

(** [Status CsvReader::_fill_dest_columns(const Slice& line, Block* block,
    std::vector<MutableColumnPtr>& columns, size_t* rows)]: returns the
    status, the reader and what [*rows] holds afterwards. *)
Definition _fill_dest_columns (env : CsvReadEnv) (answer : LineAnswer)
    (sc : CsvScan) (rows : Z) : Status * CsvScan * Z :=
  let '(status, is_success, sc1) :=
    _line_split_to_values env answer false sc in
  if negb (ok status) then (status, sc1, rows)
  else if negb is_success then (Status_OK, sc1, rows)
  else
    let cells :=
      (λ i, mkWrittenCell (slot_column sc1 i) (slot_value sc1 i))
      <$> seq 0 (file_slot_count sc1) in
    (Status_OK, add_row (mkWrittenRow (answer_line answer) cells) sc1,
     rows + 1).

(** The [while (rows < batch_size && !_line_reader_eof)] loop of
    [get_next_block] over the answers the line reader still has.  A line
    reader without further answers is at the end of its file: it hands back
    an empty line and sets the end-of-file flag, which ends the loop.
    Returns the status, the reader, [rows] and the answers left. *)
Fixpoint read_rows_loop (env : CsvReadEnv) (batch_size : Z)
    (pending : list LineAnswer) (sc : CsvScan) (rows : Z)
    : Status * CsvScan * Z * list LineAnswer :=
  if (rows <? batch_size mod 2 ^ 64) && negb (_line_reader_eof (csv sc)) then
    match pending with
    | [] =>
      let sc1 := set_line_reader_eof true sc in
      (Status_OK,
       if _skip_lines (csv sc1) >? 0
       then set_skip_lines (_skip_lines (csv sc1) - 1) sc1 else sc1,
       rows, [])
    | answer :: rest =>
      let sc1 := set_line_reader_eof (answer_eof answer) sc in
      if negb (ok (answer_status answer))
      then (answer_status answer, sc1, rows, rest)
      else if _skip_lines (csv sc1) >? 0
      then read_rows_loop env batch_size rest
             (set_skip_lines (_skip_lines (csv sc1) - 1) sc1) rows
      else if (length (answer_line answer) =? 0)%nat
      then read_rows_loop env batch_size rest sc1 rows
      else
        let '(status, sc2, rows') := _fill_dest_columns env answer sc1 rows in
        if negb (ok status) then (status, sc2, rows', rest)
        else read_rows_loop env batch_size rest sc2 rows'
    end
  else (Status_OK, sc, rows, pending).

(** [Status CsvReader::get_next_block(Block* block, size_t* read_rows,
    bool* eof)]: returns the status, the reader, what the two out-parameters
    hold afterwards and the answers left to the line reader. *)
Definition get_next_block (env : CsvReadEnv) (pending : list LineAnswer)
    (sc : CsvScan) (read_rows : Z) (eof : bool)
    : Status * CsvScan * Z * bool * list LineAnswer :=
  if _line_reader_eof (csv sc) then (Status_OK, sc, read_rows, true, pending)
  else
    let batch_size :=
      Z.max (batch_size (_state sc)) (wrap32 (_MIN_BATCH_SIZE env)) in
    let '(status, sc1, rows, rest) :=
      read_rows_loop env batch_size pending sc 0 in
    if negb (ok status) then (status, sc1, read_rows, eof, rest)
    else (Status_OK, sc1, rows, rows =? 0, rest).

End CsvRows.

(** The lines a batch turns into rows or filters: the lines read after the
    first [skip] ones that are not empty. *)
Definition data_lines (skip : Z) (answers : list LineAnswer)
    : list LineAnswer :=
  filter (λ answer, answer_line answer ≠ []) (drop (Z.to_nat skip) answers).

(** What reading rows never changes: the reader apart from its end-of-file
    flag and the lines left to skip, and the text parameters. *)
Definition reader_setup (sc : CsvScan)
    : CsvReader * CsvTextParams * list Ascii.ascii :=
  (csv (CsvRows.set_skip_lines 0 (CsvRows.set_line_reader_eof false sc)),
   text_params sc, _line_delimiter sc).

(** A line that becomes a row: it is valid UTF-8 unless the format is
    protobuf, and for a load it has as many values as there are slots. *)
Definition line_accepted (env : CsvReadEnv) (sc : CsvScan)
    (answer : LineAnswer) : bool :=
  (CsvRows.is_FORMAT_PROTO (_file_format_type (csv sc))
   || validate_utf8 env (answer_line answer))
  && (negb (_is_load (csv sc))
      || (length (CsvRows.split_values_of sc answer)
          =? CsvRows.file_slot_count sc)%nat).

(** A query over a file with two columns separated by a comma. *)
Definition sample_csv_scan (is_load : bool) (skip : Z) : CsvScan :=
  mkCsvScan
    (mkCsvReader
       (mkCsvScanParams 0 false false "" false 0 (FILE_OTHER 0) [0; 1]
          [true; true] 2)
       FORMAT_CSV_PLAIN PLAIN 4096 skip 0
       (Some (NewPlainTextLineReader 4096 0)) false is_load [0; 1] [0; 1])
    (plain_text_params (list_ascii_of_string ","))
    [Ascii.ascii_of_nat 10]
    [] 0 (sample_load_state false) [].

Definition sample_answer (text : string) : LineAnswer :=
  mkLineAnswer Status_OK (list_ascii_of_string text) sample_stray false [].

Definition sample_read_env : CsvReadEnv :=
  mkCsvReadEnv (λ _, true) 4064 sample_load_env.

(** ** csv_reader.cpp: the parsed schema *)

(** The column type [get_parsed_schema] hands out is always
    [TypeDescriptor::create_string_type()]. *)
Inductive TypeDescriptor : Type :=
  | TYPE_STRING
  | TYPE_OTHER (n : Z).

(** The parts of the scan range and of its text parameters that
    [_prepare_parse] reads and [CsvScanParams] does not hold. *)
Record CsvTextAttributes : Type := mkCsvTextAttributes {
  range_path : string;
  column_separator : list Ascii.ascii;
  line_delimiter : list Ascii.ascii
}.

(** What the collaborators of the schema path answer.  The number of the
    status code [INVALID_ARGUMENT] is declared outside the sources. *)
Record CsvSchemaEnv : Type := mkCsvSchemaEnv {
  schema_file_env : CsvEnv;
  schema_validate_utf8 : list Ascii.ascii -> bool;
  INVALID_ARGUMENT : Z
}.

Module CsvSchema.

Definition InvalidArgument (env : CsvSchemaEnv) (m : string) : Status :=
  mkStatus (OTHER_CODE (INVALID_ARGUMENT env)) m.

Definition start_offset_not_zero (env : CsvSchemaEnv) : Status :=
  InvalidArgument env
    "start offset of TFileRangeDesc must be zero in get parsered schema".

Definition stream_load_unsupported : Status :=
  InternalError
    "Getting parsered schema from csv file do not support stream load and broker load.".

Definition empty_csv_file (attrs : CsvTextAttributes) : Status :=
  EndOfFile
    (String.append "get parsed schema failed, empty csv file: "
       (range_path attrs)).

Definition set_line_reader (line_reader : option LineReaderKind)
    (start_offset : Z) (sc : CsvScan) : CsvScan :=
  let r := csv sc in
  CsvRows.set_csv
    (mkCsvReader (_params r) (_file_format_type r) (_file_compress_type r)
       (_size r) (_skip_lines r) start_offset line_reader
       (_line_reader_eof r) (_is_load r) (_file_slot_idx_map r) (_col_idxs r))
    sc.

Definition set_separators (separator delimiter : list Ascii.ascii)
    (sc : CsvScan) : CsvScan :=
  mkCsvScan (csv sc)
    (mkCsvTextParams separator (_trim_double_quotes (text_params sc))
       (trim_tailing_spaces (text_params sc)))
    delimiter (_split_values sc) (num_rows_filtered sc) (_state sc)
    (block_rows sc).

(** [Status CsvReader::_prepare_parse(size_t* read_line,
    bool* is_parse_name)]: returns the status, what the two out-parameters
    hold afterwards and the reader. *)
Definition _prepare_parse (env : CsvSchemaEnv) (attrs : CsvTextAttributes)
    (sc : CsvScan) (read_line : Z) (is_parse_name : bool)
    : Status * Z * bool * CsvScan :=
  let p := _params (csv sc) in
  let start_offset := range_start_offset p in
  if negb (start_offset =? 0)
  then (start_offset_not_zero env, read_line, is_parse_name, sc)
  else if is_FILE_STREAM (file_type p) || is_FILE_BROKER (file_type p)
  then (stream_load_unsupported, read_line, is_parse_name, sc)
  else
    let '(read_line1, is_parse_name1) :=
      if isset_file_attributes p && isset_header_type p
         && (0 <? Z.of_nat (String.length (header_type p)))
      then
        let header := CsvReader.to_lower (header_type p) in
        if String.eqb header CsvReader.CSV_WITH_NAMES then (1, true)
        else if String.eqb header CsvReader.CSV_WITH_NAMES_AND_TYPES
        then (2, true)
        else (1, false)
      else (1, false) in
    let sc1 :=
      set_line_reader (_line_reader (csv sc)) start_offset sc in
    let fenv := schema_file_env env in
    if negb (ok (create_reader_status fenv))
    then (create_reader_status fenv, read_line1, is_parse_name1, sc1)
    else if (file_reader_size fenv =? 0) && negb (is_FILE_STREAM (file_type p))
            && negb (is_FILE_BROKER (file_type p))
    then (empty_csv_file attrs, read_line1, is_parse_name1, sc1)
    else
      let sc2 :=
        set_separators (column_separator attrs) (line_delimiter attrs) sc1 in
      if negb (ok (create_decompressor_status fenv))
      then (create_decompressor_status fenv, read_line1, is_parse_name1, sc2)
      else
        (Status_OK, read_line1, is_parse_name1,
         set_line_reader
           (Some (NewPlainTextLineReader (_size (csv sc2)) start_offset))
           start_offset sc2).

(** [_line_reader->read_line(...)]: the next answer of the line reader,
    which is at the end of its file when it has none left. *)
Definition next_answer (pending : list LineAnswer)
    : LineAnswer * list LineAnswer :=
  match pending with
  | [] => (mkLineAnswer Status_OK [] (λ _, Ascii.zero) true [], [])
  | answer :: rest => (answer, rest)
  end.

Definition first_line_empty (what : string) : Status :=
  InternalError
    (String.append "The first line is empty, can not parse column " what).

(** Lines 651-660 and 666-675: the line is read, checked and split with
    [_split_line], whatever the length of the separator. *)
Definition read_first_line (env : CsvSchemaEnv) (what : string)
    (pending : list LineAnswer) (sc : CsvScan)
    : Status * LineAnswer * CsvScan * list LineAnswer :=
  let '(answer, rest) := next_answer pending in
  let sc1 := CsvRows.set_line_reader_eof (answer_eof answer) sc in
  if negb (ok (answer_status answer))
  then (answer_status answer, answer, sc1, rest)
  else if (length (answer_line answer) =? 0)%nat
  then (first_line_empty what, answer, sc1, rest)
  else if negb (schema_validate_utf8 env (answer_line answer))
  then (CsvRows.utf8_unsupported, answer, sc1, rest)
  else
    (Status_OK, answer,
     CsvRows.set_split_values (CsvRows.split_line_values sc1 answer) sc1,
     rest).

(** [Status CsvReader::_parse_col_nums(size_t* col_nums)] *)
Definition _parse_col_nums (env : CsvSchemaEnv) (pending : list LineAnswer)
    (sc : CsvScan) (col_nums : Z) : Status * Z * CsvScan * list LineAnswer :=
  let '(status, answer, sc1, rest) :=
    read_first_line env "numbers" pending sc in
  if negb (ok status) then (status, col_nums, sc1, rest)
  else (Status_OK, Z.of_nat (length (_split_values sc1)), sc1, rest).

(** [Slice::to_string()]: the bytes from the slice's pointer on, read from
    the line or from the memory around it. *)
Definition slice_to_string (answer : LineAnswer) (s : Slice) : string :=
  match s with
  | LineSlice offset size =>
    string_of_list_ascii
      ((λ k, byte_at (answer_stray answer) (answer_line answer)
               (offset + Z.of_nat k))
       <$> seq 0 (Z.to_nat size))
  | TextSlice text => string_of_list_ascii text
  end.

(** [Status CsvReader::_parse_col_names(std::vector<std::string>*
    col_names)] *)
Definition _parse_col_names (env : CsvSchemaEnv) (pending : list LineAnswer)
    (sc : CsvScan) (col_names : list string)
    : Status * list string * CsvScan * list LineAnswer :=
  let '(status, answer, sc1, rest) :=
    read_first_line env "names" pending sc in
  if negb (ok status) then (status, col_names, sc1, rest)
  else
    (Status_OK,
     col_names ++ (slice_to_string answer <$> _split_values sc1), sc1, rest).

(** [Status CsvReader::_parse_col_types(size_t col_nums,
    std::vector<TypeDescriptor>* col_types)] *)
Definition _parse_col_types (col_nums : nat)
    (col_types : list TypeDescriptor) : Status * list TypeDescriptor :=
  (Status_OK, col_types ++ replicate col_nums TYPE_STRING).

(** ["c" + std::to_string(i + 1)] for [i] below [col_nums]. *)
Definition default_col_names (col_nums : nat) : list string :=
  (λ i, String.append "c" (pretty (i + 1)%nat)) <$> seq 0 col_nums.

(** [Status CsvReader::get_parsed_schema(std::vector<std::string>*
    col_names, std::vector<TypeDescriptor>* col_types)]: returns the status,
    what the two vectors hold afterwards, the reader and the answers left to
    the line reader. *)
Definition get_parsed_schema (env : CsvSchemaEnv) (attrs : CsvTextAttributes)
    (pending : list LineAnswer) (sc : CsvScan) (col_names : list string)
    (col_types : list TypeDescriptor)
    : Status * list string * list TypeDescriptor * CsvScan
      * list LineAnswer :=
  let '(status, read_line, is_parse_name, sc1) :=
    _prepare_parse env attrs sc 0 false in
  if negb (ok status) then (status, col_names, col_types, sc1, pending) else
  if read_line =? 1 then
    let '(status1, col_names1, sc2, rest) :=
      if negb is_parse_name then
        let '(st, col_nums, sc2, rest) := _parse_col_nums env pending sc1 0 in
        if negb (ok st) then (st, col_names, sc2, rest)
        else (Status_OK, col_names ++ default_col_names (Z.to_nat col_nums),
              sc2, rest)
      else _parse_col_names env pending sc1 col_names in
    if negb (ok status1) then (status1, col_names1, col_types, sc2, rest)
    else
      (Status_OK, col_names1,
       col_types ++ replicate (length col_names1) TYPE_STRING, sc2, rest)
  else
    let '(status1, col_names1, sc2, rest) :=
      _parse_col_names env pending sc1 col_names in
    if negb (ok status1) then (status1, col_names1, col_types, sc2, rest)
    else
      let '(status2, col_types1) :=
        _parse_col_types (length col_names1) col_types in
      if negb (ok status2) then (status2, col_names1, col_types1, sc2, rest)
      else (Status_OK, col_names1, col_types1, sc2, rest).

End CsvSchema.

(** A file without a header line, read to find its schema. *)
Definition sample_schema_scan : CsvScan :=
  mkCsvScan
    (mkCsvReader
       (mkCsvScanParams 0 false false "" false 0 (FILE_OTHER 0) [] [] 0)
       FORMAT_CSV_PLAIN PLAIN 4096 0 0 None false false [] [])
    (plain_text_params []) [] [] 0 (sample_load_state false) [].

Definition sample_schema_env : CsvSchemaEnv :=
  mkCsvSchemaEnv (mkCsvEnv Status_OK 4096 Status_OK) (λ _, true) 33.

Definition sample_attributes : CsvTextAttributes :=
  mkCsvTextAttributes "a.csv" (list_ascii_of_string ",")
    [Ascii.ascii_of_nat 10].

(** ** vparquet_reader.cpp: the columns to fill *)

(** The expression classes [visit_slot] tells apart by [typeid_cast]; every
    expression has children. *)
#[local] Unset Elimination Schemes.
Inductive VExpr : Type :=
  | VSlotRef (expr_name : string) (column_id slot_id : Z)
      (children : list VExpr)
  | VRuntimeFilterWrapper (impl : VExpr) (children : list VExpr)
  | VBloomPredicate (children : list VExpr)
  | VInPredicate (children : list VExpr)
  | VOtherExpr (children : list VExpr).
#[local] Set Elimination Schemes.

(** [PrimitiveType], as far as [set_fill_columns] looks at it. *)
Inductive PrimitiveType : Type :=
  | TYPE_ARRAY
  | TYPE_MAP
  | TYPE_STRUCT
  | TYPE_SCALAR (n : Z).

Definition is_complex_type (t : PrimitiveType) : bool :=
  match t with TYPE_SCALAR _ => false | _ => true end.

(** What the lambda [visit_slot] captures by reference: the local map
    [predicate_columns], from column name to (column id, slot id), and
    [_lazy_read_ctx.resize_first_column]. *)
Record VisitState : Type := mkVisitState {
  visit_predicate_columns : gmap string (Z * Z);
  visit_resize_first_column : bool
}.

Section FillColumns.

(** The values kept for a partition column and for a missing column. *)
Context {PartitionValue MissingValue : Type}.

(** [_lazy_read_ctx] *)
Record LazyReadContext : Type := mkLazyReadContext {
  vconjunct_root : option VExpr;
  resize_first_column : bool;
  all_read_columns : list string;
  lazy_read_columns : list string;
  predicate_columns_first : list string;
  predicate_columns_second : list Z;
  all_predicate_col_ids : list Z;
  partition_columns : gmap string PartitionValue;
  predicate_partition_columns : gmap string PartitionValue;
  missing_columns : gmap string MissingValue;
  predicate_missing_columns : gmap string MissingValue;
  can_lazy_read : bool
}.

Variable _table_col_to_file_col : gmap string string.

(** The type of a column of the file schema, by name. *)
Variable schema_column_type : string -> PrimitiveType.

(** The lambda [visit_slot] (lines 293-327); the column id is stored as a
    [uint32_t]. *)
Fixpoint visit_slot (expr : VExpr) (st : VisitState) : VisitState :=
  match expr with
  | VSlotRef expr_name column_id slot_id _ =>
    let expr_name' :=
      match _table_col_to_file_col !! expr_name with
      | Some file_col => file_col
      | None => expr_name
      end in
    mkVisitState
      (emplace expr_name' (column_id mod 2 ^ 32, slot_id)
         (visit_predicate_columns st))
      (if column_id =? 0 then false else visit_resize_first_column st)
  | VRuntimeFilterWrapper filter_impl _ =>
    match filter_impl with
    | VBloomPredicate children =>
      fold_left (λ st' child, visit_slot child st') children st
    | VInPredicate children =>
      match children with
      | child :: _ => visit_slot child st
      | [] => st
      end
    | VSlotRef _ _ _ children | VRuntimeFilterWrapper _ children
    | VOtherExpr children =>
      fold_left (λ st' child, visit_slot child st') children st
    end
  | VBloomPredicate children | VInPredicate children | VOtherExpr children =>
    fold_left (λ st' child, visit_slot child st') children st
  end.

(** The loop over [_read_columns] (lines 332-349): returns the context and
    [_has_complex_type]. *)
Fixpoint read_columns_loop (predicate_columns : gmap string (Z * Z))
    (read_columns : list ParquetReadColumn) (ctx : LazyReadContext)
    (has_complex_type : bool) : LazyReadContext * bool :=
  match read_columns with
  | [] => (ctx, has_complex_type)
  | read_col :: rest =>
    let name := _file_slot_name read_col in
    let has_complex_type' :=
      if is_complex_type (schema_column_type name) then true
      else has_complex_type in
    let all := all_read_columns ctx ++ [name] in
    let ctx' :=
      if (0 <? Z.of_nat (size predicate_columns)) then
        match predicate_columns !! name with
        | None =>
          mkLazyReadContext (vconjunct_root ctx) (resize_first_column ctx)
            all (lazy_read_columns ctx ++ [name])
            (predicate_columns_first ctx) (predicate_columns_second ctx)
            (all_predicate_col_ids ctx) (partition_columns ctx)
            (predicate_partition_columns ctx) (missing_columns ctx)
            (predicate_missing_columns ctx) (can_lazy_read ctx)
        | Some (col_id, slot_id) =>
          mkLazyReadContext (vconjunct_root ctx) (resize_first_column ctx)
            all (lazy_read_columns ctx)
            (predicate_columns_first ctx ++ [name])
            (predicate_columns_second ctx ++ [slot_id])
            (all_predicate_col_ids ctx ++ [col_id]) (partition_columns ctx)
            (predicate_partition_columns ctx) (missing_columns ctx)
            (predicate_missing_columns ctx) (can_lazy_read ctx)
        end
      else
        mkLazyReadContext (vconjunct_root ctx) (resize_first_column ctx)
          all (lazy_read_columns ctx)
          (predicate_columns_first ctx) (predicate_columns_second ctx)
          (all_predicate_col_ids ctx) (partition_columns ctx)
          (predicate_partition_columns ctx) (missing_columns ctx)
          (predicate_missing_columns ctx) (can_lazy_read ctx) in
    read_columns_loop predicate_columns rest ctx' has_complex_type'
  end.

(** The loop over the partition columns (lines 351-359), in the order the
    map hands them out. *)
Fixpoint partition_columns_loop (predicate_columns : gmap string (Z * Z))
    (columns : list (string * PartitionValue)) (ctx : LazyReadContext)
    : LazyReadContext :=
  match columns with
  | [] => ctx
  | (name, value) :: rest =>
    partition_columns_loop predicate_columns rest
      match predicate_columns !! name with
      | None =>
        mkLazyReadContext (vconjunct_root ctx) (resize_first_column ctx)
          (all_read_columns ctx) (lazy_read_columns ctx)
          (predicate_columns_first ctx) (predicate_columns_second ctx)
          (all_predicate_col_ids ctx)
          (emplace name value (partition_columns ctx))
          (predicate_partition_columns ctx) (missing_columns ctx)
          (predicate_missing_columns ctx) (can_lazy_read ctx)
      | Some (col_id, _) =>
        mkLazyReadContext (vconjunct_root ctx) (resize_first_column ctx)
          (all_read_columns ctx) (lazy_read_columns ctx)
          (predicate_columns_first ctx) (predicate_columns_second ctx)
          (all_predicate_col_ids ctx ++ [col_id]) (partition_columns ctx)
          (emplace name value (predicate_partition_columns ctx))
          (missing_columns ctx) (predicate_missing_columns ctx)
          (can_lazy_read ctx)
      end
  end.

(** The loop over the missing columns (lines 361-369). *)
Fixpoint missing_columns_loop (predicate_columns : gmap string (Z * Z))
    (columns : list (string * MissingValue)) (ctx : LazyReadContext)
    : LazyReadContext :=
  match columns with
  | [] => ctx
  | (name, value) :: rest =>
    missing_columns_loop predicate_columns rest
      match predicate_columns !! name with
      | None =>
        mkLazyReadContext (vconjunct_root ctx) (resize_first_column ctx)
          (all_read_columns ctx) (lazy_read_columns ctx)
          (predicate_columns_first ctx) (predicate_columns_second ctx)
          (all_predicate_col_ids ctx) (partition_columns ctx)
          (predicate_partition_columns ctx)
          (emplace name value (missing_columns ctx))
          (predicate_missing_columns ctx) (can_lazy_read ctx)
      | Some (col_id, _) =>
        mkLazyReadContext (vconjunct_root ctx) (resize_first_column ctx)
          (all_read_columns ctx) (lazy_read_columns ctx)
          (predicate_columns_first ctx) (predicate_columns_second ctx)
          (all_predicate_col_ids ctx ++ [col_id]) (partition_columns ctx)
          (predicate_partition_columns ctx) (missing_columns ctx)
          (emplace name value (predicate_missing_columns ctx))
          (can_lazy_read ctx)
      end
  end.

(** [emplace] of every entry of [from], in the order the map hands them
    out. *)
Definition emplace_all {V : Type} (from into : gmap string V)
    : gmap string V :=
  fold_left (λ m kv, emplace kv.1 kv.2 m) (map_to_list from) into.

(** [Status ParquetReader::set_fill_columns(partition_columns,
    missing_columns)]: returns the status, [_lazy_read_ctx],
    [_has_complex_type] and [_fill_all_columns]. *)
Definition set_fill_columns
    (partition_columns_arg : gmap string PartitionValue)
    (missing_columns_arg : gmap string MissingValue)
    (read_columns : list ParquetReadColumn) (ctx : LazyReadContext)
    (has_complex_type : bool) : Status * LazyReadContext * bool * bool :=
  let visited :=
    match vconjunct_root ctx with
    | Some root =>
      visit_slot root (mkVisitState ∅ (resize_first_column ctx))
    | None => mkVisitState ∅ (resize_first_column ctx)
    end in
  let predicate_columns := visit_predicate_columns visited in
  let ctx0 :=
    mkLazyReadContext (vconjunct_root ctx) (visit_resize_first_column visited)
      (all_read_columns ctx) (lazy_read_columns ctx)
      (predicate_columns_first ctx) (predicate_columns_second ctx)
      (all_predicate_col_ids ctx) (partition_columns ctx)
      (predicate_partition_columns ctx) (missing_columns ctx)
      (predicate_missing_columns ctx) (can_lazy_read ctx) in
  let '(ctx1, has_complex_type') :=
    read_columns_loop predicate_columns read_columns ctx0 has_complex_type in
  let ctx2 :=
    partition_columns_loop predicate_columns
      (map_to_list partition_columns_arg) ctx1 in
  let ctx3 :=
    missing_columns_loop predicate_columns (map_to_list missing_columns_arg)
      ctx2 in
  let lazy :=
    if negb has_complex_type'
       && (0 <? Z.of_nat (length (predicate_columns_first ctx3)))
       && (0 <? Z.of_nat (length (lazy_read_columns ctx3)))
    then true else can_lazy_read ctx3 in
  let ctx4 :=
    mkLazyReadContext (vconjunct_root ctx3) (resize_first_column ctx3)
      (all_read_columns ctx3) (lazy_read_columns ctx3)
      (predicate_columns_first ctx3) (predicate_columns_second ctx3)
      (all_predicate_col_ids ctx3)
      (if negb lazy
       then emplace_all (predicate_partition_columns ctx3)
              (partition_columns ctx3)
       else partition_columns ctx3)
      (predicate_partition_columns ctx3)
      (if negb lazy
       then emplace_all (predicate_missing_columns ctx3)
              (missing_columns ctx3)
       else missing_columns ctx3)
      (predicate_missing_columns ctx3) lazy in
  (Status_OK, ctx4, has_complex_type', true).

(** The context of a reader on which [set_fill_columns] has not run. *)
Definition fresh_lazy_read_ctx (root : option VExpr) : LazyReadContext :=
  mkLazyReadContext root true [] [] [] [] [] ∅ ∅ ∅ ∅ false.

(** The columns the conjuncts of the scan refer to. *)
Definition predicate_columns_of (root : option VExpr)
    : gmap string (Z * Z) :=
  match root with
  | Some expr => visit_predicate_columns (visit_slot expr (mkVisitState ∅ true))
  | None => ∅
  end.

End FillColumns.

Arguments LazyReadContext : clear implicits.

(** * Properties of the fragment manager *)

Section FragmentExecStateFacts.

Import FragmentExecState.

Lemma update_status_returns_stored (status : Status) (st : FragmentExecState) :
  (update_status status st).1 = _exec_status (update_status status st).2.
Proof.
  unfold update_status.
  by destruct (negb (ok status) && ok (_exec_status st)).
Qed.

Lemma update_status_failed_noop (status : Status) (st : FragmentExecState) :
  ok (_exec_status st) = false →
  update_status status st = (_exec_status st, st).
Proof.
  intros Hfailed. unfold update_status. rewrite Hfailed.
  by rewrite andb_false_r.
Qed.

Lemma update_status_installs (status : Status) (st : FragmentExecState) :
  _exec_status (update_status status st).2 ≠ _exec_status st →
  ok (_exec_status st) = true ∧ ok status = false
  ∧ _exec_status (update_status status st).2 = status.
Proof.
  unfold update_status.
  destruct (ok status) eqn:Hs, (ok (_exec_status st)) eqn:Hcur;
    simpl; intros Hne; try done.
Qed.

Lemma update_status_keeps_cancelled (status : Status) (st : FragmentExecState) :
  _cancelled (update_status status st).2 = _cancelled st.
Proof.
  unfold update_status.
  by destruct (negb (ok status) && ok (_exec_status st)).
Qed.

Lemma cancel_keeps_exec_status hs reason msg (st : FragmentExecState) :
  _exec_status (cancel hs reason msg st).1.2 = _exec_status st.
Proof. unfold cancel. by destruct (_cancelled st). Qed.

Lemma cancel_sets_cancelled hs reason msg (st : FragmentExecState) :
  _cancelled (cancel hs reason msg st).1.2 = true.
Proof. unfold cancel. by destruct (_cancelled st) eqn:E. Qed.

(** A status report only reaches the fragment state through
    [update_status], at most twice. *)
Lemma coordinator_callback_state env status done (st : FragmentExecState) :
  ∃ updates : list Status,
    (FragmentMgr.coordinator_callback env
       (FragmentMgr.make_report_request status done st) st).1
    = fold_left (λ s u, (update_status u s).2) updates st.
Proof.
  unfold FragmentMgr.coordinator_callback, FragmentMgr.after_report. simpl.
  destruct (update_status status st) as [exec_status st1] eqn:Hup.
  assert (Hst1 : st1 = (update_status status st).2) by by rewrite Hup.
  destruct (negb (ok (frontend_client_status env))).
  { eexists [status; _]. simpl. by rewrite Hst1. }
  destruct (first_reportExecStatus env) as [res|w|w]; simpl.
  - destruct (negb (ok res)); [eexists [status; _] | exists [status]];
      simpl; by rewrite Hst1.
  - destruct (negb (ok (coord_reopen env))).
    { eexists [status; _]. simpl. by rewrite Hst1. }
    destruct (second_reportExecStatus env) as [res|w2|w2]; simpl.
    + destruct (negb (ok res)); [eexists [status; _] | exists [status]];
        simpl; by rewrite Hst1.
    + eexists [status; _]. simpl. by rewrite Hst1.
    + eexists [status; _]. simpl. by rewrite Hst1.
  - eexists [status; _]. simpl. by rewrite Hst1.
Qed.

Lemma updates_keep_failed (updates : list Status) (st : FragmentExecState) :
  ok (_exec_status st) = false →
  fold_left (λ s u, (update_status u s).2) updates st = st.
Proof.
  intros Hfailed. induction updates as [|u updates IH]; [done|].
  simpl. by rewrite update_status_failed_noop.
Qed.

Lemma updates_keep_cancelled (updates : list Status) (st : FragmentExecState) :
  _cancelled (fold_left (λ s u, (update_status u s).2) updates st)
  = _cancelled st.
Proof.
  revert st. induction updates as [|u updates IH]; intros st; [done|].
  simpl. by rewrite IH, update_status_keeps_cancelled.
Qed.

Lemma apply_call_keeps_failed (c : ExecStateCall) (st : FragmentExecState) :
  ok (_exec_status st) = false →
  _exec_status (apply_call st c) = _exec_status st.
Proof.
  intros Hfailed. destruct c; simpl.
  - by rewrite update_status_failed_noop.
  - apply cancel_keeps_exec_status.
  - done.
  - done.
  - by destruct (isset_query_options params).
  - destruct (coordinator_callback_state env status done st) as [ups ->].
    by rewrite updates_keep_failed.
Qed.

Lemma apply_call_keeps_cancelled (c : ExecStateCall) (st : FragmentExecState) :
  _cancelled st = true → _cancelled (apply_call st c) = true.
Proof.
  intros Hc. destruct c; simpl.
  - by rewrite update_status_keeps_cancelled.
  - apply cancel_sets_cancelled.
  - done.
  - done.
  - by destruct (isset_query_options params).
  - destruct (coordinator_callback_state env status done st) as [ups ->].
    by rewrite updates_keep_cancelled.
Qed.

(** C4. The execution status of a fragment is sticky on first failure:
    [update_status] returns the status stored after its conditional store;
    a store happens only while the stored status is OK and then installs the
    non-OK argument; and once the stored status is non-OK, no later sequence
    of calls on the fragment state (further [update_status] calls included)
    changes it. *)
Theorem update_status_sticky (status : Status) (calls : list ExecStateCall)
    (st : FragmentExecState) :
  (update_status status st).1 = _exec_status (update_status status st).2
  ∧ (_exec_status (update_status status st).2 ≠ _exec_status st →
     ok (_exec_status st) = true ∧ ok status = false
     ∧ _exec_status (update_status status st).2 = status)
  ∧ (ok (_exec_status st) = false →
     update_status status st = (_exec_status st, st)
     ∧ _exec_status (run_calls calls st) = _exec_status st).
Proof.
  split; [apply update_status_returns_stored|].
  split; [apply update_status_installs|].
  intros Hfailed. split; [by apply update_status_failed_noop|].
  unfold run_calls. revert st Hfailed.
  induction calls as [|c calls IH]; intros st Hfailed; [done|].
  simpl. rewrite IH; rewrite apply_call_keeps_failed; done.
Qed.

(** C6. Cancellation is idempotent and monotonic: [cancel] leaves the
    fragment cancelled; a second [cancel], whatever its reason and message,
    returns OK, changes nothing in the state the first one left and makes no
    call to the executor or the load pipe; and the cancelled flag survives
    every later sequence of calls. *)
Theorem cancel_idempotent_monotonic
    (hs1 hs2 : bool) (reason1 reason2 : PPlanFragmentCancelReason)
    (msg1 msg2 : string) (calls : list ExecStateCall)
    (st : FragmentExecState) :
  let st1 := (cancel hs1 reason1 msg1 st).1.2 in
  _cancelled st1 = true
  ∧ cancel hs2 reason2 msg2 st1 = (Status_OK, st1, [])
  ∧ _cancelled (run_calls calls st1) = true.
Proof.
  intros st1.
  assert (Hc : _cancelled st1 = true) by apply cancel_sets_cancelled.
  split; [done|]. split.
  - unfold cancel at 1. by rewrite Hc.
  - unfold run_calls. clearbody st1. revert st1 Hc.
    induction calls as [|c calls IH]; intros st1 Hc; [done|].
    simpl. apply IH. by apply apply_call_keeps_cancelled.
Qed.

End FragmentExecStateFacts.

Section FragmentMgrFacts.

Import FragmentMgr.

Lemma is_timeout_spec (now : VecDateTimeValue) (st : FragmentExecState) :
  FragmentExecState.is_timeout now st = true
  ↔ 0 < _timeout_second st ∧ now > _start_time st + _timeout_second st.
Proof.
  unfold FragmentExecState.is_timeout, second_diff.
  destruct (Z.leb_spec (_timeout_second st) 0);
    [|destruct (Z.gtb_spec (now - _start_time st) (_timeout_second st))];
    split; try done; try lia.
Qed.

(** C3. One round of the timeout sweep selects an instance id for
    cancellation exactly when the live-fragment map holds an instance of
    that id with a positive [timeout_second = T], started at [t0], and the
    clock read by the round is strictly greater than [t0 + T]; an instance
    with [timeout_second <= 0] is never judged timed out; and the round
    cancels the selected ids, and only them, with reason TIMEOUT. *)
Theorem timeout_sweep_selects (env : ExecEnv) (now : VecDateTimeValue)
    (mgr : FragmentMgr) (id : TUniqueId) (st : FragmentExecState) :
  (id ∈ to_cancel now mgr
   ↔ ∃ key exec_state,
       _fragment_map mgr !! key = Some exec_state
       ∧ _fragment_instance_id exec_state = id
       ∧ 0 < _timeout_second exec_state
       ∧ now > _start_time exec_state + _timeout_second exec_state)
  ∧ (FragmentExecState.is_timeout now st = true
     ↔ 0 < _timeout_second st ∧ now > _start_time st + _timeout_second st)
  ∧ (_timeout_second st <= 0 → FragmentExecState.is_timeout now st = false)
  ∧ cancel_worker_round env now mgr
    = cancel_each env (to_cancel now mgr) TIMEOUT ""
        (set_fragments_ctx_map
           (filter (λ it : TUniqueId * QueryFragmentsCtx,
                      QueryFragmentsCtx.is_timeout now it.2 = false)
              (_fragments_ctx_map mgr)) mgr).
Proof.
  split; [|split; [apply is_timeout_spec|split; [|done]]].
  - unfold to_cancel. rewrite list_elem_of_fmap. split.
    + intros [[key exec_state] [-> Hin]].
      apply list_elem_of_filter in Hin as [Hto Hin]. simpl in *.
      apply elem_of_map_to_list in Hin. apply is_timeout_spec in Hto.
      exists key, exec_state. tauto.
    + intros (key & exec_state & Hlook & <- & HT & Hnow).
      exists (key, exec_state). split; [done|].
      apply list_elem_of_filter. split.
      * simpl. apply is_timeout_spec. tauto.
      * by apply elem_of_map_to_list.
  - intros HT. destruct (FragmentExecState.is_timeout now st) eqn:E; [|done].
    apply is_timeout_spec in E. lia.
Qed.

Lemma map_insert_new_is_Some {V : Type} (k : TUniqueId) (v : V)
    (m : gmap TUniqueId V) :
  is_Some (map_insert_new k v m !! k).
Proof.
  unfold map_insert_new. destruct (m !! k) eqn:Hk.
  - rewrite Hk. eauto.
  - rewrite lookup_insert_eq. eauto.
Qed.

Lemma get_query_ctx_error env params qid pipeline mgr st mgr1 evs :
  _get_query_ctx env params qid pipeline mgr = (inl st, mgr1, evs) →
  ok st = false.
Proof.
  unfold _get_query_ctx. destruct (is_simplified_param params).
  - destruct (_fragments_ctx_map mgr !! qid); [done|]. by intros [= <- _ _].
  - destruct (ok (DescriptorTbl_create env)) eqn:Hdesc; simpl.
    + by destruct (_fragments_ctx_map mgr !! qid).
    + by intros [= <- _ _].
Qed.

(** C1. A submission whose instance id is already in the live-fragment map
    returns OK at once: the three registry maps are left as they were and
    nothing is called (no query-context resolution, no new
    [FragmentExecState], no preparation, no execution).  In particular a
    submission that was accepted for the worker pool and is delivered again
    is such a duplicate. *)
Theorem exec_plan_fragment_duplicate (env env' : ExecEnv)
    (params : TExecPlanFragmentParams) (mgr : FragmentMgr) :
  (is_Some (_fragment_map mgr !! params_fragment_instance_id params) →
   exec_plan_fragment env params mgr = (Status_OK, mgr, []))
  ∧ (∀ st mgr' evs,
       isset_enable_pipeline_engine (query_options params)
       && enable_pipeline_engine (query_options params) = false →
       exec_plan_fragment env params mgr = (st, mgr', evs) →
       ok st = true →
       exec_plan_fragment env' params mgr' = (Status_OK, mgr', [])).
Proof.
  assert (Hdup : ∀ e m,
    is_Some (_fragment_map m !! params_fragment_instance_id params) →
    exec_plan_fragment e params m = (Status_OK, m, [])).
  { intros e m [exec_state Hfound]. unfold exec_plan_fragment.
    by rewrite Hfound. }
  split; [apply Hdup|].
  intros st mgr' evs Hlegacy Hrun Hok. apply Hdup.
  revert Hrun. unfold exec_plan_fragment.
  destruct (_fragment_map mgr !! params_fragment_instance_id params)
    as [exec_state|] eqn:Hfound.
  { intros [= _ <- _]. rewrite Hfound. eauto. }
  rewrite Hlegacy.
  destruct (_get_query_ctx env params (params_query_id params) false mgr)
    as [[res mgr1] ev1] eqn:Hctx.
  destruct res as [err|fragments_ctx]; simpl.
  { intros Heq. simplify_eq. apply get_query_ctx_error in Hctx. congruence. }
  unfold prepare.
  destruct (ok (executor_prepare env)) eqn:Hprep; simpl.
  2:{ intros Heq. simplify_eq. congruence. }
  destruct (ok (thread_pool_submit_func env)) eqn:Hsubmit; simpl.
  2:{ destruct (FragmentExecState.cancel _ _ _ _) as [[? ?] ev5].
      intros Heq. by simplify_eq. }
  intros Heq. simplify_eq. simpl. apply map_insert_new_is_Some.
Qed.

Lemma query_bytes_limit_cases (ceiling : Z) (opts : TQueryOptions) :
  -1 <= ceiling →
  (isset_mem_limit opts = true → ceiling < mem_limit opts →
   query_bytes_limit ceiling opts = ceiling)
  ∧ (isset_mem_limit opts = true → 0 < mem_limit opts <= ceiling →
     query_bytes_limit ceiling opts = mem_limit opts)
  ∧ (isset_mem_limit opts = false ∨ mem_limit opts <= 0 →
     query_bytes_limit ceiling opts = -1).
Proof.
  intros Hceil. unfold query_bytes_limit. split; [|split].
  - intros -> Hexceeds. simpl.
    destruct (Z.gtb_spec (mem_limit opts) 0).
    + destruct (Z.gtb_spec (mem_limit opts) ceiling); lia.
    + destruct (Z.gtb_spec (-1) ceiling); lia.
  - intros -> Hfits. simpl.
    destruct (Z.gtb_spec (mem_limit opts) 0); [|lia].
    destruct (Z.gtb_spec (mem_limit opts) ceiling); lia.
  - intros Hunset.
    assert (Hno : isset_mem_limit opts && (mem_limit opts >? 0) = false).
    { destruct Hunset as [-> | Hnonpos]; [done|].
      destruct (Z.gtb_spec (mem_limit opts) 0); [lia|].
      apply andb_false_r. }
    rewrite Hno. destruct (Z.gtb_spec (-1) ceiling); lia.
Qed.

Lemma make_query_mem_tracker_limit qid limit opts :
  tracker_limit (make_query_mem_tracker qid limit opts) = limit.
Proof.
  unfold make_query_mem_tracker.
  by destruct (query_type opts),
    (isset_is_report_success opts && is_report_success opts).
Qed.

(** C7. When [_get_query_ctx] builds and registers a new query context, the
    limit of its memory tracker is the process-wide ceiling if the requested
    limit exceeds it, the requested limit if that is positive and at most the
    ceiling, and -1 (unlimited) if the request is unset or not positive.  The
    ceiling [MemInfo::mem_limit()] is a byte count; any value from -1 up is
    admitted. *)
Theorem new_query_ctx_mem_limit (env : ExecEnv)
    (params : TExecPlanFragmentParams) (qid : TUniqueId) (pipeline : bool)
    (mgr : FragmentMgr) :
  is_simplified_param params = false →
  ok (DescriptorTbl_create env) = true →
  _fragments_ctx_map mgr !! qid = None →
  -1 <= MemInfo_mem_limit env →
  let opts := query_options params in
  let ceiling := MemInfo_mem_limit env in
  ∃ ctx tracker mgr' evs,
    _get_query_ctx env params qid pipeline mgr = (inr ctx, mgr', evs)
    ∧ _fragments_ctx_map mgr' !! qid = Some ctx
    ∧ query_mem_tracker ctx = Some tracker
    ∧ (isset_mem_limit opts = true → ceiling < mem_limit opts →
       tracker_limit tracker = ceiling)
    ∧ (isset_mem_limit opts = true → 0 < mem_limit opts <= ceiling →
       tracker_limit tracker = mem_limit opts)
    ∧ (isset_mem_limit opts = false ∨ mem_limit opts <= 0 →
       tracker_limit tracker = -1).
Proof.
  intros Hfull Hdesc Hnew Hceil opts ceiling.
  unfold _get_query_ctx. rewrite Hfull, Hdesc, Hnew. simpl.
  eexists _, _, _, _. split; [reflexivity|].
  split; [apply lookup_insert_eq|]. split; [reflexivity|].
  rewrite make_query_mem_tracker_limit.
  by apply query_bytes_limit_cases.
Qed.

End FragmentMgrFacts.

Section ReportingFacts.

Import FragmentMgr.

Variables (env : ExecEnv) (status : Status) (done : bool)
          (st : FragmentExecState).

Let req := make_report_request status done st.
Let exec_status := (FragmentExecState.update_status status st).1.
Let st1 := (FragmentExecState.update_status status st).2.
Let report := EvReportExecStatus (_fragment_instance_id st) exec_status done.
Let id := _fragment_instance_id st.

Lemma coordinator_callback_unfold :
  coordinator_callback env req st =
  if negb (ok (frontend_client_status env)) then
    ((FragmentExecState.update_status
        (InternalError (no_client_msg (_coord_addr st)
                          (frontend_client_status env))) st1).2, [])
  else
    match first_reportExecStatus env with
    | RpcTTransportException _ =>
      if negb (ok (coord_reopen env)) then
        ((FragmentExecState.update_status (coord_reopen env) st1).2,
         [report; EvReopen; EvExecutorCancel id INTERNAL_ERROR "report rpc fail"])
      else
        after_report req
          (rpc_status_of (_coord_addr st) (second_reportExecStatus env)) st1
          [report; EvReopen; report]
    | o => after_report req (rpc_status_of (_coord_addr st) o) st1 [report]
    end.
Proof.
  unfold coordinator_callback, req, st1, report, exec_status, id. simpl.
  destruct (FragmentExecState.update_status status st) as [e s1]. simpl.
  destruct (negb (ok (frontend_client_status env))); [done|].
  destruct (first_reportExecStatus env); try done.
  destruct (negb (ok (coord_reopen env))); [done|].
  by destruct (second_reportExecStatus env).
Qed.

Lemma after_report_failed_unfold rpc_status s evs :
  ok rpc_status = false →
  after_report req rpc_status s evs
  = ((FragmentExecState.update_status rpc_status s).2,
     evs ++ [EvExecutorCancel id INTERNAL_ERROR "rpc fail 2"]).
Proof. intros H. unfold after_report. by rewrite H. Qed.

Lemma after_report_ok_unfold rpc_status s evs :
  ok rpc_status = true → after_report req rpc_status s evs = (s, evs).
Proof. intros H. unfold after_report. by rewrite H. Qed.

Lemma report_failed_status addr o :
  report_failed o = negb (ok (rpc_status_of addr o)).
Proof. by destruct o. Qed.

Lemma update_status_stores (u : Status) (s : FragmentExecState) :
  ok u = false →
  (FragmentExecState.update_status u s).2
  = if ok (_exec_status s) then FragmentExecState.set_exec_status u s else s.
Proof.
  intros Hu. unfold FragmentExecState.update_status. rewrite Hu. simpl.
  by destruct (ok (_exec_status s)).
Qed.

Lemma update_status_shape (u : Status) (s : FragmentExecState) :
  (FragmentExecState.update_status u s).2
  = FragmentExecState.set_exec_status
      (_exec_status (FragmentExecState.update_status u s).2) s.
Proof.
  unfold FragmentExecState.update_status.
  destruct s. by destruct (negb (ok u) && ok _).
Qed.

Lemma update_status_twice_shape (u v : Status) (s : FragmentExecState) :
  (FragmentExecState.update_status v (FragmentExecState.update_status u s).2).2
  = FragmentExecState.set_exec_status
      (_exec_status
         (FragmentExecState.update_status v
            (FragmentExecState.update_status u s).2).2) s.
Proof.
  rewrite update_status_shape at 1.
  rewrite (update_status_shape u s) at 2. by destruct s.
Qed.

Lemma first_update_status :
  _exec_status st1
  = (if ok (_exec_status st) && negb (ok status) then status
     else _exec_status st)
  ∧ _cancelled st1 = _cancelled st
  ∧ _timeout_second st1 = _timeout_second st.
Proof.
  unfold st1, FragmentExecState.update_status.
  rewrite andb_comm. by destruct (ok (_exec_status st) && negb (ok status)).
Qed.

(** The status the fragment holds once the callback has stored the reporting
    error [err] behind the status it was called with: the first failure
    among the fragment's own status, the reported status and [err]. *)
Lemma failed_report_status (err : Status) :
  ok err = false →
  let s := (FragmentExecState.update_status err st1).2 in
  _exec_status s
  = (if ok (_exec_status st)
     then if ok status then err else status
     else _exec_status st)
  ∧ ok (_exec_status s) = false
  ∧ _cancelled s = _cancelled st
  ∧ _timeout_second s = _timeout_second st.
Proof.
  intros Herr. cbv zeta. rewrite (update_status_stores _ _ Herr).
  destruct first_update_status as (Hs & Hc & Ht).
  destruct (ok (_exec_status st)) eqn:Hst, (ok status) eqn:Hstatus;
    simpl in Hs; rewrite ?Hs, ?Hst, ?Hstatus; simpl;
    rewrite ?Hs, ?Hst, ?Hstatus; by simpl.
Qed.

(** C8. In [coordinator_callback], once a coordinator client is at hand, a
    transport failure of the first [reportExecStatus] makes the callback
    reopen the connection.  If the reopen fails, no second report is sent,
    the fragment status is updated with the reopen error and the executor is
    cancelled with reason INTERNAL_ERROR.  If the reopen succeeds the report
    is sent exactly once more: when that retry fails (it throws, or hands
    back a non-OK status) the status is updated with the error and the
    executor is cancelled with reason INTERNAL_ERROR; when it succeeds no
    cancellation is issued and the status stays what it was.  Updating the
    status with the error means: a fragment whose status and reported status
    were OK now holds the error as its status, a fragment that had failed
    before keeps its first failure, the status is not OK in either case, and
    nothing else of the fragment state changes.  Whatever the collaborators
    answer, the callback sends at most two reports and reopens at most
    once. *)
Theorem report_retry_once (what : string) :
  ok (frontend_client_status env) = true →
  first_reportExecStatus env = RpcTTransportException what →
  let out := coordinator_callback env req st in
  let retry := second_reportExecStatus env in
  let updated_with (err : Status) :=
    _exec_status out.1
    = (if ok (_exec_status st)
       then if ok status then err else status
       else _exec_status st)
    ∧ ok (_exec_status out.1) = false
    ∧ out.1 = FragmentExecState.set_exec_status (_exec_status out.1) st in
  (ok (coord_reopen env) = false →
   out = ((FragmentExecState.update_status (coord_reopen env) st1).2,
          [report; EvReopen;
           EvExecutorCancel id INTERNAL_ERROR "report rpc fail"])
   ∧ updated_with (coord_reopen env))
  ∧ (ok (coord_reopen env) = true → report_failed retry = true →
     out = ((FragmentExecState.update_status
               (rpc_status_of (_coord_addr st) retry) st1).2,
            [report; EvReopen; report;
             EvExecutorCancel id INTERNAL_ERROR "rpc fail 2"])
     ∧ updated_with (rpc_status_of (_coord_addr st) retry))
  ∧ (ok (coord_reopen env) = true → report_failed retry = false →
     out = (st1, [report; EvReopen; report])
     ∧ count_events is_cancel out.2 = 0%nat
     ∧ _exec_status out.1
       = (if ok (_exec_status st) && negb (ok status) then status
          else _exec_status st))
  ∧ (count_events is_report out.2 <= 2)%nat
  ∧ (count_events is_reopen out.2 <= 1)%nat.
Proof.
  intros Hclient Hfirst out retry updated_with.
  assert (Hupdated : ∀ err evs,
    ok err = false →
    out = ((FragmentExecState.update_status err st1).2, evs) →
    updated_with err).
  { intros err evs Herr ->. unfold updated_with. simpl.
    destruct (failed_report_status err Herr) as (Hs & Hok & _).
    split; [exact Hs|]. split; [exact Hok|].
    apply update_status_twice_shape. }
  assert (Hout : out = coordinator_callback env req st) by done.
  clearbody out.
  rewrite coordinator_callback_unfold, Hclient, Hfirst in Hout. simpl in Hout.
  split.
  { intros Hreopen. rewrite Hreopen in Hout. simpl in Hout.
    split; [exact Hout|]. by apply (Hupdated _ _ Hreopen Hout). }
  split.
  { intros Hreopen Hfail. rewrite Hreopen in Hout. simpl in Hout.
    rewrite (report_failed_status (_coord_addr st)) in Hfail.
    apply negb_true_iff in Hfail.
    rewrite after_report_failed_unfold in Hout by done.
    split; [exact Hout|]. by apply (Hupdated _ _ Hfail Hout). }
  split.
  { intros Hreopen Hgood. rewrite Hreopen in Hout. simpl in Hout.
    rewrite (report_failed_status (_coord_addr st)) in Hgood.
    apply negb_false_iff in Hgood.
    rewrite after_report_ok_unfold in Hout by done.
    subst out. split; [done|]. split; [done|]. simpl.
    apply first_update_status. }
  subst out. unfold count_events, after_report, report, req.
  destruct (negb (ok (coord_reopen env))); [simpl; lia|].
  destruct (negb (ok (rpc_status_of _ (second_reportExecStatus env))));
    simpl; lia.
Qed.

End ReportingFacts.

Section CsvReaderFacts.

(** C9. For a scan range with a non-zero [start_offset] over a compressed
    file (the format is not plain CSV, or the compression type is neither
    UNKNOWN nor PLAIN), [init_reader] returns the InternalError "For now we
    do not support split compressed file" and leaves the reader as it was:
    no file reader is created and no line reader is set up. *)
Theorem init_reader_split_compressed (env : CsvEnv) (is_load : bool)
    (r : CsvReader) :
  range_start_offset (_params r) ≠ 0 →
  _file_format_type r ≠ FORMAT_CSV_PLAIN
  ∨ (_file_compress_type r ≠ UNKNOWN ∧ _file_compress_type r ≠ PLAIN) →
  CsvReader.init_reader env is_load r
  = (InternalError "For now we do not support split compressed file", r).
Proof.
  intros Hoff Hcompressed. unfold CsvReader.init_reader.
  destruct (Z.eqb_spec (range_start_offset (_params r)) 0) as [|_]; [done|].
  assert (Hguard :
    negb (is_FORMAT_CSV_PLAIN (_file_format_type r))
    || (negb (is_UNKNOWN (_file_compress_type r))
        && negb (is_PLAIN (_file_compress_type r))) = true).
  { destruct Hcompressed as [Hf | [Hu Hp]].
    - destruct (_file_format_type r); done.
    - destruct (_file_compress_type r); try done;
        by rewrite orb_true_r. }
  by rewrite Hguard.
Qed.

End CsvReaderFacts.

(** * Properties of the parquet reader *)

Section SweepFacts.

Lemma wrap32_small (z : Z) : - 2 ^ 31 <= z <= INT32_MAX → wrap32 z = z.
Proof.
  unfold wrap32, INT32_MAX. intros Hz. rewrite Z.mod_small; lia.
Qed.

Lemma row_range_le_first (a b : RowRange) :
  row_range_le a b → first_row a <= first_row b.
Proof. unfold row_range_le, row_range_lt. lia. Qed.

#[local] Instance row_range_le_total : Total row_range_le.
Proof. intros a b. unfold row_range_le, row_range_lt. lia. Qed.

#[local] Instance row_range_le_trans : Transitive row_range_le.
Proof. intros a b c. unfold row_range_le, row_range_lt. lia. Qed.

Lemma sort_row_ranges_sorted (l : list RowRange) :
  StronglySorted (λ a b, first_row a <= first_row b) (sort_row_ranges l).
Proof.
  unfold sort_row_ranges.
  pose proof (StronglySorted_merge_sort row_range_le l) as Hs.
  induction Hs as [|a l' Hs IH Hall]; constructor; [done|].
  eapply Forall_impl; [exact Hall|]. intros b. apply row_range_le_first.
Qed.

Lemma sort_row_ranges_perm (l : list RowRange) : sort_row_ranges l ≡ₚ l.
Proof. apply merge_sort_Permutation. Qed.

Lemma in_ranges_perm (row : Z) (l1 l2 : list RowRange) :
  l1 ≡ₚ l2 → in_ranges row l1 ↔ in_ranges row l2.
Proof.
  intros Hp. unfold in_ranges. rewrite !Exists_exists.
  by setoid_rewrite Hp.
Qed.

Lemma not_in_ranges_before (row e : Z) (l : list RowRange) :
  Forall (λ c, e <= first_row c) l → row < e → ¬ in_ranges row l.
Proof.
  intros Hall Hrow Hin. unfold in_ranges in Hin.
  apply Exists_exists in Hin as (c & Hc & Hr).
  rewrite Forall_forall in Hall. specialize (Hall c Hc).
  unfold in_range in Hr. lia.
Qed.

Lemma not_in_ranges_after (row e : Z) (l : list RowRange) :
  Forall (λ c, last_row c <= e) l → e <= row → ¬ in_ranges row l.
Proof.
  intros Hall Hrow Hin. unfold in_ranges in Hin.
  apply Exists_exists in Hin as (c & Hc & Hr).
  rewrite Forall_forall in Hall. specialize (Hall c Hc).
  unfold in_range in Hr. lia.
Qed.

Lemma in_ranges_cons (row : Z) (a : RowRange) (l : list RowRange) :
  in_ranges row (a :: l) ↔ in_range row a ∨ in_ranges row l.
Proof. unfold in_ranges. apply Exists_cons. Qed.

Lemma sweep_spec (N : Z) (l : list RowRange) :
  N <= INT32_MAX →
  ∀ s : Sweep,
    Forall (within_group N) l →
    StronglySorted (λ a b, first_row a <= first_row b) l →
    0 <= skip_end s <= N →
    ∃ new, sweep_post N l s (fold_left sweep_step l s) new.
Proof.
  intros HN. induction l as [|a l IH]; intros s Hwithin Hsorted Hs.
  { exists []. unfold sweep_post. simpl. rewrite app_nil_r.
    split; [done|]. split; [lia|]. split; [constructor|].
    split; [constructor|]. split; [constructor|].
    split; [intros row Hrow; lia | lia]. }
  apply Forall_cons in Hwithin as [(Ha0 & Ha1 & Ha2) Hwithin].
  apply StronglySorted_inv in Hsorted as [Hsorted Hfirst].
  assert (Hwrap : wrap32 (last_row a) = last_row a)
    by (apply wrap32_small; unfold INT32_MAX in *; lia).
  simpl. unfold sweep_step at 2.
  destruct (Z.geb_spec (skip_end s) (first_row a)) as [Hge|Hlt].
  - destruct (Z.ltb_spec (skip_end s) (last_row a)) as [Hext|Hkeep].
    + rewrite Hwrap.
      destruct (IH (mkSweep (last_row a) (candidate_row_ranges s)
                      (sweep_read_rows s)) Hwithin Hsorted)
        as (new & Hc & Hend & Hlast & Hnew & Hord & Hrows & Hrr);
        [simpl; lia|].
      simpl in *. exists new. unfold sweep_post.
      split; [done|]. split; [lia|]. split.
      { constructor; [lia|done]. }
      split.
      { eapply Forall_impl; [exact Hnew|]. simpl. intros c Hcc. lia. }
      split; [done|]. split; [|done].
      intros row Hrow. rewrite in_ranges_cons.
      destruct (Z.lt_ge_cases row (last_row a)) as [Hin|Hout].
      * split.
        -- intros Hcand. exfalso.
           eapply (not_in_ranges_before row (last_row a) new); [|lia|done].
           eapply Forall_impl; [exact Hnew|]. simpl. intros c Hcc. lia.
        -- intros Hno. exfalso. apply Hno. left. unfold in_range. lia.
      * rewrite Hrows by lia. unfold in_range. split.
        -- intros Hno [Hina|Hinl]; [lia|done].
        -- intros Hno Hinl. apply Hno. by right.
    + destruct (IH s Hwithin Hsorted Hs)
        as (new & Hc & Hend & Hlast & Hnew & Hord & Hrows & Hrr).
      exists new. unfold sweep_post.
      split; [done|]. split; [lia|]. split.
      { constructor; [lia|done]. }
      split; [done|]. split; [done|]. split; [|done].
      intros row Hrow. rewrite in_ranges_cons, Hrows by lia.
      unfold in_range. split.
      * intros Hno [Hina|Hinl]; [lia|done].
      * intros Hno Hinl. apply Hno. by right.
  - rewrite Hwrap.
    destruct (IH (mkSweep (last_row a)
                    (candidate_row_ranges s
                     ++ [mkRowRange (skip_end s) (first_row a)])
                    (sweep_read_rows s + (first_row a - skip_end s)))
                Hwithin Hsorted)
      as (new & Hc & Hend & Hlast & Hnew & Hord & Hrows & Hrr);
      [simpl; lia|].
    simpl in *.
    exists (mkRowRange (skip_end s) (first_row a) :: new). unfold sweep_post.
    split; [by rewrite Hc, <- app_assoc|]. split; [lia|]. split.
    { constructor; [lia|done]. }
    split.
    { constructor; [simpl; lia|].
      eapply Forall_impl; [exact Hnew|]. simpl. intros c Hcc. lia. }
    split.
    { constructor; [done|].
      eapply Forall_impl; [exact Hnew|]. simpl. intros c Hcc. lia. }
    split; [|simpl; lia].
    intros row Hrow. rewrite !in_ranges_cons. unfold in_range at 1 2. simpl.
    destruct (Z.lt_ge_cases row (first_row a)) as [Hbefore|Hfrom].
    + split; [|intros _; left; lia].
      intros _ [Hina|Hinl]; [lia|].
      eapply (not_in_ranges_before row (first_row a) l); [done|lia|done].
    + destruct (Z.lt_ge_cases row (last_row a)) as [Hin|Hout].
      * split.
        -- intros [Hcand|Hcand]; [lia|]. exfalso.
           eapply (not_in_ranges_before row (last_row a) new); [|lia|done].
           eapply Forall_impl; [exact Hnew|]. simpl. intros c Hcc. lia.
        -- intros Hno. exfalso. apply Hno. left. lia.
      * rewrite Hrows by lia. split.
        -- intros [Hcand|Hno] [Hina|Hinl]; try lia. done.
        -- intros Hno. right. intros Hinl. apply Hno. by right.
Qed.

Lemma chain_disjoint (l : list RowRange) :
  StronglySorted (λ a b, last_row a <= first_row b) l →
  ∀ (i j : nat) a b row,
    i ≠ j → l !! i = Some a → l !! j = Some b →
    ¬ (in_range row a ∧ in_range row b).
Proof.
  unfold in_range.
  induction 1 as [|c l Hsorted IH Hall]; intros i j a b row Hij Ha Hb.
  { by rewrite lookup_nil in Ha. }
  rewrite Forall_forall in Hall.
  destruct i as [|i], j as [|j]; simpl in *; try done.
  - injection Ha as <-. apply list_elem_of_lookup_2 in Hb.
    specialize (Hall b Hb). simpl in Hall. lia.
  - injection Hb as <-. apply list_elem_of_lookup_2 in Ha.
    specialize (Hall a Ha). simpl in Hall. lia.
  - eapply IH; [|exact Ha|exact Hb]. congruence.
Qed.

Lemma in_range_dec (row : Z) (l : list RowRange) :
  in_ranges row l ∨ ¬ in_ranges row l.
Proof.
  unfold in_ranges, in_range.
  destruct (decide (Exists (λ r, first_row r <= row < last_row r) l)); auto.
Qed.

(** The complement step on its own: for skip ranges inside a row group of
    [N] rows, [N] within the range of [int], the candidates it returns and the
    skip ranges partition [0, N), and the row count it returns is the number
    of candidate rows. *)
Lemma candidates_of_skipped_partition (N : Z) (skipped : list RowRange) :
  0 <= N <= INT32_MAX →
  Forall (within_group N) skipped →
  partitions_group N (candidates_of_skipped N [] skipped).1 skipped
  ∧ (candidates_of_skipped N [] skipped).2
    = rows_in (candidates_of_skipped N [] skipped).1.
Proof.
  intros HN Hwithin. unfold candidates_of_skipped.
  assert (Hsw : Forall (within_group N) (sort_row_ranges skipped)).
  { by rewrite sort_row_ranges_perm. }
  destruct (sweep_spec N (sort_row_ranges skipped) (proj2 HN)
              (mkSweep 0 [] 0) Hsw (sort_row_ranges_sorted skipped))
    as (new & Hc & Hend & Hlast & Hnew & Hord & Hrows & Hrr); [simpl; lia|].
  simpl in *.
  set (s' := fold_left sweep_step (sort_row_ranges skipped) (mkSweep 0 [] 0))
    in *.
  assert (Hskip : ∀ row, in_ranges row (sort_row_ranges skipped)
                         ↔ in_ranges row skipped)
    by (intros row; apply in_ranges_perm, sort_row_ranges_perm).
  assert (Hnew_in : ∀ row, in_ranges row new → 0 <= row < skip_end s').
  { intros row Hin. apply Exists_exists in Hin as (c & Hcin & Hr).
    rewrite Forall_forall in Hnew. specialize (Hnew c Hcin).
    unfold in_range in Hr. lia. }
  destruct (Z.eqb_spec (skip_end s') N) as [Heq|Hne]; simpl; rewrite Hc.
  - split; [|done]. unfold partitions_group. split.
    { eapply Forall_impl; [exact Hnew|]. unfold within_group. simpl.
      intros c Hcc. lia. }
    split.
    { intros row Hrow. destruct (in_range_dec row skipped) as [|Hno]; [by right|].
      left. apply Hrows; [lia|]. by rewrite Hskip. }
    split.
    { intros row [Hcand Hsk]. apply Hnew_in in Hcand as Hrow.
      apply Hrows in Hcand; [|lia]. by rewrite Hskip in Hcand. }
    by apply chain_disjoint.
  - assert (Hlt : skip_end s' < N) by lia.
    assert (Hin_app : ∀ row,
      in_ranges row (new ++ [mkRowRange (skip_end s') N])
      ↔ in_ranges row new ∨ skip_end s' <= row < N).
    { intros row. unfold in_ranges. rewrite Exists_app, Exists_cons, Exists_nil.
      unfold in_range at 2. simpl. tauto. }
    split.
    2:{ rewrite Hrr. unfold rows_in. rewrite foldr_app. simpl.
        clear. induction new as [|c new IH]; simpl; lia. }
    unfold partitions_group. split.
    { apply Forall_app. split.
      - eapply Forall_impl; [exact Hnew|]. unfold within_group. simpl.
        intros c Hcc. lia.
      - constructor; [|constructor]. unfold within_group. simpl. lia. }
    split.
    { intros row Hrow. rewrite Hin_app.
      destruct (Z.lt_ge_cases row (skip_end s')) as [Hlow|Hhigh]; [|left; right; lia].
      destruct (in_range_dec row skipped) as [|Hno]; [by right|].
      left. left. apply Hrows; [lia|]. by rewrite Hskip. }
    split.
    { intros row [Hcand Hsk]. apply Hin_app in Hcand as [Hcand|Hlast'].
      - apply Hnew_in in Hcand as Hrow.
        apply Hrows in Hcand; [|lia]. by rewrite Hskip in Hcand.
      - apply Hskip in Hsk.
        by eapply (not_in_ranges_after row (skip_end s')); [| |exact Hsk]; [|lia]. }
    apply chain_disjoint.
    apply StronglySorted_app_2; [|done|].
    + intros c1 c2 Hc1 Hc2. apply list_elem_of_singleton in Hc2 as ->. simpl.
      rewrite Forall_forall in Hnew. specialize (Hnew c1 Hc1). lia.
    + constructor; constructor.
Qed.

End SweepFacts.

Section ParquetReaderFacts.

Context {ColumnValueRange RowGroupReader Block ColumnStatistics : Type}.
Variable env : ParquetEnv ColumnValueRange RowGroupReader Block ColumnStatistics.

Abbreviation Reader :=
  (ParquetReader ColumnValueRange RowGroupReader ColumnStatistics).

(** Page-index pruning on row groups whose row count fits the [int]
    watermark of the sweep.  When the page index yields the skip ranges
    [skipped], all inside the row group of [N <= INT32_MAX] rows,
    [_process_page_index] returns OK with candidate ranges that, together
    with [skipped], partition [0, N): every row is in a candidate or in a
    skip range, no row is in both, no row is in two candidates.  With no
    skip range the candidates are the single range [0, N).  The rows counted
    as read are the candidate rows. *)
Theorem process_page_index_partition (row_group : RowGroup) (r : Reader)
    (skipped : list RowRange) (col_offsets : gmap Z OffsetIndex) :
  0 <= num_rows row_group <= INT32_MAX →
  gather_skipped_row_ranges env row_group r
  = (Status_OK, skipped, col_offsets) →
  Forall (within_group (num_rows row_group)) skipped →
  ∃ candidates r',
    _process_page_index env row_group [] r = (Status_OK, candidates, r')
    ∧ partitions_group (num_rows row_group) candidates skipped
    ∧ (skipped = [] → candidates = [mkRowRange 0 (num_rows row_group)])
    ∧ read_rows (_statistics r')
      = read_rows (_statistics r) + rows_in candidates.
Proof.
  intros HN Hgather Hwithin. unfold _process_page_index.
  rewrite Hgather. simpl.
  destruct skipped as [|sk skipped].
  - eexists _, _. split; [reflexivity|]. simpl.
    split; [|split; [done|lia]].
    unfold partitions_group. split.
    { constructor; [|constructor]. unfold within_group. simpl. lia. }
    split.
    { intros row Hrow. left. constructor. unfold in_range. simpl. lia. }
    split.
    { intros row [_ Hsk]. by apply Exists_nil in Hsk. }
    intros [|i] [|j] a b row Hij Ha Hb; simpl in *; try done;
      by rewrite lookup_nil in *.
  - destruct (candidates_of_skipped_partition (num_rows row_group)
                (sk :: skipped) HN Hwithin) as [Hpart Hrows].
    destruct (candidates_of_skipped (num_rows row_group) [] (sk :: skipped))
      as [cands rows] eqn:Hcands.
    simpl in *. eexists _, _. split; [reflexivity|].
    split; [done|]. split; [done|]. simpl. by rewrite Hrows.
Qed.

(** The [DCHECK] of [get_next_block] holds: when [_next_row_group_reader]
    succeeds, a row-group reader is present and not exhausted, and the queue
    has lost its front element. *)
Lemma next_row_group_reader_ok (r r1 : Reader) (st : Status) :
  _next_row_group_reader env r = (st, r1) → ok st = true →
  is_Some (_current_group_reader r1) ∧ _row_group_eof r1 = false
  ∧ ∃ row_group_index,
      _read_row_groups r = row_group_index :: _read_row_groups r1.
Proof.
  unfold _next_row_group_reader.
  destruct (_read_row_groups r) as [|idx rest]; [by intros [= <- _]|].
  destruct (_process_page_index _ _ _ _) as [[pst cands] r2] eqn:Hpp.
  assert (Hq : _read_row_groups r2 = rest).
  { revert Hpp. unfold _process_page_index.
    destruct (gather_skipped_row_ranges _ _ _) as [[gst sk] offs].
    destruct (negb (ok gst)); [by intros [= _ _ <-]|].
    destruct sk; [by intros [= _ _ <-]|].
    destruct (candidates_of_skipped _ _ _). by intros [= _ _ <-]. }
  destruct (negb (ok pst)) eqn:Hst.
  { intros [= <- _] Hok. by rewrite Hok in Hst. }
  destruct (_get_position_delete_ctx _ _ _) as [ctx r3] eqn:Hpd.
  assert (Hq3 : _read_row_groups r3 = rest).
  { revert Hpd. unfold _get_position_delete_ctx.
    destruct (_delete_rows r2); by intros [= _ <-]. }
  destruct (RowGroupReader_init _ _ _ _) as [init_st reader'].
  intros [= _ <-] _. simpl. eauto.
Qed.

Lemma get_next_block_terminal (r : Reader) (block : Block) (rows : Z)
    (eof : bool) :
  _current_group_reader r = None ∨ _row_group_eof r = true →
  _read_row_groups r = [] →
  get_next_block env r block rows eof
  = (Status_OK, set_group_reader None true [] r, block, 0, true).
Proof.
  intros Hcur Hqueue. unfold get_next_block. rewrite Hqueue. simpl.
  destruct Hcur as [-> | ->]; [done|]. by rewrite orb_true_r.
Qed.

Lemma get_next_blocks_terminal (calls : list (Block * Z * bool)) (r : Reader) :
  _current_group_reader r = None → _row_group_eof r = true →
  _read_row_groups r = [] →
  get_next_blocks env r calls = ((λ _, (Status_OK, 0, true)) <$> calls, r).
Proof.
  intros Hcur Heof Hqueue.
  assert (Hsame : set_group_reader None true [] r = r).
  { destruct r. simpl in *. by subst. }
  induction calls as [|[[block rows] eof] calls IH]; [done|].
  simpl. rewrite get_next_block_terminal by auto.
  by rewrite Hsame, IH.
Qed.

(** What [get_next_block] returns when it gets as far as reading a batch
    from [r1]. *)
Lemma get_next_block_batch (r r1 : Reader) (block : Block) (rows : Z)
    (eof : bool) (reader : RowGroupReader) :
  batch_source env r r1 → _current_group_reader r1 = Some reader →
  get_next_block env r block rows eof
  = let '(batch_st, reader', block', rows', group_eof) :=
      next_batch env reader block (_batch_size r1) rows (_row_group_eof r1) in
    let r2 :=
      set_group_reader (Some reader') group_eof (_read_row_groups r1) r1 in
    if negb (ok batch_st) then
      (InternalError
         (String.append "Read parquet file "
            (String.append (_scan_range_path r2)
               (String.append " failed, reason = "
                  (to_string env batch_st)))),
       r2, block', rows', eof)
    else if group_eof then
      (Status_OK,
       set_pruning (_col_offsets r2)
         (mkStatistics (read_rows (_statistics r2))
            (filtered_page_rows (_statistics r2))
            (lazy_read_filtered_rows (_statistics r2)
             + reader_lazy_read_filtered_rows env reader'))
         (set_column_statistics
            (_column_statistics r2 ++ [statistics env reader']) r2),
       block', rows', Z.of_nat (length (_read_row_groups r1)) =? 0)
    else (Status_OK, r2, block', rows', eof).
Proof.
  intros Hsource Hreader. unfold get_next_block.
  destruct Hsource as [([cur Hcur] & Heof & ->)
                      | (Hdone & Hqueue & st & Hnext & Hst)].
  - assert (bool_decide (_current_group_reader r = None) || _row_group_eof r
            = false) as ->.
    { by rewrite Hcur, Heof. }
    simpl. rewrite Hreader.
    by destruct (next_batch _ _ _ _ _ _) as [[[[? ?] ?] ?] ?].
  - assert (bool_decide (_current_group_reader r = None) || _row_group_eof r
            = true) as ->.
    { destruct Hdone as [-> | ->]; [done|apply orb_true_r]. }
    assert ((0 <? Z.of_nat (length (_read_row_groups r))) = true) as ->.
    { apply Z.ltb_lt. destruct (_read_row_groups r); [done|simpl; lia]. }
    rewrite Hnext, Hst. simpl. rewrite Hreader.
    by destruct (next_batch _ _ _ _ _ _) as [[[[? ?] ?] ?] ?].
Qed.

(** A call either returns before reading a batch, with the caller's eof flag
    or from the end-of-file state, or reads its batch from a source. *)
Lemma get_next_block_cases (r : Reader) (block : Block) (rows : Z)
    (eof : bool) :
  (get_next_block env r block rows eof).2 = eof
  ∨ ((_current_group_reader r = None ∨ _row_group_eof r = true)
     ∧ _read_row_groups r = [])
  ∨ ∃ r1 reader, batch_source env r r1 ∧ _current_group_reader r1 = Some reader.
Proof.
  destruct (bool_decide (_current_group_reader r = None) || _row_group_eof r)
    eqn:Hdone.
  - assert (_current_group_reader r = None ∨ _row_group_eof r = true) as Hd.
    { apply orb_true_iff in Hdone as [H%bool_decide_eq_true_1 | H]; auto. }
    destruct (_read_row_groups r) as [|idx rest] eqn:Hqueue; [by auto|].
    destruct (_next_row_group_reader env r) as [st r1] eqn:Hnext.
    destruct (ok st) eqn:Hst.
    + destruct (next_row_group_reader_ok r r1 st Hnext Hst)
        as ([reader Hreader] & _).
      right. right. exists r1, reader. split; [|done].
      right. split; [done|]. split; [by rewrite Hqueue|]. eauto.
    + left. unfold get_next_block. rewrite Hdone, Hqueue, Hnext, Hst. done.
  - apply orb_false_iff in Hdone as [Hcur%bool_decide_eq_false_1 Heof].
    destruct (_current_group_reader r) as [reader|] eqn:Hreader; [|done].
    right. right. exists r, reader. split; [|done]. left. by eauto.
Qed.

(** C10.  The end-of-file state of [get_next_block] (no current row-group
    reader or an exhausted one, and an empty queue of pending row groups) is
    terminal and absorbing: a call in that state returns OK with zero rows
    and eof = true and resets the current reader, and every later call,
    whatever the caller passes, reports the same and leaves the reader as it
    is.  A call turns the caller's eof flag to true in two situations only:
    it is made in that state and reports zero rows; or it reads a batch, from
    the current row group or from the pending one it has just opened, that
    exhausts the row group while no row group is pending, and it reports the
    rows of that batch.  Either way it returns OK and leaves the reader in
    the end-of-file state.  Conversely every call that reads such a batch
    returns eof = true with the rows of the batch. *)
Theorem get_next_block_eof_state (r : Reader) (block : Block) (rows : Z)
    (eof : bool) (calls : list (Block * Z * bool)) :
  let terminal := set_group_reader None true [] r in
  let out := get_next_block env r block rows eof in
  let last_batch (r1 : Reader) (reader : RowGroupReader) :=
    let batch :=
      next_batch env reader block (_batch_size r1) rows (_row_group_eof r1) in
    batch_source env r r1 ∧ _current_group_reader r1 = Some reader
    ∧ _read_row_groups r1 = []
    ∧ ok batch.1.1.1.1 = true ∧ batch.2 = true in
  ((_current_group_reader r = None ∨ _row_group_eof r = true)
   ∧ _read_row_groups r = [] →
   out = (Status_OK, terminal, block, 0, true)
   ∧ get_next_blocks env terminal calls
     = ((λ _, (Status_OK, 0, true)) <$> calls, terminal))
  ∧ (eof = false → out.2 = true →
     out.1.1.1.1 = Status_OK
     ∧ (_current_group_reader out.1.1.1.2 = None
        ∨ _row_group_eof out.1.1.1.2 = true)
     ∧ _read_row_groups out.1.1.1.2 = []
     ∧ (((_current_group_reader r = None ∨ _row_group_eof r = true)
         ∧ _read_row_groups r = [] ∧ out.1.2 = 0)
        ∨ ∃ r1 reader,
            last_batch r1 reader
            ∧ out.1.2
              = (next_batch env reader block (_batch_size r1) rows
                   (_row_group_eof r1)).1.2))
  ∧ (∀ r1 reader,
       last_batch r1 reader →
       out.1.1.1.1 = Status_OK ∧ out.2 = true
       ∧ out.1.2
         = (next_batch env reader block (_batch_size r1) rows
              (_row_group_eof r1)).1.2
       ∧ _row_group_eof out.1.1.1.2 = true
       ∧ _read_row_groups out.1.1.1.2 = []).
Proof.
  intros terminal out last_batch. split; [|split].
  - intros [Hcur Hqueue]. split.
    + by apply get_next_block_terminal.
    + by apply get_next_blocks_terminal.
  - intros -> Hout.
    destruct (get_next_block_cases r block rows false)
      as [Hsame | [[Hdone Hqueue] | (r1 & reader & Hsource & Hreader)]].
    + fold out in Hsame. congruence.
    + subst out. rewrite get_next_block_terminal by done. simpl.
      split; [done|]. split; [by left|]. split; [done|]. left. done.
    + subst out. revert Hout.
      rewrite (get_next_block_batch r r1 block rows false reader Hsource
                 Hreader).
      unfold last_batch.
      destruct (next_batch env reader block (_batch_size r1) rows
                  (_row_group_eof r1))
        as [[[[batch_st reader'] block'] rows'] group_eof] eqn:Hbatch.
      destruct (ok batch_st) eqn:Hst; simpl; [|done].
      destruct group_eof; simpl; [|done].
      intros Hlen%Z.eqb_eq.
      assert (_read_row_groups r1 = []) as Hqueue.
      { destruct (_read_row_groups r1); [done|simpl in Hlen; lia]. }
      split; [done|]. split; [by right|]. split; [done|].
      right. exists r1, reader. rewrite Hbatch. simpl. by rewrite Hst.
  - intros r1 reader (Hsource & Hreader & Hqueue & Hst & Hgroup).
    subst out.
    rewrite (get_next_block_batch r r1 block rows eof reader Hsource Hreader).
    destruct (next_batch env reader block (_batch_size r1) rows
                (_row_group_eof r1))
      as [[[[batch_st reader'] block'] rows'] group_eof].
    simpl in Hst, Hgroup. subst group_eof. rewrite Hst, Hqueue. by simpl.
Qed.

End ParquetReaderFacts.

Section ParquetReaderExamples.

(** C2, where the code departs from it.  A row group of 3,000,000,000 rows
    whose predicate column has pages starting at rows 0, 2147483647 and
    2147483653, the second page ruled out by the predicate.  The skip range
    [2147483647, 2147483653) lies inside the row group, and the watermark
    [skip_end], an [int], takes the value -2147483643 from its end; the
    closing candidate range then starts at that negative row, so that row
    2147483650 is in the skip range and in a candidate, and row 5 is in
    two candidates. *)
Theorem process_page_index_int_overflow :
  let env := sample_env (pages_at [0; 2147483647; 2147483653]) [1] in
  let row_group := mkRowGroup [mkColumnChunk 1 1] 3000000000 in
  let r := sample_reader 3000000000 [] in
  let skipped := [mkRowRange 2147483647 2147483653] in
  let candidates :=
    [mkRowRange 0 2147483647; mkRowRange (-2147483643) 3000000000] in
  (gather_skipped_row_ranges env row_group r).1 = (Status_OK, skipped)
  ∧ Forall (within_group 3000000000) skipped
  ∧ (_process_page_index env row_group [] r).1 = (Status_OK, candidates)
  ∧ (in_ranges 2147483650 candidates ∧ in_ranges 2147483650 skipped)
  ∧ (in_range 5 (mkRowRange 0 2147483647)
     ∧ in_range 5 (mkRowRange (-2147483643) 3000000000))
  ∧ ¬ partitions_group 3000000000 candidates skipped.
Proof.
  simpl. split; [by vm_compute|].
  split; [repeat constructor; simpl; lia|].
  split; [by vm_compute|].
  assert (Hc : in_ranges 2147483650
                 [mkRowRange 0 2147483647;
                  mkRowRange (-2147483643) 3000000000]).
  { right. left. unfold in_range. simpl. lia. }
  assert (Hs : in_ranges 2147483650 [mkRowRange 2147483647 2147483653]).
  { left. unfold in_range. simpl. lia. }
  split; [done|]. split; [unfold in_range; simpl; lia|].
  intros (_ & _ & Hno & _). by apply (Hno 2147483650).
Qed.

(** eof = true is not returned only by calls made in the end-of-file
    state: a reader whose current row-group reader holds ten rows and is not
    exhausted, with no row group pending, returns those ten rows together
    with eof = true (lines 476-484); the end-of-file state is what it
    leaves, and the next call reports zero rows and eof = true. *)
Lemma get_next_block_last_batch :
  let env := sample_env (pages_at [0]) [] in
  let r := set_group_reader (Some 10) false [] (sample_reader 10 []) in
  _current_group_reader r = Some 10 ∧ _row_group_eof r = false
  ∧ (∃ r',
       get_next_block env r tt 0 false = (Status_OK, r', tt, 10, true)
       ∧ _row_group_eof r' = true ∧ _read_row_groups r' = []
       ∧ (get_next_block env r' tt 0 false).1.2 = 0
       ∧ (get_next_block env r' tt 0 false).2 = true)
  ∧ ¬ (∀ (r0 : ParquetReader unit Z unit) rows,
         (get_next_block env r0 tt rows false).2 = true →
         ((_current_group_reader r0 = None ∨ _row_group_eof r0 = true)
          ∧ _read_row_groups r0 = [])
         ∧ (get_next_block env r0 tt rows false).1.2 = 0).
Proof.
  intros env r. split; [done|]. split; [done|]. split.
  - eexists. split; [by vm_compute|]. by vm_compute.
  - intros Hclaim.
    assert (Hout : (get_next_block env r tt 0 false).2 = true)
      by by vm_compute.
    destruct (Hclaim r 0 Hout) as [[[Hcur | Heof] _] _].
    + by vm_compute in Hcur.
    + by vm_compute in Heof.
Qed.

End ParquetReaderExamples.

Section QueryCancelledFacts.

Import FragmentMgr.

Lemma first_answer_live (mgr : FragmentMgr) (id : TUniqueId) :
  first_answer mgr id → live mgr id.
Proof.
  unfold first_answer, live.
  destruct (_fragment_map mgr !! id); [eauto|].
  destruct (_pipeline_map mgr !! id); [eauto|done].
Qed.

Lemma query_is_canceled_loop_spec (mgr : FragmentMgr) (ids : list TUniqueId) :
  query_is_canceled_loop mgr ids = true
  ↔ (∀ id, id ∈ ids → ¬ live mgr id)
    ∨ (∃ before id after,
         ids = before ++ id :: after
         ∧ (∀ x, x ∈ before → ¬ live mgr x)
         ∧ first_answer mgr id).
Proof.
  induction ids as [|it rest IH]; simpl.
  { split; [|done]. intros _. left. intros id Hin. by apply elem_of_nil in Hin. }
  destruct (_fragment_map mgr !! it) as [exec_state|] eqn:Hfrag;
    [|destruct (_pipeline_map mgr !! it) as [pipeline_ctx|] eqn:Hpipe].
  - assert (Hlive : live mgr it) by (left; rewrite Hfrag; eauto).
    split.
    + intros Hc. right. exists [], it, rest. split; [done|]. split.
      * intros x Hx. by apply elem_of_nil in Hx.
      * unfold first_answer. by rewrite Hfrag.
    + intros [Hnone | (before & id & after & Hsplit & Hdead & Hans)].
      * exfalso. apply (Hnone it); [left|done].
      * destruct before as [|x before]; simpl in Hsplit.
        -- injection Hsplit as <- _. unfold first_answer in Hans.
           by rewrite Hfrag in Hans.
        -- injection Hsplit as <- _. exfalso. apply (Hdead it); [left|done].
  - assert (Hlive : live mgr it) by (right; rewrite Hpipe; eauto).
    split.
    + intros Hc. right. exists [], it, rest. split; [done|]. split.
      * intros x Hx. by apply elem_of_nil in Hx.
      * unfold first_answer. by rewrite Hfrag, Hpipe.
    + intros [Hnone | (before & id & after & Hsplit & Hdead & Hans)].
      * exfalso. apply (Hnone it); [left|done].
      * destruct before as [|x before]; simpl in Hsplit.
        -- injection Hsplit as <- _. unfold first_answer in Hans.
           by rewrite Hfrag, Hpipe in Hans.
        -- injection Hsplit as <- _. exfalso. apply (Hdead it); [left|done].
  - assert (Hdead_it : ¬ live mgr it).
    { intros [[? Hs] | [? Hs]]; congruence. }
    rewrite IH. split.
    + intros [Hnone | (before & id & after & -> & Hdead & Hans)].
      * left. intros id [-> | Hin]%elem_of_cons; auto.
      * right. exists (it :: before), id, after. split; [done|]. split; [|done].
        intros x [-> | Hin]%elem_of_cons; auto.
    + intros [Hnone | (before & id & after & Hsplit & Hdead & Hans)].
      * left. intros id Hin. apply Hnone. by right.
      * destruct before as [|x before]; simpl in Hsplit.
        -- injection Hsplit as <- _. exfalso.
           by apply Hdead_it, first_answer_live.
        -- injection Hsplit as <- ->. right. exists before, id, after.
           split; [done|]. split; [|done].
           intros y Hy. apply Hdead. by right.
Qed.

(** C5, as amended.  [query_is_canceled] returns true whenever the query
    context is unknown.  For a known query context it returns true if and
    only if none of its registered fragment instance ids is live (held by the
    fragment map or the pipeline map), or the first registered id that is
    live, in registration order, reports cancelled. *)
Theorem query_is_canceled_first_live (qid : TUniqueId) (mgr : FragmentMgr) :
  (_fragments_ctx_map mgr !! qid = None → query_is_canceled qid mgr = true)
  ∧ (∀ ctx, _fragments_ctx_map mgr !! qid = Some ctx →
       query_is_canceled qid mgr = true
       ↔ (∀ id, id ∈ fragment_ids ctx → ¬ live mgr id)
         ∨ (∃ before id after,
              fragment_ids ctx = before ++ id :: after
              ∧ (∀ x, x ∈ before → ¬ live mgr x)
              ∧ first_answer mgr id)).
Proof.
  unfold query_is_canceled. split.
  - by intros ->.
  - intros ctx ->. apply query_is_canceled_loop_spec.
Qed.

(** The answer of [query_is_canceled] is not "some registered instance
    reports cancelled": query (7, 0) has a running first and a cancelled
    second instance and is reported as not cancelled; query (8, 0) is known,
    its only registered instance has finished and left the maps, and it is
    reported as cancelled. *)
Lemma query_is_canceled_not_any_cancelled :
  query_is_canceled (7, 0) sample_mgr = false
  ∧ reports_cancelled sample_mgr (7, 2)
  ∧ query_is_canceled (8, 0) sample_mgr = true
  ∧ ¬ reports_cancelled sample_mgr (8, 1)
  ∧ ¬ (∀ mgr qid ctx,
         _fragments_ctx_map mgr !! qid = Some ctx →
         query_is_canceled qid mgr = true
         ↔ ∃ id, id ∈ fragment_ids ctx ∧ reports_cancelled mgr id).
Proof.
  assert (H7 : query_is_canceled (7, 0) sample_mgr = false) by by vm_compute.
  assert (Hc : reports_cancelled sample_mgr (7, 2)).
  { left. exists sample_cancelled. split; by vm_compute. }
  split; [done|]. split; [done|]. split; [by vm_compute|]. split.
  - intros [(st & Hst & _) | (p & Hp & _)];
      [by vm_compute in Hst | by vm_compute in Hp].
  - intros Hclaim.
    specialize (Hclaim sample_mgr (7, 0)
                  (sample_ctx (7, 0) [(7, 1); (7, 2)])).
    destruct Hclaim as [_ Hback]; [by vm_compute|].
    rewrite Hback in H7; [done|].
    exists (7, 2). split; [|done]. right. left.
Qed.

End QueryCancelledFacts.

(** * The properties on concrete inputs *)

Section Witnesses.

Lemma exec_plan_fragment_duplicate_witness :
  let env := sample_exec_env (RpcReturned Status_OK) (RpcReturned Status_OK) in
  let accepted := FragmentMgr.exec_plan_fragment env (sample_params (9, 1) 0)
                    sample_mgr in
  FragmentMgr.exec_plan_fragment env (sample_params (7, 1) 0) sample_mgr
  = (Status_OK, sample_mgr, [])
  ∧ FragmentMgr.exec_plan_fragment env (sample_params (9, 1) 0) accepted.1.2
    = (Status_OK, accepted.1.2, []).
Proof.
  intros env accepted. split.
  - apply (exec_plan_fragment_duplicate env env).
    exists sample_running. by vm_compute.
  - apply (proj2 (exec_plan_fragment_duplicate env env (sample_params (9, 1) 0)
                    sample_mgr) accepted.1.1 accepted.1.2 accepted.2).
    + reflexivity.
    + subst accepted.
      by destruct (FragmentMgr.exec_plan_fragment _ _ _) as [[st mgr'] evs].
    + by vm_compute.
Defined.

Lemma timeout_sweep_selects_witness :
  (7, 1) ∈ FragmentMgr.to_cancel 11 (sample_timed_mgr 10)
  ∧ FragmentExecState.is_timeout 11
      (FragmentExecState.set_timeout_second 0 sample_running) = false.
Proof.
  destruct (timeout_sweep_selects
              (sample_exec_env (RpcReturned Status_OK) (RpcReturned Status_OK))
              11 (sample_timed_mgr 10) (7, 1)
              (FragmentExecState.set_timeout_second 0 sample_running))
    as (Hselect & _ & Hnever & _).
  split.
  - apply Hselect.
    exists (7, 1), (FragmentExecState.set_timeout_second 10 sample_running).
    split; [by vm_compute|]. split; [reflexivity|]. simpl. lia.
  - apply Hnever. simpl. lia.
Defined.

Lemma update_status_sticky_witness :
  FragmentExecState.update_status (InternalError "later failure") sample_failed
  = (InternalError "scan failed", sample_failed)
  ∧ _exec_status
      (run_calls [CallUpdateStatus (InternalError "later failure");
                  CallCancel false TIMEOUT "";
                  CallUpdateStatus Status_OK] sample_failed)
    = InternalError "scan failed".
Proof.
  destruct (update_status_sticky (InternalError "later failure")
              [CallUpdateStatus (InternalError "later failure");
               CallCancel false TIMEOUT "";
               CallUpdateStatus Status_OK] sample_failed)
    as (_ & _ & Hsticky).
  apply Hsticky. reflexivity.
Defined.

Lemma new_query_ctx_mem_limit_witness :
  ∃ ctx tracker mgr' evs,
    FragmentMgr._get_query_ctx
      (sample_exec_env (RpcReturned Status_OK) (RpcReturned Status_OK))
      (sample_params (9, 1) 10737418240) (9, 0) false sample_mgr
    = (inr ctx, mgr', evs)
    ∧ query_mem_tracker ctx = Some tracker
    ∧ tracker_limit tracker = 4294967296.
Proof.
  destruct (new_query_ctx_mem_limit
              (sample_exec_env (RpcReturned Status_OK) (RpcReturned Status_OK))
              (sample_params (9, 1) 10737418240) (9, 0) false sample_mgr)
    as (ctx & tracker & mgr' & evs & Hget & _ & Htracker & Hclamp & _);
    [reflexivity | reflexivity | by vm_compute | simpl; lia |].
  exists ctx, tracker, mgr', evs. split; [exact Hget|].
  split; [exact Htracker|]. apply Hclamp; [reflexivity | simpl; lia].
Defined.

Lemma report_retry_once_witness :
  let env := sample_exec_env (RpcTTransportException "broken pipe")
               (RpcReturned (InternalError "coordinator busy")) in
  let report := EvReportExecStatus (7, 1) Status_OK true in
  let out :=
    FragmentMgr.coordinator_callback env
      (FragmentMgr.make_report_request Status_OK true sample_running)
      sample_running in
  _exec_status out.1 = InternalError "coordinator busy"
  ∧ out.1
    = FragmentExecState.set_exec_status (InternalError "coordinator busy")
        sample_running
  ∧ out.2 = [report; EvReopen; report;
             EvExecutorCancel (7, 1) INTERNAL_ERROR "rpc fail 2"].
Proof.
  intros env report out.
  destruct (report_retry_once env Status_OK true sample_running "broken pipe")
    as (_ & Hretry & _); [reflexivity | reflexivity |].
  destruct Hretry as (Hout & Hstatus & _ & Hrest);
    [reflexivity | reflexivity |].
  split; [exact Hstatus|].
  split.
  - etransitivity; [exact Hrest|]. by f_equal.
  - exact (f_equal snd Hout).
Defined.

Lemma init_reader_split_compressed_witness :
  CsvReader.init_reader (mkCsvEnv Status_OK 100 Status_OK) false
    sample_csv_reader
  = (InternalError "For now we do not support split compressed file",
     sample_csv_reader).
Proof.
  apply init_reader_split_compressed; [simpl; lia | left; discriminate].
Defined.

Lemma process_page_index_partition_witness :
  ∃ candidates r',
    _process_page_index (sample_env (pages_at [0; 100; 200]) [1])
      (mkRowGroup [mkColumnChunk 1 1] 300) [] (sample_reader 300 [])
    = (Status_OK, candidates, r')
    ∧ partitions_group 300 candidates [mkRowRange 100 200].
Proof.
  destruct (process_page_index_partition
              (sample_env (pages_at [0; 100; 200]) [1])
              (mkRowGroup [mkColumnChunk 1 1] 300) (sample_reader 300 [])
              [mkRowRange 100 200] (<[0 := pages_at [0; 100; 200]]> ∅))
    as (candidates & r' & Hrun & Hpart & _);
    [simpl; unfold INT32_MAX; lia | by vm_compute
    | repeat constructor; simpl; lia |].
  by exists candidates, r'.
Defined.

Lemma get_next_block_eof_state_witness :
  let env := sample_env (pages_at [0]) [] in
  let r := sample_reader 10 [] in
  let terminal := set_group_reader None true [] r in
  let live := set_group_reader (Some 10) false [] r in
  get_next_block env r tt 7 false = (Status_OK, terminal, tt, 0, true)
  ∧ get_next_blocks env terminal [(tt, 3, false); (tt, 4, true)]
    = ([(Status_OK, 0, true); (Status_OK, 0, true)], terminal)
  ∧ _read_row_groups (get_next_block env r tt 7 false).1.1.1.2 = []
  ∧ (get_next_block env live tt 0 false).2 = true
  ∧ (get_next_block env live tt 0 false).1.2 = 10.
Proof.
  intros env r terminal live.
  destruct (get_next_block_eof_state env r tt 7 false
              [(tt, 3, false); (tt, 4, true)]) as (Hterminal & Honly & _).
  destruct Hterminal as [Hfirst Hlater]; [split; [by left | reflexivity]|].
  destruct Honly as (_ & _ & Hqueue & _); [reflexivity | reflexivity |].
  destruct (get_next_block_eof_state env live tt 0 false [])
    as (_ & _ & Hbatch).
  destruct (Hbatch live 10) as (_ & Heof & Hrows & _).
  { split; [left; split; [by exists 10 | split; reflexivity]|].
    split; [reflexivity|]. split; [reflexivity|]. split; reflexivity. }
  split; [exact Hfirst|]. split; [exact Hlater|]. split; [exact Hqueue|].
  split; [exact Heof | exact Hrows].
Defined.

Lemma query_is_canceled_first_live_witness :
  FragmentMgr.query_is_canceled (9, 0) sample_mgr = true
  ∧ FragmentMgr.query_is_canceled (8, 0) sample_mgr = true.
Proof.
  split.
  - apply (query_is_canceled_first_live (9, 0) sample_mgr). by vm_compute.
  - apply (proj2 (query_is_canceled_first_live (8, 0) sample_mgr)
             (sample_ctx (8, 0) [(8, 1)])); [by vm_compute|].
    left. intros id Hid. apply list_elem_of_singleton in Hid as ->.
    intros [[st Hst] | [p Hp]]; [by vm_compute in Hst | by vm_compute in Hp].
Defined.

End Witnesses.

(** * Further properties of the fragment manager *)

Section CancellationFacts.

Import FragmentMgr.

Lemma raise_cancelled_spec hs reason msg (st : FragmentExecState) :
  (FragmentExecState.cancel hs reason msg st).1.2 = raise_cancelled st.
Proof.
  unfold FragmentExecState.cancel, raise_cancelled.
  by destruct (_cancelled st).
Qed.

Lemma raise_cancelled_flag (st : FragmentExecState) :
  _cancelled (raise_cancelled st) = true.
Proof. unfold raise_cancelled. by destruct (_cancelled st) eqn:E. Qed.

Lemma raise_cancelled_idemp (st : FragmentExecState) :
  raise_cancelled (raise_cancelled st) = raise_cancelled st.
Proof.
  unfold raise_cancelled at 1. by rewrite raise_cancelled_flag.
Qed.

Lemma raise_cancelled_cases (st : FragmentExecState) :
  raise_cancelled st = st
  ∨ raise_cancelled st = FragmentExecState.set_cancelled true st.
Proof. unfold raise_cancelled. destruct (_cancelled st); auto. Qed.

Lemma raise_cancelled_instance_id (st : FragmentExecState) :
  _fragment_instance_id (raise_cancelled st) = _fragment_instance_id st.
Proof. unfold raise_cancelled. by destruct (_cancelled st). Qed.

Lemma cancel_ctx_map env id reason msg mgr :
  _fragments_ctx_map (cancel env id reason msg mgr).1 = _fragments_ctx_map mgr.
Proof.
  unfold cancel. destruct (_fragment_map mgr !! id) as [exec_state|].
  - by destruct (FragmentExecState.cancel _ _ _ _) as [[? ?] ?].
  - by destruct (_pipeline_map mgr !! id).
Qed.

Lemma cancel_fragment_lookup env id reason msg mgr id' :
  _fragment_map (cancel env id reason msg mgr).1 !! id'
  = if decide (id' = id) then raise_cancelled <$> _fragment_map mgr !! id'
    else _fragment_map mgr !! id'.
Proof.
  unfold cancel. destruct (_fragment_map mgr !! id) as [exec_state|] eqn:Hid.
  - pose proof (raise_cancelled_spec
      (new_load_stream_mgr_get env (_query_id exec_state)) reason msg
      exec_state) as Hst.
    destruct (FragmentExecState.cancel _ _ _ _) as [[? exec_state'] ev].
    simpl in *. subst exec_state'. destruct (decide (id' = id)) as [->|Hne].
    + by rewrite lookup_insert_eq, Hid.
    + by rewrite lookup_insert_ne.
  - assert (Hsame : _fragment_map (match _pipeline_map mgr !! id with
                      | Some pipeline_fragment_ctx =>
                        (set_pipeline_map
                           (<[id := pipeline_cancel pipeline_fragment_ctx]>
                              (_pipeline_map mgr)) mgr,
                         [EvPipelineCancel id reason msg])
                      | None => (mgr, [])
                      end).1 = _fragment_map mgr).
    { by destruct (_pipeline_map mgr !! id). }
    rewrite Hsame. destruct (decide (id' = id)) as [->|Hne]; [|done].
    by rewrite Hid.
Qed.

Lemma cancel_pipeline_lookup env id reason msg mgr id' :
  _pipeline_map (cancel env id reason msg mgr).1 !! id'
  = if decide (id' = id ∧ _fragment_map mgr !! id = None)
    then pipeline_cancel <$> _pipeline_map mgr !! id'
    else _pipeline_map mgr !! id'.
Proof.
  unfold cancel. destruct (_fragment_map mgr !! id) as [exec_state|] eqn:Hid.
  - destruct (FragmentExecState.cancel _ _ _ _) as [[? exec_state'] ev].
    simpl. destruct (decide _) as [[_ ?]|]; done.
  - destruct (_pipeline_map mgr !! id) as [pipeline_fragment_ctx|] eqn:Hp;
      simpl.
    + destruct (decide (id' = id)) as [->|Hne].
      * rewrite lookup_insert_eq, Hp. by rewrite decide_True.
      * rewrite lookup_insert_ne by done. rewrite decide_False; [done|].
        by intros [? _].
    + destruct (decide _) as [[-> _]|]; [|done]. by rewrite Hp.
Qed.

Lemma cancel_each_ctx_map env ids reason msg mgr :
  _fragments_ctx_map (cancel_each env ids reason msg mgr).1
  = _fragments_ctx_map mgr.
Proof.
  revert mgr. induction ids as [|it rest IH]; intros mgr; [done|]. simpl.
  pose proof (cancel_ctx_map env it reason msg mgr) as H1.
  destruct (cancel env it reason msg mgr) as [mgr1 ev1]. simpl in H1.
  specialize (IH mgr1).
  destruct (cancel_each env rest reason msg mgr1) as [mgr2 ev2]. simpl in *.
  congruence.
Qed.

Lemma cancel_each_fragment_lookup env ids reason msg mgr id :
  _fragment_map (cancel_each env ids reason msg mgr).1 !! id
  = if bool_decide (id ∈ ids) then raise_cancelled <$> _fragment_map mgr !! id
    else _fragment_map mgr !! id.
Proof.
  revert mgr. induction ids as [|it rest IH]; intros mgr; [done|]. simpl.
  pose proof (cancel_fragment_lookup env it reason msg mgr id) as H1.
  destruct (cancel env it reason msg mgr) as [mgr1 ev1]. simpl in H1.
  specialize (IH mgr1).
  destruct (cancel_each env rest reason msg mgr1) as [mgr2 ev2]. simpl in *.
  rewrite IH, H1. clear IH H1.
  destruct (decide (id = it)) as [->|Hne].
  - rewrite (bool_decide_eq_true_2 (it ∈ it :: rest)) by left.
    destruct (bool_decide (it ∈ rest)); [|done].
    destruct (_fragment_map mgr !! it); [|done]. simpl.
    by rewrite raise_cancelled_idemp.
  - destruct (bool_decide (id ∈ rest)) eqn:Hin.
    + apply bool_decide_eq_true in Hin.
      rewrite (bool_decide_eq_true_2 (id ∈ it :: rest)); [done|by right].
    + apply bool_decide_eq_false in Hin.
      rewrite (bool_decide_eq_false_2 (id ∈ it :: rest)); [done|].
      rewrite elem_of_cons. tauto.
Qed.

Lemma cancel_each_pipeline_lookup env ids reason msg mgr id :
  _pipeline_map (cancel_each env ids reason msg mgr).1 !! id
  = if bool_decide (id ∈ ids ∧ _fragment_map mgr !! id = None)
    then pipeline_cancel <$> _pipeline_map mgr !! id
    else _pipeline_map mgr !! id.
Proof.
  revert mgr. induction ids as [|it rest IH]; intros mgr.
  { rewrite bool_decide_eq_false_2; [done|]. intros [Hin _].
    by apply elem_of_nil in Hin. }
  cbn [cancel_each].
  pose proof (cancel_pipeline_lookup env it reason msg mgr id) as H1.
  pose proof (cancel_fragment_lookup env it reason msg mgr id) as H2.
  destruct (cancel env it reason msg mgr) as [mgr1 ev1]. simpl in H1, H2.
  specialize (IH mgr1).
  destruct (cancel_each env rest reason msg mgr1) as [mgr2 ev2]. simpl in *.
  rewrite IH, H1. clear IH H1.
  assert (Hnone : _fragment_map mgr1 !! id = None
                  ↔ _fragment_map mgr !! id = None).
  { rewrite H2. destruct (decide (id = it)); [|done].
    by destruct (_fragment_map mgr !! id). }
  clear H2.
  destruct (decide (id = it ∧ _fragment_map mgr !! it = None))
    as [[-> Hit]|Hnot].
  - rewrite (bool_decide_eq_true_2 (it ∈ it :: rest ∧ _)) by (split; [left|done]).
    destruct (bool_decide _); [|done].
    by destruct (_pipeline_map mgr !! it).
  - destruct (bool_decide (id ∈ rest ∧ _fragment_map mgr1 !! id = None))
      eqn:Hin.
    + apply bool_decide_eq_true in Hin as [Hin Hn].
      rewrite bool_decide_eq_true_2; [done|]. split; [by right|tauto].
    + apply bool_decide_eq_false in Hin.
      rewrite bool_decide_eq_false_2; [done|].
      rewrite elem_of_cons. intros [[->|Hin'] Hn]; tauto.
Qed.

Lemma cancel_each_only_cancels env ids reason msg mgr :
  only_cancels mgr (cancel_each env ids reason msg mgr).1.
Proof.
  split; [apply cancel_each_ctx_map|]. split; intros id.
  - rewrite cancel_each_fragment_lookup.
    destruct (_fragment_map mgr !! id) as [exec_state|];
      destruct (bool_decide _); simpl; auto.
    destruct (raise_cancelled_cases exec_state) as [-> | ->]; auto.
  - rewrite cancel_each_pipeline_lookup.
    destruct (_pipeline_map mgr !! id) as [pipeline_ctx|];
      destruct (bool_decide _); simpl; auto.
Qed.

Lemma cancel_each_single env id reason msg mgr :
  cancel_each env [id] reason msg mgr = cancel env id reason msg mgr.
Proof.
  simpl. destruct (cancel env id reason msg mgr) as [mgr1 ev1].
  by rewrite app_nil_r.
Qed.

Lemma cancel_each_reports_cancelled env ids reason msg mgr id :
  id ∈ ids → live mgr id →
  reports_cancelled (cancel_each env ids reason msg mgr).1 id.
Proof.
  intros Hin Hlive. unfold reports_cancelled.
  rewrite cancel_each_fragment_lookup, cancel_each_pipeline_lookup.
  rewrite (bool_decide_eq_true_2 (id ∈ ids)) by done.
  destruct Hlive as [[exec_state Hf]|[pipeline_ctx Hp]].
  { left. rewrite Hf. eexists. split; [done|]. apply raise_cancelled_flag. }
  destruct (_fragment_map mgr !! id) as [exec_state|] eqn:Hf.
  - left. eexists. split; [done|]. apply raise_cancelled_flag.
  - right. rewrite bool_decide_eq_true_2 by done. rewrite Hp.
    eexists. by split.
Qed.

Lemma cancel_each_settled env ids reason msg mgr id :
  id ∈ ids → settled (cancel_each env ids reason msg mgr).1 id.
Proof.
  intros Hin. unfold settled.
  rewrite cancel_each_fragment_lookup, cancel_each_pipeline_lookup.
  rewrite (bool_decide_eq_true_2 (id ∈ ids)) by done.
  destruct (_fragment_map mgr !! id) as [exec_state|] eqn:Hf.
  - apply raise_cancelled_flag.
  - rewrite bool_decide_eq_true_2 by done.
    by destruct (_pipeline_map mgr !! id).
Qed.

Lemma query_is_canceled_loop_settled mgr ids :
  Forall (settled mgr) ids → query_is_canceled_loop mgr ids = true.
Proof.
  induction 1 as [|id rest Hid _ IH]; [done|]. simpl.
  unfold settled in Hid.
  destruct (_fragment_map mgr !! id); [done|].
  by destruct (_pipeline_map mgr !! id).
Qed.

(** X1. Cancelling one instance id changes nothing in the registries but
    cancellation flags, which only go up: the same ids stay registered and
    the query contexts are untouched.  If the id is live, the instance
    registered under it reports cancelled afterwards; if it is in neither
    fragment registry, the call changes nothing and reaches no
    collaborator. *)
Theorem cancel_only_raises_flags (env : ExecEnv) (id : TUniqueId)
    (reason : PPlanFragmentCancelReason) (msg : string) (mgr : FragmentMgr) :
  only_cancels mgr (cancel env id reason msg mgr).1
  ∧ (live mgr id → reports_cancelled (cancel env id reason msg mgr).1 id)
  ∧ (¬ live mgr id → cancel env id reason msg mgr = (mgr, [])).
Proof.
  rewrite <- cancel_each_single. split; [apply cancel_each_only_cancels|].
  split.
  - apply cancel_each_reports_cancelled. by apply list_elem_of_singleton.
  - intros Hdead. rewrite cancel_each_single. unfold cancel.
    destruct (_fragment_map mgr !! id) eqn:Hf.
    { destruct Hdead. left. eauto. }
    destruct (_pipeline_map mgr !! id) eqn:Hp; [|done].
    destruct Hdead. right. eauto.
Qed.

(** X2. [cancel_query] cancels every live instance registered with the
    query: afterwards each of them reports cancelled and
    [query_is_canceled] answers true for the query.  It changes nothing but
    cancellation flags, and for a query without a context it changes nothing
    at all and reaches no collaborator. *)
Theorem cancel_query_cancels_all (env : ExecEnv) (qid : TUniqueId)
    (reason : PPlanFragmentCancelReason) (msg : string) (mgr : FragmentMgr) :
  only_cancels mgr (cancel_query env qid reason msg mgr).1
  ∧ (∀ ctx id,
       _fragments_ctx_map mgr !! qid = Some ctx → id ∈ fragment_ids ctx →
       live mgr id →
       reports_cancelled (cancel_query env qid reason msg mgr).1 id)
  ∧ query_is_canceled qid (cancel_query env qid reason msg mgr).1 = true
  ∧ (_fragments_ctx_map mgr !! qid = None →
     cancel_query env qid reason msg mgr = (mgr, [])).
Proof.
  unfold cancel_query. split; [apply cancel_each_only_cancels|].
  split; [|split].
  - intros ctx id -> Hin Hlive. by apply cancel_each_reports_cancelled.
  - unfold query_is_canceled. rewrite cancel_each_ctx_map.
    destruct (_fragments_ctx_map mgr !! qid) as [ctx|]; [|done].
    apply query_is_canceled_loop_settled, Forall_forall.
    intros id Hin. by apply cancel_each_settled.
  - by intros ->.
Qed.

Lemma to_cancel_keyed now mgr id exec_state :
  keyed_by_instance_id mgr →
  _fragment_map mgr !! id = Some exec_state →
  id ∈ to_cancel now mgr ↔ FragmentExecState.is_timeout now exec_state = true.
Proof.
  intros Hkeyed Hid. unfold to_cancel. rewrite list_elem_of_fmap. split.
  - intros [[key st] [Hkey Hin]]. simpl in Hkey.
    apply list_elem_of_filter in Hin as [Hto Hin]. simpl in Hto.
    apply elem_of_map_to_list in Hin.
    rewrite (Hkeyed _ _ Hin) in Hkey. subst key. congruence.
  - intros Hto. exists (id, exec_state). split.
    + simpl. symmetry. by apply Hkeyed.
    + apply list_elem_of_filter. split; [done|].
      by apply elem_of_map_to_list.
Qed.

Lemma to_cancel_registered now mgr id :
  keyed_by_instance_id mgr →
  id ∈ to_cancel now mgr → is_Some (_fragment_map mgr !! id).
Proof.
  intros Hkeyed. unfold to_cancel. rewrite list_elem_of_fmap.
  intros [[key st] [Hkey Hin]]. simpl in Hkey.
  apply list_elem_of_filter in Hin as [_ Hin].
  apply elem_of_map_to_list in Hin.
  rewrite (Hkeyed _ _ Hin) in Hkey. subst key. eauto.
Qed.

(** X3. What one round of the timeout sweep does to a registry whose
    entries sit under their own instance ids: every fragment judged timed
    out is cancelled, every other fragment is left exactly as it was, no
    fragment is removed or added, the pipeline registry is not touched, and
    the query contexts that remain are exactly those not timed out. *)
Theorem timeout_sweep_effect (env : ExecEnv) (now : VecDateTimeValue)
    (mgr : FragmentMgr) :
  keyed_by_instance_id mgr →
  (∀ id,
     _fragment_map (cancel_worker_round env now mgr).1 !! id
     = (λ exec_state,
          if FragmentExecState.is_timeout now exec_state
          then raise_cancelled exec_state else exec_state)
       <$> _fragment_map mgr !! id)
  ∧ (∀ id exec_state exec_state',
       _fragment_map mgr !! id = Some exec_state →
       FragmentExecState.is_timeout now exec_state = true →
       _fragment_map (cancel_worker_round env now mgr).1 !! id
       = Some exec_state' →
       FragmentExecState.is_canceled exec_state' = true)
  ∧ _pipeline_map (cancel_worker_round env now mgr).1 = _pipeline_map mgr
  ∧ (∀ qid ctx,
       _fragments_ctx_map (cancel_worker_round env now mgr).1 !! qid = Some ctx
       ↔ _fragments_ctx_map mgr !! qid = Some ctx
         ∧ QueryFragmentsCtx.is_timeout now ctx = false).
Proof.
  intros Hkeyed. unfold cancel_worker_round.
  set (mgr1 := set_fragments_ctx_map _ mgr).
  assert (Hlookup : ∀ id,
     _fragment_map (cancel_each env (to_cancel now mgr) TIMEOUT "" mgr1).1 !! id
     = (λ exec_state,
          if FragmentExecState.is_timeout now exec_state
          then raise_cancelled exec_state else exec_state)
       <$> _fragment_map mgr !! id).
  { intros id. rewrite cancel_each_fragment_lookup. simpl.
    destruct (_fragment_map mgr !! id) as [exec_state|] eqn:Hid; simpl.
    - pose proof (to_cancel_keyed now mgr id exec_state Hkeyed Hid) as Hiff.
      destruct (FragmentExecState.is_timeout now exec_state).
      + rewrite bool_decide_eq_true_2; [done|]. by apply Hiff.
      + rewrite bool_decide_eq_false_2; [done|]. intros Hin.
        by apply Hiff in Hin.
    - by destruct (bool_decide _). }
  split; [done|]. split; [|split].
  - intros id exec_state exec_state' Hid Hto. rewrite Hlookup, Hid. simpl.
    rewrite Hto. intros [= <-]. apply raise_cancelled_flag.
  - apply map_eq. intros id. rewrite cancel_each_pipeline_lookup. simpl.
    rewrite bool_decide_eq_false_2; [done|]. intros [Hin Hnone].
    apply (to_cancel_registered now mgr id Hkeyed) in Hin as [? ?].
    congruence.
  - intros qid ctx. rewrite cancel_each_ctx_map. simpl.
    by rewrite map_lookup_filter_Some.
Qed.

End CancellationFacts.

Section SubmissionFacts.

Import FragmentMgr.

Lemma get_query_ctx_maps env params qid pipeline mgr :
  _fragment_map (_get_query_ctx env params qid pipeline mgr).1.2
  = _fragment_map mgr
  ∧ _pipeline_map (_get_query_ctx env params qid pipeline mgr).1.2
    = _pipeline_map mgr.
Proof.
  unfold _get_query_ctx.
  destruct (is_simplified_param params), (ok (DescriptorTbl_create env)),
    (_fragments_ctx_map mgr !! qid); done.
Qed.

Lemma get_query_ctx_found env params qid pipeline mgr ctx mgr1 evs :
  _get_query_ctx env params qid pipeline mgr = (inr ctx, mgr1, evs) →
  _fragments_ctx_map mgr1 !! qid = Some ctx
  ∧ (∀ q, q ≠ qid →
          _fragments_ctx_map mgr1 !! q = _fragments_ctx_map mgr !! q)
  ∧ (∀ ctx0, _fragments_ctx_map mgr !! qid = Some ctx0 →
             ctx = ctx0 ∧ mgr1 = mgr)
  ∧ (_fragments_ctx_map mgr !! qid = None →
     ctx = build_query_ctx env params qid pipeline
     ∧ is_simplified_param params = false).
Proof.
  unfold _get_query_ctx.
  destruct (is_simplified_param params).
  { destruct (_fragments_ctx_map mgr !! qid) as [search|] eqn:Hq; [|done].
    intros [= <- <- _]. split; [done|]. split; [done|]. split; [|done].
    by intros ctx0 [= ->]. }
  destruct (ok (DescriptorTbl_create env)); simpl; [|done].
  destruct (_fragments_ctx_map mgr !! qid) as [search|] eqn:Hq.
  - intros [= <- <- _]. split; [done|]. split; [done|]. split; [|done].
    by intros ctx0 [= ->].
  - intros [= <- <- _]. simpl. split; [apply lookup_insert_eq|].
    split; [|done]. intros q Hne. by rewrite lookup_insert_ne.
Qed.

(** X4. [_get_query_ctx] looks a query context up or creates it, and never
    replaces one: with a context registered for the query the manager is
    left unchanged and that very context is handed out (unless building the
    descriptor table fails first); a simplified request for an unknown
    query is an internal error that registers nothing; a returned context
    is the one registered under the query id afterwards; and the contexts
    of other queries and both fragment registries are never touched. *)
Theorem get_query_ctx_lookup_or_create (env : ExecEnv)
    (params : TExecPlanFragmentParams) (qid : TUniqueId) (pipeline : bool)
    (mgr : FragmentMgr) :
  _fragment_map (_get_query_ctx env params qid pipeline mgr).1.2
  = _fragment_map mgr
  ∧ _pipeline_map (_get_query_ctx env params qid pipeline mgr).1.2
    = _pipeline_map mgr
  ∧ (∀ q, q ≠ qid →
       _fragments_ctx_map (_get_query_ctx env params qid pipeline mgr).1.2 !! q
       = _fragments_ctx_map mgr !! q)
  ∧ (∀ ctx0, _fragments_ctx_map mgr !! qid = Some ctx0 →
       (_get_query_ctx env params qid pipeline mgr).1.2 = mgr
       ∧ ((_get_query_ctx env params qid pipeline mgr).1.1 = inr ctx0
          ∨ (is_simplified_param params = false
             ∧ (_get_query_ctx env params qid pipeline mgr).1.1
               = inl (DescriptorTbl_create env))))
  ∧ (∀ ctx, (_get_query_ctx env params qid pipeline mgr).1.1 = inr ctx →
       _fragments_ctx_map (_get_query_ctx env params qid pipeline mgr).1.2
         !! qid = Some ctx)
  ∧ (∀ st, (_get_query_ctx env params qid pipeline mgr).1.1 = inl st →
       ok st = false ∧ (_get_query_ctx env params qid pipeline mgr).1.2 = mgr)
  ∧ (is_simplified_param params = true →
     _fragments_ctx_map mgr !! qid = None →
     _get_query_ctx env params qid pipeline mgr
     = (inl (ctx_not_found env), mgr, [])).
Proof.
  destruct (get_query_ctx_maps env params qid pipeline mgr) as [Hf Hp].
  split; [done|]. split; [done|].
  destruct (_get_query_ctx env params qid pipeline mgr) as [[res mgr1] evs]
    eqn:Hrun.
  simpl. split; [|split; [|split; [|split]]].
  - intros q Hne. destruct res as [st|ctx].
    + revert Hrun. unfold _get_query_ctx.
      destruct (is_simplified_param params), (ok (DescriptorTbl_create env)),
        (_fragments_ctx_map mgr !! qid); simpl; intros Heq; by simplify_eq.
    + by apply (get_query_ctx_found _ _ _ _ _ _ _ _ Hrun).
  - intros registered Hreg. revert Hrun. unfold _get_query_ctx. rewrite Hreg.
    destruct (is_simplified_param params).
    { intros Heq. simplify_eq. auto. }
    destruct (ok (DescriptorTbl_create env)); simpl; intros Heq;
      simplify_eq; auto.
  - intros ctx ->. by apply (get_query_ctx_found _ _ _ _ _ _ _ _ Hrun).
  - intros st ->. split; [by apply (get_query_ctx_error _ _ _ _ _ _ _ _ Hrun)|].
    revert Hrun. unfold _get_query_ctx.
    destruct (is_simplified_param params), (ok (DescriptorTbl_create env)),
      (_fragments_ctx_map mgr !! qid); simpl; intros Heq; by simplify_eq.
  - intros Hs Hnone. revert Hrun. unfold _get_query_ctx. rewrite Hs, Hnone.
    intros Heq. by simplify_eq.
Qed.

End SubmissionFacts.

Section RegistrationFacts.

Import FragmentMgr.

Lemma exec_plan_fragment_legacy_unfold env params mgr ctx mgr1 ev1 :
  _fragment_map mgr !! params_fragment_instance_id params = None →
  wants_pipeline params = false →
  _get_query_ctx env params (params_query_id params) false mgr
  = (inr ctx, mgr1, ev1) →
  let id := params_fragment_instance_id params in
  let mgr2 :=
    set_fragments_ctx_map
      (alter (QueryFragmentsCtx.push_fragment_id id) (params_query_id params)
         (_fragments_ctx_map mgr1)) mgr1 in
  exec_plan_fragment env params mgr =
    if negb (ok (executor_prepare env))
    then (executor_prepare env, mgr2, ev1 ++ [EvExecutorPrepare id])
    else if negb (ok (thread_pool_submit_func env))
    then (push_thread_pool_failed env id (thread_pool_submit_func env), mgr2,
          ev1 ++ [EvExecutorPrepare id] ++ [EvAddRuntimeFilterEntity id]
          ++ [EvSubmitToThreadPool id]
          ++ [EvExecutorCancel id INTERNAL_ERROR
                "push plan fragment to thread pool failed"]
          ++ (if new_load_stream_mgr_get env (query_id ctx)
              then [EvStreamLoadPipeCancel (query_id ctx) INTERNAL_ERROR]
              else []))
    else (Status_OK,
          set_fragment_map
            (<[id := submitted_state env params ctx]> (_fragment_map mgr))
            mgr2,
          ev1 ++ [EvExecutorPrepare id] ++ [EvAddRuntimeFilterEntity id]
          ++ [EvSubmitToThreadPool id]).
Proof.
  intros Hnew Hlegacy Hctx. cbv zeta. unfold exec_plan_fragment.
  rewrite Hnew. unfold wants_pipeline in Hlegacy.
  rewrite Hlegacy, Hctx. simpl.
  pose proof (get_query_ctx_maps env params (params_query_id params) false mgr)
    as [Hf _].
  rewrite Hctx in Hf. simpl in Hf.
  unfold submitted_state, prepare.
  destruct (isset_need_wait_execution_trigger params
            && need_wait_execution_trigger params),
    (isset_query_options params); simpl;
    (destruct (ok (executor_prepare env)); simpl; [|done]);
    unfold map_insert_new; simpl; rewrite Hf, Hnew;
    (destruct (ok (thread_pool_submit_func env)); simpl; [done|]);
    rewrite delete_insert_id by done;
    simpl; unfold set_fragment_map, set_fragments_ctx_map; simpl;
    by rewrite <- Hf.
Qed.
(*
  destruct (ok (thread_pool_submit_func env)); simpl.
  - done.
  - rewrite delete_insert_id by done.
    f_equal; [|done]. f_equal. unfold set_fragment_map. simpl.
    unfold set_fragments_ctx_map. simpl. by rewrite <- Hf.
Qed.*)

Lemma exec_plan_fragment_pipeline_fragment_map env params mgr :
  wants_pipeline params = true →
  _fragment_map (exec_plan_fragment env params mgr).1.2 = _fragment_map mgr.
Proof.
  intros Hpipe. unfold exec_plan_fragment. unfold wants_pipeline in Hpipe.
  destruct (_fragment_map mgr !! _); [done|]. rewrite Hpipe.
  pose proof (get_query_ctx_maps env params (params_query_id params) true mgr)
    as [Hf _].
  destruct (_get_query_ctx env params (params_query_id params) true mgr)
    as [[[err|ctx] mgr1] ev1]; simpl in *; [done|].
  destruct (isset_need_wait_execution_trigger params
            && need_wait_execution_trigger params),
    (ok (pipeline_context_prepare env)); done.
Qed.

(** How a call of [exec_plan_fragment] can leave the fragment registry: as
    it was, or with one new entry under the request's instance id. *)
Lemma exec_plan_fragment_fragment_map env params mgr :
  _fragment_map (exec_plan_fragment env params mgr).1.2 = _fragment_map mgr
  ∨ (_fragment_map mgr !! params_fragment_instance_id params = None
     ∧ ∃ ctx,
         _fragment_map (exec_plan_fragment env params mgr).1.2
         = <[params_fragment_instance_id params
             := submitted_state env params ctx]> (_fragment_map mgr)).
Proof.
  destruct (wants_pipeline params) eqn:Hpipe.
  { left. by apply exec_plan_fragment_pipeline_fragment_map. }
  destruct (_fragment_map mgr !! params_fragment_instance_id params)
    as [exec_state|] eqn:Hnew.
  { left. unfold exec_plan_fragment. by rewrite Hnew. }
  pose proof (get_query_ctx_maps env params (params_query_id params) false mgr)
    as [Hf _].
  destruct (_get_query_ctx env params (params_query_id params) false mgr)
    as [[[err|ctx] mgr1] ev1] eqn:Hctx; simpl in Hf.
  { left. unfold exec_plan_fragment. rewrite Hnew.
    unfold wants_pipeline in Hpipe. by rewrite Hpipe, Hctx. }
  rewrite (exec_plan_fragment_legacy_unfold _ _ _ _ _ _ Hnew Hpipe Hctx).
  destruct (ok (executor_prepare env)); simpl; [|by left].
  destruct (ok (thread_pool_submit_func env)); simpl; [|by left].
  right. split; [done|]. by exists ctx.
Qed.

Lemma submitted_state_fields env params ctx :
  let exec_state := submitted_state env params ctx in
  _fragment_instance_id exec_state = params_fragment_instance_id params
  ∧ _query_id exec_state = query_id ctx
  ∧ _coord_addr exec_state = coord_addr ctx
  ∧ _backend_num exec_state = backend_num params
  ∧ _start_time exec_state = local_time env
  ∧ _exec_status exec_state = Status_OK
  ∧ _cancelled exec_state = false
  ∧ _timeout_second exec_state
    = (if isset_query_options params
       then execution_timeout (query_options params) else -1)
  ∧ _need_wait_execution_trigger exec_state
    = isset_need_wait_execution_trigger params
      && need_wait_execution_trigger params.
Proof.
  unfold submitted_state, prepare.
  by destruct (isset_need_wait_execution_trigger params
               && need_wait_execution_trigger params),
    (isset_query_options params).
Qed.

(** X5. A submission for the legacy engine that is accepted (the id was not
    registered and the call returns OK) registers exactly one new fragment
    state, under the request's instance id: it carries that id and the
    query id of the query's context, has status OK, is not cancelled, was
    started at the current time, and has the request's timeout (-1 when
    the request has no query options).  All other fragments and the
    pipeline registry are as before; the query's context is registered and
    its list of fragment ids has grown by this id at the end; the last
    call made is the hand-over to the worker pool. *)
Theorem exec_plan_fragment_registers (env : ExecEnv)
    (params : TExecPlanFragmentParams) (mgr mgr' : FragmentMgr)
    (st : Status) (evs : list Event) :
  _fragment_map mgr !! params_fragment_instance_id params = None →
  wants_pipeline params = false →
  exec_plan_fragment env params mgr = (st, mgr', evs) →
  ok st = true →
  ∃ exec_state ctx,
    _fragment_map mgr'
    = <[params_fragment_instance_id params := exec_state]> (_fragment_map mgr)
    ∧ _pipeline_map mgr' = _pipeline_map mgr
    ∧ _fragment_instance_id exec_state = params_fragment_instance_id params
    ∧ _query_id exec_state = query_id ctx
    ∧ _exec_status exec_state = Status_OK
    ∧ FragmentExecState.is_canceled exec_state = false
    ∧ _start_time exec_state = local_time env
    ∧ _timeout_second exec_state
      = (if isset_query_options params
         then execution_timeout (query_options params) else -1)
    ∧ _fragments_ctx_map mgr' !! params_query_id params = Some ctx
    ∧ (∀ q, q ≠ params_query_id params →
            _fragments_ctx_map mgr' !! q = _fragments_ctx_map mgr !! q)
    ∧ fragment_ids ctx
      = match _fragments_ctx_map mgr !! params_query_id params with
        | Some ctx0 => fragment_ids ctx0
        | None => []
        end ++ [params_fragment_instance_id params]
    ∧ last evs = Some (EvSubmitToThreadPool (params_fragment_instance_id params)).
Proof.
  intros Hnew Hlegacy Hrun Hok.
  pose proof (get_query_ctx_maps env params (params_query_id params) false mgr)
    as [Hf Hp].
  destruct (_get_query_ctx env params (params_query_id params) false mgr)
    as [[[err|ctx] mgr1] ev1] eqn:Hctx; simpl in Hf, Hp.
  { exfalso. revert Hrun. unfold exec_plan_fragment. rewrite Hnew.
    unfold wants_pipeline in Hlegacy. rewrite Hlegacy, Hctx.
    intros Heq. simplify_eq.
    apply get_query_ctx_error in Hctx. congruence. }
  rewrite (exec_plan_fragment_legacy_unfold _ _ _ _ _ _ Hnew Hlegacy Hctx)
    in Hrun.
  destruct (ok (executor_prepare env)) eqn:Hprep; simpl in Hrun.
  2:{ simplify_eq. congruence. }
  destruct (ok (thread_pool_submit_func env)) eqn:Hpool; simpl in Hrun.
  2:{ by simplify_eq. }
  simplify_eq.
  destruct (get_query_ctx_found _ _ _ _ _ _ _ _ Hctx)
    as (Hreg & Hothers & Hold & Hfresh).
  destruct (submitted_state_fields env params ctx)
    as (Hid & Hq & _ & _ & Hstart & Hstatus & Hflag & Htimeout & _).
  exists (submitted_state env params ctx),
    (QueryFragmentsCtx.push_fragment_id (params_fragment_instance_id params)
       ctx).
  simpl. split; [done|]. split; [done|].
  split; [done|]. split; [done|]. split; [done|]. split; [done|].
  split; [done|]. split; [done|].
  split; [by rewrite lookup_alter_eq, Hreg|].
  split; [intros q Hne; rewrite lookup_alter_ne by done; by apply Hothers|].
  split.
  - destruct (_fragments_ctx_map mgr !! params_query_id params) as [ctx0|].
    + by destruct (Hold ctx0 eq_refl) as [-> _].
    + by destruct (Hfresh eq_refl) as [-> _].
  - by rewrite last_app.
Qed.

(** X6. A submission that fails leaves the fragment registry exactly as it
    was, and in legacy mode the pipeline registry too; no query context is
    dropped.  It is not rolled back in the query context: once the plan
    executor has been asked to prepare, the instance id stays in the
    context's list of fragment ids.  A failure to hand the fragment to the
    worker pool returns an internal error whose text is "push plan fragment
    <id> to thread pool failed. err = <error>, BE: <host>", with the printed
    instance id, the pool's error as a string and the local host, and
    cancels the executor with reason INTERNAL_ERROR after it was prepared. *)
Theorem exec_plan_fragment_failure (env : ExecEnv)
    (params : TExecPlanFragmentParams) (mgr mgr' : FragmentMgr)
    (st : Status) (evs : list Event) :
  exec_plan_fragment env params mgr = (st, mgr', evs) →
  ok st = false →
  _fragment_map mgr' = _fragment_map mgr
  ∧ (wants_pipeline params = false → _pipeline_map mgr' = _pipeline_map mgr)
  ∧ (∀ q, is_Some (_fragments_ctx_map mgr !! q) →
          is_Some (_fragments_ctx_map mgr' !! q))
  ∧ (EvExecutorPrepare (params_fragment_instance_id params) ∈ evs →
     ∃ ctx, _fragments_ctx_map mgr' !! params_query_id params = Some ctx
            ∧ params_fragment_instance_id params ∈ fragment_ids ctx)
  ∧ (EvSubmitToThreadPool (params_fragment_instance_id params) ∈ evs →
     st = push_thread_pool_failed env (params_fragment_instance_id params)
            (thread_pool_submit_func env)
     ∧ code st = INTERNAL_ERROR_CODE
     ∧ message st
       = String.append "push plan fragment "
           (String.append (print_id env (params_fragment_instance_id params))
              (String.append " to thread pool failed. err = "
                 (String.append
                    (Status_to_string env (thread_pool_submit_func env))
                    (String.append ", BE: "
                       (BackendOptions_get_localhost env)))))
     ∧ ok (thread_pool_submit_func env) = false
     ∧ EvExecutorCancel (params_fragment_instance_id params) INTERNAL_ERROR
         "push plan fragment to thread pool failed" ∈ evs).
Proof.
  intros Hrun Hfail.
  set (id := params_fragment_instance_id params) in *.
  set (qid := params_query_id params) in *.
  destruct (_fragment_map mgr !! id) as [exec_state|] eqn:Hnew.
  { revert Hrun. unfold exec_plan_fragment. fold id. rewrite Hnew.
    intros Heq. by simplify_eq. }
  pose proof (get_query_ctx_maps env params qid (wants_pipeline params) mgr)
    as [Hf Hp].
  destruct (_get_query_ctx env params qid (wants_pipeline params) mgr)
    as [[res mgr1] ev1] eqn:Hctx; simpl in Hf, Hp.
  destruct res as [err|ctx].
  { assert (mgr1 = mgr ∧ ev1 = [] ∨ mgr1 = mgr ∧ ev1 = [EvDescriptorTblCreate qid])
      as Hsame.
    { revert Hctx. unfold _get_query_ctx.
      destruct (is_simplified_param params), (ok (DescriptorTbl_create env)),
        (_fragments_ctx_map mgr !! qid); simpl; intros Heq; simplify_eq; auto. }
    revert Hrun. unfold exec_plan_fragment. fold id qid. rewrite Hnew.
    unfold wants_pipeline in Hctx. rewrite Hctx. intros Heq. simplify_eq.
    destruct Hsame as [[-> ->]|[-> ->]].
    - split; [done|]. split; [done|]. split; [done|].
      split; intros Hin; by apply elem_of_nil in Hin.
    - split; [done|]. split; [done|]. split; [done|].
      split; intros Hin; apply list_elem_of_singleton in Hin; done. }
  destruct (get_query_ctx_found _ _ _ _ _ _ _ _ Hctx)
    as (Hreg & Hothers & Hold & Hfresh).
  assert (Hkept : ∀ (f g : QueryFragmentsCtx → QueryFragmentsCtx) b q,
    is_Some (_fragments_ctx_map mgr !! q) →
    is_Some ((if b : bool then alter g qid (alter f qid (_fragments_ctx_map mgr1))
              else alter f qid (_fragments_ctx_map mgr1)) !! q)).
  { intros f g b q Hq.
    assert (is_Some (_fragments_ctx_map mgr1 !! q)) as Hq1.
    { destruct (decide (q = qid)) as [->|Hne]; [by rewrite Hreg|].
      by rewrite Hothers. }
    destruct b; rewrite ?lookup_alter_is_Some; done. }
  assert (Hpushed : ∀ (g : QueryFragmentsCtx → QueryFragmentsCtx) b,
    (∀ c, fragment_ids (g c) = fragment_ids c) →
    ∃ c, (if b : bool
          then alter g qid
                 (alter (QueryFragmentsCtx.push_fragment_id id) qid
                    (_fragments_ctx_map mgr1))
          else alter (QueryFragmentsCtx.push_fragment_id id) qid
                 (_fragments_ctx_map mgr1)) !! qid = Some c
         ∧ id ∈ fragment_ids c).
  { intros g b Hg. destruct b.
    - eexists. rewrite !lookup_alter_eq, Hreg. simpl. split; [done|].
      rewrite Hg. simpl. apply elem_of_app. right. by left.
    - eexists. rewrite !lookup_alter_eq, Hreg. simpl. split; [done|].
      apply elem_of_app. right. by left. }
  assert (Hev1 : ∀ e, e ∈ ev1 → e = EvDescriptorTblCreate qid).
  { revert Hctx. unfold _get_query_ctx.
    destruct (is_simplified_param params), (ok (DescriptorTbl_create env)),
      (_fragments_ctx_map mgr !! qid); simpl; intros Heq e Hin;
      simplify_eq;
      by (apply elem_of_nil in Hin || apply list_elem_of_singleton in Hin). }
  destruct (wants_pipeline params) eqn:Hpipe.
  - revert Hrun. unfold exec_plan_fragment. fold id qid. rewrite Hnew.
    unfold wants_pipeline in Hpipe. rewrite Hpipe, Hctx. simpl.
    destruct (ok (pipeline_context_prepare env)) eqn:Hprep; simpl;
      intros Heq; simplify_eq; simpl.
    + split; [by destruct (negb _)|]. split; [done|].
      split.
      { intros q Hq.
        apply (Hkept (QueryFragmentsCtx.push_fragment_id id)
                 QueryFragmentsCtx.set_ready_to_execute_only
                 (negb (isset_need_wait_execution_trigger params
                        && need_wait_execution_trigger params)) q) in Hq.
        by destruct (negb _). }
      split; intros Hin; exfalso;
        repeat (apply elem_of_app in Hin as [Hin|Hin]
                || apply elem_of_cons in Hin as [Hin|Hin]);
        try done; try (by apply elem_of_nil in Hin); by apply Hev1 in Hin.
    + split; [by destruct (negb _)|]. split; [done|].
      split.
      { intros q Hq.
        apply (Hkept (QueryFragmentsCtx.push_fragment_id id)
                 QueryFragmentsCtx.set_ready_to_execute_only
                 (negb (isset_need_wait_execution_trigger params
                        && need_wait_execution_trigger params)) q) in Hq.
        by destruct (negb _). }
      split; intros Hin; exfalso;
        repeat (apply elem_of_app in Hin as [Hin|Hin]
                || apply elem_of_cons in Hin as [Hin|Hin]);
        try done; try (by apply elem_of_nil in Hin); by apply Hev1 in Hin.
  - rewrite (exec_plan_fragment_legacy_unfold _ _ _ _ _ _ Hnew Hpipe Hctx)
      in Hrun.
    fold id qid in Hrun.
    destruct (ok (executor_prepare env)) eqn:Hprep; simpl in Hrun.
    2:{ simplify_eq. simpl. split; [done|]. split; [done|].
        split.
        { intros q Hq.
          by apply (Hkept (QueryFragmentsCtx.push_fragment_id id) (λ c, c)
                      false q) in Hq. }
        split.
        { intros _. by apply (Hpushed (λ c, c) false). }
        intros Hin. apply elem_of_app in Hin as [Hin|Hin].
        - by apply Hev1 in Hin.
        - by apply list_elem_of_singleton in Hin. }
    destruct (ok (thread_pool_submit_func env)) eqn:Hpool; simpl in Hrun.
    { by simplify_eq. }
    simplify_eq. simpl. split; [done|]. split; [done|].
    split.
    { intros q Hq.
      by apply (Hkept (QueryFragmentsCtx.push_fragment_id id) (λ c, c)
                  false q) in Hq. }
    split.
    { intros _. by apply (Hpushed (λ c, c) false). }
    intros _. split; [done|]. split; [done|]. split; [done|].
    split; [done|].
    rewrite !elem_of_app, !elem_of_cons. tauto.
Qed.

End RegistrationFacts.

Section CompletionFacts.

Import FragmentMgr.

Lemma execute_state env run (st : FragmentExecState) :
  (execute env run st).1.2
  = if (_need_wait_execution_trigger st && negb (wait_for_start run))
       || (negb (runtime_state_is_cancelled run)
           && negb (ok (executor_open run)))
    then raise_cancelled st else st.
Proof.
  unfold execute.
  destruct (_need_wait_execution_trigger st && negb (wait_for_start run)).
  { simpl. rewrite <- (raise_cancelled_spec
      (new_load_stream_mgr_get env (_query_id st)) INTERNAL_ERROR
      "wait fragment start timeout" st).
    by destruct (FragmentExecState.cancel _ _ _ _) as [[? ?] ?]. }
  simpl. destruct (runtime_state_is_cancelled run); [done|]. simpl.
  destruct (ok (executor_open run)); [done|]. simpl.
  rewrite <- (raise_cancelled_spec
    (new_load_stream_mgr_get env (_query_id st)) INTERNAL_ERROR
    "PlanFragmentExecutor open failed" st).
  by destruct (FragmentExecState.cancel _ _ _ _) as [[? ?] ?].
Qed.

Lemma execute_status env run (st : FragmentExecState) :
  ok (execute env run st).1.1
  = (_need_wait_execution_trigger st && negb (wait_for_start run))
    || negb (runtime_state_is_cancelled run).
Proof.
  unfold execute.
  destruct (_need_wait_execution_trigger st && negb (wait_for_start run)).
  { simpl. unfold FragmentExecState.cancel. by destruct (negb (_cancelled st)). }
  simpl. destruct (runtime_state_is_cancelled run); [done|]. simpl.
  destruct (negb (ok (executor_open run))); [|done].
  by destruct (FragmentExecState.cancel _ _ _ _) as [[? ?] ?].
Qed.

Lemma exec_actual_state env run held exec_state mgr :
  (_exec_actual env run held exec_state mgr).1.1.1
  = if execution_failed run exec_state then raise_cancelled exec_state
    else exec_state.
Proof.
  unfold _exec_actual.
  pose proof (execute_state env run exec_state) as Hst.
  pose proof (execute_status env run exec_state) as Hok.
  destruct (execute env run exec_state) as [[st exec_state1] ev1].
  simpl in Hst, Hok. rewrite Hok. unfold execution_failed.
  assert (Hfst : ∀ (s : FragmentExecState) (evs : list Event)
                   (x : HeldContext * gmap TUniqueId QueryFragmentsCtx)
                   (l : list RunEvent),
            (let '(exec_state2, ev2) := (s, evs) in
             let '(held1, ctx_map) := x in
             (exec_state2, held1,
              mkFragmentMgr
                (delete (_fragment_instance_id exec_state2) (_fragment_map mgr))
                (_pipeline_map mgr) ctx_map, l)).1.1.1 = s).
  { intros s evs [? ?] l. done. }
  destruct (_need_wait_execution_trigger exec_state
            && negb (wait_for_start run)); simpl in *.
  { subst. by destruct (match held with HeldNull => _ | _ => _ end). }
  destruct (runtime_state_is_cancelled run); simpl in *.
  - subst. rewrite <- (raise_cancelled_spec
      (new_load_stream_mgr_get env (_query_id exec_state)) INTERNAL_ERROR
      "exec_state execute failed" exec_state).
    destruct (FragmentExecState.cancel _ _ _ _) as [[? ?] ?].
    by destruct (match held with HeldNull => _ | _ => _ end).
  - subst. by destruct (match held with HeldNull => _ | _ => _ end).
Qed.

Lemma raise_cancelled_query_id (st : FragmentExecState) :
  _query_id (raise_cancelled st) = _query_id st.
Proof. unfold raise_cancelled. by destruct (_cancelled st). Qed.

Lemma exec_actual_registry env run held exec_state mgr :
  let qid := _query_id exec_state in
  let ctx_map := _fragments_ctx_map mgr in
  let counted (ctx : QueryFragmentsCtx) :=
    set_fragment_num (fragment_num ctx - 1) ctx in
  let after : HeldContext * gmap TUniqueId QueryFragmentsCtx :=
    match held with
    | HeldNull => (HeldNull, ctx_map)
    | HeldRegistered =>
      match ctx_map !! qid with
      | Some ctx =>
        if fragment_num ctx =? 1
        then (HeldDetached (counted ctx),
              delete (query_id ctx) (<[qid := counted ctx]> ctx_map))
        else (HeldRegistered, <[qid := counted ctx]> ctx_map)
      | None => (HeldRegistered, ctx_map)
      end
    | HeldDetached ctx =>
      (HeldDetached (counted ctx),
       if fragment_num ctx =? 1 then delete (query_id ctx) ctx_map
       else ctx_map)
    end in
  (_exec_actual env run held exec_state mgr).1.2
  = mkFragmentMgr
      (delete (_fragment_instance_id exec_state) (_fragment_map mgr))
      (_pipeline_map mgr) after.2
  ∧ (_exec_actual env run held exec_state mgr).1.1.2 = after.1.
Proof.
  cbv zeta.
  pose proof (exec_actual_state env run held exec_state mgr) as Hst.
  unfold _exec_actual in *.
  destruct (execute env run exec_state) as [[st exec_state1] ev1].
  destruct (if negb (ok st) then _ else _) as [exec_state2 ev2].
  assert (_fragment_instance_id exec_state2 = _fragment_instance_id exec_state
          ∧ _query_id exec_state2 = _query_id exec_state) as [Hid Hq].
  { destruct (match held with HeldNull => _ | _ => _ end) as [h m].
    simpl in Hst. subst exec_state2.
    destruct (execution_failed run exec_state); [|done].
    by rewrite raise_cancelled_instance_id, raise_cancelled_query_id. }
  rewrite Hid, Hq. unfold countdown.
  destruct held as [| |ctx]; simpl.
  - done.
  - destruct (_fragments_ctx_map mgr !! _query_id exec_state) as [ctx|];
      [|done].
    simpl. by destruct (fragment_num ctx =? 1).
  - by destruct (fragment_num ctx =? 1).
Qed.

Lemma exec_actual_events env run held exec_state mgr :
  let evs := (_exec_actual env run held exec_state mgr).2 in
  let opened :=
    negb (_need_wait_execution_trigger exec_state
          && negb (wait_for_start run))
    && negb (runtime_state_is_cancelled run) in
  last evs = Some (EvFinishCallback (_fragment_instance_id exec_state))
  ∧ length (List.filter is_executor_open evs) = (if opened then 1 else 0)%nat
  ∧ length (List.filter is_executor_close evs) = (if opened then 1 else 0)%nat.
Proof.
  cbv zeta. unfold _exec_actual, execute, FragmentExecState.cancel.
  destruct exec_state as [q i bn ca stt es rsc u g ts c nw].
  destruct run as [w rc eo]. simpl.
  destruct c, nw, w, rc; simpl;
    destruct (ok eo); simpl;
    destruct (new_load_stream_mgr_get env q); simpl;
    by destruct (match held with HeldNull => _ | _ => _ end).
Qed.

(** X7. What the worker-pool task [_exec_actual] leaves behind.  The
    finished instance is erased from the fragment registry and nothing else
    is; the pipeline registry is untouched.  The countdown goes to the query
    context the fragment holds.  When that is the context registered under
    the fragment's query id, the registry entry is erased exactly when its
    count of live fragments stood at 1, and otherwise stays with the count
    one lower.  When the fragment holds a context the registry has let go
    of, the count of that context goes one down and no registered context is
    counted down; whatever is registered under the held context's query id
    is erased when the held count stood at 1, and the registry is left alone
    otherwise.  A fragment without a context leaves the context registry as
    it is.  A fragment whose execution did not go through (no start signal,
    cancelled before execution, or a failed open) ends up cancelled; any
    other fragment state is handed back as it was.  The executor is opened
    and closed once, or not at all when the start signal did not arrive or
    the runtime state was already cancelled, and the finish callback is the
    last call made, in every case. *)
Theorem exec_actual_completion (env : ExecEnv) (run : RunEnv)
    (held : HeldContext) (exec_state : FragmentExecState)
    (mgr : FragmentMgr) :
  let out := _exec_actual env run held exec_state mgr in
  let id := _fragment_instance_id exec_state in
  let qid := _query_id exec_state in
  let counted (ctx : QueryFragmentsCtx) :=
    set_fragment_num (fragment_num ctx - 1) ctx in
  let opened :=
    negb (_need_wait_execution_trigger exec_state
          && negb (wait_for_start run))
    && negb (runtime_state_is_cancelled run) in
  _fragment_map out.1.2 = delete id (_fragment_map mgr)
  ∧ _pipeline_map out.1.2 = _pipeline_map mgr
  ∧ (held = HeldNull →
     _fragments_ctx_map out.1.2 = _fragments_ctx_map mgr
     ∧ out.1.1.2 = HeldNull)
  ∧ (∀ ctx, held = HeldRegistered →
       _fragments_ctx_map mgr !! qid = Some ctx → query_id ctx = qid →
       _fragments_ctx_map out.1.2
       = (if fragment_num ctx =? 1 then delete qid (_fragments_ctx_map mgr)
          else <[qid := counted ctx]> (_fragments_ctx_map mgr))
       ∧ out.1.1.2
         = (if fragment_num ctx =? 1 then HeldDetached (counted ctx)
            else HeldRegistered))
  ∧ (∀ ctx, held = HeldDetached ctx →
       _fragments_ctx_map out.1.2
       = (if fragment_num ctx =? 1
          then delete (query_id ctx) (_fragments_ctx_map mgr)
          else _fragments_ctx_map mgr)
       ∧ out.1.1.2 = HeldDetached (counted ctx)
       ∧ (∀ q other, _fragments_ctx_map out.1.2 !! q = Some other →
                     _fragments_ctx_map mgr !! q = Some other))
  ∧ (execution_failed run exec_state = true →
     FragmentExecState.is_canceled out.1.1.1 = true
     ∧ out.1.1.1 = raise_cancelled exec_state)
  ∧ (execution_failed run exec_state = false → out.1.1.1 = exec_state)
  ∧ last out.2 = Some (EvFinishCallback id)
  ∧ length (List.filter is_executor_open out.2) = (if opened then 1 else 0)%nat
  ∧ length (List.filter is_executor_close out.2)
    = (if opened then 1 else 0)%nat.
Proof.
  cbv zeta.
  destruct (exec_actual_registry env run held exec_state mgr) as [-> ->].
  rewrite exec_actual_state. simpl.
  split; [done|]. split; [done|]. split; [by intros ->|].
  split.
  { intros ctx -> Hctx Hq. simpl. rewrite Hctx, Hq.
    destruct (fragment_num ctx =? 1); [|done]. simpl.
    by rewrite delete_insert_eq. }
  split.
  { intros ctx ->. simpl. split; [done|]. split; [done|].
    intros q other. destruct (fragment_num ctx =? 1); [|done].
    by intros [_ ?]%lookup_delete_Some. }
  split.
  { intros ->. split; [apply raise_cancelled_flag|done]. }
  split; [by intros ->|].
  apply exec_actual_events.
Qed.

Lemma build_query_ctx_fields env params qid pipeline :
  query_id (build_query_ctx env params qid pipeline) = qid
  ∧ fragment_num (build_query_ctx env params qid pipeline)
    = fragment_num_on_host params
  ∧ fragment_ids (build_query_ctx env params qid pipeline) = [].
Proof. done. Qed.

(** X8. Submitting the only fragment of a new query and running it to
    completion brings the manager back to where it started: when neither the
    instance nor the query was registered, the request announces one
    fragment on this host and the submission is accepted, the fragment state
    it registered is erased by [_exec_actual] together with the query
    context the submission created, which is the one the fragment holds,
    however the execution itself went. *)
Theorem submit_then_finish_round_trip (env env' : ExecEnv) (run : RunEnv)
    (params : TExecPlanFragmentParams) (mgr mgr1 : FragmentMgr)
    (st : Status) (evs : list Event) :
  _fragment_map mgr !! params_fragment_instance_id params = None →
  _fragments_ctx_map mgr !! params_query_id params = None →
  wants_pipeline params = false →
  fragment_num_on_host params = 1 →
  exec_plan_fragment env params mgr = (st, mgr1, evs) →
  ok st = true →
  ∃ exec_state,
    _fragment_map mgr1 !! params_fragment_instance_id params = Some exec_state
    ∧ (_exec_actual env' run HeldRegistered exec_state mgr1).1.2 = mgr.
Proof.
  intros Hnew Hnoctx Hlegacy Hone Hrun Hok.
  destruct (_get_query_ctx env params (params_query_id params) false mgr)
    as [[[err|ctx] mgr0] ev1] eqn:Hctx.
  { exfalso. revert Hrun. unfold exec_plan_fragment. rewrite Hnew.
    unfold wants_pipeline in Hlegacy. rewrite Hlegacy, Hctx.
    intros Heq. simplify_eq.
    apply get_query_ctx_error in Hctx. congruence. }
  rewrite (exec_plan_fragment_legacy_unfold _ _ _ _ _ _ Hnew Hlegacy Hctx)
    in Hrun.
  destruct (ok (executor_prepare env)) eqn:Hprep; simpl in Hrun.
  2:{ simplify_eq. congruence. }
  destruct (ok (thread_pool_submit_func env)) eqn:Hpool; simpl in Hrun.
  2:{ by simplify_eq. }
  simplify_eq.
  destruct (get_query_ctx_found _ _ _ _ _ _ _ _ Hctx)
    as (Hreg & Hothers & _ & Hfresh).
  destruct (Hfresh Hnoctx) as [-> Hfull].
  destruct (submitted_state_fields env params
              (build_query_ctx env params (params_query_id params) false))
    as (Hid & Hq & _).
  eexists. split; [apply lookup_insert_eq|].
  rewrite (proj1 (exec_actual_registry _ _ _ _ _)). simpl.
  rewrite Hid, Hq. simpl.
  rewrite lookup_alter_eq, Hreg. simpl. rewrite Hone. simpl.
  rewrite delete_insert_id by done.
  rewrite delete_insert_eq.
  pose proof (get_query_ctx_maps env params (params_query_id params) false mgr)
    as [_ Hp].
  rewrite Hctx in Hp. simpl in Hp.
  destruct mgr as [fm pm cm]. simpl in *. f_equal; [done|].
  apply map_eq. intros q.
  destruct (decide (q = params_query_id params)) as [->|Hne].
  - by rewrite lookup_delete_eq.
  - rewrite lookup_delete_ne, lookup_alter_ne by done. by apply Hothers.
Qed.

Lemma exec_actual_keyed env run held exec_state mgr :
  keyed_by_instance_id mgr →
  keyed_by_instance_id (_exec_actual env run held exec_state mgr).1.2.
Proof.
  intros Hkeyed id s. rewrite (proj1 (exec_actual_registry _ _ _ _ _)). simpl.
  intros [_ Hs]%lookup_delete_Some. by apply Hkeyed.
Qed.

End CompletionFacts.

Section PipelineFacts.

Import FragmentMgr.

Variables (penv : PipelineEnv) (params : TPipelineFragmentParams)
          (key : TUniqueId) (fragments_ctx : QueryFragmentsCtx).

Lemma pipeline_instance_step_spec local mgr :
  let id := local_fragment_instance_id local in
  let out := pipeline_instance_step penv params key fragments_ctx local mgr in
  _fragment_map out.1.2 = _fragment_map mgr
  ∧ (∀ q, q ≠ key →
          _fragments_ctx_map out.1.2 !! q = _fragments_ctx_map mgr !! q)
  ∧ (is_Some (_pipeline_map mgr !! id) → out = (inr tt, mgr, []))
  ∧ (_pipeline_map mgr !! id = None →
     (∃ f, _fragments_ctx_map out.1.2 !! key
           = f <$> _fragments_ctx_map mgr !! key
           ∧ ∀ c, fragment_ids (f c) = fragment_ids c ++ [id])
     ∧ ((out.1.1 = inl (context_prepare penv id)
         ∧ ok (context_prepare penv id) = false
         ∧ _pipeline_map out.1.2 = _pipeline_map mgr)
        ∨ (ok (context_prepare penv id) = true
           ∧ _pipeline_map out.1.2
             = <[id := pipeline_context_of params fragments_ctx local]>
                 (_pipeline_map mgr)
           ∧ out.1.1 = if ok (context_submit penv id) then inr tt
                       else inl (context_submit penv id)))).
Proof.
  cbv zeta. unfold pipeline_instance_step.
  destruct (_pipeline_map mgr !! local_fragment_instance_id local)
    as [p|] eqn:Hp.
  { split; [done|]. split; [done|]. split; [done|]. done. }
  set (id := local_fragment_instance_id local) in *.
  set (need_wait := isset_need_wait_execution_trigger (shared params)
                    && need_wait_execution_trigger (shared params)).
  assert (Hctx : ∃ f,
    (if negb need_wait
     then alter QueryFragmentsCtx.set_ready_to_execute_only key
            (alter (QueryFragmentsCtx.push_fragment_id id) key
               (_fragments_ctx_map mgr))
     else alter (QueryFragmentsCtx.push_fragment_id id) key
            (_fragments_ctx_map mgr)) !! key
    = f <$> _fragments_ctx_map mgr !! key
    ∧ ∀ c, fragment_ids (f c) = fragment_ids c ++ [id]).
  { destruct (negb need_wait).
    - exists (λ c, QueryFragmentsCtx.set_ready_to_execute_only
                     (QueryFragmentsCtx.push_fragment_id id c)).
      split; [|done]. rewrite !lookup_alter_eq.
      by destruct (_fragments_ctx_map mgr !! key).
    - exists (QueryFragmentsCtx.push_fragment_id id).
      split; [|done]. by rewrite lookup_alter_eq. }
  assert (Hother : ∀ q, q ≠ key →
    (if negb need_wait
     then alter QueryFragmentsCtx.set_ready_to_execute_only key
            (alter (QueryFragmentsCtx.push_fragment_id id) key
               (_fragments_ctx_map mgr))
     else alter (QueryFragmentsCtx.push_fragment_id id) key
            (_fragments_ctx_map mgr)) !! q
    = _fragments_ctx_map mgr !! q).
  { intros q Hne. destruct (negb need_wait);
      rewrite ?lookup_alter_ne; done. }
  destruct (ok (context_prepare penv id)) eqn:Hprep; simpl.
  - assert (Hins : map_insert_new id
                     (mkPipelineFragmentContext (query_id fragments_ctx) id
                        (fragment_id params) (local_backend_num local) false)
                     (_pipeline_map mgr)
                   = <[id := pipeline_context_of params fragments_ctx local]>
                       (_pipeline_map mgr)).
    { unfold map_insert_new. by rewrite Hp. }
    destruct (ok (context_submit penv id)) eqn:Hsub; simpl;
      (split; [done|]); (split; [done|]);
      (split; [by intros [? ?]|]); intros _; (split; [done|]);
      right; by rewrite Hins.
  - split; [done|]. split; [done|]. split; [by intros [? ?]|].
    intros _. split; [done|]. by left.
Qed.

Lemma pipeline_instances_loop_spec locals mgr :
  let ids := local_fragment_instance_id <$> locals in
  let out := pipeline_instances_loop penv params key fragments_ctx locals mgr in
  _fragment_map out.1.2 = _fragment_map mgr
  ∧ (∀ q, q ≠ key →
          _fragments_ctx_map out.1.2 !! q = _fragments_ctx_map mgr !! q)
  ∧ (∀ id p, _pipeline_map mgr !! id = Some p →
             _pipeline_map out.1.2 !! id = Some p)
  ∧ (∀ id p, _pipeline_map out.1.2 !! id = Some p →
       _pipeline_map mgr !! id = Some p
       ∨ ∃ local, local ∈ locals ∧ local_fragment_instance_id local = id
                  ∧ p = pipeline_context_of params fragments_ctx local)
  ∧ (ok out.1.1 = true →
     (∀ id, id ∈ ids → is_Some (_pipeline_map out.1.2 !! id))
     ∧ ∃ f, _fragments_ctx_map out.1.2 !! key
            = f <$> _fragments_ctx_map mgr !! key
            ∧ ∀ c, fragment_ids (f c)
                   = fragment_ids c
                     ++ new_instances (dom (_pipeline_map mgr)) ids)
  ∧ (ok out.1.1 = false →
     ∃ id, id ∈ ids ∧ (out.1.1 = context_prepare penv id
                       ∨ out.1.1 = context_submit penv id)).
Proof.
  cbv zeta. revert mgr. induction locals as [|local rest IH]; intros mgr.
  { simpl. split; [done|]. split; [done|]. split; [done|].
    split; [by left|]. split; [|done]. intros _. split.
    - intros id Hin. by apply elem_of_nil in Hin.
    - exists (λ c, c). split; [by destruct (_ !! key)|].
      intros c. by rewrite app_nil_r. }
  rewrite fmap_cons. cbn [pipeline_instances_loop].
  destruct (pipeline_instance_step_spec local mgr)
    as (Hf1 & Ho1 & Hdup & Hnew).
  set (id := local_fragment_instance_id local) in *.
  destruct (pipeline_instance_step penv params key fragments_ctx local mgr)
    as [[res mgr1] ev1] eqn:Hstep.
  simpl in Hf1, Ho1, Hnew.
  destruct (_pipeline_map mgr !! id) as [p0|] eqn:Hp.
  - (* a duplicate: skipped *)
    assert (res = inr tt ∧ mgr1 = mgr) as [-> ->].
    { specialize (Hdup (ltac:(eauto))). by simplify_eq. }
    specialize (IH mgr).
    destruct (pipeline_instances_loop penv params key fragments_ctx rest mgr)
      as [[st mgr2] ev2].
    simpl in *. destruct IH as (I1 & I2 & I3 & I4 & I5 & I6).
    split; [done|]. split; [done|]. split; [done|].
    split.
    { intros id' p Hp'. destruct (I4 id' p Hp') as [?|(l & Hl & ? & ?)];
        [by left|]. right. exists l. split; [by right|done]. }
    split.
    { intros Hok. destruct (I5 Hok) as [Hall (f & Hfk & Hfi)]. split.
      - intros id' [->|Hin]%elem_of_cons; [|by apply Hall].
        rewrite (I3 _ _ Hp). eauto.
      - exists f. split; [done|]. intros c. rewrite Hfi.
        rewrite decide_True; [done|]. apply elem_of_dom. eauto. }
    intros Hfail. destruct (I6 Hfail) as (id' & Hin & Hst).
    exists id'. split; [by right|done].
  - destruct (Hnew eq_refl) as [(f1 & Hf1k & Hf1i) Hcases]. clear Hnew Hdup.
    destruct Hcases as [(-> & Hprep & Hpm)|(Hprep & Hpm & ->)].
    + (* prepare failed *)
      simpl. split; [done|]. split; [done|].
      split; [intros id' p; by rewrite Hpm|].
      split; [intros id' p; rewrite Hpm; by left|].
      split; [congruence|]. intros _. exists id. split; [by left|by left].
    + destruct (ok (context_submit penv id)) eqn:Hsub.
      2:{ (* submit failed *)
          simpl. split; [done|]. split; [done|].
          split.
          { intros id' p Hp'. rewrite Hpm.
            rewrite lookup_insert_ne; [done|]. congruence. }
          split.
          { intros id' p. rewrite Hpm.
            destruct (decide (id' = id)) as [->|Hne].
            - rewrite lookup_insert_eq. intros [= <-]. right.
              exists local. split; [by left|done].
            - rewrite lookup_insert_ne by done. by left. }
          split; [congruence|]. intros _. exists id.
          split; [by left|by right]. }
      specialize (IH mgr1).
      destruct (pipeline_instances_loop penv params key fragments_ctx rest mgr1)
        as [[st mgr2] ev2].
      simpl in *. destruct IH as (I1 & I2 & I3 & I4 & I5 & I6).
      split; [congruence|].
      split; [intros q Hne; rewrite I2 by done; by apply Ho1|].
      split.
      { intros id' p Hp'. apply I3. rewrite Hpm.
        rewrite lookup_insert_ne; [done|]. congruence. }
      split.
      { intros id' p Hp'. destruct (I4 id' p Hp') as [H1|(l & Hl & ? & ?)].
        - revert H1. rewrite Hpm.
          destruct (decide (id' = id)) as [->|Hne].
          + rewrite lookup_insert_eq. intros [= <-]. right.
            exists local. split; [by left|done].
          + rewrite lookup_insert_ne by done. by left.
        - right. exists l. split; [by right|done]. }
      split.
      { intros Hok. destruct (I5 Hok) as [Hall (f & Hfk & Hfi)]. split.
        - intros id' [->|Hin]%elem_of_cons; [|by apply Hall].
          rewrite (I3 id (pipeline_context_of params fragments_ctx local));
            [eauto|]. by rewrite Hpm, lookup_insert_eq.
        - exists (λ c, f (f1 c)). split.
          + rewrite Hfk, Hf1k. by destruct (_fragments_ctx_map mgr !! key).
          + intros c. rewrite Hfi, Hf1i, Hpm, dom_insert_L.
            rewrite decide_False; [by rewrite <- app_assoc|].
            rewrite elem_of_dom, Hp. by intros [? ?]. }
      intros Hfail. destruct (I6 Hfail) as (id' & Hin & Hst).
      exists id'. split; [by right|done].
Qed.

End PipelineFacts.

Section PipelineSubmissionFacts.

Import FragmentMgr.

Lemma exec_pipeline_fragment_fragment_map env penv params mgr :
  _fragment_map (exec_pipeline_fragment env penv params mgr).1.2
  = _fragment_map mgr.
Proof.
  unfold exec_pipeline_fragment.
  set (qid := params_query_id (shared params)).
  pose proof (get_query_ctx_maps env (shared params) qid true mgr) as [Hf _].
  destruct (_get_query_ctx env (shared params) qid true mgr)
    as [[[err|ctx] mgr1] ev1]; simpl in Hf; [done|].
  destruct (pipeline_instances_loop_spec penv params qid ctx
              (local_params params) mgr1) as [I1 _].
  destruct (pipeline_instances_loop penv params qid ctx (local_params params)
              mgr1) as [[st mgr2] ev2].
  simpl in *. congruence.
Qed.

(** X9. [exec_plan_fragment] for pipeline parameters only ever adds to the
    registries.  The fragment registry and the contexts of other queries are
    untouched; every pipeline context registered before is still there,
    unchanged; every new one sits under the instance id of a local
    parameter of the request, carries that id and the request's fragment
    id, and is not cancelled.  When the call returns OK every local
    instance of the request is registered, and the query's context lists,
    after the ids it had, exactly the instances that were new, each once
    and in request order. *)
Theorem exec_pipeline_fragment_registers (env : ExecEnv) (penv : PipelineEnv)
    (params : TPipelineFragmentParams) (mgr : FragmentMgr) :
  let out := exec_pipeline_fragment env penv params mgr in
  let ids := local_fragment_instance_id <$> local_params params in
  let qid := params_query_id (shared params) in
  _fragment_map out.1.2 = _fragment_map mgr
  ∧ (∀ q, q ≠ qid →
          _fragments_ctx_map out.1.2 !! q = _fragments_ctx_map mgr !! q)
  ∧ (∀ id p, _pipeline_map mgr !! id = Some p →
             _pipeline_map out.1.2 !! id = Some p)
  ∧ (∀ id p, _pipeline_map out.1.2 !! id = Some p →
       _pipeline_map mgr !! id = Some p
       ∨ (id ∈ ids ∧ pipeline_fragment_instance_id p = id
          ∧ pipeline_fragment_id p = fragment_id params
          ∧ pipeline_is_canceled p = false))
  ∧ (ok out.1.1 = true →
     (∀ id, id ∈ ids → is_Some (_pipeline_map out.1.2 !! id))
     ∧ ∃ ctx, _fragments_ctx_map out.1.2 !! qid = Some ctx
              ∧ fragment_ids ctx
                = match _fragments_ctx_map mgr !! qid with
                  | Some ctx0 => fragment_ids ctx0
                  | None => []
                  end ++ new_instances (dom (_pipeline_map mgr)) ids).
Proof.
  cbv zeta. unfold exec_pipeline_fragment.
  set (qid := params_query_id (shared params)).
  pose proof (get_query_ctx_maps env (shared params) qid true mgr) as [Hf Hp].
  destruct (_get_query_ctx env (shared params) qid true mgr)
    as [[[err|ctx] mgr1] ev1] eqn:Hctx; simpl in Hf, Hp.
  { simpl.
    assert (mgr1 = mgr) as ->.
    { revert Hctx. unfold _get_query_ctx.
      destruct (is_simplified_param (shared params)),
        (ok (DescriptorTbl_create env)), (_fragments_ctx_map mgr !! qid);
        simpl; intros Heq; by simplify_eq. }
    split; [done|]. split; [done|]. split; [done|]. split; [by left|].
    intros Hok. apply get_query_ctx_error in Hctx. congruence. }
  destruct (get_query_ctx_found _ _ _ _ _ _ _ _ Hctx)
    as (Hreg & Hothers & Hold & Hfresh).
  destruct (pipeline_instances_loop_spec penv params qid ctx
              (local_params params) mgr1)
    as (I1 & I2 & I3 & I4 & I5 & _).
  destruct (pipeline_instances_loop penv params qid ctx (local_params params)
              mgr1) as [[st mgr2] ev2].
  simpl in *. split; [congruence|].
  split; [intros q Hne; rewrite I2 by done; by apply Hothers|].
  split; [intros id p Hin; apply I3; by rewrite Hp|].
  split.
  { intros id p Hin. destruct (I4 id p Hin) as [H1|(l & Hl & <- & ->)].
    - left. by rewrite <- Hp.
    - right. split; [|done]. apply list_elem_of_fmap. by exists l. }
  intros Hok. destruct (I5 Hok) as [Hall (f & Hfk & Hfi)].
  split; [done|]. exists (f ctx). split; [by rewrite Hfk, Hreg|].
  rewrite Hfi, Hp. f_equal.
  destruct (_fragments_ctx_map mgr !! qid) as [ctx0|].
  - by destruct (Hold ctx0 eq_refl) as [-> _].
  - by destruct (Hfresh eq_refl) as [-> _].
Qed.

Lemma exec_plan_fragment_keyed env params mgr :
  keyed_by_instance_id mgr →
  keyed_by_instance_id (exec_plan_fragment env params mgr).1.2.
Proof.
  intros Hkeyed id s.
  destruct (exec_plan_fragment_fragment_map env params mgr)
    as [->|(Hnew & ctx & ->)]; [apply Hkeyed|].
  destruct (decide (id = params_fragment_instance_id params)) as [->|Hne].
  - rewrite lookup_insert_eq. intros [= <-].
    by destruct (submitted_state_fields env params ctx) as [? _].
  - rewrite lookup_insert_ne by done. apply Hkeyed.
Qed.

Lemma cancel_each_keyed env ids reason msg mgr :
  keyed_by_instance_id mgr →
  keyed_by_instance_id (cancel_each env ids reason msg mgr).1.
Proof.
  intros Hkeyed id s. rewrite cancel_each_fragment_lookup.
  destruct (bool_decide (id ∈ ids)); [|apply Hkeyed].
  destruct (_fragment_map mgr !! id) as [s0|] eqn:Hid; [|done].
  simpl. intros [= <-]. rewrite raise_cancelled_instance_id.
  by apply Hkeyed.
Qed.

(** X10. The fragment registry stays keyed by instance id: if every entry
    sits under the instance id it carries, the same holds after a
    submission (either engine), a cancellation of one instance or of a whole
    query, a round of the timeout sweep and the completion of a fragment.
    [FragmentMgr::cancel] by instance id, which the timeout sweep relies on,
    therefore reaches the very entry whose id was collected. *)
Theorem registry_stays_keyed (env : ExecEnv) (penv : PipelineEnv)
    (run : RunEnv) (now : VecDateTimeValue)
    (params : TExecPlanFragmentParams) (pparams : TPipelineFragmentParams)
    (id qid : TUniqueId) (reason : PPlanFragmentCancelReason) (msg : string)
    (held : HeldContext) (exec_state : FragmentExecState)
    (mgr : FragmentMgr) :
  keyed_by_instance_id mgr →
  keyed_by_instance_id (exec_plan_fragment env params mgr).1.2
  ∧ keyed_by_instance_id (exec_pipeline_fragment env penv pparams mgr).1.2
  ∧ keyed_by_instance_id (cancel env id reason msg mgr).1
  ∧ keyed_by_instance_id (cancel_query env qid reason msg mgr).1
  ∧ keyed_by_instance_id (cancel_worker_round env now mgr).1
  ∧ keyed_by_instance_id (_exec_actual env run held exec_state mgr).1.2.
Proof.
  intros Hkeyed. split; [by apply exec_plan_fragment_keyed|].
  split.
  { intros i s. rewrite exec_pipeline_fragment_fragment_map. apply Hkeyed. }
  split; [rewrite <- cancel_each_single; by apply cancel_each_keyed|].
  split; [by apply cancel_each_keyed|].
  split; [by apply cancel_each_keyed|].
  by apply exec_actual_keyed.
Qed.

End PipelineSubmissionFacts.

Section CallbackFacts.

Import FragmentMgr.

Lemma update_status_not_ok (u : Status) (s : FragmentExecState) :
  ok u = false →
  ok (_exec_status (FragmentExecState.update_status u s).2) = false.
Proof.
  intros Hu. unfold FragmentExecState.update_status. rewrite Hu. simpl.
  by destruct (ok (_exec_status s)) eqn:Hs.
Qed.

Lemma rpc_status_of_delivered env addr :
  report_delivered env
  = match first_reportExecStatus env with
    | RpcTTransportException _ =>
      ok (coord_reopen env)
      && ok (rpc_status_of addr (second_reportExecStatus env))
    | o => ok (rpc_status_of addr o)
    end.
Proof.
  unfold report_delivered.
  destruct (first_reportExecStatus env); try done.
  by destruct (second_reportExecStatus env).
Qed.

(** X11. What a status report does, whatever the coordinator answers.
    Every report sent carries the fragment's sticky status (for a fragment
    that has already failed: its first failure, not the status handed in).
    Without a coordinator client nothing is sent and the fragment is marked
    failed.  With a client, the executor is cancelled exactly when no report
    was delivered (answered with OK at the first attempt, or at the retry
    after a transport failure), and then the fragment is marked failed; a
    delivered report leaves the fragment as the status update left it.  The
    callback cancels the executor directly: the fragment's own cancelled
    flag is never changed by it. *)
Theorem coordinator_callback_outcomes (env : ExecEnv) (status : Status)
    (done : bool) (st : FragmentExecState) :
  let req := make_report_request status done st in
  let sticky := (FragmentExecState.update_status status st).1 in
  let st1 := (FragmentExecState.update_status status st).2 in
  let out := coordinator_callback env req st in
  (ok (frontend_client_status env) = false →
   out.2 = [] ∧ ok (_exec_status out.1) = false)
  ∧ (ok (frontend_client_status env) = true →
     count_events is_cancel out.2
     = (if report_delivered env then 0 else 1)%nat
     ∧ (report_delivered env = true → out.1 = st1)
     ∧ (report_delivered env = false → ok (_exec_status out.1) = false))
  ∧ Forall (λ e, is_report e = true →
                 e = EvReportExecStatus (_fragment_instance_id st) sticky done)
      out.2
  ∧ (ok (_exec_status st) = false →
     sticky = _exec_status st ∧ out.1 = st)
  ∧ FragmentExecState.is_canceled out.1 = FragmentExecState.is_canceled st.
Proof.
  cbv zeta. rewrite coordinator_callback_unfold.
  rewrite (rpc_status_of_delivered env (_coord_addr st)).
  set (st1 := (FragmentExecState.update_status status st).2).
  set (sticky := (FragmentExecState.update_status status st).1).
  assert (Hflag : ∀ u, _cancelled (FragmentExecState.update_status u st1).2
                       = _cancelled st).
  { intros u. unfold st1. by rewrite !update_status_keeps_cancelled. }
  assert (Hflag1 : _cancelled st1 = _cancelled st).
  { apply update_status_keeps_cancelled. }
  assert (Hfailed : ok (_exec_status st) = false →
                    sticky = _exec_status st ∧ st1 = st
                    ∧ ∀ u, (FragmentExecState.update_status u st1).2 = st).
  { intros Hf. unfold sticky, st1.
    rewrite (update_status_failed_noop status st Hf). simpl.
    split; [done|]. split; [done|]. intros u.
    by rewrite (update_status_failed_noop u st Hf). }
  unfold after_report, make_report_request, count_events,
    FragmentExecState.is_canceled. simpl.
  destruct (ok (frontend_client_status env)) eqn:Hclient; simpl.
  2:{ split.
      { intros _. split; [done|]. by apply update_status_not_ok. }
      split; [done|]. split; [constructor|].
      split; [|apply Hflag].
      intros Hf. destruct (Hfailed Hf) as (? & ? & Hu). by rewrite Hu. }
  split; [done|].
  destruct (first_reportExecStatus env) as [res|what|what] eqn:Hfirst; simpl.
  - destruct (ok res) eqn:Hres; simpl.
    + split; [by intros _|]. split; [by repeat constructor|].
      split; [|done]. intros Hf. by destruct (Hfailed Hf) as (? & ? & _).
    + split.
      { intros _. split; [done|]. split; [done|]. intros _.
        by apply update_status_not_ok. }
      split; [by repeat constructor|]. split; [|apply Hflag].
      intros Hf. destruct (Hfailed Hf) as (? & ? & Hu). by rewrite Hu.
  - destruct (ok (coord_reopen env)) eqn:Hreopen; simpl.
    2:{ split.
        { intros _. split; [done|]. split; [done|]. intros _.
          by apply update_status_not_ok. }
        split; [by repeat constructor|]. split; [|apply Hflag].
        intros Hf. destruct (Hfailed Hf) as (? & ? & Hu). by rewrite Hu. }
    destruct (ok (rpc_status_of (_coord_addr st) (second_reportExecStatus env)))
      eqn:Hsecond; simpl.
    + split; [by intros _|]. split; [by repeat constructor|].
      split; [|done]. intros Hf. by destruct (Hfailed Hf) as (? & ? & _).
    + split.
      { intros _. split; [done|]. split; [done|]. intros _.
        by apply update_status_not_ok. }
      split; [by repeat constructor|]. split; [|apply Hflag].
      intros Hf. destruct (Hfailed Hf) as (? & ? & Hu). by rewrite Hu.
  - split.
    { intros _. split; [done|]. split; [done|]. intros _.
      by apply update_status_not_ok. }
    split; [by repeat constructor|]. split; [|apply Hflag].
    intros Hf. destruct (Hfailed Hf) as (? & ? & Hu). by rewrite Hu.
Qed.

End CallbackFacts.

(** * Further properties of the Parquet reader *)

Section ColumnSelectionFacts.

Lemma first_index_Some (name : string) (schema : list string) (k : nat) :
  first_index name schema = Some k → schema !! k = Some name.
Proof.
  revert k. induction schema as [|n rest IH]; intros k; [done|]. simpl.
  destruct (decide (n = name)) as [->|Hne].
  - by intros [= <-].
  - destruct (first_index name rest) as [j|]; [|done]. simpl.
    intros [= <-]. by apply IH.
Qed.

Lemma first_index_None (name : string) (schema : list string) :
  first_index name schema = None ↔ name ∉ schema.
Proof.
  induction schema as [|n rest IH]; simpl.
  - split; [intros _; apply not_elem_of_nil|done].
  - rewrite not_elem_of_cons. destruct (decide (n = name)) as [->|Hne].
    + split; [done|]. by intros [? _].
    + destruct (first_index name rest) as [j|]; simpl.
      * split; [done|]. intros [_ Hnot]. by apply IH in Hnot.
      * split; [|done]. intros _. split; [done|]. by apply IH.
Qed.

Lemma map_schema_columns_lookup (all missing schema : list string) (i : Z)
    (m : gmap string Z) (name : string) :
  map_schema_columns all missing i schema m !! name
  = match m !! name with
    | Some v => Some v
    | None =>
      if bool_decide (name ∈ all) && bool_decide (name ∉ missing)
      then (λ k, i + Z.of_nat k) <$> first_index name schema
      else None
    end.
Proof.
  revert i m. induction schema as [|n rest IH]; intros i m.
  { simpl. destruct (m !! name); [done|].
    by destruct (bool_decide (name ∈ all) && bool_decide (name ∉ missing)). }
  simpl. rewrite IH. clear IH.
  destruct (decide (n = name)) as [->|Hne].
  - destruct (bool_decide (name ∈ all) && bool_decide (name ∉ missing)).
    + unfold emplace. destruct (m !! name) as [v|] eqn:Hm.
      * by rewrite Hm.
      * rewrite lookup_insert_eq. simpl. f_equal. lia.
    + by destruct (m !! name).
  - assert (Hsame : (if bool_decide (n ∈ all) && bool_decide (n ∉ missing)
                     then emplace n i m else m) !! name = m !! name).
    { destruct (bool_decide (n ∈ all) && bool_decide (n ∉ missing)); [|done].
      unfold emplace.
      destruct (m !! n); [done|]. by rewrite lookup_insert_ne. }
    rewrite Hsame. destruct (m !! name); [done|].
    destruct (bool_decide (name ∈ all) && bool_decide (name ∉ missing));
      [|done].
    destruct (first_index name rest) as [k|]; simpl; [|done].
    f_equal. lia.
Qed.

Lemma collect_column_ids_spec (m : gmap string Z) (names : list string)
    (ids : list Z) (missing_cols : list string) :
  collect_column_ids m names ids missing_cols
  = (ids ++ omap (λ n, m !! n) names,
     missing_cols ++ filter (λ n, m !! n = None) names).
Proof.
  revert ids missing_cols. induction names as [|n rest IH];
    intros ids missing_cols; simpl.
  { by rewrite !app_nil_r. }
  destruct (m !! n) as [id|] eqn:Hn; rewrite IH.
  - rewrite filter_cons_False by (by rewrite Hn).
    by rewrite <- app_assoc.
  - rewrite filter_cons_True by done. by rewrite <- app_assoc.
Qed.

Lemma omap_filter_length (m : gmap string Z) (names : list string) :
  (length (omap (λ n, m !! n) names)
   + length (filter (λ n, m !! n = None) names) = length names)%nat.
Proof.
  induction names as [|n rest IH]; [done|]. simpl.
  destruct (m !! n) as [id|] eqn:Hn; simpl.
  - rewrite filter_cons_False by (by rewrite Hn). f_equal. apply IH.
  - rewrite filter_cons_True by done. simpl. rewrite Nat.add_succ_r.
    f_equal. apply IH.
Qed.

Lemma init_read_columns_unfold (schema names : list string)
    (m : gmap string Z) :
  _init_read_columns schema names m [] []
  = (Status_OK,
     (λ id, mkParquetReadColumn id (schema_column_name schema id))
       <$> merge_sort Z.le (omap (λ n, m !! n) names),
     filter (λ n, m !! n = None) names).
Proof.
  unfold _init_read_columns. rewrite collect_column_ids_spec. simpl.
  by destruct (omap (λ n, m !! n) names).
Qed.

(** X12. Column selection by [init_reader] and [_init_read_columns], on a
    fresh reader.  The columns to read come out in ascending order of their
    physical index; each one is a column that was asked for, is not declared
    missing, and is read from the first schema column of its name.  A
    requested column is read exactly when the file has it and it is not
    declared missing, and is reported in [_missing_cols] otherwise, never
    both; nothing else is reported missing, and the two counts add up to the
    number of requested columns.  The status is always OK. *)
Theorem init_reader_column_selection (schema all missing : list string) :
  let _map_column := map_schema_columns all missing 0 schema ∅ in
  let out := _init_read_columns schema all _map_column [] [] in
  out.1.1 = Status_OK
  ∧ Sorted Z.le (_parquet_col_id <$> out.1.2)
  ∧ (∀ c, c ∈ out.1.2 →
       0 <= _parquet_col_id c
       ∧ first_index (_file_slot_name c) schema
         = Some (Z.to_nat (_parquet_col_id c))
       ∧ _file_slot_name c ∈ all ∧ _file_slot_name c ∉ missing)
  ∧ (∀ name, name ∈ all →
       ((∃ c, c ∈ out.1.2 ∧ _file_slot_name c = name)
        ↔ name ∈ schema ∧ name ∉ missing)
       ∧ (name ∈ out.2 ↔ ¬ (name ∈ schema ∧ name ∉ missing)))
  ∧ (∀ name, name ∈ out.2 → name ∈ all)
  ∧ (length out.1.2 + length out.2 = length all)%nat.
Proof.
  cbv zeta. rewrite init_read_columns_unfold. simpl.
  set (m := map_schema_columns all missing 0 schema ∅).
  assert (Hm : ∀ name id,
    m !! name = Some id
    ↔ name ∈ all ∧ (name ∉ missing)
      ∧ (∃ k, first_index name schema = Some k ∧ id = Z.of_nat k)).
  { intros name id. unfold m. rewrite map_schema_columns_lookup.
    rewrite lookup_empty.
    destruct (bool_decide (name ∈ all)) eqn:Ha;
      destruct (bool_decide (name ∉ missing)) eqn:Hmiss; simpl.
    - apply bool_decide_eq_true in Ha, Hmiss.
      destruct (first_index name schema) as [k|]; simpl.
      + split.
        * intros [= <-]. split; [done|]. split; [done|]. exists k.
          split; [done|lia].
        * intros (_ & _ & k' & [= <-] & ->). f_equal; lia.
      + split; [done|]. by intros (_ & _ & k' & ? & _).
    - apply bool_decide_eq_false in Hmiss. split; [done|]. tauto.
    - apply bool_decide_eq_false in Ha. split; [done|]. tauto.
    - apply bool_decide_eq_false in Ha. split; [done|]. tauto. }
  assert (HmNone : ∀ name, name ∈ all →
    m !! name = None ↔ ¬ (name ∈ schema ∧ name ∉ missing)).
  { intros name Hall. split.
    - intros Hnone [Hin Hnot].
      destruct (first_index name schema) as [k|] eqn:Hk.
      + assert (m !! name = Some (Z.of_nat k)) as Hsome.
        { apply Hm. split; [done|]. split; [done|]. by exists k. }
        congruence.
      + by apply first_index_None in Hk.
    - intros Hnot. destruct (m !! name) as [id|] eqn:Hid; [|done].
      apply Hm in Hid as (_ & Hmiss & k & Hk & _). destruct Hnot.
      split; [|done]. apply first_index_Some in Hk.
      by apply list_elem_of_lookup_2 in Hk. }
  assert (Hids : ∀ id, id ∈ merge_sort Z.le (omap (λ n, m !! n) all)
                       ↔ ∃ name, name ∈ all ∧ m !! name = Some id).
  { intros id. rewrite merge_sort_Permutation. apply list_elem_of_omap. }
  assert (Hread : ∀ c,
    c ∈ (λ id, mkParquetReadColumn id (schema_column_name schema id))
          <$> merge_sort Z.le (omap (λ n, m !! n) all)
    ↔ ∃ name k, name ∈ all ∧ (name ∉ missing)
                ∧ first_index name schema = Some k
                ∧ c = mkParquetReadColumn (Z.of_nat k) name).
  { intros c. rewrite list_elem_of_fmap. split.
    - intros (id & -> & Hin). apply Hids in Hin as (name & Hall & Hid).
      apply Hm in Hid as (_ & Hmiss & k & Hk & ->).
      exists name, k. split; [done|]. split; [done|]. split; [done|].
      unfold schema_column_name. rewrite Nat2Z.id.
      by rewrite (first_index_Some _ _ _ Hk).
    - intros (name & k & Hall & Hmiss & Hk & ->). exists (Z.of_nat k).
      split.
      + unfold schema_column_name. rewrite Nat2Z.id.
        by rewrite (first_index_Some _ _ _ Hk).
      + apply Hids. exists name. split; [done|]. apply Hm.
        split; [done|]. split; [done|]. by exists k. }
  split; [done|]. split.
  { assert (Hids' : ∀ l : list Z,
      _parquet_col_id
        <$> ((λ id, mkParquetReadColumn id (schema_column_name schema id))
               <$> l) = l).
    { induction l as [|x l IH]; [done|]. rewrite !fmap_cons. simpl.
      by rewrite IH. }
    rewrite Hids'. apply Sorted_merge_sort. apply _. }
  split.
  { intros c Hc. apply Hread in Hc as (name & k & Hall & Hmiss & Hk & ->).
    simpl. rewrite Nat2Z.id. split; [lia|done]. }
  split.
  { intros name Hall. split.
    - split.
      + intros (c & Hc & <-).
        apply Hread in Hc as (name & k & _ & Hmiss & Hk & ->). simpl.
        split; [|done]. apply first_index_Some in Hk.
        by apply list_elem_of_lookup_2 in Hk.
      + intros [Hin Hmiss].
        destruct (first_index name schema) as [k|] eqn:Hk.
        * exists (mkParquetReadColumn (Z.of_nat k) name). split; [|done].
          apply Hread. by exists name, k.
        * by apply first_index_None in Hk.
    - rewrite list_elem_of_filter. rewrite <- (HmNone name Hall). tauto. }
  split.
  { intros name Hin. by apply list_elem_of_filter in Hin as [_ ?]. }
  rewrite length_fmap.
  rewrite (Permutation_length (merge_sort_Permutation Z.le _)).
  apply omap_filter_length.
Qed.

End ColumnSelectionFacts.

Section RowGroupSelectionFacts.

Context {ColumnValueRange : Type}.
Variable filter_by_min_max : ColumnValueRange → string → string → string → bool.
Variables (range_start range_size : Z).
Variables (column_names : list string) (map_column : gmap string Z).
Variable value_ranges : option (gmap string ColumnValueRange).
Variable read_columns : list ParquetReadColumn.

Let loop :=
  init_row_groups_loop filter_by_min_max range_start range_size column_names
    map_column value_ranges read_columns.

Let keeps :=
  keeps_row_group filter_by_min_max range_start range_size column_names
    map_column value_ranges.

Lemma rows_of_app (l1 l2 : list RowGroupMeta) :
  rows_of (l1 ++ l2) = rows_of l1 + rows_of l2.
Proof. induction l1 as [|g l1 IH]; simpl; [done|]. rewrite IH. lia. Qed.

Lemma rows_of_take_S (groups : list RowGroupMeta) (k : nat) g :
  groups !! k = Some g →
  rows_of (take (S k) groups) = rows_of (take k groups) + group_num_rows g.
Proof.
  intros Hk. rewrite (take_S_r _ _ _ Hk), rows_of_app. simpl. lia.
Qed.

Lemma rows_of_take_mono (groups : list RowGroupMeta) (j k : nat) :
  Forall (λ g, 0 <= group_num_rows g) groups → (j <= k)%nat →
  rows_of (take j groups) <= rows_of (take k groups).
Proof.
  intros Hpos Hjk. induction Hjk as [|k Hjk IH]; [lia|].
  destruct (groups !! k) as [g|] eqn:Hk.
  - rewrite (rows_of_take_S _ _ _ Hk).
    rewrite Forall_forall in Hpos.
    specialize (Hpos g (list_elem_of_lookup_2 _ _ _ Hk)). simpl in Hpos. lia.
  - apply lookup_ge_None in Hk.
    rewrite (take_ge groups (S k)) by lia.
    rewrite (take_ge groups k) in IH by lia. done.
Qed.

(** What the loop has established when it has come to row group [k]. *)
Lemma init_row_groups_loop_spec (flt : bool) (all : list RowGroupMeta)
    (groups : list RowGroupMeta) (k : nat) (s : RowGroupSelection) :
  drop k all = groups →
  Forall (spans_row_group all) (selected_row_groups s) →
  Forall (λ idx, row_group_id idx < Z.of_nat k) (selected_row_groups s) →
  StronglySorted (λ a b, row_group_id a < row_group_id b)
    (selected_row_groups s) →
  (∀ j g, all !! j = Some g → (j < k)%nat →
     (∃ idx, idx ∈ selected_row_groups s ∧ row_group_id idx = Z.of_nat j)
     ↔ keeps flt g = true) →
  read_row_groups (group_statistics s)
  = Z.of_nat (length (selected_row_groups s)) →
  let out := loop flt (Z.of_nat k) (rows_of (take k all)) groups s in
  ok out.1 = true
  ∧ Forall (spans_row_group all) (selected_row_groups out.2)
  ∧ StronglySorted (λ a b, row_group_id a < row_group_id b)
      (selected_row_groups out.2)
  ∧ (∀ j g, all !! j = Some g →
       (∃ idx, idx ∈ selected_row_groups out.2 ∧ row_group_id idx = Z.of_nat j)
       ↔ keeps flt g = true)
  ∧ read_row_groups (group_statistics out.2)
    = Z.of_nat (length (selected_row_groups out.2)).
Proof.
  revert k s. induction groups as [|g rest IH];
    intros k s Hdrop Hspans Hbelow Hsorted Hkeeps Hcount.
  { simpl. split; [done|]. split; [done|]. split; [done|]. split; [|done].
    intros j g Hj. apply Hkeeps; [done|].
    apply lookup_lt_Some in Hj.
    assert (length (drop k all) = 0%nat) as Hlen by by rewrite Hdrop.
    rewrite length_drop in Hlen. lia. }
  assert (Hk : all !! k = Some g).
  { rewrite <- (Nat.add_0_r k), <- lookup_drop, Hdrop. done. }
  assert (Hrest : drop (S k) all = rest).
  { rewrite <- (drop_drop all 1 k) || idtac.
    apply (f_equal (drop 1)) in Hdrop. rewrite drop_drop in Hdrop.
    by replace (k + 1)%nat with (S k) in Hdrop by lia. }
  cbv zeta. unfold loop. cbn [init_row_groups_loop]. fold loop.
  replace (Z.of_nat k + 1) with (Z.of_nat (S k)) by lia.
  rewrite <- (rows_of_take_S all k g Hk).
  assert (Hkg : keeps flt g
                = negb (flt && _is_misaligned_range_group range_start
                                 range_size g)
                  && negb (if flt
                           then (_process_row_group_filter filter_by_min_max
                                   column_names map_column value_ranges g
                                   false).2
                           else false)).
  { unfold keeps, keeps_row_group. destruct flt; simpl; [done|done]. }
  assert (Hstep_skip : keeps flt g = false →
    ∀ s', selected_row_groups s' = selected_row_groups s →
          read_row_groups (group_statistics s')
          = read_row_groups (group_statistics s) →
    let out := loop flt (Z.of_nat (S k)) (rows_of (take (S k) all)) rest s' in
    ok out.1 = true
    ∧ Forall (spans_row_group all) (selected_row_groups out.2)
    ∧ StronglySorted (λ a b, row_group_id a < row_group_id b)
        (selected_row_groups out.2)
    ∧ (∀ j g, all !! j = Some g →
         (∃ idx, idx ∈ selected_row_groups out.2
                 ∧ row_group_id idx = Z.of_nat j)
         ↔ keeps flt g = true)
    ∧ read_row_groups (group_statistics out.2)
      = Z.of_nat (length (selected_row_groups out.2))).
  { intros Hno s' Hq Hc. apply IH; rewrite ?Hq, ?Hc; try done.
    - eapply Forall_impl; [exact Hbelow|]. simpl. intros. lia.
    - intros j g' Hj Hlt. destruct (decide (j = k)) as [->|Hne].
      + assert (g' = g) as -> by congruence. rewrite Hno. split; [|done].
        intros (idx & Hin & Hid). rewrite Forall_forall in Hbelow.
        specialize (Hbelow idx Hin). simpl in Hbelow. lia.
      + apply Hkeeps; [done|lia]. }
  destruct (flt && _is_misaligned_range_group range_start range_size g)
    eqn:Hmis.
  { apply Hstep_skip; [by rewrite Hkg | done | done]. }
  simpl in Hkg.
  set (filtered := if flt
                   then _process_row_group_filter filter_by_min_max
                          column_names map_column value_ranges g false
                   else (Status_OK, false)) in *.
  assert (Hfst : filtered.1 = Status_OK).
  { unfold filtered. destruct flt; [|done].
    unfold _process_row_group_filter, _process_column_stat_filter.
    destruct value_ranges as [vr|]; [|done]. by destruct (bool_decide _). }
  assert (Hsnd : filtered.2 = negb (keeps flt g)).
  { rewrite Hkg, negb_involutive. unfold filtered. by destruct flt. }
  destruct filtered as [filter_st filter_group].
  simpl in Hfst, Hsnd. subst filter_st filter_group. simpl.
  destruct (keeps flt g) eqn:Hyes; simpl.
  2:{ by apply Hstep_skip. }
  apply IH; simpl; try done.
  - apply Forall_app. split; [done|]. constructor; [|constructor].
    split; [simpl; lia|]. exists g. simpl. rewrite Nat2Z.id.
    split; [done|]. split; [done|]. by apply rows_of_take_S.
  - apply Forall_app. split.
    + eapply Forall_impl; [exact Hbelow|]. simpl. intros. lia.
    + constructor; [simpl; lia|constructor].
  - apply StronglySorted_app_2; [|done|repeat constructor].
    rewrite Forall_forall in Hbelow. intros a b Ha Hb.
    apply list_elem_of_singleton in Hb as ->. simpl. by apply Hbelow.
  - intros j g' Hj Hlt. destruct (decide (j = k)) as [->|Hne].
    + assert (g' = g) as -> by congruence. rewrite Hyes. split; [done|].
      intros _. eexists. split.
      * apply elem_of_app. right. by apply list_elem_of_singleton.
      * done.
    + rewrite <- (Hkeeps j g' Hj) by lia. split.
      * intros (idx & Hin & Hid).
        apply elem_of_app in Hin as [Hin|Hin]; [by exists idx|].
        apply list_elem_of_singleton in Hin as ->. simpl in Hid. lia.
      * intros (idx & Hin & Hid). exists idx. split; [|done].
        apply elem_of_app. by left.
  - rewrite Hcount, length_app. simpl. lia.
Qed.

(** X13. The queue [_init_row_groups] builds on a fresh reader.  Every
    entry names a row group the loop visited and spans exactly its rows,
    counted from the start of the file: its first row is the number of rows
    in all row groups before it, whether those were queued or skipped.  The
    entries are in ascending row-group order, and when no row count is
    negative their spans follow one another without overlap.  A visited row
    group is queued exactly when filtering is off, or it belongs to the scan
    range and its statistics do not rule it out.  The call returns OK exactly
    when the queue is not empty (otherwise end-of-file), and
    [read_row_groups] counts the queue. *)
Theorem init_row_groups_selection (flt : bool) (metadata : FileMetaData) :
  let out :=
    _init_row_groups filter_by_min_max range_start range_size column_names
      map_column value_ranges read_columns flt metadata empty_selection in
  let queue := selected_row_groups out.2 in
  let total_groups :=
    wrap32 (Z.of_nat (length (file_row_groups metadata))) in
  let visited := take (Z.to_nat total_groups) (file_row_groups metadata) in
  let nothing_to_read :=
    flt && ((total_groups =? 0) || (file_num_rows metadata =? 0)
            || (range_size <? 0)) in
  (ok out.1 = true ↔ queue ≠ [])
  ∧ (ok out.1 = false → out.1 = EndOfFile "No row group to read")
  ∧ Forall (spans_row_group visited) queue
  ∧ StronglySorted (λ a b, row_group_id a < row_group_id b) queue
  ∧ (Forall (λ g, 0 <= group_num_rows g) visited →
     StronglySorted (λ a b, group_last_row a <= group_first_row b) queue)
  ∧ (∀ j g, visited !! j = Some g →
       (∃ idx, idx ∈ queue ∧ row_group_id idx = Z.of_nat j)
       ↔ nothing_to_read = false ∧ keeps flt g = true)
  ∧ read_row_groups (group_statistics out.2) = Z.of_nat (length queue).
Proof.
  cbv zeta. unfold _init_row_groups.
  set (total_groups := wrap32 (Z.of_nat (length (file_row_groups metadata)))).
  set (visited := take (Z.to_nat total_groups) (file_row_groups metadata)).
  destruct (flt && ((total_groups =? 0) || (file_num_rows metadata =? 0)
                    || (range_size <? 0))) eqn:Hpre.
  { simpl. split; [done|]. split; [done|]. split; [constructor|].
    split; [constructor|]. split; [intros _; constructor|].
    split; [|done]. intros j g _. split; [|by intros [? _]].
    intros (idx & Hin & _). by apply elem_of_nil in Hin. }
  pose proof (init_row_groups_loop_spec flt visited visited 0 empty_selection)
    as Hloop.
  cbv zeta in Hloop.
  change (Z.of_nat 0) with 0 in Hloop.
  change (rows_of (take 0 visited)) with 0 in Hloop.
  fold loop.
  destruct (loop flt 0 0 visited empty_selection) as [st s'].
  destruct Hloop as (Hok & Hspans & Hsorted & Hkeeps & Hcount);
    [done | constructor | constructor | constructor
    | intros j g _ Hlt; lia | done |].
  simpl in *. rewrite Hok. simpl.
  assert (Hdisjoint :
    Forall (λ g, 0 <= group_num_rows g) visited →
    StronglySorted (λ a b, group_last_row a <= group_first_row b)
      (selected_row_groups s')).
  { intros Hpos. clear Hkeeps Hcount.
    induction Hsorted as [|a l Hl IH Hall]; [constructor|].
    apply Forall_cons in Hspans as [Ha Hspans].
    constructor; [by apply IH|].
    rewrite Forall_forall in Hall, Hspans. apply Forall_forall.
    intros b Hb. specialize (Hall b Hb). specialize (Hspans b Hb).
    destruct Ha as (Ha0 & ga & Hga & Hfa & Hla).
    destruct Hspans as (Hb0 & gb & Hgb & Hfb & Hlb).
    rewrite Hla, Hfa, Hfb, <- (rows_of_take_S _ _ _ Hga).
    apply rows_of_take_mono; [done|]. lia. }
  destruct (selected_row_groups s') as [|idx q] eqn:Hq; simpl; rewrite ?Hq.
  - split; [done|]. split; [done|]. split; [constructor|].
    split; [constructor|]. split; [intros _; constructor|].
    split; [|done]. intros j g Hj. rewrite <- (Hkeeps j g Hj). split.
    + intros (i & Hin & _). by apply elem_of_nil in Hin.
    + intros [_ (i & Hin & _)]. by apply elem_of_nil in Hin.
  - split; [done|]. split; [done|]. split; [done|]. split; [done|].
    split; [done|]. split; [|done]. intros j g Hj.
    rewrite <- (Hkeeps j g Hj). tauto.
Qed.

End RowGroupSelectionFacts.

Section ScanRangeFacts.

Lemma is_misaligned_range_group_spec (range_start range_size : Z)
    (row_group : RowGroupMeta) :
  _is_misaligned_range_group range_start range_size row_group = false
  ↔ range_start <= row_group_mid row_group < range_start + range_size.
Proof.
  unfold _is_misaligned_range_group.
  destruct (Z.geb_spec (row_group_mid row_group) range_start);
    destruct (Z.ltb_spec (row_group_mid row_group) (range_start + range_size));
    simpl; split; try done; lia.
Qed.

Lemma ranges_end_cons (start : Z) (r : Z * Z) (ranges : list (Z * Z)) :
  ranges_end start (r :: ranges) = ranges_end (start + r.2) ranges.
Proof. done. Qed.

Lemma contiguous_end_le (start : Z) (ranges : list (Z * Z)) :
  contiguous start ranges → start <= ranges_end start ranges.
Proof.
  revert start. induction ranges as [|[s z] rest IH]; intros start.
  { unfold ranges_end. simpl. lia. }
  cbn [contiguous]. intros (-> & Hz & Hrest). rewrite ranges_end_cons. simpl.
  specialize (IH _ Hrest). lia.
Qed.

Lemma contiguous_starts (start : Z) (ranges : list (Z * Z)) (j : nat)
    (r : Z * Z) :
  contiguous start ranges → ranges !! j = Some r → start <= r.1 ∧ 0 <= r.2.
Proof.
  revert start j. induction ranges as [|[s z] rest IH]; intros start j; [done|].
  simpl. intros (-> & Hz & Hrest). destruct j as [|j]; simpl.
  - intros [= <-]. simpl. lia.
  - intros Hj. destruct (IH _ _ Hrest Hj). lia.
Qed.

(** X14. A row group is read under exactly one of the scan ranges a file
    is split into.  For scan ranges that follow one another without a gap
    and a row group whose middle byte lies inside the stretch they cover,
    [_is_misaligned_range_group] answers false for one range and true for
    every other one. *)
Theorem misaligned_range_group_exclusive (row_group : RowGroupMeta)
    (start : Z) (ranges : list (Z * Z)) :
  contiguous start ranges →
  start <= row_group_mid row_group < ranges_end start ranges →
  ∃ i r,
    ranges !! i = Some r
    ∧ _is_misaligned_range_group r.1 r.2 row_group = false
    ∧ ∀ j r', ranges !! j = Some r' → j ≠ i →
              _is_misaligned_range_group r'.1 r'.2 row_group = true.
Proof.
  revert start. induction ranges as [|[s z] rest IH]; intros start.
  { unfold ranges_end. simpl. lia. }
  cbn [contiguous]. intros (<- & Hz & Hrest) Hmid.
  rewrite ranges_end_cons in Hmid. simpl in Hmid.
  destruct (decide (row_group_mid row_group < s + z)) as [Hin|Hout].
  - exists 0%nat, (s, z). split; [done|].
    split; [apply is_misaligned_range_group_spec; simpl; lia|].
    intros [|j] r' Hj Hne; [done|]. simpl in Hj.
    destruct (contiguous_starts _ _ _ _ Hrest Hj) as [Hs Hz'].
    destruct (_is_misaligned_range_group r'.1 r'.2 row_group) eqn:E; [done|].
    apply is_misaligned_range_group_spec in E. lia.
  - destruct (IH (s + z) Hrest) as (i & r & Hi & Hal & Huniq); [lia|].
    exists (S i), r. split; [done|]. split; [done|].
    intros [|j] r' Hj Hne; simpl in Hj.
    + injection Hj as <-. simpl.
      destruct (_is_misaligned_range_group s z row_group) eqn:E; [done|].
      apply is_misaligned_range_group_spec in E. lia.
    + apply (Huniq j r' Hj). congruence.
Qed.

End ScanRangeFacts.

Section PositionDeleteFacts.

Context {ColumnValueRange RowGroupReader Block ColumnStatistics : Type}.
Variable env : ParquetEnv ColumnValueRange RowGroupReader Block ColumnStatistics.

Lemma lower_bound_bounds (l : list Z) (from : nat) (v : Z) :
  (from <= length l)%nat →
  (from <= lower_bound l from v <= length l)%nat.
Proof.
  revert from. induction l as [|x rest IH]; intros from Hfrom; simpl in *.
  { lia. }
  destruct from as [|k].
  - destruct (x <? v); [|lia]. specialize (IH 0%nat ltac:(lia)). lia.
  - specialize (IH k ltac:(lia)). lia.
Qed.

Lemma lower_bound_below (l : list Z) (from : nat) (v : Z) (k : nat) (d : Z) :
  l !! k = Some d → (from <= k < lower_bound l from v)%nat → d < v.
Proof.
  revert from k. induction l as [|x rest IH]; intros from k; [done|]. simpl.
  destruct from as [|f].
  - destruct (Z.ltb_spec x v); [|lia].
    destruct k as [|k]; simpl.
    + by intros [= <-].
    + intros Hk Hlt. apply (IH 0%nat k Hk). lia.
  - destruct k as [|k]; simpl; [lia|].
    intros Hk Hlt. apply (IH f k Hk). lia.
Qed.

Lemma lower_bound_above (l : list Z) (from : nat) (v : Z) (k : nat) (d : Z) :
  Sorted Z.le l → l !! k = Some d → (lower_bound l from v <= k)%nat → v <= d.
Proof.
  intros Hsorted. apply Sorted_StronglySorted in Hsorted; [|apply _].
  revert from k. induction Hsorted as [|x rest Hrest IH Hall];
    intros from k; [done|]. simpl.
  destruct from as [|f].
  - destruct (Z.ltb_spec x v).
    + destruct k as [|k]; simpl; [lia|].
      intros Hk Hle. apply (IH 0%nat k Hk). lia.
    + destruct k as [|k]; simpl.
      * intros [= <-] _. lia.
      * intros Hk _. rewrite Forall_forall in Hall.
        specialize (Hall d (list_elem_of_lookup_2 _ _ _ Hk)). lia.
  - destruct k as [|k]; simpl; [lia|].
    intros Hk Hle. apply (IH f k Hk). lia.
Qed.

(** X15. Position deletes handed to a row group.  With the delete rows
    sorted and the reader's delete index inside the vector,
    [_get_position_delete_ctx] hands the row-group reader an index window
    [start, end) that does not start before the delete index, and a delete
    row at or after the delete index lies in the window exactly when it
    falls into the row group's span [first_row, last_row).  The delete index
    moves to the end of the window.  If every delete row before the index was
    below [first_row] (the row groups come in ascending order), the window
    holds exactly the deletes of this row group, and every delete row before
    the new index is below [last_row]. *)
Theorem get_position_delete_ctx_window (row_group : RowGroup)
    (row_group_index : RowGroupIndex)
    (r : ParquetReader ColumnValueRange RowGroupReader ColumnStatistics)
    (delete_rows : list Z) :
  _delete_rows r = Some delete_rows →
  Sorted Z.le delete_rows →
  0 <= _delete_rows_index r <= Z.of_nat (length delete_rows) →
  group_first_row row_group_index <= group_last_row row_group_index →
  ∃ start_index end_index : nat,
    _get_position_delete_ctx row_group row_group_index r
    = (PositionDelete delete_rows (num_rows row_group)
         (group_first_row row_group_index) (Z.of_nat start_index)
         (Z.of_nat end_index),
       set_delete_rows_index (Z.of_nat end_index) r)
    ∧ (Z.to_nat (_delete_rows_index r) <= start_index <= end_index)%nat
    ∧ (end_index <= length delete_rows)%nat
    ∧ (∀ k d, delete_rows !! k = Some d →
         (Z.to_nat (_delete_rows_index r) <= k)%nat →
         (start_index <= k < end_index)%nat
         ↔ group_first_row row_group_index <= d
           < group_last_row row_group_index)
    ∧ ((∀ k d, delete_rows !! k = Some d →
          (k < Z.to_nat (_delete_rows_index r))%nat →
          d < group_first_row row_group_index) →
       (∀ k d, delete_rows !! k = Some d →
          (start_index <= k < end_index)%nat
          ↔ group_first_row row_group_index <= d
            < group_last_row row_group_index)
       ∧ (∀ k d, delete_rows !! k = Some d → (k < end_index)%nat →
            d < group_last_row row_group_index)).
Proof.
  intros Hdel Hsorted Hindex Hspan. unfold _get_position_delete_ctx.
  rewrite Hdel.
  set (from := Z.to_nat (_delete_rows_index r)).
  set (first := group_first_row row_group_index) in *.
  set (last := group_last_row row_group_index) in *.
  set (start_index := lower_bound delete_rows from first).
  set (end_index := lower_bound delete_rows start_index last).
  assert (Hfrom : (from <= length delete_rows)%nat) by (unfold from; lia).
  pose proof (lower_bound_bounds delete_rows from first Hfrom) as Hstart.
  fold start_index in Hstart.
  pose proof (lower_bound_bounds delete_rows start_index last
                ltac:(lia)) as Hend.
  fold end_index in Hend.
  assert (Hwindow : ∀ k d, delete_rows !! k = Some d → (from <= k)%nat →
    (start_index <= k < end_index)%nat ↔ first <= d < last).
  { intros k d Hk Hge. split.
    - intros [Hs He]. split.
      + by apply (lower_bound_above delete_rows from first k d).
      + apply (lower_bound_below delete_rows start_index last k d Hk). lia.
    - intros [Hf Hl]. split.
      + destruct (decide (start_index <= k)%nat) as [|Hlt]; [done|].
        assert (d < first); [|lia].
        apply (lower_bound_below delete_rows from first k d Hk).
        fold start_index. lia.
      + destruct (decide (k < end_index)%nat) as [|Hge']; [done|].
        assert (last <= d); [|lia].
        apply (lower_bound_above delete_rows start_index last k d Hsorted Hk).
        fold end_index. lia. }
  exists start_index, end_index. split; [done|]. split; [lia|].
  split; [lia|]. split; [done|].
  intros Hbefore. split.
  - intros k d Hk. destruct (decide (from <= k)%nat) as [Hge|Hlt].
    + by apply Hwindow.
    + specialize (Hbefore k d Hk ltac:(lia)). split; [lia|lia].
  - intros k d Hk Hlt. destruct (decide (k < from)%nat) as [Hb|Hge].
    + specialize (Hbefore k d Hk Hb). lia.
    + destruct (decide (start_index <= k)%nat) as [Hs|Hs].
      * apply (Hwindow k d Hk ltac:(lia)). lia.
      * assert (d < first); [|lia].
        apply (lower_bound_below delete_rows from first k d Hk).
        fold start_index. lia.
Qed.

(** X16. [get_next_block] never adds to the queue of pending row groups
    and takes at most its front: the queue it leaves is the queue it found
    or that queue without its first entry.  While a row-group reader is at
    hand and not exhausted the queue is left alone. *)
Theorem get_next_block_consumes_front
    (r : ParquetReader ColumnValueRange RowGroupReader ColumnStatistics)
    (block : Block) (rows : Z) (eof : bool) :
  let r' := (get_next_block env r block rows eof).1.1.1.2 in
  (_read_row_groups r' = _read_row_groups r
   ∨ ∃ row_group_index,
       _read_row_groups r = row_group_index :: _read_row_groups r')
  ∧ (is_Some (_current_group_reader r) → _row_group_eof r = false →
     _read_row_groups r' = _read_row_groups r).
Proof.
  cbv zeta.
  assert (Hnext : ∀ r0 : ParquetReader ColumnValueRange RowGroupReader
                           ColumnStatistics,
    _read_row_groups (_next_row_group_reader env r0).2 = _read_row_groups r0
    ∨ ∃ row_group_index,
        _read_row_groups r0
        = row_group_index :: _read_row_groups (_next_row_group_reader env r0).2).
  { intros r0. unfold _next_row_group_reader.
    destruct (_read_row_groups r0) as [|idx rest] eqn:Hq; [by left|].
    right. exists idx. f_equal.
    destruct (_process_page_index _ _ _ _) as [[pst cands] r2] eqn:Hpp.
    assert (Hq2 : _read_row_groups r2 = rest).
    { revert Hpp. unfold _process_page_index.
      destruct (gather_skipped_row_ranges _ _ _) as [[gst sk] offs].
      destruct (negb (ok gst)); [by intros [= _ _ <-]|].
      destruct sk; [by intros [= _ _ <-]|].
      destruct (candidates_of_skipped _ _ _). by intros [= _ _ <-]. }
    destruct (negb (ok pst)); [done|].
    destruct (_get_position_delete_ctx _ _ _) as [ctx r3] eqn:Hpd.
    by destruct (RowGroupReader_init _ _ _ _) as [init_st reader']. }
  assert (Hbatch : ∀ r1 : ParquetReader ColumnValueRange RowGroupReader
                            ColumnStatistics,
    _read_row_groups
      (match _current_group_reader r1 with
       | None => (null_group_reader, r1, block, rows, eof)
       | Some reader =>
         let '(batch_st, reader', block', rows', group_eof) :=
           next_batch env reader block (_batch_size r1) rows
             (_row_group_eof r1) in
         let r2 :=
           set_group_reader (Some reader') group_eof (_read_row_groups r1) r1 in
         if negb (ok batch_st) then
           (InternalError
              (String.append "Read parquet file "
                 (String.append (_scan_range_path r2)
                    (String.append " failed, reason = "
                       (to_string env batch_st)))),
            r2, block', rows', eof)
         else if group_eof then
           let r3 :=
             set_pruning (_col_offsets r2)
               (mkStatistics (read_rows (_statistics r2))
                  (filtered_page_rows (_statistics r2))
                  (lazy_read_filtered_rows (_statistics r2)
                   + reader_lazy_read_filtered_rows env reader'))
               (set_column_statistics
                  (_column_statistics r2 ++ [statistics env reader']) r2) in
           (Status_OK, r3, block', rows',
            Z.of_nat (length (_read_row_groups r3)) =? 0)
         else (Status_OK, r2, block', rows', eof)
       end).1.1.1.2 = _read_row_groups r1).
  { intros r1. destruct (_current_group_reader r1) as [reader|]; [|done].
    destruct (next_batch env reader block (_batch_size r1) rows
                (_row_group_eof r1)) as [[[[bst rd] bl] rw] ge].
    destruct (negb (ok bst)); [done|]. by destruct ge. }
  unfold get_next_block. split.
  - destruct (bool_decide (_current_group_reader r = None) || _row_group_eof r).
    + destruct (0 <? Z.of_nat (length (_read_row_groups r))); [|by left].
      specialize (Hnext r).
      destruct (_next_row_group_reader env r) as [st r1]. simpl in Hnext.
      destruct (negb (ok st)); [done|]. by rewrite Hbatch.
    + left. apply Hbatch.
  - intros [reader Hreader] Heof.
    destruct (bool_decide (_current_group_reader r = None) || _row_group_eof r)
      eqn:Hcond.
    + exfalso. apply orb_true_iff in Hcond as [Hnone|Hcond]; [|congruence].
      apply bool_decide_eq_true in Hnone. congruence.
    + apply Hbatch.
Qed.

End PositionDeleteFacts.

(** * Further properties of the CSV reader *)

Section JoinFacts.

Lemma join_values_snoc (separator : list Ascii.ascii)
    (texts : list (list Ascii.ascii)) (t : list Ascii.ascii) :
  join_values separator (texts ++ [t])
  = concat ((λ x, x ++ separator) <$> texts) ++ t.
Proof.
  induction texts as [|x texts IH]; [done|].
  change ((x :: texts) ++ [t]) with (x :: (texts ++ [t])).
  assert (Hstep : join_values separator (x :: (texts ++ [t]))
                  = x ++ separator ++ join_values separator (texts ++ [t])).
  { simpl. by destruct (texts ++ [t]) eqn:E; [destruct texts|]. }
  rewrite Hstep, IH, fmap_cons. simpl. by rewrite <- !app_assoc.
Qed.

Lemma wrap64_small (z : Z) : 0 <= z < 2 ^ 64 → wrap64 z = z.
Proof. intros Hz. unfold wrap64. by apply Z.mod_small. Qed.

Lemma lookup_nth_in_bounds {A} (l : list A) (i : nat) (d : A) :
  (i < length l)%nat → l !! i = Some (nth i l d).
Proof.
  intros Hi. destruct (lookup_lt_is_Some_2 l i Hi) as [x Hx].
  rewrite Hx. f_equal. symmetry. by apply nth_lookup_Some.
Qed.

Lemma slice_text_field (line pre rest : list Ascii.ascii) (start_field : nat) :
  line = pre ++ rest → (start_field <= length pre)%nat →
  CsvSplit.slice_text line
    (LineSlice (Z.of_nat start_field) (Z.of_nat (length pre - start_field)))
  = drop start_field pre.
Proof.
  intros -> Hle. simpl. rewrite !Nat2Z.id.
  rewrite drop_app_le by done.
  rewrite take_app_le by (rewrite length_drop; lia).
  apply take_ge. rewrite length_drop. lia.
Qed.

End JoinFacts.

Section SingleCharFacts.

Import CsvSplit.

Variable stray : Z → Ascii.ascii.
Variable line : list Ascii.ascii.
Variable p : CsvTextParams.

Lemma single_char_loop_length (separator : Ascii.ascii)
    (rest : list Ascii.ascii) (cur_pos start_field : Z) (values : list Slice) :
  length (single_char_loop stray line p separator rest cur_pos start_field
            values).2
  = (length values + count_byte separator rest)%nat.
Proof.
  revert cur_pos start_field values.
  induction rest as [|c rest IH]; intros cur_pos start_field values.
  { simpl. unfold count_byte. simpl. lia. }
  simpl. unfold count_byte in *.
  destruct (Ascii.eqb_spec c separator) as [->|Hne].
  - rewrite IH, length_app, filter_cons_True by done. simpl. lia.
  - rewrite IH, filter_cons_False by done. done.
Qed.

Hypothesis Hplain_spaces : trim_tailing_spaces p = false.
Hypothesis Hplain_quotes : _trim_double_quotes p = false.
Hypothesis Hsize : Z.of_nat (length line) < 2 ^ 64.

Lemma single_char_value_plain (start_field cur_pos : nat) :
  (start_field <= cur_pos <= length line)%nat →
  single_char_value stray line p (Z.of_nat start_field) (Z.of_nat cur_pos)
  = LineSlice (Z.of_nat start_field) (Z.of_nat (cur_pos - start_field)).
Proof.
  intros Hle. unfold single_char_value.
  rewrite Hplain_spaces, Hplain_quotes. simpl.
  rewrite wrap64_small by lia. f_equal. lia.
Qed.

(** What the values stored so far say about the line up to [start_field]. *)
Let laid_out (separator : Ascii.ascii) (values : list Slice)
    (start_field : nat) : Prop :=
  Forall (in_line line) values
  ∧ take start_field line
    = concat ((λ v, slice_text line v ++ [separator]) <$> values)
  ∧ Forall (λ v, separator ∉ slice_text line v) values.

Lemma single_char_loop_plain (separator : Ascii.ascii)
    (rest pre : list Ascii.ascii) (start_field : nat) (values : list Slice) :
  line = pre ++ rest → (start_field <= length pre)%nat →
  (separator ∉ drop start_field pre) →
  laid_out separator values start_field →
  ∃ start_field' values',
    single_char_loop stray line p separator rest (Z.of_nat (length pre))
      (Z.of_nat start_field) values
    = (Z.of_nat (length line), Z.of_nat start_field', values')
    ∧ (start_field' <= length line)%nat
    ∧ (separator ∉ drop start_field' line)
    ∧ laid_out separator values' start_field'.
Proof.
  revert pre start_field values.
  induction rest as [|c rest IH]; intros pre start_field values Hline Hle Hclean
    Hlaid.
  { rewrite app_nil_r in Hline. subst pre. simpl.
    by exists start_field, values. }
  assert (Hline' : line = (pre ++ [c]) ++ rest).
  { by rewrite <- app_assoc. }
  assert (Hlen' : Z.of_nat (length pre) + 1 = Z.of_nat (length (pre ++ [c]))).
  { rewrite length_app. simpl. lia. }
  assert (Hpre_le : (length pre <= length line)%nat).
  { rewrite Hline, length_app. lia. }
  simpl. rewrite Hlen'.
  destruct (Ascii.eqb_spec c separator) as [->|Hne].
  - rewrite single_char_value_plain by lia.
    replace (Z.of_nat (length (pre ++ [separator])))
      with (Z.of_nat (length (pre ++ [separator]))) by done.
    apply (IH (pre ++ [separator]) (length (pre ++ [separator]))); try done.
    + rewrite drop_all. apply not_elem_of_nil.
    + destruct Hlaid as (Hin & Htake & Hno).
      pose proof (slice_text_field line pre (separator :: rest) start_field Hline
                    Hle)
        as Htext.
      split; [|split].
      * apply Forall_app. split; [done|]. constructor; [|constructor].
        simpl. lia.
      * rewrite fmap_app, concat_app, fmap_cons, fmap_nil.
        cbn [concat]. rewrite app_nil_r.
        rewrite <- Htake, Htext.
        rewrite Hline' at 1. rewrite take_app_length.
        rewrite Hline, take_app_le by done.
        by rewrite app_assoc, take_drop.
      * apply Forall_app. split; [done|]. constructor; [|constructor].
        by rewrite Htext.
  - apply (IH (pre ++ [c]) start_field); try done.
    + rewrite length_app. simpl. lia.
    + rewrite drop_app_le by done. rewrite elem_of_app.
      intros [Hin|Hin]; [done|]. apply list_elem_of_singleton in Hin.
      congruence.
Qed.

End SingleCharFacts.

Section SplitLineFacts.

Import CsvSplit.

Variable stray : Z → Ascii.ascii.
Variable line : list Ascii.ascii.
Variable p : CsvTextParams.

Let size := length line.
Let separator := _value_separator p.

(** The loop of [_split_line] comes to its end: two iterations for every
    byte still to be matched are enough. *)
Lemma split_line_loop_ends (fuel : nat) (start : Z) (curpos p1 : nat)
    (values : list Slice) :
  (curpos + p1 <= size)%nat →
  (2 * (size - (curpos + p1)) + (if decide (p1 = 0%nat) then 0 else 1)
   < fuel)%nat →
  ∃ start' values',
    split_line_loop stray line p fuel start (Z.of_nat curpos) (Z.of_nat p1)
      values
    = Some (start', Z.of_nat size, values')
    ∧ (length values <= length values')%nat.
Proof.
  revert start curpos p1 values.
  induction fuel as [|fuel IH]; intros start curpos p1 values Hin Hfuel;
    [lia|].
  cbn [split_line_loop]. fold size.
  destruct (Z.ltb_spec (Z.of_nat curpos) (Z.of_nat size)) as [Hlt|Hge].
  2:{ assert (curpos = size) as -> by lia. by exists start, values. }
  destruct ((Z.of_nat curpos + Z.of_nat p1 =? Z.of_nat size)
            || negb (Ascii.eqb (value stray line
                                  (Z.of_nat curpos + Z.of_nat p1))
                       (nth (Z.to_nat (Z.of_nat p1)) (_value_separator p)
                          Ascii.zero))) eqn:Hmis.
  - replace (Z.of_nat curpos + (if Z.of_nat p1 =? 0 then 1 else Z.of_nat p1))
      with (Z.of_nat (curpos + (if decide (p1 = 0%nat) then 1 else p1)))
      by (destruct (decide (p1 = 0%nat)) as [->|Hne]; [simpl; lia|];
          destruct (Z.eqb_spec (Z.of_nat p1) 0); lia).
    change 0 with (Z.of_nat 0).
    apply IH.
    + destruct (decide (p1 = 0%nat)); lia.
    + destruct (decide (p1 = 0%nat)); simpl; lia.
  - apply orb_false_iff in Hmis as [Hnot_end _].
    apply Z.eqb_neq in Hnot_end.
    destruct (Z.of_nat p1 + 1 =? Z.of_nat (length (_value_separator p)))
      eqn:Hfull.
    + apply Z.eqb_eq in Hfull. rewrite <- Hfull.
      replace (Z.of_nat curpos + (Z.of_nat p1 + 1))
        with (Z.of_nat (curpos + p1 + 1)) by lia.
      change 0 with (Z.of_nat 0).
      destruct (IH (Z.of_nat (curpos + p1 + 1)) (curpos + p1 + 1)%nat 0%nat
                  (values ++ [multi_char_value stray line p start
                                (Z.of_nat curpos)]))
        as (start' & values' & Hrun & Hlen); [lia|simpl; lia|].
      exists start', values'. split; [done|].
      rewrite length_app in Hlen. simpl in Hlen. lia.
    + replace (Z.of_nat p1 + 1) with (Z.of_nat (p1 + 1)) by lia.
      apply IH; [lia|].
      destruct (decide (p1 + 1 = 0)%nat); [lia|].
      destruct (decide (p1 = 0%nat)); lia.
Qed.

Hypothesis Hplain_spaces : trim_tailing_spaces p = false.
Hypothesis Hplain_quotes : _trim_double_quotes p = false.
Hypothesis Hsize : Z.of_nat (length line) < 2 ^ 64.

Lemma multi_char_value_plain (start curpos : nat) :
  (start <= curpos <= length line)%nat →
  multi_char_value stray line p (Z.of_nat start) (Z.of_nat curpos)
  = LineSlice (Z.of_nat start) (Z.of_nat (curpos - start)).
Proof.
  intros Hle. unfold multi_char_value.
  rewrite Hplain_spaces, Hplain_quotes. simpl.
  rewrite wrap64_small by lia. f_equal. lia.
Qed.

Let laid_out (values : list Slice) (start : nat) : Prop :=
  Forall (in_line line) values
  ∧ take start line
    = concat ((λ v, slice_text line v ++ separator) <$> values).

Lemma split_line_loop_plain (fuel : nat) (start curpos p1 : nat)
    (values : list Slice) :
  (start <= curpos)%nat → (curpos + p1 <= size)%nat →
  (p1 < length separator)%nat →
  take p1 (drop curpos line) = take p1 separator →
  laid_out values start →
  (2 * (size - (curpos + p1)) + (if decide (p1 = 0%nat) then 0 else 1)
   < fuel)%nat →
  ∃ start' values',
    split_line_loop stray line p fuel (Z.of_nat start) (Z.of_nat curpos)
      (Z.of_nat p1) values
    = Some (Z.of_nat start', Z.of_nat size, values')
    ∧ (start' <= size)%nat
    ∧ laid_out values' start'.
Proof.
  revert start curpos p1 values.
  induction fuel as [|fuel IH];
    intros start curpos p1 values Hstart Hin Hp1 Hmatch Hlaid Hfuel; [lia|].
  cbn [split_line_loop]. fold size. fold separator.
  destruct (Z.ltb_spec (Z.of_nat curpos) (Z.of_nat size)) as [Hlt|Hge].
  2:{ assert (curpos = size) as -> by lia. exists start, values.
      split; [done|]. split; [lia|done]. }
  rewrite Nat2Z.id.
  destruct ((Z.of_nat curpos + Z.of_nat p1 =? Z.of_nat size)
            || negb (Ascii.eqb (value stray line
                                  (Z.of_nat curpos + Z.of_nat p1))
                       (nth p1 separator Ascii.zero))) eqn:Hmis.
  - replace (Z.of_nat curpos + (if Z.of_nat p1 =? 0 then 1 else Z.of_nat p1))
      with (Z.of_nat (curpos + (if decide (p1 = 0%nat) then 1 else p1)))
      by (destruct (decide (p1 = 0%nat)) as [->|Hne]; [simpl; lia|];
          destruct (Z.eqb_spec (Z.of_nat p1) 0); lia).
    change 0 with (Z.of_nat 0).
    apply IH; try done.
    + destruct (decide (p1 = 0%nat)); lia.
    + destruct (decide (p1 = 0%nat)); lia.
    + lia.
    + destruct (decide (p1 = 0%nat)); simpl; lia.
  - apply orb_false_iff in Hmis as [Hnot_end Heq].
    apply Z.eqb_neq in Hnot_end. apply negb_false_iff in Heq.
    apply Ascii.eqb_eq in Heq.
    assert (Hbyte : line !! (curpos + p1)%nat = Some (nth p1 separator Ascii.zero)).
    { revert Heq. unfold value, byte_at.
      destruct (Z.leb_spec 0 (Z.of_nat curpos + Z.of_nat p1)); [|lia].
      destruct (Z.ltb_spec (Z.of_nat curpos + Z.of_nat p1)
                  (Z.of_nat (length line))); [|unfold size in *; lia].
      simpl. intros <-.
      replace (Z.to_nat (Z.of_nat curpos + Z.of_nat p1))
        with (curpos + p1)%nat by lia.
      apply lookup_nth_in_bounds. unfold size in *. lia. }
    assert (Hsep : separator !! p1 = Some (nth p1 separator Ascii.zero)).
    { by apply lookup_nth_in_bounds. }
    assert (Hmatch' : take (S p1) (drop curpos line) = take (S p1) separator).
    { rewrite (take_S_r _ _ (nth p1 separator Ascii.zero))
        by (by rewrite lookup_drop).
      rewrite (take_S_r separator _ _ Hsep). by rewrite Hmatch. }
    destruct (Z.of_nat p1 + 1 =? Z.of_nat (length separator)) eqn:Hfull.
    + apply Z.eqb_eq in Hfull.
      replace (Z.of_nat curpos + Z.of_nat (length separator))
        with (Z.of_nat (curpos + length separator)) by lia.
      change 0 with (Z.of_nat 0).
      rewrite multi_char_value_plain by (unfold size in *; lia).
      assert (Hwhole : take (length separator) (drop curpos line) = separator).
      { replace (length separator) with (S p1) by lia. rewrite Hmatch'.
        apply take_ge. lia. }
      apply IH; try done.
      * lia.
      * lia.
      * destruct Hlaid as [Hinl Htake]. split.
        -- apply Forall_app. split; [done|]. constructor; [|constructor].
           simpl. unfold size in *. lia.
        -- rewrite fmap_app, concat_app. simpl. rewrite app_nil_r.
           rewrite <- Htake. rewrite !Nat2Z.id.
           rewrite app_assoc, take_take_drop.
           replace (start + (curpos - start))%nat with curpos by lia.
           transitivity (take curpos line
                         ++ take (length separator) (drop curpos line));
             [by rewrite take_take_drop | by rewrite Hwhole].
      * simpl. lia.
    + apply Z.eqb_neq in Hfull.
      replace (Z.of_nat p1 + 1) with (Z.of_nat (S p1)) by lia.
      apply IH; try done; try lia.
      destruct (decide (p1 = 0%nat)); simpl; lia.
Qed.

End SplitLineFacts.

Section CsvSplitTheorems.

Import CsvSplit.

(** X17. Splitting on a one-byte separator.  Whatever the trimming
    options, a line yields one value more than it has separator bytes, so at
    least one.  Without trimming, the values lie inside the line, no value
    contains the separator, and joining them with the separator gives the
    line back. *)
Theorem split_single_char_values (stray : Z → Ascii.ascii)
    (line : list Ascii.ascii) (p : CsvTextParams) (fmt : TFileFormatType)
    (proto_row : list (list Ascii.ascii)) :
  fmt ≠ FORMAT_PROTO →
  let separator := nth 0 (_value_separator p) Ascii.zero in
  let values :=
    _split_line_for_single_char_delimiter stray line p fmt proto_row in
  length values = S (count_byte separator line)
  ∧ (trim_tailing_spaces p = false → _trim_double_quotes p = false →
     Z.of_nat (length line) < 2 ^ 64 →
     Forall (in_line line) values
     ∧ Forall (λ v, separator ∉ slice_text line v) values
     ∧ join_values [separator] (slice_text line <$> values) = line).
Proof.
  intros Hfmt separator values.
  assert (Hvalues : values
    = (let '(cur_pos, start_field, split_values) :=
         single_char_loop stray line p separator line 0 0 [] in
       split_values ++ [single_char_value stray line p start_field cur_pos])).
  { unfold values, _split_line_for_single_char_delimiter. by destruct fmt. }
  split.
  - rewrite Hvalues.
    pose proof (single_char_loop_length stray line p separator line 0 0 [])
      as Hlen.
    destruct (single_char_loop stray line p separator line 0 0 [])
      as [[cur_pos start_field] split_values].
    simpl in Hlen. rewrite length_app, Hlen. simpl. lia.
  - intros Hspaces Hquotes Hsize. rewrite Hvalues.
    destruct (single_char_loop_plain stray line p Hspaces Hquotes Hsize
                separator line [] 0 [])
      as (start_field & split_values & Hrun & Hle & Hclean & Hin & Htake & Hno);
      [done | simpl; lia | apply not_elem_of_nil | |].
    { split; [constructor|]. split; [done|constructor]. }
    change (Z.of_nat (length [])) with 0 in Hrun.
    change (Z.of_nat 0) with 0 in Hrun. rewrite Hrun.
    rewrite (single_char_value_plain stray line p Hspaces Hquotes Hsize)
      by lia.
    assert (Hlast : slice_text line
                      (LineSlice (Z.of_nat start_field)
                         (Z.of_nat (length line - start_field)))
                    = drop start_field line).
    { rewrite (slice_text_field line line [] start_field); [done| |done].
      by rewrite app_nil_r. }
    split; [|split].
    + apply Forall_app. split; [done|]. constructor; [|constructor].
      simpl. lia.
    + apply Forall_app. split; [done|]. constructor; [|constructor].
      by rewrite Hlast.
    + rewrite fmap_app, fmap_cons, fmap_nil, join_values_snoc.
      rewrite <- list_fmap_compose.
      replace (((λ x, x ++ [separator]) ∘ slice_text line) <$> split_values)
        with ((λ v, slice_text line v ++ [separator]) <$> split_values)
        by done.
      rewrite <- Htake, Hlast. apply take_drop.
Qed.

(** X18. Splitting on a separator of several bytes.  The scan always comes
    to its end, so [_split_line] yields its values, at least one, whatever
    the options.  Without trimming and for a separator that is not empty,
    the values lie inside the line and joining them with the separator gives
    the line back. *)
Theorem split_line_round_trip (stray : Z → Ascii.ascii)
    (line : list Ascii.ascii) (p : CsvTextParams) (fmt : TFileFormatType)
    (proto_row : list (list Ascii.ascii)) :
  fmt ≠ FORMAT_PROTO →
  ∃ values,
    _split_line stray line p fmt proto_row = Some values
    ∧ (1 <= length values)%nat
    ∧ (trim_tailing_spaces p = false → _trim_double_quotes p = false →
       Z.of_nat (length line) < 2 ^ 64 → _value_separator p ≠ [] →
       Forall (in_line line) values
       ∧ join_values (_value_separator p) (slice_text line <$> values) = line).
Proof.
  intros Hfmt.
  assert (Hsplit : _split_line stray line p fmt proto_row
    = match split_line_loop stray line p (2 * length line + 2) 0 0 0 [] with
      | Some (start, curpos, split_values) =>
        Some (split_values ++ [multi_char_value stray line p start curpos])
      | None => None
      end).
  { unfold _split_line. by destruct fmt. }
  rewrite Hsplit.
  destruct (split_line_loop_ends stray line p (2 * length line + 2) 0 0 0 [])
    as (start & split_values & Hrun & _); [lia | simpl; lia |].
  change (Z.of_nat 0) with 0 in Hrun. rewrite Hrun.
  eexists. split; [done|]. split; [rewrite length_app; simpl; lia|].
  intros Hspaces Hquotes Hsize Hsep.
  destruct (split_line_loop_plain stray line p Hspaces Hquotes Hsize
              (2 * length line + 2) 0 0 0 [])
    as (start' & values' & Hrun' & Hle & Hin & Htake);
    [lia | lia | destruct (_value_separator p); [done|simpl; lia] | done
    | split; [constructor|done] | simpl; lia |].
  change (Z.of_nat 0) with 0 in Hrun'. rewrite Hrun in Hrun'.
  injection Hrun' as -> ->.
  rewrite (multi_char_value_plain stray line p Hspaces Hquotes Hsize) by lia.
  assert (Hlast : slice_text line
                    (LineSlice (Z.of_nat start')
                       (Z.of_nat (length line - start')))
                  = drop start' line).
  { rewrite (slice_text_field line line [] start'); [done| |done].
    by rewrite app_nil_r. }
  split.
  - apply Forall_app. split; [done|]. constructor; [|constructor].
    simpl. lia.
  - rewrite fmap_app, fmap_cons, fmap_nil.
    rewrite join_values_snoc, <- list_fmap_compose.
    replace (((λ x, x ++ _value_separator p) ∘ slice_text line) <$> values')
      with ((λ v, slice_text line v ++ _value_separator p) <$> values')
      by done.
    rewrite <- Htake, Hlast. apply take_drop.
Qed.

End CsvSplitTheorems.

Section SplitSafetyFacts.

Import CsvSplit.

Variable line : list Ascii.ascii.
Variable p : CsvTextParams.

Let size := Z.of_nat (length line).

Lemma byte_at_in_line (stray1 stray2 : Z → Ascii.ascii) (i : Z) :
  0 <= i < size → byte_at stray1 line i = byte_at stray2 line i.
Proof.
  intros Hi. unfold byte_at. fold size.
  destruct (Z.leb_spec 0 i); [|lia]. by destruct (Z.ltb_spec i size); [|lia].
Qed.

Lemma trim_spaces_loop_bounds (stray : Z → Ascii.ascii) (start : Z) (k : nat) :
  start <= trim_spaces_loop stray line start k <= start + Z.of_nat k.
Proof.
  induction k as [|k IH]; simpl; [lia|].
  destruct (Ascii.eqb _ _); lia.
Qed.

Lemma trim_spaces_bounds (stray : Z → Ascii.ascii) (start non_space : Z) :
  start <= non_space →
  start <= trim_spaces stray line start non_space <= non_space.
Proof.
  intros Hle. unfold trim_spaces.
  destruct (Z.gtb_spec non_space start); [|lia].
  pose proof (trim_spaces_loop_bounds stray start
                (Z.to_nat (non_space - start))). lia.
Qed.

Lemma trim_spaces_loop_in_line (stray1 stray2 : Z → Ascii.ascii) (start : Z)
    (k : nat) :
  0 <= start → start + Z.of_nat k <= size →
  trim_spaces_loop stray1 line start k = trim_spaces_loop stray2 line start k.
Proof.
  intros Hstart. induction k as [|k IH]; intros Hk; [done|].
  cbn [trim_spaces_loop]. unfold value.
  rewrite (byte_at_in_line stray1 stray2) by lia.
  rewrite IH by lia. done.
Qed.

Lemma trim_spaces_in_line (stray1 stray2 : Z → Ascii.ascii)
    (start non_space : Z) :
  0 <= start → non_space <= size →
  trim_spaces stray1 line start non_space
  = trim_spaces stray2 line start non_space.
Proof.
  intros Hstart Hle. unfold trim_spaces.
  destruct (Z.gtb_spec non_space start); [|done].
  apply trim_spaces_loop_in_line; lia.
Qed.

Hypothesis Hsize : size < 2 ^ 64.

Lemma single_char_value_safe (stray1 stray2 : Z → Ascii.ascii)
    (start_field cur_pos : Z) :
  0 <= start_field <= cur_pos → cur_pos <= size →
  in_line line (single_char_value stray1 line p start_field cur_pos)
  ∧ single_char_value stray1 line p start_field cur_pos
    = single_char_value stray2 line p start_field cur_pos.
Proof.
  intros Hle Hcur. unfold single_char_value.
  set (non_space1 := if trim_tailing_spaces p
                     then trim_spaces stray1 line start_field cur_pos
                     else cur_pos).
  set (non_space2 := if trim_tailing_spaces p
                     then trim_spaces stray2 line start_field cur_pos
                     else cur_pos).
  assert (Hsame : non_space2 = non_space1).
  { unfold non_space1, non_space2. destruct (trim_tailing_spaces p); [|done].
    symmetry. apply trim_spaces_in_line; lia. }
  assert (Hns : start_field <= non_space1 <= cur_pos).
  { unfold non_space1. destruct (trim_tailing_spaces p); [|lia].
    apply trim_spaces_bounds. lia. }
  rewrite Hsame. clearbody non_space1. clear non_space2 Hsame.
  destruct (_trim_double_quotes p); simpl.
  2:{ split; [|done]. rewrite wrap64_small by (fold size in Hcur; lia).
      fold size. lia. }
  destruct (Z.gtb_spec non_space1 (start_field + 1)) as [Hgt|Hngt]; simpl.
  2:{ split; [|done]. rewrite wrap64_small by lia. fold size. lia. }
  unfold value.
  rewrite (byte_at_in_line stray1 stray2 start_field) by lia.
  rewrite (byte_at_in_line stray1 stray2 (non_space1 - 1)) by lia.
  split; [|done].
  destruct (_ && _); simpl; rewrite wrap64_small by lia; fold size; lia.
Qed.

Lemma single_char_loop_safe (stray1 stray2 : Z → Ascii.ascii)
    (separator : Ascii.ascii) (rest pre : list Ascii.ascii) (start_field : Z)
    (values : list Slice) :
  line = pre ++ rest → 0 <= start_field <= Z.of_nat (length pre) →
  Forall (in_line line) values →
  ∃ start_field' values',
    single_char_loop stray1 line p separator rest (Z.of_nat (length pre))
      start_field values
    = (size, start_field', values')
    ∧ single_char_loop stray2 line p separator rest (Z.of_nat (length pre))
        start_field values
      = (size, start_field', values')
    ∧ 0 <= start_field' <= size
    ∧ Forall (in_line line) values'.
Proof.
  revert pre start_field values.
  induction rest as [|c rest IH]; intros pre start_field values Hline Hle Hin.
  { rewrite app_nil_r in Hline. subst pre. simpl.
    exists start_field, values. by fold size. }
  assert (Hline' : line = (pre ++ [c]) ++ rest).
  { by rewrite <- app_assoc. }
  assert (Hlen' : Z.of_nat (length pre) + 1 = Z.of_nat (length (pre ++ [c]))).
  { rewrite length_app. simpl. lia. }
  assert (Hpre_le : Z.of_nat (length pre) < size).
  { unfold size. rewrite Hline, length_app. simpl. lia. }
  simpl. rewrite Hlen'.
  destruct (single_char_value_safe stray1 stray2 start_field
              (Z.of_nat (length pre))) as [Hval Hsame]; [lia|lia|].
  destruct (Ascii.eqb c separator).
  - rewrite <- Hsame. apply IH; [done|lia|].
    apply Forall_app. split; [done|]. by constructor.
  - apply IH; [done|lia|done].
Qed.

Lemma multi_char_value_safe (stray : Z → Ascii.ascii) (start curpos : Z) :
  0 <= start <= curpos → curpos <= size →
  stray (-1) ≠ double_quote →
  in_line line (multi_char_value stray line p start curpos).
Proof.
  intros Hle Hcur Hbefore. unfold multi_char_value.
  set (non_space := if trim_tailing_spaces p
                    then trim_spaces stray line start curpos
                    else curpos).
  assert (Hns : start <= non_space <= curpos).
  { unfold non_space. destruct (trim_tailing_spaces p); [|lia].
    apply trim_spaces_bounds. lia. }
  clearbody non_space.
  assert (Hkeep : in_line line (LineSlice start (wrap64 (non_space - start)))).
  { simpl. rewrite wrap64_small by lia. fold size. lia. }
  destruct (_trim_double_quotes p); simpl; [|done].
  destruct (decide (non_space = 0)) as [->|Hpos].
  - assert (Hquote : Ascii.eqb (value stray line (0 - 1)) double_quote = false).
    { apply Ascii.eqb_neq. unfold value, byte_at. simpl. done. }
    rewrite Hquote, andb_false_r. done.
  - rewrite wrap64_small by lia.
    destruct (Z.gtb_spec (non_space - 1) start); simpl; [|done].
    destruct (_ && _); [|done].
    simpl. rewrite wrap64_small by lia. fold size. lia.
Qed.

Lemma split_line_loop_safe (stray : Z → Ascii.ascii) (fuel : nat)
    (start curpos p1 : Z) (values : list Slice)
    (start' curpos' : Z) (values' : list Slice) :
  stray (-1) ≠ double_quote →
  0 <= start <= curpos → 0 <= p1 → curpos + p1 <= size →
  Forall (in_line line) values →
  split_line_loop stray line p fuel start curpos p1 values
  = Some (start', curpos', values') →
  0 <= start' <= curpos' ∧ curpos' <= size ∧ Forall (in_line line) values'.
Proof.
  intros Hbefore. revert start curpos p1 values.
  induction fuel as [|fuel IH]; intros start curpos p1 values Hstart Hp1 Hin
    Hvalues; [done|].
  cbn [split_line_loop]. fold size.
  destruct (Z.ltb_spec curpos size) as [Hlt|Hge].
  2:{ intros [= <- <- <-]. split; [done|]. split; [lia|done]. }
  destruct ((curpos + p1 =? size) || _) eqn:Hmis.
  - apply IH; try done; destruct (Z.eqb_spec p1 0); lia.
  - apply orb_false_iff in Hmis as [Hnot_end _].
    apply Z.eqb_neq in Hnot_end.
    destruct (Z.eqb_spec (p1 + 1) (Z.of_nat (length (_value_separator p))))
      as [Hfull|Hpart].
    + rewrite <- Hfull. apply IH; try lia.
      apply Forall_app. split; [done|]. constructor; [|constructor].
      apply multi_char_value_safe; [lia|lia|done].
    + apply IH; try done; lia.
Qed.

End SplitSafetyFacts.

Section SplitLeadingFacts.

Import CsvSplit.

Variable line : list Ascii.ascii.
Variable p : CsvTextParams.

Lemma value_in_separator (stray : Z → Ascii.ascii) (rest : list Ascii.ascii)
    (j : nat) :
  line = _value_separator p ++ rest →
  (j < length (_value_separator p))%nat →
  value stray line (0 + Z.of_nat j)
  = nth (Z.to_nat (Z.of_nat j)) (_value_separator p) Ascii.zero.
Proof.
  intros Hline Hj. unfold value, byte_at. rewrite Hline, length_app.
  rewrite Z.add_0_l, Nat2Z.id.
  destruct (Z.leb_spec 0 (Z.of_nat j)); [|lia].
  destruct (Z.ltb_spec (Z.of_nat j)
              (Z.of_nat (length (_value_separator p) + length rest))); [|lia].
  simpl. by apply app_nth1.
Qed.

Lemma split_line_loop_extends (stray : Z → Ascii.ascii) (fuel : nat)
    (start curpos p1 : Z) (values : list Slice)
    (start' curpos' : Z) (values' : list Slice) :
  split_line_loop stray line p fuel start curpos p1 values
  = Some (start', curpos', values') →
  ∃ more, values' = values ++ more.
Proof.
  revert start curpos p1 values.
  induction fuel as [|fuel IH]; intros start curpos p1 values; [done|].
  cbn [split_line_loop].
  destruct (_ <? _).
  2:{ intros [= <- <- <-]. exists []. by rewrite app_nil_r. }
  destruct (_ || _); [apply IH|].
  destruct (_ =? _); [|apply IH].
  intros Hrun. apply IH in Hrun as [more ->].
  eexists. by rewrite <- app_assoc.
Qed.

(** A separator at the head of the line is matched byte by byte and ends the
    first, empty field. *)
Lemma split_line_loop_leading (stray : Z → Ascii.ascii) (rest : list Ascii.ascii)
    (n j fuel : nat) (values : list Slice) :
  line = _value_separator p ++ rest →
  (j + S n = length (_value_separator p))%nat →
  split_line_loop stray line p (S n + fuel) 0 0 (Z.of_nat j) values
  = split_line_loop stray line p fuel
      (Z.of_nat (length (_value_separator p)))
      (Z.of_nat (length (_value_separator p))) 0
      (values ++ [multi_char_value stray line p 0 0]).
Proof.
  intros Hline. revert j.
  induction n as [|n IH]; intros j Hj.
  - cbn [Nat.add split_line_loop].
    assert (Hlen : 0 < Z.of_nat (length line)).
    { rewrite Hline, length_app. lia. }
    destruct (Z.ltb_spec 0 (Z.of_nat (length line))); [|lia].
    rewrite (value_in_separator stray rest j Hline) by lia.
    rewrite Ascii.eqb_refl.
    destruct (Z.eqb_spec (0 + Z.of_nat j) (Z.of_nat (length line))) as [He|_].
    { rewrite Hline, length_app in He. lia. }
    simpl negb. cbn [orb].
    destruct (Z.eqb_spec (Z.of_nat j + 1)
                (Z.of_nat (length (_value_separator p)))); [|lia].
    done.
  - change (S (S n) + fuel)%nat with (S (S n + fuel)).
    cbn [split_line_loop].
    assert (Hlen : 0 < Z.of_nat (length line)).
    { rewrite Hline, length_app. lia. }
    destruct (Z.ltb_spec 0 (Z.of_nat (length line))); [|lia].
    rewrite (value_in_separator stray rest j Hline) by lia.
    rewrite Ascii.eqb_refl.
    destruct (Z.eqb_spec (0 + Z.of_nat j) (Z.of_nat (length line))) as [He|_].
    { rewrite Hline, length_app in He. lia. }
    simpl negb. cbn [orb].
    destruct (Z.eqb_spec (Z.of_nat j + 1)
                (Z.of_nat (length (_value_separator p)))); [lia|].
    replace (Z.of_nat j + 1) with (Z.of_nat (S j)) by lia.
    apply IH. lia.
Qed.

End SplitLeadingFacts.

Section CsvSafetyTheorems.

Import CsvSplit.

(** X19. The splitter for a one-byte separator stays inside the line.
    Whatever the trimming options, every value it stores lies inside the
    line, and the values do not depend on the memory around the line: the
    splitter reads no byte outside it. *)
Theorem split_single_char_stays_in_line (stray1 stray2 : Z → Ascii.ascii)
    (line : list Ascii.ascii) (p : CsvTextParams) (fmt : TFileFormatType)
    (proto_row : list (list Ascii.ascii)) :
  fmt ≠ FORMAT_PROTO →
  Z.of_nat (length line) < 2 ^ 64 →
  Forall (in_line line)
    (_split_line_for_single_char_delimiter stray1 line p fmt proto_row)
  ∧ _split_line_for_single_char_delimiter stray2 line p fmt proto_row
    = _split_line_for_single_char_delimiter stray1 line p fmt proto_row.
Proof.
  intros Hfmt Hsize.
  assert (Hvalues : ∀ stray,
    _split_line_for_single_char_delimiter stray line p fmt proto_row
    = (let '(cur_pos, start_field, split_values) :=
         single_char_loop stray line p (nth 0 (_value_separator p) Ascii.zero)
           line 0 0 [] in
       split_values ++ [single_char_value stray line p start_field cur_pos])).
  { intros stray. unfold _split_line_for_single_char_delimiter.
    by destruct fmt. }
  rewrite !Hvalues.
  destruct (single_char_loop_safe line p Hsize stray1 stray2
              (nth 0 (_value_separator p) Ascii.zero) line [] 0 [])
    as (start_field & values & Hrun1 & Hrun2 & Hle & Hin);
    [done | simpl; lia | constructor |].
  change (Z.of_nat (length [])) with 0 in Hrun1, Hrun2.
  rewrite Hrun1, Hrun2.
  destruct (single_char_value_safe line p Hsize stray1 stray2 start_field
              (Z.of_nat (length line))) as [Hval Hsame]; [lia|lia|].
  split; [|by rewrite Hsame].
  apply Forall_app. split; [done|]. by constructor.
Qed.

(** X20. The splitter for a separator of several bytes and the byte before
    the line.  If the byte just before the line is not a double quote, every
    value lies inside the line, whatever the options.  The condition is
    needed: with quote trimming on, the guard [(non_space - 1) > start] wraps
    around for the empty first field of a line that starts with the
    separator, and if the separator starts with a double quote and the byte
    before the line is one too, the first value is stored with offset 1 and
    size 2^64 - 2. *)
Theorem split_line_byte_before_line (stray : Z → Ascii.ascii)
    (line : list Ascii.ascii) (p : CsvTextParams) (fmt : TFileFormatType)
    (proto_row : list (list Ascii.ascii)) :
  fmt ≠ FORMAT_PROTO →
  Z.of_nat (length line) < 2 ^ 64 →
  ∃ values,
    _split_line stray line p fmt proto_row = Some values
    ∧ (stray (-1) ≠ double_quote → Forall (in_line line) values)
    ∧ (stray (-1) = double_quote → _trim_double_quotes p = true →
       head (_value_separator p) = Some double_quote →
       (∃ rest, line = _value_separator p ++ rest) →
       head values = Some (LineSlice 1 (2 ^ 64 - 2))).
Proof.
  intros Hfmt Hsize.
  assert (Hsplit : _split_line stray line p fmt proto_row
    = match split_line_loop stray line p (2 * length line + 2) 0 0 0 [] with
      | Some (start, curpos, split_values) =>
        Some (split_values ++ [multi_char_value stray line p start curpos])
      | None => None
      end).
  { unfold _split_line. by destruct fmt. }
  rewrite Hsplit.
  destruct (split_line_loop_ends stray line p (2 * length line + 2) 0 0 0 [])
    as (start & split_values & Hrun & _); [lia | simpl; lia |].
  change (Z.of_nat 0) with 0 in Hrun. rewrite Hrun.
  eexists. split; [done|]. split.
  - intros Hbefore.
    destruct (split_line_loop_safe line p Hsize stray
                (2 * length line + 2) 0 0 0 [] start
                (Z.of_nat (length line)) split_values Hbefore)
      as (Hle & Hcur & Hin); [lia | lia | lia | constructor | done |].
    apply Forall_app. split; [done|]. constructor; [|constructor].
    apply multi_char_value_safe; [done|lia|lia|done].
  - intros Hbefore Hquotes Hhead [rest Hline].
    destruct (_value_separator p) as [|c separator] eqn:Hsep; [done|].
    injection Hhead as ->.
    assert (Hfuel : (2 * length line + 2
                     = S (length separator)
                       + (length separator + 2 * length rest + 3))%nat).
    { rewrite Hline. rewrite length_app. simpl. lia. }
    rewrite Hfuel in Hrun.
    rewrite (split_line_loop_leading line p stray rest (length separator) 0)
      in Hrun; [|by rewrite Hsep|rewrite Hsep; simpl; lia].
    apply split_line_loop_extends in Hrun as [more ->].
    assert (Hfirst : multi_char_value stray line p 0 0
                     = LineSlice 1 (2 ^ 64 - 2)).
    { unfold multi_char_value. rewrite Hquotes.
      assert (Hns : (if trim_tailing_spaces p
                     then trim_spaces stray line 0 0 else 0) = 0).
      { by destruct (trim_tailing_spaces p). }
      rewrite Hns. unfold value, byte_at. rewrite Hline. simpl.
      change (0 - 1) with (-1). by rewrite Hbefore, Ascii.eqb_refl. }
    rewrite Hfirst. done.
Qed.

End CsvSafetyTheorems.

Section SplitTotalFacts.

Import CsvSplit.

Lemma split_line_is_Some (stray : Z → Ascii.ascii) (line : list Ascii.ascii)
    (p : CsvTextParams) (fmt : TFileFormatType)
    (proto_row : list (list Ascii.ascii)) :
  is_Some (_split_line stray line p fmt proto_row).
Proof.
  assert (Hloop : ∃ start split_values,
    split_line_loop stray line p (2 * length line + 2) 0 0 0 []
    = Some (start, Z.of_nat (length line), split_values)).
  { destruct (split_line_loop_ends stray line p (2 * length line + 2) 0 0 0 [])
      as (start & split_values & Hrun & _); [lia | simpl; lia |].
    by exists start, split_values. }
  destruct Hloop as (start & split_values & Hrun).
  unfold _split_line. destruct fmt; try done; by rewrite Hrun.
Qed.

End SplitTotalFacts.

(** * Properties of the runtime state's error functions *)

Section ErrorLogFacts.

Import RuntimeState.

(** The log holds what was accepted, and the reports have handed out its
    first [i] entries, [i] being the unreported index. *)
Let in_step (accepted reported : list string) (s : RuntimeState) : Prop :=
  _error_log s = accepted
  ∧ ∃ i : nat,
      _unreported_error_idx s = Z.of_nat i
      ∧ (i <= length accepted)%nat
      ∧ reported = take i accepted.

Lemma run_error_log_calls_in_step (calls : list ErrorLogCall)
    (accepted reported : list string) (s : RuntimeState) :
  in_step accepted reported s →
  let out := run_error_log_calls calls accepted reported s in
  in_step out.1.1 out.1.2 out.2
  ∧ max_errors out.2 = max_errors s.
Proof.
  revert accepted reported s.
  induction calls as [|[error|] calls IH];
    intros accepted reported s (Hlog & i & Hidx & Hle & Hrep).
  { simpl. split; [|done]. split; [done|]. by exists i. }
  - cbn [run_error_log_calls]. unfold log_error. rewrite Hlog.
    destruct (_ <? _); cbv zeta.
    + match goal with
      | |- context [run_error_log_calls calls ?a ?r ?s1] =>
        destruct (IH a r s1) as [Hstep Hmax]
      end.
      { split; [done|]. exists i. split; [done|].
        rewrite length_app. split; [lia|].
        by rewrite take_app_le. }
      split; [exact Hstep | exact Hmax].
    + apply IH. split; [done|]. by exists i.
  - cbn [run_error_log_calls]. unfold get_unreported_errors.
    rewrite Hlog, Hidx.
    destruct (Z.ltb_spec (Z.of_nat i) (Z.of_nat (length accepted))); cbv zeta.
    + match goal with
      | |- context [run_error_log_calls calls ?a ?r ?s1] =>
        destruct (IH a r s1) as [Hstep Hmax]
      end.
      { split; [done|]. exists (length accepted). split; [done|].
        split; [done|]. rewrite Nat2Z.id, Hrep, take_drop.
        by rewrite take_ge. }
      split; [exact Hstep | exact Hmax].
    + rewrite app_nil_r. apply IH. split; [done|]. by exists i.
Qed.

Lemma run_error_log_calls_accepted (calls : list ErrorLogCall)
    (accepted reported : list string) (s : RuntimeState) (limit : nat) :
  _error_log s = accepted →
  max_errors s mod 2 ^ 64 = Z.of_nat limit →
  (length accepted <= limit)%nat →
  (run_error_log_calls calls accepted reported s).1.1
  = accepted ++ take (limit - length accepted) (logged_errors calls).
Proof.
  revert accepted reported s.
  induction calls as [|[error|] calls IH];
    intros accepted reported s Hlog Hlimit Hle.
  { simpl. unfold logged_errors. simpl. by rewrite take_nil, app_nil_r. }
  - cbn [run_error_log_calls]. unfold log_error.
    rewrite Hlog, Hlimit.
    change (logged_errors (CallLogError error :: calls))
      with (error :: logged_errors calls).
    destruct (Z.ltb_spec (Z.of_nat (length accepted)) (Z.of_nat limit));
      cbv zeta.
    + rewrite IH; [| done | done | rewrite length_app; simpl; lia].
      rewrite length_app. simpl.
      replace (limit - length accepted)%nat
        with (S (limit - (length accepted + 1))) by lia.
      by rewrite <- app_assoc.
    + rewrite IH by done.
      replace (limit - length accepted)%nat with 0%nat by lia.
      by rewrite !take_0.
  - cbn [run_error_log_calls]. unfold get_unreported_errors.
    change (logged_errors (CallGetUnreportedErrors :: calls))
      with (logged_errors calls).
    destruct (_ <? _); cbv zeta; by apply IH.
Qed.

End ErrorLogFacts.

Section ErrorFileFacts.

Import RuntimeState.

Variable env : LoadErrorEnv.

Lemma ltb_ext (a b c d : Z) : (a < b ↔ c < d) → (a <? b) = (c <? d).
Proof.
  intros Hiff. destruct (Z.ltb_spec a b), (Z.ltb_spec c d); [done|lia|lia|done].
Qed.

Lemma stop_guard (printed : Z) (is_summary : bool) :
  (printed >? MAX_ERROR_NUM) && negb is_summary = true →
  is_summary = false ∧ printed > MAX_ERROR_NUM.
Proof.
  intros Hfull. apply andb_true_iff in Hfull as [Hgt Hsum].
  apply Z.gtb_lt in Hgt. apply negb_true_iff in Hsum. split; [done|lia].
Qed.

Lemma reason_text_not_empty (line error_msg : string) :
  (0 <? String.length (reason_text line error_msg))%nat = true.
Proof. done. Qed.

Lemma append_error_row_spec (row : ErrorRow) (s : RuntimeState)
    (written : list string) :
  state_query_type s = LOAD →
  _error_log_file s = Some (mkErrorLogFile true written) →
  0 <= _num_print_error_rows s < 2 ^ 63 - 1 →
  _error_row_number s < MAX_ERROR_NUM →
  let out :=
    append_error_msg_to_file env (row_line row) (row_error_msg row) false s in
  out.1.1 = Status_OK
  ∧ out.1.2
    = _load_zero_tolerance s && (MAX_ERROR_NUM <? _num_print_error_rows s)
  ∧ state_query_type out.2 = LOAD
  ∧ _error_log_file out.2
    = Some (mkErrorLogFile true
              (written
               ++ (if MAX_ERROR_NUM <? _num_print_error_rows s then []
                   else [reason_text (row_line row) (row_error_msg row)])))
  ∧ _num_print_error_rows out.2 = _num_print_error_rows s + 1
  ∧ _error_row_number out.2 = _error_row_number s
  ∧ _load_zero_tolerance out.2 = _load_zero_tolerance s.
Proof.
  destruct s as [qt me bs log idx file path printed rown tol]. simpl.
  intros -> -> Hprinted Hrow.
  unfold append_error_msg_to_file. simpl.
  assert (Hwrap : wrap_int64 (printed + 1) = printed + 1).
  { unfold wrap_int64. rewrite Z.mod_small; lia. }
  rewrite Hwrap, Z.gtb_ltb, andb_true_r.
  destruct (MAX_ERROR_NUM <? printed) eqn:Hfull; simpl.
  - rewrite app_nil_r, andb_true_r. done.
  - destruct (Z.ltb_spec rown MAX_ERROR_NUM); [|lia].
    rewrite reason_text_not_empty, andb_false_r. done.
Qed.

Lemma append_error_rows_spec (rows : list ErrorRow) (stop : bool)
    (s : RuntimeState) (written : list string) :
  state_query_type s = LOAD →
  _error_log_file s = Some (mkErrorLogFile true written) →
  0 <= _num_print_error_rows s →
  _num_print_error_rows s + Z.of_nat (length rows) < 2 ^ 63 →
  _error_row_number s < MAX_ERROR_NUM →
  let out := append_error_rows env rows stop s in
  _error_log_file out.2
  = Some (mkErrorLogFile true
            (written
             ++ ((λ row, reason_text (row_line row) (row_error_msg row))
                 <$> take (Z.to_nat (MAX_ERROR_NUM + 1
                                     - _num_print_error_rows s)) rows)))
  ∧ _num_print_error_rows out.2
    = _num_print_error_rows s + Z.of_nat (length rows)
  ∧ out.1
    = (if rows is [] then stop
       else _load_zero_tolerance s
            && (MAX_ERROR_NUM + 1
                <? _num_print_error_rows s + Z.of_nat (length rows))).
Proof.
  revert stop s written.
  induction rows as [|row rows IH]; intros stop s written Hload Hfile Hprinted
    Hfits Hrow.
  { simpl. rewrite take_nil, app_nil_r, Z.add_0_r. done. }
  cbn [append_error_rows].
  change (length (row :: rows)) with (S (length rows)) in *.
  destruct (append_error_row_spec row s written Hload Hfile)
    as (_ & Hstop & Hload1 & Hfile1 & Hprinted1 & Hrow1 & Htol1);
    [lia | done |].
  destruct (append_error_msg_to_file env (row_line row) (row_error_msg row)
              false s) as [[status stop1] s1].
  simpl in Hstop, Hload1, Hfile1, Hprinted1, Hrow1, Htol1.
  destruct (IH stop1 s1 _ Hload1 Hfile1) as (Hfile2 & Hprinted2 & Hstop2);
    [lia | lia | lia |].
  rewrite Hfile2, Hprinted2, Hstop2, Hprinted1, Htol1, Hstop.
  split; [|split; [lia|]].
  - f_equal. f_equal. rewrite <- app_assoc. f_equal.
    unfold MAX_ERROR_NUM in *.
    destruct (Z.ltb_spec 50 (_num_print_error_rows s)).
    + replace (Z.to_nat (50 + 1 - _num_print_error_rows s)) with 0%nat by lia.
      replace (Z.to_nat (50 + 1 - (_num_print_error_rows s + 1)))
        with 0%nat by lia.
      by rewrite !take_0.
    + replace (Z.to_nat (50 + 1 - _num_print_error_rows s))
        with (S (Z.to_nat (50 + 1 - (_num_print_error_rows s + 1)))) by lia.
      done.
  - unfold MAX_ERROR_NUM in *.
    destruct rows as [|row' rows]; f_equal; apply ltb_ext; simpl length; lia.
Qed.

End ErrorFileFacts.

Section RuntimeStateTheorems.

Import RuntimeState.

(** X21. Errors are reported once.  On a state set up by [init] over an
    empty error log, whatever the order of [log_error] and
    [get_unreported_errors] calls, the errors the reports hand out, followed
    by those of one more report, are exactly the accepted errors in the order
    they were logged.  The accepted errors are the first [max_errors] logged
    ones, the first 100 when the option is not positive. *)
Theorem error_log_reported_once (default_batch_size : Z) (qt : TQueryType)
    (options_max_errors options_batch_size : Z) (isset_tolerance tolerance : bool)
    (calls : list ErrorLogCall) (s0 : RuntimeState) :
  _error_log s0 = [] → _unreported_error_idx s0 = 0 →
  options_max_errors <= INT32_MAX →
  let s := (init default_batch_size qt options_max_errors options_batch_size
              isset_tolerance tolerance s0).2 in
  let limit :=
    Z.to_nat (if options_max_errors <=? 0 then 100 else options_max_errors) in
  let out := run_error_log_calls calls [] [] s in
  let accepted := out.1.1 in
  let reported := out.1.2 in
  accepted = take limit (logged_errors calls)
  ∧ _error_log out.2 = accepted
  ∧ reported ++ (get_unreported_errors [] out.2).1 = accepted
  ∧ (get_unreported_errors [] (get_unreported_errors [] out.2).2).1 = [].
Proof.
  intros Hlog Hidx Hmax s limit out accepted reported.
  assert (Hstep : _error_log s = []
                  ∧ ∃ i : nat, _unreported_error_idx s = Z.of_nat i
                               ∧ (i <= length (@nil string))%nat
                               ∧ [] = take i (@nil string)).
  { unfold s, init. simpl. split; [done|]. exists 0%nat. by rewrite Hidx. }
  destruct (run_error_log_calls_in_step calls [] [] s Hstep)
    as [(Hlog' & i & Hidx' & Hle & Hrep) _].
  fold out in Hlog', Hidx', Hle, Hrep. fold accepted in Hlog', Hle, Hrep.
  fold reported in Hrep.
  split; [|split; [done|split]].
  - unfold accepted, out.
    rewrite (run_error_log_calls_accepted calls [] [] s limit);
      [by rewrite Nat.sub_0_r | done | | simpl; lia].
    unfold s, init, limit, INT32_MAX in *. simpl.
    destruct (Z.leb_spec options_max_errors 0); [done|].
    rewrite Z.mod_small by lia. lia.
  - unfold get_unreported_errors. rewrite Hlog', Hidx'.
    destruct (Z.ltb_spec (Z.of_nat i) (Z.of_nat (length accepted))); simpl.
    + by rewrite Nat2Z.id, Hrep, take_drop.
    + rewrite app_nil_r, Hrep. apply take_ge. lia.
  - unfold get_unreported_errors at 2. rewrite Hlog', Hidx'.
    destruct (Z.ltb_spec (Z.of_nat i) (Z.of_nat (length accepted))); simpl.
    + unfold get_unreported_errors. simpl. by rewrite Z.ltb_irrefl.
    + unfold get_unreported_errors. rewrite Hlog', Hidx'.
      by destruct (Z.ltb_spec (Z.of_nat i) (Z.of_nat (length accepted)));
        [lia|].
Qed.

(** X22. Error rows of a load.  With the error file open, the row counter
    at [printed] and [_error_row_number] below [MAX_ERROR_NUM], appending rows
    writes a "Reason" line for each row until the counter has passed
    [MAX_ERROR_NUM], that is for the first 51 - [printed] rows, and drops the
    others; every row is counted, and the last call asks to stop processing
    exactly when the load has zero tolerance and more than 51 rows have been
    counted. *)
Theorem append_error_rows_written (env : LoadErrorEnv) (rows : list ErrorRow)
    (stop : bool) (s : RuntimeState) (written : list string) :
  state_query_type s = LOAD →
  _error_log_file s = Some (mkErrorLogFile true written) →
  0 <= _num_print_error_rows s →
  _num_print_error_rows s + Z.of_nat (length rows) < 2 ^ 63 →
  _error_row_number s < MAX_ERROR_NUM →
  let out := append_error_rows env rows stop s in
  _error_log_file out.2
  = Some (mkErrorLogFile true
            (written
             ++ ((λ row, reason_text (row_line row) (row_error_msg row))
                 <$> take (Z.to_nat (51 - _num_print_error_rows s)) rows)))
  ∧ _num_print_error_rows out.2
    = _num_print_error_rows s + Z.of_nat (length rows)
  ∧ (rows ≠ [] →
     out.1 = _load_zero_tolerance s
             && (51 <? _num_print_error_rows s + Z.of_nat (length rows))).
Proof.
  intros Hload Hfile Hprinted Hfits Hrow out.
  destruct (append_error_rows_spec env rows stop s written Hload Hfile Hprinted
              Hfits Hrow) as (Hfile' & Hprinted' & Hstop).
  fold out in Hfile', Hprinted', Hstop.
  split; [exact Hfile'|]. split; [exact Hprinted'|].
  intros Hrows. rewrite Hstop. by destruct rows.
Qed.

(** X23. What [append_error_msg_to_file] leaves alone.  It always resets
    [*stop_processing] unless the row limit is passed, never touches the error
    log, the unreported index or [_error_row_number], and for a query that is
    not a load it changes nothing.  When the error file cannot be created the
    call returns that failure, counts nothing and leaves no file behind, so
    the next call tries to create it again. *)
Theorem append_error_msg_to_file_edges (env : LoadErrorEnv)
    (line error_msg : string) (is_summary : bool) (s : RuntimeState) :
  let out := append_error_msg_to_file env line error_msg is_summary s in
  _error_log out.2 = _error_log s
  ∧ _unreported_error_idx out.2 = _unreported_error_idx s
  ∧ _error_row_number out.2 = _error_row_number s
  ∧ (out.1.2 = true →
     _load_zero_tolerance s = true ∧ is_summary = false
     ∧ _num_print_error_rows s > MAX_ERROR_NUM)
  ∧ (state_query_type s ≠ LOAD → out = (Status_OK, false, s))
  ∧ (state_query_type s = LOAD → _error_log_file s = None →
     error_file_opens env = false →
     ok out.1.1 = false ∧ _error_log_file out.2 = None
     ∧ _num_print_error_rows out.2 = _num_print_error_rows s)
  ∧ (ok out.1.1 = true → state_query_type s = LOAD →
     ∃ file, _error_log_file out.2 = Some file).
Proof.
  destruct s as [qt me bs log idx file path printed rown tol].
  unfold append_error_msg_to_file, create_error_log_file, write_line. simpl.
  destruct qt; simpl.
  1,3: by repeat split.
  destruct file as [[open lines]|]; simpl;
    [|destruct (error_file_opens env); simpl; [|by repeat split]].
  all: destruct ((printed >? MAX_ERROR_NUM) && negb is_summary) eqn:Hfull;
    simpl; [apply stop_guard in Hfull as [Hsum Hgt]|];
    repeat case_match; simpl; repeat split; try done; eauto.
Qed.

End RuntimeStateTheorems.

(** * Properties of the CSV reader's row path *)

Section CsvRowFacts.

Import CsvRows.

Variable env : CsvReadEnv.

(** What a step leaves as it was, whatever it does to the end-of-file flag
    and the runtime state. *)
Let keeps (sc sc' : CsvScan) : Prop :=
  reader_setup sc' = reader_setup sc
  ∧ _skip_lines (csv sc') = _skip_lines (csv sc).

Lemma append_error_msg_to_file_status (line error_msg : string)
    (is_summary : bool) (s : RuntimeState) :
  let out :=
    RuntimeState.append_error_msg_to_file (load_error_env env) line error_msg
      is_summary s in
  ok out.1.1 = true → out.1.1 = Status_OK.
Proof.
  destruct s as [qt me bs log idx file path printed rown tol].
  unfold RuntimeState.append_error_msg_to_file,
    RuntimeState.create_error_log_file. simpl.
  destruct qt; simpl; try done.
  destruct file as [file|]; simpl; [|destruct (error_file_opens _); simpl];
    try done; by destruct (_ && _).
Qed.

Lemma append_error_msg_spec (line error_msg : string) (sc : CsvScan) :
  let out := append_error_msg env line error_msg sc in
  keeps sc out.2
  ∧ block_rows out.2 = block_rows sc
  ∧ num_rows_filtered out.2 = num_rows_filtered sc
  ∧ _split_values out.2 = _split_values sc
  ∧ (out.1, _line_reader_eof (csv out.2), _state out.2)
    = RuntimeState.append_error_msg_to_file (load_error_env env) line
        error_msg false (_state sc).
Proof.
  unfold append_error_msg.
  destruct (RuntimeState.append_error_msg_to_file _ _ _ _ _)
    as [[status stop] s].
  by destruct sc as [[] ? ? ? ? ? ?].
Qed.

Lemma line_accepted_setup (sc sc' : CsvScan) (answer : LineAnswer) :
  reader_setup sc' = reader_setup sc →
  line_accepted env sc' answer = line_accepted env sc answer
  ∧ split_values_of sc' answer = split_values_of sc answer
  ∧ file_slot_count sc' = file_slot_count sc
  ∧ _is_load (csv sc') = _is_load (csv sc)
  ∧ _col_idxs (csv sc') = _col_idxs (csv sc)
  ∧ _file_slot_idx_map (csv sc') = _file_slot_idx_map (csv sc).
Proof.
  destruct sc as [[] ? ? ? ? ? ?], sc' as [[] ? ? ? ? ? ?].
  unfold reader_setup, line_accepted, split_values_of, split_line_values,
    file_slot_count. simpl. by intros [= -> -> -> -> -> -> -> -> -> -> ->].
Qed.

(** One line through [_line_split_to_values]: accepted lines leave their
    values in [_split_values] and nothing else changes; a filtered line of a
    load is counted and its error row appended, the end-of-file flag taking
    what the runtime state left in [*stop_processing]. *)
Lemma line_split_to_values_spec (answer : LineAnswer) (success : bool)
    (sc : CsvScan) :
  let out := _line_split_to_values env answer success sc in
  keeps sc out.2
  ∧ block_rows out.2 = block_rows sc
  ∧ (ok out.1.1 = true →
     if line_accepted env sc answer
     then out.1.2 = true
          ∧ out.2 = set_split_values (split_values_of sc answer) sc
     else out.1.2 = false
          ∧ _is_load (csv sc) = true
          ∧ num_rows_filtered out.2 = num_rows_filtered sc + 1
          ∧ ∃ line error_msg,
              (Status_OK, _line_reader_eof (csv out.2), _state out.2)
              = RuntimeState.append_error_msg_to_file (load_error_env env)
                  line error_msg false (_state sc)).
Proof.
  unfold _line_split_to_values, line_accepted.
  destruct (is_FORMAT_PROTO (_file_format_type (csv sc))
            || validate_utf8 env (answer_line answer)) eqn:Hvalid.
  - apply orb_true_iff in Hvalid.
    assert (Hguard : negb (is_FORMAT_PROTO (_file_format_type (csv sc)))
                     && negb (validate_utf8 env (answer_line answer)) = false).
    { destruct Hvalid as [-> | ->]; [done | by rewrite andb_false_r]. }
    rewrite Hguard. cbv zeta.
    change (_is_load (csv (set_split_values (split_values_of sc answer) sc)))
      with (_is_load (csv sc)).
    change (file_slot_count
              (set_split_values (split_values_of sc answer) sc))
      with (file_slot_count sc).
    destruct (_is_load (csv sc)); simpl.
    2:{ split; [by destruct sc as [[] ? ? ? ? ? ?]|]. by split. }
    destruct (length (split_values_of sc answer) =? file_slot_count sc)%nat;
      simpl.
    { split; [by destruct sc as [[] ? ? ? ? ? ?]|]. by split. }
    match goal with
    | |- context [append_error_msg env ?l ?m ?s] =>
      pose proof (append_error_msg_spec l m s) as Happ;
      destruct (append_error_msg env l m s) as [status sc2] eqn:Hrun
    end.
    simpl in Happ. destruct Happ as (Hkeep & Hrows & Hfiltered & _ & Heff).
    destruct (ok status) eqn:Hok; simpl.
    + split; [by destruct sc as [[] ? ? ? ? ? ?], sc2 as [[] ? ? ? ? ? ?]|].
      split; [by rewrite <- Hrows; destruct sc2|].
      intros _. split; [done|]. split; [done|].
      split; [by rewrite <- Hfiltered; destruct sc2|].
      eexists _, _. rewrite <- Heff. f_equal. f_equal. symmetry.
      pose proof (append_error_msg_to_file_status
                    (string_of_list_ascii (answer_line answer))
                    (column_number_msg
                       (set_split_values (split_values_of sc answer) sc)
                       (length (split_values_of sc answer)))
                    false (_state sc)) as Hst.
      simpl in Hst. change (_state (set_split_values _ sc)) with (_state sc)
        in Heff.
      rewrite <- Heff in Hst. by apply Hst.
    + rewrite Hok. split; [by destruct sc as [[] ? ? ? ? ? ?]|]. done.
  - apply orb_false_iff in Hvalid as [Hproto Hutf8].
    rewrite Hproto, Hutf8. simpl.
    destruct (_is_load (csv sc)) eqn:Hload; simpl.
    2:{ split; [done|]. by split. }
    match goal with
    | |- context [append_error_msg env ?l ?m ?s] =>
      pose proof (append_error_msg_spec l m s) as Happ;
      destruct (append_error_msg env l m s) as [status sc2] eqn:Hrun
    end.
    simpl in Happ. destruct Happ as (Hkeep & Hrows & Hfiltered & _ & Heff).
    destruct (ok status) eqn:Hok; simpl.
    + split; [by destruct sc as [[] ? ? ? ? ? ?], sc2 as [[] ? ? ? ? ? ?]|].
      split; [by rewrite <- Hrows; destruct sc2|].
      intros _. split; [done|]. split; [done|].
      split; [by rewrite <- Hfiltered; destruct sc2|].
      eexists _, _. rewrite <- Heff. f_equal. f_equal. symmetry.
      pose proof (append_error_msg_to_file_status "Unable to display"
                    "Unable to display" false (_state sc)) as Hst.
      simpl in Hst. rewrite <- Heff in Hst. by apply Hst.
    + rewrite Hok. by split.
Qed.

Lemma fill_dest_columns_spec (answer : LineAnswer) (sc : CsvScan) (rows : Z) :
  let out := _fill_dest_columns env answer sc rows in
  keeps sc out.1.2
  ∧ (ok out.1.1 = true →
     if line_accepted env sc answer
     then out.2 = rows + 1
          ∧ num_rows_filtered out.1.2 = num_rows_filtered sc
          ∧ _line_reader_eof (csv out.1.2) = _line_reader_eof (csv sc)
          ∧ _state out.1.2 = _state sc
          ∧ block_rows out.1.2
            = block_rows sc
              ++ [mkWrittenRow (answer_line answer)
                    ((λ i,
                       mkWrittenCell (slot_column sc i)
                         (slot_value
                            (set_split_values (split_values_of sc answer) sc)
                            i))
                     <$> seq 0 (file_slot_count sc))]
     else out.2 = rows
          ∧ block_rows out.1.2 = block_rows sc
          ∧ _is_load (csv sc) = true
          ∧ num_rows_filtered out.1.2 = num_rows_filtered sc + 1
          ∧ ∃ line error_msg,
              (Status_OK, _line_reader_eof (csv out.1.2), _state out.1.2)
              = RuntimeState.append_error_msg_to_file (load_error_env env)
                  line error_msg false (_state sc)).
Proof.
  unfold _fill_dest_columns.
  pose proof (line_split_to_values_spec answer false sc) as Hsplit.
  destruct (_line_split_to_values env answer false sc)
    as [[status is_success] sc1].
  simpl in Hsplit. destruct Hsplit as (Hkeep & Hrows & Hok).
  destruct (ok status) eqn:Hst; simpl; [|by rewrite Hst].
  specialize (Hok eq_refl).
  destruct (line_accepted env sc answer).
  - destruct Hok as [-> ->]. simpl. split; [done|]. intros _.
    by destruct sc as [[] ? ? ? ? ? ?].
  - destruct Hok as (-> & Hload & Hfiltered & Herr). simpl.
    split; [done|]. intros _. by rewrite Hrows.
Qed.

Lemma data_lines_skip (skip : Z) (answer : LineAnswer)
    (answers : list LineAnswer) :
  0 < skip →
  data_lines skip (answer :: answers) = data_lines (skip - 1) answers.
Proof.
  intros Hskip. unfold data_lines.
  replace (Z.to_nat skip) with (S (Z.to_nat (skip - 1))) by lia. done.
Qed.

Lemma data_lines_cons (skip : Z) (answer : LineAnswer)
    (answers : list LineAnswer) :
  skip <= 0 →
  data_lines skip (answer :: answers)
  = if decide (answer_line answer = []) then data_lines skip answers
    else answer :: data_lines skip answers.
Proof.
  intros Hskip. unfold data_lines.
  replace (Z.to_nat skip) with 0%nat by lia. rewrite !drop_0.
  destruct (decide (answer_line answer = [])) as [Hempty|Hline].
  - by rewrite filter_cons_False by (by intros Hne).
  - by rewrite filter_cons_True.
Qed.

Lemma filter_accepted_setup (sc sc' : CsvScan) (b : bool)
    (answers : list LineAnswer) :
  reader_setup sc' = reader_setup sc →
  filter (λ answer, line_accepted env sc' answer = b) answers
  = filter (λ answer, line_accepted env sc answer = b) answers.
Proof.
  intros Hsetup. apply list_filter_iff. intros answer.
  by destruct (line_accepted_setup sc sc' answer Hsetup) as [-> _].
Qed.

Lemma nothing_read (sc sc' : CsvScan) (skip rows bound : Z) :
  block_rows sc' = block_rows sc →
  num_rows_filtered sc' = num_rows_filtered sc →
  (_line_reader_eof (csv sc') = false → bound <= rows) →
  ∃ new_rows,
    block_rows sc' = block_rows sc ++ new_rows
    ∧ written_line <$> new_rows
      = answer_line
        <$> filter (λ answer, line_accepted env sc answer = true)
              (data_lines skip [])
    ∧ rows = rows + Z.of_nat (length new_rows)
    ∧ num_rows_filtered sc'
      = num_rows_filtered sc
        + Z.of_nat
            (length (filter (λ answer, line_accepted env sc answer = false)
                       (data_lines skip [])))
    ∧ (rows <= bound → rows <= bound)
    ∧ (_line_reader_eof (csv sc') = false → bound <= rows).
Proof.
  intros Hblock Hfiltered Hflag. exists [].
  unfold data_lines. rewrite drop_nil, app_nil_r. simpl.
  split; [done|]. split; [done|]. split; [lia|].
  split; [rewrite Hfiltered; lia|]. by split.
Qed.

(** The loop of [get_next_block]: what it takes from the line reader is a
    prefix of the answers; of the lines in it that are past the skipped ones
    and not empty, the accepted ones become the new rows, in order, and the
    others are counted as filtered. *)
Lemma read_rows_loop_spec (batch_size : Z) (pending : list LineAnswer)
    (sc : CsvScan) (rows : Z) :
  let out := read_rows_loop env batch_size pending sc rows in
  let sc' := out.1.1.2 in
  ∃ consumed,
    pending = consumed ++ out.2
    ∧ reader_setup sc' = reader_setup sc
    ∧ (ok out.1.1.1 = true →
       let lines := data_lines (_skip_lines (csv sc)) consumed in
       ∃ new_rows,
         block_rows sc' = block_rows sc ++ new_rows
         ∧ written_line <$> new_rows
           = answer_line
             <$> filter (λ answer, line_accepted env sc answer = true) lines
         ∧ out.1.2 = rows + Z.of_nat (length new_rows)
         ∧ num_rows_filtered sc'
           = num_rows_filtered sc
             + Z.of_nat
                 (length (filter (λ answer, line_accepted env sc answer = false)
                            lines))
         ∧ (rows <= batch_size mod 2 ^ 64 → out.1.2 <= batch_size mod 2 ^ 64)
         ∧ (_line_reader_eof (csv sc') = false →
            batch_size mod 2 ^ 64 <= out.1.2)).
Proof.
  revert sc rows.
  induction pending as [|answer pending IH]; intros sc rows.
  - cbn [read_rows_loop].
    destruct (Z.ltb_spec rows (batch_size mod 2 ^ 64)); simpl.
    + destruct (_line_reader_eof (csv sc)) eqn:Heof; simpl.
      * exists []. split; [done|]. split; [done|]. intros _.
        apply nothing_read; [done|done|]. simpl. congruence.
      * exists []. split; [done|].
        split; [by destruct sc as [[] ? ? ? ? ? ?]; simpl; destruct (_ >? _)|].
        intros _. apply nothing_read.
        -- by destruct sc as [[] ? ? ? ? ? ?]; simpl; destruct (_ >? _).
        -- by destruct sc as [[] ? ? ? ? ? ?]; simpl; destruct (_ >? _).
        -- by destruct sc as [[] ? ? ? ? ? ?]; simpl; destruct (_ >? _).
    + exists []. split; [done|]. split; [done|]. intros _.
      apply nothing_read; [done|done|]. simpl. lia.
  - cbn [read_rows_loop].
    destruct (Z.ltb_spec rows (batch_size mod 2 ^ 64)) as [Hroom|Hfull]; simpl.
    2:{ exists []. split; [done|]. split; [done|]. intros _.
        apply nothing_read; [done|done|]. simpl. lia. }
    destruct (_line_reader_eof (csv sc)) eqn:Heof; simpl.
    { exists []. split; [done|]. split; [done|]. intros _.
      apply nothing_read; [done|done|]. simpl. congruence. }
    set (sc1 := set_line_reader_eof (answer_eof answer) sc).
    assert (Hsetup1 : reader_setup sc1 = reader_setup sc).
    { by destruct sc as [[] ? ? ? ? ? ?]. }
    assert (Hskip1 : _skip_lines (csv sc1) = _skip_lines (csv sc)).
    { by destruct sc as [[] ? ? ? ? ? ?]. }
    assert (Hrows1 : block_rows sc1 = block_rows sc).
    { by destruct sc as [[] ? ? ? ? ? ?]. }
    assert (Hfiltered1 : num_rows_filtered sc1 = num_rows_filtered sc).
    { by destruct sc as [[] ? ? ? ? ? ?]. }
    destruct (ok (answer_status answer)) eqn:Hanswer; simpl.
    2:{ exists [answer]. split; [done|]. split; [done|]. by rewrite Hanswer. }
    rewrite ?Hskip1.
    destruct (Z.gtb_spec (_skip_lines (csv sc)) 0) as [Hskip|Hskip].
    { set (sc2 := set_skip_lines (_skip_lines (csv sc) - 1) sc1).
      assert (Hsetup2 : reader_setup sc2 = reader_setup sc).
      { rewrite <- Hsetup1. by destruct sc1 as [[] ? ? ? ? ? ?]. }
      destruct (IH sc2 rows) as (consumed & Hpending & Hsetup & Hok).
      exists (answer :: consumed). split; [by rewrite Hpending at 1|].
      split; [by rewrite Hsetup|].
      intros Hst. destruct (Hok Hst)
        as (new_rows & Hblock & Hlines & Hcount & Hfiltered & Hle & Hge).
      exists new_rows. cbv zeta. rewrite data_lines_skip by lia.
      replace (_skip_lines (csv sc2)) with (_skip_lines (csv sc) - 1)
        in Hlines, Hfiltered by (by destruct sc as [[] ? ? ? ? ? ?]).
      rewrite (filter_accepted_setup sc sc2) in Hlines, Hfiltered by done.
      replace (block_rows sc2) with (block_rows sc) in Hblock
        by (by destruct sc as [[] ? ? ? ? ? ?]).
      replace (num_rows_filtered sc2) with (num_rows_filtered sc) in Hfiltered
        by (by destruct sc as [[] ? ? ? ? ? ?]).
      done. }
    destruct (Nat.eqb_spec (length (answer_line answer)) 0) as [Hempty|Hline].
    { apply length_zero_iff_nil in Hempty.
      destruct (IH sc1 rows) as (consumed & Hpending & Hsetup & Hok).
      exists (answer :: consumed). split; [by rewrite Hpending at 1|].
      split; [by rewrite Hsetup|].
      intros Hst. destruct (Hok Hst)
        as (new_rows & Hblock & Hlines & Hcount & Hfiltered & Hle & Hge).
      exists new_rows. cbv zeta. rewrite data_lines_cons by lia.
      rewrite decide_True by done.
      rewrite Hskip1 in Hlines, Hfiltered.
      rewrite (filter_accepted_setup sc sc1) in Hlines, Hfiltered by done.
      rewrite Hrows1 in Hblock. rewrite Hfiltered1 in Hfiltered. done. }
    assert (Hnot_empty : answer_line answer ≠ []).
    { intros Hnil. by rewrite Hnil in Hline. }
    pose proof (fill_dest_columns_spec answer sc1 rows) as Hfill.
    destruct (_fill_dest_columns env answer sc1 rows) as [[status sc2] rows2].
    simpl in Hfill. destruct Hfill as [[Hsetup2 Hskip2] Hfill].
    destruct (ok status) eqn:Hst; simpl.
    2:{ exists [answer]. split; [done|]. split; [by rewrite Hsetup2|].
        by rewrite Hst. }
    specialize (Hfill eq_refl).
    destruct (IH sc2 rows2) as (consumed & Hpending & Hsetup & Hok).
    exists (answer :: consumed). split; [by rewrite Hpending at 1|].
    split; [by rewrite Hsetup, Hsetup2|].
    intros Hst'. destruct (Hok Hst')
      as (new_rows & Hblock & Hlines & Hcount & Hfiltered & Hle & Hge).
    cbv zeta. rewrite data_lines_cons by lia.
    rewrite decide_False by done.
    rewrite Hskip2, Hskip1 in Hlines, Hfiltered.
    rewrite (filter_accepted_setup sc sc2) in Hlines, Hfiltered
      by (by rewrite Hsetup2).
    destruct (line_accepted_setup sc sc1 answer Hsetup1) as [Haccepted _].
    rewrite Haccepted in Hfill.
    destruct (line_accepted env sc answer) eqn:Hacc.
    + destruct Hfill as (-> & Hfiltered2 & _ & _ & Hblock2).
      eexists (_ :: new_rows).
      split; [by rewrite Hblock, Hblock2, ?Hrows1, <- app_assoc|].
      rewrite filter_cons_True by done.
      rewrite filter_cons_False by (by rewrite Hacc).
      split; [by rewrite !fmap_cons, Hlines|].
      split; [simpl length; lia|].
      split; [by rewrite Hfiltered, Hfiltered2, ?Hfiltered1|].
      split; [intros; apply Hle; lia | done].
    + destruct Hfill as (-> & Hblock2 & _ & Hfiltered2 & _).
      exists new_rows.
      split; [by rewrite Hblock, Hblock2, ?Hrows1|].
      rewrite filter_cons_False by (by rewrite Hacc).
      rewrite filter_cons_True by done.
      split; [done|]. split; [done|].
      split; [simpl length; rewrite Hfiltered, Hfiltered2, ?Hfiltered1; lia|].
      split; [intros; apply Hle; lia | done].
Qed.

End CsvRowFacts.

Section CsvRowTheorems.

Import CsvRows.

Lemma append_error_msg_to_file_stop (lenv : LoadErrorEnv)
    (line error_msg : string) (s : RuntimeState) :
  let out :=
    RuntimeState.append_error_msg_to_file lenv line error_msg false s in
  ok out.1.1 = true →
  out.1.2
  = RuntimeState.is_LOAD (state_query_type s) && _load_zero_tolerance s
    && (MAX_ERROR_NUM <? _num_print_error_rows s)
  ∧ _num_print_error_rows out.2
    = (if RuntimeState.is_LOAD (state_query_type s)
       then wrap_int64 (_num_print_error_rows s + 1)
       else _num_print_error_rows s).
Proof.
  destruct s as [qt me bs log idx file path printed rown tol].
  unfold RuntimeState.append_error_msg_to_file,
    RuntimeState.create_error_log_file, RuntimeState.write_line. simpl.
  destruct qt; simpl; try done.
  destruct file as [[open lines]|]; simpl;
    [|destruct (error_file_opens lenv); simpl; [|done]].
  all: rewrite andb_true_r, Z.gtb_ltb;
    destruct (MAX_ERROR_NUM <? printed); simpl;
    [by rewrite andb_true_r|rewrite andb_false_r];
    repeat case_match; done.
Qed.

(** X24. One batch of [get_next_block].  A reader already at the end of
    its file reports [eof] and reads nothing.  Otherwise the answers taken
    from the line reader are a prefix of those it had; when the call returns
    OK, the lines among them that are past the skipped ones and not empty
    are each either turned into a row or counted as filtered: the accepted
    ones are the rows added to the block, in their order, [read_rows] is
    their number and [eof] tells whether there is none.  The batch never
    exceeds the batch size, and it is full unless the end-of-file flag is
    up. *)
Theorem csv_get_next_block_batch (env : CsvReadEnv)
    (pending : list LineAnswer) (sc : CsvScan) (read_rows : Z) (eof : bool) :
  let out := get_next_block env pending sc read_rows eof in
  let status := out.1.1.1.1 in
  let sc' := out.1.1.1.2 in
  let bound :=
    Z.max (batch_size (_state sc)) (wrap32 (_MIN_BATCH_SIZE env))
    mod 2 ^ 64 in
  (_line_reader_eof (csv sc) = true →
   out = (Status_OK, sc, read_rows, true, pending))
  ∧ ∃ consumed,
      pending = consumed ++ out.2
      ∧ reader_setup sc' = reader_setup sc
      ∧ (_line_reader_eof (csv sc) = false → ok status = true →
         let lines := data_lines (_skip_lines (csv sc)) consumed in
         ∃ new_rows,
           block_rows sc' = block_rows sc ++ new_rows
           ∧ written_line <$> new_rows
             = answer_line
               <$> filter (λ answer, line_accepted env sc answer = true) lines
           ∧ out.1.1.2 = Z.of_nat (length new_rows)
           ∧ out.1.2 = bool_decide (new_rows = [])
           ∧ num_rows_filtered sc'
             = num_rows_filtered sc
               + Z.of_nat
                   (length
                      (filter (λ answer, line_accepted env sc answer = false)
                         lines))
           ∧ out.1.1.2 <= bound
           ∧ (_line_reader_eof (csv sc') = false → out.1.1.2 = bound)).
Proof.
  cbv zeta. unfold get_next_block.
  destruct (_line_reader_eof (csv sc)) eqn:Heof.
  { split; [done|]. exists []. by repeat split. }
  split; [done|].
  pose proof (read_rows_loop_spec env
                (Z.max (batch_size (_state sc)) (wrap32 (_MIN_BATCH_SIZE env)))
                pending sc 0) as Hloop.
  destruct (read_rows_loop env _ pending sc 0) as [[[status sc1] rows] rest].
  simpl in Hloop. destruct Hloop as (consumed & Hpending & Hsetup & Hok).
  exists consumed.
  destruct (ok status) eqn:Hst; simpl.
  2:{ split; [done|]. split; [done|]. intros _. by rewrite Hst. }
  split; [done|]. split; [done|]. intros _ _.
  destruct (Hok eq_refl)
    as (new_rows & Hblock & Hlines & Hcount & Hfiltered & Hle & Hge).
  exists new_rows. split; [done|]. split; [done|]. split; [lia|].
  split.
  { rewrite Hcount. destruct new_rows as [|row new_rows]; [done|].
    rewrite bool_decide_eq_false_2 by done. apply Z.eqb_neq.
    simpl length. lia. }
  split; [done|].
  assert (Hbound : 0 <= Z.max (batch_size (_state sc))
                          (wrap32 (_MIN_BATCH_SIZE env)) mod 2 ^ 64).
  { apply Z.mod_pos_bound. lia. }
  split; [apply Hle; lia|]. intros Hflag. specialize (Hge Hflag).
  specialize (Hle Hbound). lia.
Qed.

(** X25. The row [_fill_dest_columns] writes for an accepted line.  The
    row has one cell for every file slot.  The cell of slot [i] holds the
    value at [_col_idxs[i]] when the line has that many values and the null
    slice [\N] otherwise, also for a negative index; it goes to column [i] for
    a load and to the column [_file_slot_idx_map[i]] for a query.  For a load
    set up by [init_reader], whose indices are 0, 1, 2, ..., the cells are
    exactly the values of the line and the null slice is never written. *)
Theorem fill_dest_columns_row (env : CsvReadEnv) (answer : LineAnswer)
    (sc : CsvScan) (rows : Z) :
  let out := _fill_dest_columns env answer sc rows in
  let values := split_values_of sc answer in
  ok out.1.1 = true → line_accepted env sc answer = true →
  Z.of_nat (length values) < 2 ^ 63 →
  ∃ cells,
    block_rows out.1.2
    = block_rows sc ++ [mkWrittenRow (answer_line answer) cells]
    ∧ out.2 = rows + 1
    ∧ length cells = file_slot_count sc
    ∧ (∀ i cell idx,
         cells !! i = Some cell → _col_idxs (csv sc) !! i = Some idx →
         - 2 ^ 31 <= idx < 2 ^ 31 →
         cell_value cell
         = if idx <? 0 then _s_null_slice
           else default _s_null_slice (values !! Z.to_nat idx))
    ∧ (∀ i cell position,
         cells !! i = Some cell →
         _file_slot_idx_map (csv sc) !! i = Some position →
         cell_column cell
         = if _is_load (csv sc) then Z.of_nat i else position)
    ∧ (_is_load (csv sc) = true →
       _col_idxs (csv sc) = Z.of_nat <$> seq 0 (file_slot_count sc) →
       cell_value <$> cells = values).
Proof.
  intros out values Hok Haccepted Hlen.
  destruct (fill_dest_columns_spec env answer sc rows) as [_ Hfill].
  fold out in Hfill. specialize (Hfill Hok). rewrite Haccepted in Hfill.
  destruct Hfill as (Hrows & _ & _ & _ & Hblock).
  eexists. split; [exact Hblock|]. split; [exact Hrows|].
  set (sc1 := set_split_values (split_values_of sc answer) sc).
  assert (Hvalues : _split_values sc1 = values) by done.
  assert (Hidxs : _col_idxs (csv sc1) = _col_idxs (csv sc)) by done.
  split; [by rewrite length_fmap, length_seq|].
  split; [|split].
  - intros i cell idx Hcell Hidx Hrange.
    rewrite list_lookup_fmap in Hcell.
    destruct (seq 0 (file_slot_count sc) !! i) as [j|] eqn:Hj; [|done].
    apply lookup_seq in Hj as [-> Hi]. injection Hcell as <-. simpl.
    unfold slot_value. rewrite Hvalues, Hidxs.
    rewrite (nth_lookup_Some _ _ 0 _ Hidx).
    destruct (Z.ltb_spec idx 0) as [Hneg|Hpos].
    + rewrite <- (Z.mod_add idx 1 (2 ^ 64)) by lia.
      rewrite Z.mod_small by lia.
      by destruct (Z.ltb_spec (idx + 1 * 2 ^ 64) (Z.of_nat (length values)));
        [lia|].
    + rewrite Z.mod_small by lia.
      destruct (Z.ltb_spec idx (Z.of_nat (length values))).
      * by rewrite nth_lookup.
      * by rewrite lookup_ge_None_2 by lia.
  - intros i cell position Hcell Hposition.
    rewrite list_lookup_fmap in Hcell.
    destruct (seq 0 (file_slot_count sc) !! i) as [j|] eqn:Hj; [|done].
    apply lookup_seq in Hj as [-> Hi]. injection Hcell as <-. simpl.
    unfold slot_column. destruct (_is_load (csv sc)); [done|].
    by apply nth_lookup_Some.
  - intros Hload Hseq.
    assert (Hcount : length values = file_slot_count sc).
    { unfold line_accepted in Haccepted. rewrite Hload in Haccepted.
      apply andb_true_iff in Haccepted as [_ Hcount].
      by apply Nat.eqb_eq in Hcount. }
    rewrite <- list_fmap_compose. apply list_eq. intros i.
    rewrite list_lookup_fmap.
    destruct (decide (i < file_slot_count sc)%nat) as [Hi|Hi].
    + rewrite lookup_seq_lt by done. simpl.
      unfold slot_value. rewrite Hvalues, Hidxs, Hseq.
      assert (Hnth : nth i (Z.of_nat <$> seq 0 (file_slot_count sc)) 0
                     = Z.of_nat i).
      { apply nth_lookup_Some. rewrite list_lookup_fmap.
        by rewrite lookup_seq_lt. }
      rewrite Hnth, Z.mod_small by lia.
      destruct (Z.ltb_spec (Z.of_nat i) (Z.of_nat (length values))); [|lia].
      rewrite Nat2Z.id.
      destruct (lookup_lt_is_Some_2 values i) as [v Hv]; [lia|].
      rewrite Hv. f_equal. by apply nth_lookup_Some.
    + rewrite lookup_seq_ge by lia. simpl. symmetry.
      apply lookup_ge_None_2. lia.
Qed.

(** X26. A filtered line overwrites the end-of-file flag.  When
    [_fill_dest_columns] filters a line, no row is written, the line is
    counted, and the end-of-file flag no longer holds what the line reader
    reported: it is up exactly when the query is a load with zero tolerance
    whose error-row counter has passed [MAX_ERROR_NUM], so that
    [get_next_block] stops reading, and down otherwise, so that reading goes
    on even if the line reader had reported the end of the file. *)
Theorem filtered_line_overwrites_eof (env : CsvReadEnv) (answer : LineAnswer)
    (sc : CsvScan) (rows : Z) :
  let out := _fill_dest_columns env answer sc rows in
  let s := _state sc in
  ok out.1.1 = true → line_accepted env sc answer = false →
  _line_reader_eof (csv out.1.2)
  = RuntimeState.is_LOAD (state_query_type s) && _load_zero_tolerance s
    && (MAX_ERROR_NUM <? _num_print_error_rows s)
  ∧ out.2 = rows
  ∧ block_rows out.1.2 = block_rows sc
  ∧ num_rows_filtered out.1.2 = num_rows_filtered sc + 1
  ∧ _is_load (csv sc) = true
  ∧ _num_print_error_rows (_state out.1.2)
    = (if RuntimeState.is_LOAD (state_query_type s)
       then wrap_int64 (_num_print_error_rows s + 1)
       else _num_print_error_rows s).
Proof.
  intros out s Hok Hrejected.
  destruct (fill_dest_columns_spec env answer sc rows) as [_ Hfill].
  fold out in Hfill. specialize (Hfill Hok). rewrite Hrejected in Hfill.
  destruct Hfill as (Hrows & Hblock & Hload & Hfiltered & line & msg & Heff).
  pose proof (append_error_msg_to_file_stop (load_error_env env) line msg s)
    as Hstop.
  fold s in Heff. rewrite <- Heff in Hstop. simpl in Hstop.
  destruct (Hstop eq_refl) as [Hflag Hprinted].
  by repeat split.
Qed.

End CsvRowTheorems.

(** * Properties of the CSV reader's schema path *)

Section CsvSchemaTheorems.

Import CsvSchema.

(** The header of the file names its columns. *)
Let header_has_names (p : CsvScanParams) : bool :=
  isset_file_attributes p && isset_header_type p
  && (0 <? Z.of_nat (String.length (header_type p)))
  && (String.eqb (CsvReader.to_lower (header_type p)) CsvReader.CSV_WITH_NAMES
      || String.eqb (CsvReader.to_lower (header_type p))
           CsvReader.CSV_WITH_NAMES_AND_TYPES).

Lemma read_first_line_spec (env : CsvSchemaEnv) (what : string)
    (pending : list LineAnswer) (sc : CsvScan) :
  let out := read_first_line env what pending sc in
  ok out.1.1.1 = true →
  pending = out.1.1.2 :: out.2
  ∧ answer_line out.1.1.2 ≠ []
  ∧ schema_validate_utf8 env (answer_line out.1.1.2) = true
  ∧ CsvSplit._split_line (answer_stray out.1.1.2) (answer_line out.1.1.2)
      (text_params sc) (_file_format_type (csv sc))
      (answer_proto_row out.1.1.2)
    = Some (_split_values out.1.2).
Proof.
  unfold read_first_line.
  destruct pending as [|answer rest]; simpl; [done|].
  destruct (ok (answer_status answer)) eqn:Hst; simpl; [|by rewrite Hst].
  destruct (Nat.eqb_spec (length (answer_line answer)) 0) as [Hempty|Hline];
    simpl; [done|].
  destruct (schema_validate_utf8 env (answer_line answer)) eqn:Hutf8; simpl;
    [|done].
  intros _. split; [done|].
  split; [by intros Hnil; rewrite Hnil in Hline|]. split; [done|].
  unfold CsvRows.split_line_values.
  destruct (split_line_is_Some (answer_stray answer) (answer_line answer)
              (text_params sc) (_file_format_type (csv sc))
              (answer_proto_row answer)) as [values Hvalues].
  destruct sc as [[] ? ? ? ? ? ?]. simpl in *. by rewrite Hvalues.
Qed.

Lemma prepare_parse_spec (env : CsvSchemaEnv) (attrs : CsvTextAttributes)
    (sc : CsvScan) (read_line : Z) (is_parse_name : bool) :
  let out := _prepare_parse env attrs sc read_line is_parse_name in
  (range_start_offset (_params (csv sc)) ≠ 0 →
   out = (start_offset_not_zero env, read_line, is_parse_name, sc))
  ∧ (ok out.1.1.1 = true →
     out.1.2 = header_has_names (_params (csv sc))
     ∧ (out.1.1.2 = 1 ∨ (out.1.1.2 = 2 ∧ out.1.2 = true))
     ∧ text_params out.2
       = mkCsvTextParams (column_separator attrs)
           (_trim_double_quotes (text_params sc))
           (trim_tailing_spaces (text_params sc))
     ∧ _file_format_type (csv out.2) = _file_format_type (csv sc)).
Proof.
  cbv zeta. unfold _prepare_parse, header_has_names.
  destruct (Z.eqb_spec (range_start_offset (_params (csv sc))) 0)
    as [Hzero|Hoffset]; simpl; [|done].
  split; [done|].
  destruct (is_FILE_STREAM _ || is_FILE_BROKER _); simpl; [done|].
  match goal with
  | |- context [let '(_, _) := ?kind in _] =>
    destruct kind as [read_line1 is_parse_name1] eqn:Hkind
  end.
  assert (Hheader :
    is_parse_name1
    = isset_file_attributes (_params (csv sc))
      && isset_header_type (_params (csv sc))
      && (0 <? Z.of_nat (String.length (header_type (_params (csv sc)))))
      && (String.eqb (CsvReader.to_lower (header_type (_params (csv sc))))
            CsvReader.CSV_WITH_NAMES
          || String.eqb (CsvReader.to_lower (header_type (_params (csv sc))))
               CsvReader.CSV_WITH_NAMES_AND_TYPES)
    ∧ (read_line1 = 1 ∨ (read_line1 = 2 ∧ is_parse_name1 = true))).
  { revert Hkind. destruct (_ && _ && _); simpl.
    - destruct (String.eqb _ CsvReader.CSV_WITH_NAMES); simpl.
      + intros [= <- <-]. split; [done|by left].
      + destruct (String.eqb _ CsvReader.CSV_WITH_NAMES_AND_TYPES); simpl.
        * intros [= <- <-]. split; [done|by right].
        * intros [= <- <-]. split; [done|by left].
    - intros [= <- <-]. split; [done|by left]. }
  clear Hkind. destruct Hheader as [Hnames Hlines].
  destruct (ok (create_reader_status (schema_file_env env))) eqn:Hreader;
    simpl; [|by rewrite Hreader].
  destruct ((file_reader_size _ =? 0) && _ && _); simpl; [done|].
  destruct (ok (create_decompressor_status (schema_file_env env)))
    eqn:Hdecompressor; simpl; [|by rewrite Hdecompressor].
  intros _. split; [done|]. split; [done|].
  by destruct sc as [[] ? ? ? ? ? ?].
Qed.

(** X27. The schema [get_parsed_schema] finds.  A scan range that does
    not start at offset 0 is refused before anything is read or changed.  When
    the call returns OK it has read exactly one line, also for a file with a
    names line and a types line; the line is not empty and valid UTF-8 and was
    split with [_split_line] on the column separator of the scan range.  The
    names appended are the values of that line when the header kind announces
    names, and [c1], [c2], ... one for each value otherwise.  The types
    appended are string types, one for every name the vector now holds,
    including the names it held before the call. *)
Theorem get_parsed_schema_result (env : CsvSchemaEnv)
    (attrs : CsvTextAttributes) (pending : list LineAnswer) (sc : CsvScan)
    (col_names : list string) (col_types : list TypeDescriptor) :
  let out := get_parsed_schema env attrs pending sc col_names col_types in
  let status := out.1.1.1.1 in
  let col_names' := out.1.1.1.2 in
  let col_types' := out.1.1.2 in
  let sc' := out.1.2 in
  (range_start_offset (_params (csv sc)) ≠ 0 →
   out = (start_offset_not_zero env, col_names, col_types, sc, pending))
  ∧ (ok status = true →
     ∃ answer values,
       pending = answer :: out.2
       ∧ answer_line answer ≠ []
       ∧ schema_validate_utf8 env (answer_line answer) = true
       ∧ CsvSplit._split_line (answer_stray answer) (answer_line answer)
           (mkCsvTextParams (column_separator attrs)
              (_trim_double_quotes (text_params sc))
              (trim_tailing_spaces (text_params sc)))
           (_file_format_type (csv sc)) (answer_proto_row answer)
         = Some values
       ∧ _split_values sc' = values
       ∧ col_names'
         = col_names
           ++ (if header_has_names (_params (csv sc))
               then slice_to_string answer <$> values
               else default_col_names (length values))
       ∧ col_types'
         = col_types ++ replicate (length col_names') TYPE_STRING).
Proof.
  cbv zeta. unfold get_parsed_schema.
  pose proof (prepare_parse_spec env attrs sc 0 false) as Hprepare.
  destruct (_prepare_parse env attrs sc 0 false)
    as [[[status read_line] is_parse_name] sc1].
  simpl in Hprepare. destruct Hprepare as [Hoffset Hprepared].
  split.
  { intros Hne. by injection (Hoffset Hne) as -> -> -> ->. }
  destruct (ok status) eqn:Hst; simpl; [|by rewrite Hst].
  destruct (Hprepared eq_refl) as (-> & Hlines & Htext & Hfmt).
  assert (Hnames : ∀ what,
    let first := read_first_line env what pending sc1 in
    ok first.1.1.1 = true →
    pending = first.1.1.2 :: first.2
    ∧ answer_line first.1.1.2 ≠ []
    ∧ schema_validate_utf8 env (answer_line first.1.1.2) = true
    ∧ CsvSplit._split_line (answer_stray first.1.1.2)
        (answer_line first.1.1.2)
        (mkCsvTextParams (column_separator attrs)
           (_trim_double_quotes (text_params sc))
           (trim_tailing_spaces (text_params sc)))
        (_file_format_type (csv sc)) (answer_proto_row first.1.1.2)
      = Some (_split_values first.1.2)).
  { intros what first Hok. rewrite <- Htext, <- Hfmt.
    by apply read_first_line_spec. }
  clear Htext Hfmt Hprepared Hoffset.
  assert (Hby_names :
    let named := _parse_col_names env pending sc1 col_names in
    ok named.1.1.1 = true →
    ∃ answer values,
      pending = answer :: named.2
      ∧ answer_line answer ≠ []
      ∧ schema_validate_utf8 env (answer_line answer) = true
      ∧ CsvSplit._split_line (answer_stray answer) (answer_line answer)
          (mkCsvTextParams (column_separator attrs)
             (_trim_double_quotes (text_params sc))
             (trim_tailing_spaces (text_params sc)))
          (_file_format_type (csv sc)) (answer_proto_row answer)
        = Some values
      ∧ _split_values named.1.2 = values
      ∧ named.1.1.2 = col_names ++ (slice_to_string answer <$> values)).
  { unfold _parse_col_names.
    specialize (Hnames "names"%string).
    destruct (read_first_line env "names" pending sc1)
      as [[[status1 answer] sc2] rest].
    simpl in Hnames.
    destruct (ok status1) eqn:Hst1; simpl; [|by rewrite Hst1].
    intros _. destruct (Hnames eq_refl) as (Hpending & Hline & Hutf8 & Hsplit).
    by exists answer, (_split_values sc2). }
  destruct (header_has_names (_params (csv sc))) eqn:Hheader; cbn [negb].
  - destruct (_parse_col_names env pending sc1 col_names)
      as [[[status1 col_names1] sc2] rest].
    simpl in Hby_names.
    destruct Hlines as [-> | [-> _]].
    + change (1 =? 1) with true. cbv iota.
      destruct (ok status1) eqn:Hst1; simpl; [|by rewrite Hst1].
      intros _.
      destruct (Hby_names eq_refl)
        as (answer & values & Hp & Hl & Hu & Hs & Hv & Hn).
      exists answer, values. by rewrite Hn.
    + change (2 =? 1) with false. cbv iota. unfold _parse_col_types.
      destruct (ok status1) eqn:Hst1; simpl; [|by rewrite Hst1].
      intros _.
      destruct (Hby_names eq_refl)
        as (answer & values & Hp & Hl & Hu & Hs & Hv & Hn).
      exists answer, values. by rewrite Hn.
  - destruct Hlines as [-> | [_ [=]]].
    change (1 =? 1) with true. cbv iota.
    unfold _parse_col_nums.
    specialize (Hnames "numbers"%string).
    destruct (read_first_line env "numbers" pending sc1)
      as [[[status1 answer] sc2] rest].
    simpl in Hnames.
    destruct (ok status1) eqn:Hst1; simpl; repeat (rewrite Hst1; simpl);
      [|done].
    intros _.
    destruct (Hnames eq_refl) as (Hpending & Hline & Hutf8 & Hsplit).
    exists answer, (_split_values sc2). by rewrite Nat2Z.id.
Qed.

End CsvSchemaTheorems.

(** * Properties of the parquet reader's column classification *)

Section FillColumnsFacts.

Context {PartitionValue MissingValue : Type}.

Local Abbreviation Ctx := (LazyReadContext PartitionValue MissingValue).

Ltac ctx_simpl :=
  cbn [all_read_columns lazy_read_columns predicate_columns_first
       predicate_columns_second all_predicate_col_ids vconjunct_root
       resize_first_column partition_columns predicate_partition_columns
       missing_columns predicate_missing_columns can_lazy_read
       fmap option_fmap option_map fst snd app].

Variable predicate_columns : gmap string (Z * Z).

Lemma emplace_union `{Countable K} {V : Type} (k : K) (v : V)
    (m : gmap K V) :
  emplace k v m = m ∪ {[k := v]}.
Proof.
  unfold emplace. apply map_eq. intros i.
  destruct (m !! k) as [x|] eqn:Hk.
  - symmetry. rewrite lookup_union. destruct (decide (i = k)) as [->|Hne].
    + by rewrite Hk, lookup_singleton_eq.
    + rewrite lookup_singleton_ne by done. by destruct (m !! i).
  - rewrite lookup_union. destruct (decide (i = k)) as [->|Hne].
    + by rewrite lookup_insert_eq, Hk, lookup_singleton_eq.
    + rewrite lookup_insert_ne, lookup_singleton_ne by done.
      by destruct (m !! i).
Qed.

Lemma emplace_all_union {V : Type} (from into : gmap string V) :
  emplace_all from into = into ∪ from.
Proof.
  unfold emplace_all.
  rewrite <- (list_to_map_to_list from) at 2.
  pose proof (NoDup_fst_map_to_list from) as Hnodup.
  revert into Hnodup.
  induction (map_to_list from) as [|[k v] l IH]; intros into Hnodup.
  { simpl. by rewrite (right_id_L ∅ (∪)). }
  simpl in *. apply NoDup_cons in Hnodup as [Hk Hnodup].
  rewrite IH, emplace_union by done.
  rewrite <- (assoc_L (∪)). f_equal.
  by rewrite insert_union_singleton_l.
Qed.

Lemma read_columns_loop_spec (schema_column_type : string → PrimitiveType)
    (read_columns : list ParquetReadColumn) (ctx : Ctx)
    (has_complex_type : bool) :
  let out :=
    read_columns_loop schema_column_type predicate_columns read_columns ctx
      has_complex_type in
  let names := _file_slot_name <$> read_columns in
  let some := 0 <? Z.of_nat (size predicate_columns) in
  all_read_columns out.1 = all_read_columns ctx ++ names
  ∧ lazy_read_columns out.1
    = lazy_read_columns ctx
      ++ (if some then filter (λ n, predicate_columns !! n = None) names
          else [])
  ∧ predicate_columns_first out.1
    = predicate_columns_first ctx
      ++ (if some then filter (λ n, is_Some (predicate_columns !! n)) names
          else [])
  ∧ predicate_columns_second out.1
    = predicate_columns_second ctx
      ++ (if some then omap (λ n, snd <$> predicate_columns !! n) names
          else [])
  ∧ all_predicate_col_ids out.1
    = all_predicate_col_ids ctx
      ++ (if some then omap (λ n, fst <$> predicate_columns !! n) names
          else [])
  ∧ out.2
    = has_complex_type
      || existsb (λ n, is_complex_type (schema_column_type n)) names
  ∧ vconjunct_root out.1 = vconjunct_root ctx
  ∧ resize_first_column out.1 = resize_first_column ctx
  ∧ partition_columns out.1 = partition_columns ctx
  ∧ predicate_partition_columns out.1 = predicate_partition_columns ctx
  ∧ missing_columns out.1 = missing_columns ctx
  ∧ predicate_missing_columns out.1 = predicate_missing_columns ctx
  ∧ can_lazy_read out.1 = can_lazy_read ctx.
Proof.
  revert ctx has_complex_type.
  induction read_columns as [|[id name] rest IH]; intros ctx has_complex_type.
  { simpl. rewrite !app_nil_r, orb_false_r.
    destruct (0 <? _); by rewrite ?app_nil_r. }
  cbn [read_columns_loop]. cbv zeta.
  match goal with
  | |- context [read_columns_loop _ _ rest ?c ?h] =>
    destruct (IH c h)
      as (Hall & Hlazy & Hfirst & Hsecond & Hids & Hcomplex & Hroot & Hresize
          & Hpart & Hppart & Hmiss & Hpmiss & Hcan)
  end.
  rewrite Hall, Hlazy, Hfirst, Hsecond, Hids, Hcomplex, Hroot, Hresize, Hpart,
    Hppart, Hmiss, Hpmiss, Hcan.
  clear IH Hall Hlazy Hfirst Hsecond Hids Hcomplex Hroot Hresize Hpart Hppart
    Hmiss Hpmiss Hcan.
  rewrite fmap_cons. cbn [_file_slot_name existsb omap list_omap].
  destruct (0 <? Z.of_nat (size predicate_columns)).
  - destruct (predicate_columns !! name) as [[col_id slot_id]|] eqn:Hname;
      ctx_simpl.
    + rewrite filter_cons_False by (by rewrite Hname).
      rewrite filter_cons_True by (by rewrite Hname).
      rewrite ?Hname. ctx_simpl. rewrite <- !app_assoc. ctx_simpl.
      repeat split; try done.
      by destruct (is_complex_type _), has_complex_type.
    + rewrite filter_cons_True by done.
      rewrite filter_cons_False by (rewrite Hname; by intros [? ?]).
      rewrite ?Hname. ctx_simpl. rewrite <- !app_assoc. ctx_simpl.
      repeat split; try done.
      by destruct (is_complex_type _), has_complex_type.
  - ctx_simpl. rewrite <- !app_assoc. ctx_simpl. repeat split; try done.
    by destruct (is_complex_type _), has_complex_type.
Qed.

Lemma partition_columns_loop_spec (columns : list (string * PartitionValue))
    (ctx : Ctx) :
  NoDup columns.*1 →
  let out := partition_columns_loop predicate_columns columns ctx in
  partition_columns out
  = partition_columns ctx
    ∪ filter (λ kv, predicate_columns !! kv.1 = None) (list_to_map columns)
  ∧ predicate_partition_columns out
    = predicate_partition_columns ctx
      ∪ filter (λ kv, is_Some (predicate_columns !! kv.1))
          (list_to_map columns)
  ∧ all_predicate_col_ids out
    = all_predicate_col_ids ctx
      ++ omap (λ kv, fst <$> predicate_columns !! kv.1) columns
  ∧ all_read_columns out = all_read_columns ctx
  ∧ lazy_read_columns out = lazy_read_columns ctx
  ∧ predicate_columns_first out = predicate_columns_first ctx
  ∧ predicate_columns_second out = predicate_columns_second ctx
  ∧ vconjunct_root out = vconjunct_root ctx
  ∧ resize_first_column out = resize_first_column ctx
  ∧ missing_columns out = missing_columns ctx
  ∧ predicate_missing_columns out = predicate_missing_columns ctx
  ∧ can_lazy_read out = can_lazy_read ctx.
Proof.
  revert ctx. induction columns as [|[name value] rest IH]; intros ctx Hnodup.
  { simpl. rewrite !map_filter_empty, !(right_id_L ∅ (∪)), app_nil_r.
    by repeat split. }
  simpl in Hnodup. apply NoDup_cons in Hnodup as [Hname Hnodup].
  assert (Hfresh : (list_to_map rest : gmap string PartitionValue) !! name
                   = None).
  { by apply not_elem_of_list_to_map_1. }
  cbn [partition_columns_loop].
  match goal with
  | |- context [partition_columns_loop _ rest ?c] =>
    destruct (IH c Hnodup)
      as (Hpart & Hppart & Hids & Hall & Hlazy & Hfirst & Hsecond & Hroot
          & Hresize & Hmiss & Hpmiss & Hcan)
  end.
  cbv zeta.
  rewrite Hpart, Hppart, Hids, Hall, Hlazy, Hfirst, Hsecond, Hroot, Hresize,
    Hmiss, Hpmiss, Hcan.
  clear IH Hpart Hppart Hids Hall Hlazy Hfirst Hsecond Hroot Hresize Hmiss
    Hpmiss Hcan.
  cbn [list_to_map foldr omap list_omap fst snd uncurry].
  destruct (predicate_columns !! name) as [[col_id slot_id]|] eqn:Hpred;
    ctx_simpl.
  - rewrite map_filter_insert_False by (cbn; by rewrite Hpred).
    rewrite map_filter_insert_True by (cbn; by rewrite Hpred).
    rewrite delete_id by done.
    rewrite emplace_union, <- (assoc_L (∪)), <- insert_union_singleton_l.
    rewrite ?Hpred. ctx_simpl. rewrite <- app_assoc. by repeat split.
  - rewrite map_filter_insert_True by (cbn; by rewrite Hpred).
    rewrite map_filter_insert_False by (cbn; rewrite Hpred; by intros [? ?]).
    rewrite delete_id by done.
    rewrite emplace_union, <- (assoc_L (∪)), <- insert_union_singleton_l.
    rewrite ?Hpred. by repeat split.
Qed.

Lemma missing_columns_loop_spec (columns : list (string * MissingValue))
    (ctx : Ctx) :
  NoDup columns.*1 →
  let out := missing_columns_loop predicate_columns columns ctx in
  missing_columns out
  = missing_columns ctx
    ∪ filter (λ kv, predicate_columns !! kv.1 = None) (list_to_map columns)
  ∧ predicate_missing_columns out
    = predicate_missing_columns ctx
      ∪ filter (λ kv, is_Some (predicate_columns !! kv.1))
          (list_to_map columns)
  ∧ all_predicate_col_ids out
    = all_predicate_col_ids ctx
      ++ omap (λ kv, fst <$> predicate_columns !! kv.1) columns
  ∧ all_read_columns out = all_read_columns ctx
  ∧ lazy_read_columns out = lazy_read_columns ctx
  ∧ predicate_columns_first out = predicate_columns_first ctx
  ∧ predicate_columns_second out = predicate_columns_second ctx
  ∧ vconjunct_root out = vconjunct_root ctx
  ∧ resize_first_column out = resize_first_column ctx
  ∧ partition_columns out = partition_columns ctx
  ∧ predicate_partition_columns out = predicate_partition_columns ctx
  ∧ can_lazy_read out = can_lazy_read ctx.
Proof.
  revert ctx. induction columns as [|[name value] rest IH]; intros ctx Hnodup.
  { simpl. rewrite !map_filter_empty, !(right_id_L ∅ (∪)), app_nil_r.
    by repeat split. }
  simpl in Hnodup. apply NoDup_cons in Hnodup as [Hname Hnodup].
  assert (Hfresh : (list_to_map rest : gmap string MissingValue) !! name
                   = None).
  { by apply not_elem_of_list_to_map_1. }
  cbn [missing_columns_loop].
  match goal with
  | |- context [missing_columns_loop _ rest ?c] =>
    destruct (IH c Hnodup)
      as (Hmiss & Hpmiss & Hids & Hall & Hlazy & Hfirst & Hsecond & Hroot
          & Hresize & Hpart & Hppart & Hcan)
  end.
  cbv zeta.
  rewrite Hpart, Hppart, Hids, Hall, Hlazy, Hfirst, Hsecond, Hroot, Hresize,
    Hmiss, Hpmiss, Hcan.
  clear IH Hpart Hppart Hids Hall Hlazy Hfirst Hsecond Hroot Hresize Hmiss
    Hpmiss Hcan.
  cbn [list_to_map foldr omap list_omap fst snd uncurry].
  destruct (predicate_columns !! name) as [[col_id slot_id]|] eqn:Hpred;
    ctx_simpl.
  - rewrite map_filter_insert_False by (cbn; by rewrite Hpred).
    rewrite map_filter_insert_True by (cbn; by rewrite Hpred).
    rewrite delete_id by done.
    rewrite emplace_union, <- (assoc_L (∪)), <- insert_union_singleton_l.
    rewrite ?Hpred. ctx_simpl. rewrite <- app_assoc. by repeat split.
  - rewrite map_filter_insert_True by (cbn; by rewrite Hpred).
    rewrite map_filter_insert_False by (cbn; rewrite Hpred; by intros [? ?]).
    rewrite delete_id by done.
    rewrite emplace_union, <- (assoc_L (∪)), <- insert_union_singleton_l.
    rewrite ?Hpred. by repeat split.
Qed.

Lemma filter_predicate_split {V : Type} (m : gmap string V) :
  filter (λ kv, predicate_columns !! kv.1 = None) m
  ∪ filter (λ kv, is_Some (predicate_columns !! kv.1)) m
  = m.
Proof.
  apply map_eq. intros k. rewrite lookup_union.
  destruct (m !! k) as [v|] eqn:Hk.
  - destruct (predicate_columns !! k) as [p|] eqn:Hp.
    + rewrite (map_lookup_filter_None_2 _ _ k), (map_lookup_filter_Some_2 _ _ k v);
        [done | done | by simpl; rewrite Hp |].
      right. intros v' _. simpl. by rewrite Hp.
    + rewrite (map_lookup_filter_Some_2 _ _ k v) by done.
      rewrite (map_lookup_filter_None_2 _ _ k); [done|].
      right. intros v' _. simpl. rewrite Hp. by intros [? ?].
  - rewrite !(map_lookup_filter_None_2 _ _ k) by (by left). done.
Qed.

Lemma length_omap_predicate {A B : Type} (key : A → string)
    (pick : Z * Z → B) (l : list A) :
  length (omap (λ x, pick <$> predicate_columns !! key x) l)
  = length (filter (λ x, is_Some (predicate_columns !! key x)) l).
Proof.
  induction l as [|x l IH]; [done|]. cbn [omap list_omap].
  destruct (predicate_columns !! key x) as [p|] eqn:Hp; simpl.
  - rewrite filter_cons_True by (by rewrite Hp). simpl. by rewrite <- IH.
  - rewrite filter_cons_False by (rewrite Hp; by intros [? ?]). done.
Qed.

Lemma size_filter_predicate {V : Type} (m : gmap string V) :
  size (filter (λ kv, is_Some (predicate_columns !! kv.1)) m)
  = length (omap (λ kv : string * V, fst <$> predicate_columns !! kv.1)
              (map_to_list m)).
Proof.
  rewrite (length_omap_predicate (λ kv : string * V, kv.1) fst).
  rewrite map_filter_alt, map_size_list_to_map; [done|].
  apply (NoDup_fmap_fst _).
  - intros k v1 v2 Hv1 Hv2.
    apply list_elem_of_filter in Hv1 as [_ Hv1].
    apply list_elem_of_filter in Hv2 as [_ Hv2].
    apply elem_of_map_to_list in Hv1, Hv2. congruence.
  - apply NoDup_filter, NoDup_map_to_list.
Qed.

End FillColumnsFacts.

Section FillColumnsTheorems.

Context {PartitionValue MissingValue : Type}.

(** X28. How [set_fill_columns] classifies columns on a fresh context.
    Every read column is listed in [all_read_columns]; the ones the conjuncts
    refer to are the predicate columns, in reading order and with their slot
    ids, and when there is any such reference the others are the lazy
    columns.  Lazy reading is switched on exactly when no read column has a
    complex type and both lists are non-empty.  No partition column and no
    missing column is lost: those the conjuncts refer to are kept in the
    predicate maps; the plain maps hold the others when lazy reading is on and
    all of them when it is off.  One column id is recorded for every
    predicate column of the three kinds. *)
Theorem set_fill_columns_classifies
    (_table_col_to_file_col : gmap string string)
    (schema_column_type : string → PrimitiveType)
    (partitions : gmap string PartitionValue)
    (missing : gmap string MissingValue)
    (read_columns : list ParquetReadColumn) (root : option VExpr)
    (has_complex_type : bool) :
  let predicate_columns := predicate_columns_of _table_col_to_file_col root in
  let referred := λ name : string, is_Some (predicate_columns !! name) in
  let names := _file_slot_name <$> read_columns in
  let out :=
    set_fill_columns _table_col_to_file_col schema_column_type partitions
      missing read_columns (fresh_lazy_read_ctx root) has_complex_type in
  let ctx := out.1.1.2 in
  out.1.1.1 = Status_OK ∧ out.2 = true
  ∧ all_read_columns ctx = names
  ∧ predicate_columns_first ctx = filter referred names
  ∧ predicate_columns_second ctx
    = omap (λ name, snd <$> predicate_columns !! name) names
  ∧ lazy_read_columns ctx
    = (if decide (predicate_columns = ∅) then []
       else filter (λ name, ¬ referred name) names)
  ∧ out.1.2
    = has_complex_type
      || existsb (λ name, is_complex_type (schema_column_type name)) names
  ∧ can_lazy_read ctx
    = negb out.1.2
      && bool_decide (predicate_columns_first ctx ≠ [])
      && bool_decide (lazy_read_columns ctx ≠ [])
  ∧ predicate_partition_columns ctx
    = filter (λ kv, referred kv.1) partitions
  ∧ partition_columns ctx
    = (if can_lazy_read ctx
       then filter (λ kv, ¬ referred kv.1) partitions else partitions)
  ∧ predicate_missing_columns ctx = filter (λ kv, referred kv.1) missing
  ∧ missing_columns ctx
    = (if can_lazy_read ctx
       then filter (λ kv, ¬ referred kv.1) missing else missing)
  ∧ length (all_predicate_col_ids ctx)
    = (length (predicate_columns_first ctx)
       + size (predicate_partition_columns ctx)
       + size (predicate_missing_columns ctx))%nat.
Proof.
  intros predicate_columns referred names out ctx.
  assert (Hnone : ∀ name : string,
    predicate_columns !! name = None ↔ ¬ referred name).
  { intros name. unfold referred.
    destruct (predicate_columns !! name) as [p|]; split.
    - done.
    - intros Hno. destruct Hno. by eexists.
    - intros _ [? ?]. done.
    - done. }
  assert (Hsome : (0 <? Z.of_nat (size predicate_columns))
                  = bool_decide (predicate_columns ≠ ∅)).
  { destruct (decide (predicate_columns = ∅)) as [Hempty|Hne].
    - rewrite Hempty, map_size_empty. by rewrite bool_decide_eq_false_2 by auto.
    - rewrite bool_decide_eq_true_2 by done. apply Z.ltb_lt.
      assert (size predicate_columns ≠ 0%nat); [|lia].
      by apply map_size_non_empty_iff. }
  revert out ctx. unfold set_fill_columns.
  change (match vconjunct_root (fresh_lazy_read_ctx root) with
          | Some root0 =>
            visit_slot _table_col_to_file_col root0
              (mkVisitState ∅
                 (resize_first_column
                    (fresh_lazy_read_ctx (PartitionValue:=PartitionValue)
                       (MissingValue:=MissingValue) root)))
          | None =>
            mkVisitState ∅
              (resize_first_column
                 (fresh_lazy_read_ctx (PartitionValue:=PartitionValue)
                    (MissingValue:=MissingValue) root))
          end)
    with (match root with
          | Some root0 =>
            visit_slot _table_col_to_file_col root0 (mkVisitState ∅ true)
          | None => mkVisitState ∅ true
          end).
  set (visited := match root with
                  | Some root0 =>
                    visit_slot _table_col_to_file_col root0
                      (mkVisitState ∅ true)
                  | None => mkVisitState ∅ true
                  end).
  assert (Hvisited : visit_predicate_columns visited = predicate_columns).
  { unfold visited, predicate_columns, predicate_columns_of. by destruct root. }
  cbv zeta. rewrite Hvisited.
  match goal with
  | |- context [read_columns_loop _ _ read_columns ?c ?h] =>
    pose proof (read_columns_loop_spec predicate_columns schema_column_type
                  read_columns c h) as Hread;
    destruct (read_columns_loop schema_column_type predicate_columns
                read_columns c h) as [ctx1 complex] eqn:Hrun
  end.
  cbv zeta in Hread. cbn [fst snd] in Hread.
  destruct Hread
    as (Hall & Hlazy & Hfirst & Hsecond & Hids & Hcomplex & Hroot & Hresize
        & Hpart & Hppart & Hmiss & Hpmiss & Hcan).
  unfold fresh_lazy_read_ctx in Hall, Hlazy, Hfirst, Hsecond, Hids, Hpart,
    Hppart, Hmiss, Hpmiss, Hcan.
  cbn [all_read_columns lazy_read_columns predicate_columns_first
       predicate_columns_second all_predicate_col_ids partition_columns
       predicate_partition_columns missing_columns predicate_missing_columns
       can_lazy_read app] in Hall, Hlazy, Hfirst, Hsecond, Hids, Hpart, Hppart,
    Hmiss, Hpmiss, Hcan.
  fold names in Hall, Hlazy, Hfirst, Hsecond, Hids, Hcomplex.
  pose proof (partition_columns_loop_spec predicate_columns
                (map_to_list partitions) ctx1
                (NoDup_fst_map_to_list partitions)) as Hp.
  set (ctx2 := partition_columns_loop predicate_columns
                 (map_to_list partitions) ctx1) in *.
  cbv zeta in Hp.
  destruct Hp
    as (Hpart2 & Hppart2 & Hids2 & Hall2 & Hlazy2 & Hfirst2 & Hsecond2 & _ & _
        & Hmiss2 & Hpmiss2 & Hcan2).
  pose proof (missing_columns_loop_spec predicate_columns
                (map_to_list missing) ctx2
                (NoDup_fst_map_to_list missing)) as Hm.
  set (ctx3 := missing_columns_loop predicate_columns
                 (map_to_list missing) ctx2) in *.
  cbv zeta in Hm.
  destruct Hm
    as (Hmiss3 & Hpmiss3 & Hids3 & Hall3 & Hlazy3 & Hfirst3 & Hsecond3 & _ & _
        & Hpart3 & Hppart3 & Hcan3).
  rewrite list_to_map_to_list in Hpart2. rewrite list_to_map_to_list in Hppart2.
  rewrite list_to_map_to_list in Hmiss3. rewrite list_to_map_to_list in Hpmiss3.
  rewrite Hpart, map_empty_union in Hpart2.
  rewrite Hppart, map_empty_union in Hppart2.
  rewrite Hmiss2, Hmiss, map_empty_union in Hmiss3.
  rewrite Hpmiss2, Hpmiss, map_empty_union in Hpmiss3.
  rewrite Hpart2 in Hpart3. rewrite Hppart2 in Hppart3.
  rewrite Hall2, Hall in Hall3. rewrite Hlazy2, Hlazy in Hlazy3.
  rewrite Hfirst2, Hfirst in Hfirst3. rewrite Hsecond2, Hsecond in Hsecond3.
  rewrite Hids2, Hids in Hids3. rewrite Hcan2, Hcan in Hcan3.
  assert (Hfirst' : predicate_columns_first ctx3 = filter referred names).
  { rewrite Hfirst3, Hsome.
    destruct (decide (predicate_columns = ∅)) as [Hempty|Hne].
    - rewrite bool_decide_eq_false_2 by auto.
      symmetry. clear -Hempty. induction names as [|n l IH]; [done|].
      rewrite filter_cons_False; [done|].
      unfold referred. rewrite Hempty, lookup_empty. by intros [? ?].
    - by rewrite bool_decide_eq_true_2. }
  assert (Hsecond' : predicate_columns_second ctx3
                     = omap (λ name, snd <$> predicate_columns !! name) names).
  { rewrite Hsecond3, Hsome.
    destruct (decide (predicate_columns = ∅)) as [Hempty|Hne].
    - rewrite bool_decide_eq_false_2 by auto.
      symmetry. clear -Hempty. induction names as [|n l IH]; [done|].
      cbn [omap list_omap].
      destruct (predicate_columns !! n) eqn:Hn;
        [by rewrite Hempty, lookup_empty in Hn|].
      cbn [fmap option_fmap option_map]. exact IH.
    - by rewrite bool_decide_eq_true_2. }
  assert (Hlazy' : lazy_read_columns ctx3
                   = if decide (predicate_columns = ∅) then []
                     else filter (λ name, ¬ referred name) names).
  { rewrite Hlazy3, Hsome.
    destruct (decide (predicate_columns = ∅)) as [Hempty|Hne].
    - by rewrite bool_decide_eq_false_2 by auto.
    - rewrite bool_decide_eq_true_2 by done.
      apply list_filter_iff. intros name. apply Hnone. }
  assert (Hids' : length (all_predicate_col_ids ctx3)
                  = (length (filter referred names)
                     + size (filter (λ kv : string * PartitionValue,
                                       referred kv.1) partitions)
                     + size (filter (λ kv : string * MissingValue,
                                       referred kv.1) missing))%nat).
  { rewrite Hids3, !length_app. unfold referred.
    rewrite !(size_filter_predicate predicate_columns).
    f_equal. f_equal. rewrite Hsome.
    destruct (decide (predicate_columns = ∅)) as [Hempty|Hne].
    - rewrite bool_decide_eq_false_2 by auto.
      clear -Hempty. induction names as [|n l IH]; [done|].
      rewrite filter_cons_False; [done|].
      rewrite Hempty, lookup_empty. by intros [? ?].
    - rewrite bool_decide_eq_true_2 by done.
      apply (length_omap_predicate predicate_columns (λ n : string, n) fst). }
  assert (Hplain_part : filter (λ kv : string * PartitionValue,
                                  predicate_columns !! kv.1 = None) partitions
                        = filter (λ kv, ¬ referred kv.1) partitions).
  { apply map_filter_ext. intros k v _. apply Hnone. }
  assert (Hplain_miss : filter (λ kv : string * MissingValue,
                                  predicate_columns !! kv.1 = None) missing
                        = filter (λ kv, ¬ referred kv.1) missing).
  { apply map_filter_ext. intros k v _. apply Hnone. }
  cbn [fst snd].
  cbn [all_read_columns lazy_read_columns predicate_columns_first
       predicate_columns_second all_predicate_col_ids partition_columns
       predicate_partition_columns missing_columns predicate_missing_columns
       can_lazy_read].
  rewrite Hcan3.
  set (lazy := if negb complex
                  && (0 <? Z.of_nat (length (predicate_columns_first ctx3)))
                  && (0 <? Z.of_nat (length (lazy_read_columns ctx3)))
               then true else false).
  assert (Hlazy_eq : lazy
                     = negb complex
                       && bool_decide (predicate_columns_first ctx3 ≠ [])
                       && bool_decide (lazy_read_columns ctx3 ≠ [])).
  { unfold lazy. destruct (negb complex); [|done]. cbn [andb].
    destruct (predicate_columns_first ctx3); [done|].
    destruct (lazy_read_columns ctx3); [done|]. done. }
  split; [done|]. split; [done|]. split; [by rewrite Hall3|].
  split; [done|]. split; [done|]. split; [done|]. split; [by rewrite Hcomplex|].
  split; [done|]. split; [by rewrite Hppart3|].
  split.
  { destruct lazy; cbn [negb].
    - by rewrite Hpart3, Hplain_part.
    - rewrite emplace_all_union, Hpart3, Hppart3.
      apply (filter_predicate_split predicate_columns). }
  split; [done|].
  split.
  { destruct lazy; cbn [negb].
    - by rewrite Hmiss3, Hplain_miss.
    - rewrite emplace_all_union, Hmiss3, Hpmiss3.
      apply (filter_predicate_split predicate_columns). }
  by rewrite Hids', Hfirst', Hppart3, Hpmiss3.
Qed.

End FillColumnsTheorems.

(** * The further properties on concrete inputs *)

Section FurtherWitnesses.

Lemma keyed_by_instance_id_check (mgr : FragmentMgr) :
  forallb (λ it : TUniqueId * FragmentExecState,
             bool_decide (_fragment_instance_id it.2 = it.1))
    (map_to_list (_fragment_map mgr)) = true →
  keyed_by_instance_id mgr.
Proof.
  intros Hall id exec_state Hid. apply elem_of_map_to_list in Hid.
  rewrite forallb_forall in Hall.
  apply list_elem_of_In in Hid. apply Hall in Hid.
  by apply bool_decide_eq_true in Hid.
Qed.

Lemma timeout_sweep_effect_witness :
  let env := sample_exec_env (RpcReturned Status_OK) (RpcReturned Status_OK) in
  _fragment_map (FragmentMgr.cancel_worker_round env 11 (sample_timed_mgr 10)).1
    !! (7, 1)
  = Some (raise_cancelled
            (FragmentExecState.set_timeout_second 10 sample_running))
  ∧ _pipeline_map
      (FragmentMgr.cancel_worker_round env 11 (sample_timed_mgr 10)).1
    = _pipeline_map (sample_timed_mgr 10).
Proof.
  intros env.
  destruct (timeout_sweep_effect env 11 (sample_timed_mgr 10))
    as (Hlookup & _ & Hpipeline & _).
  { apply keyed_by_instance_id_check. by vm_compute. }
  split; [|exact Hpipeline]. rewrite Hlookup. by vm_compute.
Defined.

Lemma exec_plan_fragment_registers_witness :
  let env := sample_exec_env (RpcReturned Status_OK) (RpcReturned Status_OK) in
  let accepted :=
    FragmentMgr.exec_plan_fragment env (sample_params (9, 1) 0) sample_mgr in
  ∃ exec_state ctx,
    _fragment_map accepted.1.2
    = <[(9, 1) := exec_state]> (_fragment_map sample_mgr)
    ∧ _timeout_second exec_state = 300
    ∧ _fragments_ctx_map accepted.1.2 !! (9, 0) = Some ctx
    ∧ fragment_ids ctx = [(9, 1)].
Proof.
  intros env accepted.
  destruct (exec_plan_fragment_registers env (sample_params (9, 1) 0)
              sample_mgr accepted.1.2 accepted.1.1 accepted.2)
    as (exec_state & ctx & Hmap & _ & _ & _ & _ & _ & _ & Htimeout & Hctx & _
        & Hids & _).
  - by vm_compute.
  - reflexivity.
  - subst accepted.
    by destruct (FragmentMgr.exec_plan_fragment _ _ _) as [[st mgr'] evs].
  - by vm_compute.
  - exists exec_state, ctx. split; [exact Hmap|]. split; [exact Htimeout|].
    split; [exact Hctx|]. exact Hids.
Defined.

Lemma exec_plan_fragment_failure_witness :
  let failed :=
    FragmentMgr.exec_plan_fragment sample_full_pool_env
      (sample_params (9, 1) 0) sample_mgr in
  _fragment_map failed.1.2 = _fragment_map sample_mgr
  ∧ (∃ ctx, _fragments_ctx_map failed.1.2 !! (9, 0) = Some ctx
            ∧ (9, 1) ∈ fragment_ids ctx)
  ∧ message failed.1.1
    = "push plan fragment 9-1 to thread pool failed. err = pool is full, BE: be1".
Proof.
  intros failed.
  destruct (exec_plan_fragment_failure sample_full_pool_env
              (sample_params (9, 1) 0) sample_mgr failed.1.2 failed.1.1
              failed.2)
    as (Hmap & _ & _ & Hkept & Hpool).
  - subst failed.
    by destruct (FragmentMgr.exec_plan_fragment _ _ _) as [[st mgr'] evs].
  - by vm_compute.
  - split; [exact Hmap|]. split.
    + apply Hkept. vm_compute. right. left.
    + destruct Hpool as (_ & _ & Hmessage & _).
      * vm_compute. do 3 right. left.
      * exact Hmessage.
Defined.

Lemma exec_actual_completion_witness :
  let env := sample_exec_env (RpcReturned Status_OK) (RpcReturned Status_OK) in
  let evicted := set_fragment_num 1 (sample_ctx (7, 0) [(7, 1)]) in
  let out :=
    _exec_actual env sample_run_env (HeldDetached evicted) sample_running
      sample_mgr in
  _fragments_ctx_map out.1.2 = delete (7, 0) (_fragments_ctx_map sample_mgr)
  ∧ out.1.1.2 = HeldDetached (set_fragment_num 0 evicted)
  ∧ _fragment_map out.1.2 = delete (7, 1) (_fragment_map sample_mgr).
Proof.
  intros env evicted out.
  destruct (exec_actual_completion env sample_run_env (HeldDetached evicted)
              sample_running sample_mgr)
    as (Hfragments & _ & _ & _ & Hdetached & _).
  destruct (Hdetached evicted eq_refl) as (Hctx & Hheld & _).
  split; [exact Hctx|]. split; [exact Hheld | exact Hfragments].
Defined.

Lemma submit_then_finish_round_trip_witness :
  let env := sample_exec_env (RpcReturned Status_OK) (RpcReturned Status_OK) in
  let accepted :=
    FragmentMgr.exec_plan_fragment env (sample_params (9, 1) 0) sample_mgr in
  ∃ exec_state,
    _fragment_map accepted.1.2 !! (9, 1) = Some exec_state
    ∧ (_exec_actual env sample_run_env HeldRegistered exec_state
         accepted.1.2).1.2
      = sample_mgr.
Proof.
  intros env accepted.
  apply (submit_then_finish_round_trip env env sample_run_env
           (sample_params (9, 1) 0) sample_mgr accepted.1.2 accepted.1.1
           accepted.2).
  - by vm_compute.
  - by vm_compute.
  - reflexivity.
  - reflexivity.
  - subst accepted.
    by destruct (FragmentMgr.exec_plan_fragment _ _ _) as [[st mgr'] evs].
  - by vm_compute.
Defined.

Lemma registry_stays_keyed_witness :
  let env := sample_exec_env (RpcReturned Status_OK) (RpcReturned Status_OK) in
  keyed_by_instance_id
    (FragmentMgr.exec_plan_fragment env (sample_params (9, 1) 0) sample_mgr).1.2
  ∧ keyed_by_instance_id
      (FragmentMgr.cancel_query env (7, 0) TIMEOUT "" sample_mgr).1
  ∧ keyed_by_instance_id
      (_exec_actual env sample_run_env HeldRegistered sample_running
         sample_mgr).1.2.
Proof.
  intros env.
  destruct (registry_stays_keyed env sample_pipeline_env sample_run_env 11
              (sample_params (9, 1) 0) sample_pipeline_params (7, 1) (7, 0)
              TIMEOUT "" HeldRegistered sample_running sample_mgr)
    as (Hsubmit & _ & _ & Hcancel & _ & Hfinish).
  { apply keyed_by_instance_id_check. by vm_compute. }
  split; [exact Hsubmit|]. split; [exact Hcancel | exact Hfinish].
Defined.

Lemma misaligned_range_group_exclusive_witness :
  ∃ i r,
    sample_scan_ranges !! i = Some r
    ∧ _is_misaligned_range_group r.1 r.2 (sample_row_group 104 20) = false.
Proof.
  destruct (misaligned_range_group_exclusive (sample_row_group 104 20) 0
              sample_scan_ranges) as (i & r & Hi & Haligned & _).
  - simpl. repeat split; lia.
  - vm_compute. split; [discriminate | reflexivity].
  - by exists i, r.
Defined.

Lemma get_position_delete_ctx_window_witness :
  ∃ start_index end_index : nat,
    _get_position_delete_ctx (mkRowGroup [mkColumnChunk 1 1] 10)
      (mkRowGroupIndex 1 10 20) sample_delete_reader
    = (PositionDelete [3; 12; 15; 27] 10 10 (Z.of_nat start_index)
         (Z.of_nat end_index),
       set_delete_rows_index (Z.of_nat end_index) sample_delete_reader)
    ∧ (end_index <= 4)%nat.
Proof.
  destruct (get_position_delete_ctx_window (mkRowGroup [mkColumnChunk 1 1] 10)
              (mkRowGroupIndex 1 10 20) sample_delete_reader [3; 12; 15; 27])
    as (start_index & end_index & Hctx & _ & Hend & _).
  - reflexivity.
  - repeat (constructor; try lia).
  - simpl. lia.
  - simpl. lia.
  - by exists start_index, end_index.
Defined.

Lemma split_single_char_values_witness :
  let values :=
    CsvSplit._split_line_for_single_char_delimiter sample_stray sample_csv_line
      (plain_text_params (list_ascii_of_string ",")) FORMAT_CSV_PLAIN [] in
  length values = 4%nat
  ∧ join_values (list_ascii_of_string ",")
      (CsvSplit.slice_text sample_csv_line <$> values)
    = sample_csv_line.
Proof.
  intros values.
  destruct (split_single_char_values sample_stray sample_csv_line
              (plain_text_params (list_ascii_of_string ",")) FORMAT_CSV_PLAIN
              []) as [Hlen Hplain]; [done|].
  destruct Hplain as (_ & _ & Hjoin); [reflexivity | reflexivity | by vm_compute|].
  split; [exact Hlen | exact Hjoin].
Defined.

Lemma split_line_round_trip_witness :
  ∃ values,
    CsvSplit._split_line sample_stray sample_csv_wide_line
      (plain_text_params (list_ascii_of_string "||")) FORMAT_CSV_PLAIN []
    = Some values
    ∧ join_values (list_ascii_of_string "||")
        (CsvSplit.slice_text sample_csv_wide_line <$> values)
      = sample_csv_wide_line.
Proof.
  destruct (split_line_round_trip sample_stray sample_csv_wide_line
              (plain_text_params (list_ascii_of_string "||")) FORMAT_CSV_PLAIN
              []) as (values & Hrun & _ & Hplain); [done|].
  destruct Hplain as [_ Hjoin];
    [reflexivity | reflexivity | by vm_compute | done |].
  by exists values.
Defined.

Lemma split_single_char_stays_in_line_witness :
  Forall (CsvSplit.in_line sample_csv_line)
    (CsvSplit._split_line_for_single_char_delimiter sample_stray
       sample_csv_line
       (mkCsvTextParams (list_ascii_of_string ",") true true)
       FORMAT_CSV_PLAIN []).
Proof.
  destruct (split_single_char_stays_in_line sample_stray sample_stray
              sample_csv_line
              (mkCsvTextParams (list_ascii_of_string ",") true true)
              FORMAT_CSV_PLAIN []) as [Hin _]; [done | by vm_compute |].
  exact Hin.
Defined.

Lemma split_line_byte_before_line_witness :
  ∃ values,
    CsvSplit._split_line sample_stray sample_csv_wide_line
      (mkCsvTextParams (list_ascii_of_string "||") true true)
      FORMAT_CSV_PLAIN []
    = Some values
    ∧ Forall (CsvSplit.in_line sample_csv_wide_line) values.
Proof.
  destruct (split_line_byte_before_line sample_stray sample_csv_wide_line
              (mkCsvTextParams (list_ascii_of_string "||") true true)
              FORMAT_CSV_PLAIN []) as (values & Hrun & Hsafe & _);
    [done | by vm_compute |].
  exists values. split; [exact Hrun|]. apply Hsafe. by vm_compute.
Defined.

Lemma error_log_reported_once_witness :
  let calls :=
    [CallLogError "a"; CallGetUnreportedErrors; CallLogError "b"] in
  let out :=
    run_error_log_calls calls [] []
      (RuntimeState.init 4096 LOAD 1 0 false false (sample_load_state false)).2
  in
  out.1.1 = ["a"%string]
  ∧ out.1.2 ++ (RuntimeState.get_unreported_errors [] out.2).1
    = ["a"%string].
Proof.
  intros calls out.
  destruct (error_log_reported_once 4096 LOAD 1 0 false false calls
              (sample_load_state false)) as (Haccepted & _ & Hreported & _);
    [reflexivity | reflexivity | by vm_compute |].
  split; [exact Haccepted|]. fold out in Hreported. rewrite Hreported.
  exact Haccepted.
Defined.

Lemma append_error_rows_written_witness :
  _error_log_file
    (append_error_rows sample_load_env
       [mkErrorRow "1,x" "bad number"; mkErrorRow "2,y" "bad number"] false
       (sample_load_state true)).2
  = Some (mkErrorLogFile true
            [RuntimeState.reason_text "1,x" "bad number";
             RuntimeState.reason_text "2,y" "bad number"]).
Proof.
  destruct (append_error_rows_written sample_load_env
              [mkErrorRow "1,x" "bad number"; mkErrorRow "2,y" "bad number"]
              false (sample_load_state true) []) as (Hfile & _ & _);
    [reflexivity | reflexivity | by vm_compute | by vm_compute
    | by vm_compute |].
  exact Hfile.
Defined.

Lemma fill_dest_columns_row_witness :
  ∃ cells,
    block_rows
      (CsvRows._fill_dest_columns sample_read_env (sample_answer "a,b")
         (sample_csv_scan false 0) 0).1.2
    = [mkWrittenRow (list_ascii_of_string "a,b") cells]
    ∧ length cells = 2%nat.
Proof.
  destruct (fill_dest_columns_row sample_read_env (sample_answer "a,b")
              (sample_csv_scan false 0) 0)
    as (cells & Hblock & _ & Hcells & _);
    [by vm_compute | by vm_compute | by vm_compute |].
  exists cells. split; [exact Hblock | exact Hcells].
Defined.

Lemma filtered_line_overwrites_eof_witness :
  let out :=
    CsvRows._fill_dest_columns sample_read_env
      (mkLineAnswer Status_OK (list_ascii_of_string "a,b,c") sample_stray true
         [])
      (sample_csv_scan true 0) 0 in
  _line_reader_eof (csv out.1.2) = false ∧ out.2 = 0.
Proof.
  intros out.
  destruct (filtered_line_overwrites_eof sample_read_env
              (mkLineAnswer Status_OK (list_ascii_of_string "a,b,c")
                 sample_stray true [])
              (sample_csv_scan true 0) 0) as (Hflag & Hrows & _);
    [by vm_compute | by vm_compute |].
  split; [exact Hflag | exact Hrows].
Defined.

End FurtherWitnesses.
